(* ===== verification/_CoqProject ===== *)
-Q . S2P
Prelude.v
Outcomes.v
Mylib.v
Io.v
Cond.v
Vector.v
Mix.v
HashFunc.v
Hash.v
Sharing.v
Heap.v
Command.v
CText.v
Log.v
Signals.v
Names.v
Table.v
Schemas.v
Races.v
Server.v
EngineCtx.v
Keys.v
SqlGen.v
MysqlCmd.v
Ddl.v
Safety.v
Engine.v
Turns.v
Threads.v
Ending.v
System.v
Progress.v
Verify.v
ParserXml.v
ParserTxt.v
Config.v
Generated.v
Program.v
Whole.v
Textual.v
Tests.v
