(* ===== verification/Prelude.v ===== *)
(** * A verification of checkQ

    checkQ writes random rows to a MySQL master and checks that its slaves hold
    the same rows.  [main] reads options and a configuration (servers, tables,
    lists of commands), then starts threads that each draw a command list, a
    server and a table at random, send the generated statements, compare the
    answers to a [select] and count what they did.  This development models the
    program's own C code, under src/src/, as executable functions, and proves
    what it does on every branch, faults included.

    ** How C is modelled

    This file holds the common ground.  An execution ends with a value or a
    [stop]: [abort], [exit], a lock that is never granted, a loop without end,
    or undefined behaviour ([fault]).  A computation that changes state is in
    [M S A], a function from a state to a result and the state it leaves; the
    state of a part is lifted into that of a whole with [zoom].  Machine
    integers are [Z] with their wrap-around or overflow written out ([u64],
    [i32]); an array is a [buffer] of cells that may be unset, and dangles after
    it was freed or moved; shared objects live in heaps ([Heap]) that fault on
    [NULL] and on addresses not allocated.  A C string is its bytes without the
    final NUL ([CText]).

    A loop is a step function run for a bounded number of turns.  The bound of
    [mloop] and [loop] is [P64], 2 ^ 64, more than any of the counters and
    array lengths can reach; each loop has a theorem that it ends before (or, for
    the search in a hash table, exactly when).  The levels that a hash search can
    take are periodic, so that 2 ^ 64 turns without an answer mean that there is
    none.

    ** The parts, and what is proved of them

    - [Outcomes]: [runs], "returns with this or stops as expected", and [keeps],
      "leaves this part of the state alone", with their rules.
    - [Mylib] (mylib/mylib.c, mylib/my_mutex.h): the allocator, reader/writer locks.
    - [Io] (mylib/mylib.c): [my_read] and [my_write] over any answers of the system.
    - [Cond] (mylib/my_mutex.c): condition variables, their threads interleaved; no
      signal is taken twice by [my_cond_wait], none gets lost.
    - [Log] (mylib/log.c), [Signals] (mylib/sig_hdl.c, mylib/sigsegv.c): a line of
      the log, byte by byte; what the program does on a signal.
    - [Vector] (mylib/vector.c): the ring buffer.  Every sequence of operations is
      simulated by a double-ended queue ([vector_refines_deque]); growth, release
      and reset are described exactly, with their two defects.
    - [Mix] (mylib/frandom.c): the mixing function is a bijection; the generated
      strings have the length and the characters asked for.
    - [HashFunc], [Hash] (mylib/hash.c): the hash of a key depends on its bytes
      only; [find_first_prime] finds the least prime; every sequence of add, get
      and remove is simulated by a finite map ([hash_refines_map]); a search ends
      exactly when some probed slot is empty or holds the key.
    - [Sharing] (mylib/hash.c, mylib/my_mutex.h): objects behind a reader/writer
      lock.  Each operation is cut in pieces, and those of any number of threads
      interleave: what the operations return is what they return one after the
      other, in the order of the unlocks ([hash_linearizable]).  The rules are
      proved for the class [Guarded] of such objects; [hash_guarded] is the hash
      table, where each level of a search is a piece.
    - [Command] (command/cq_command.c): the doubly linked command lists, on a heap;
      every operation does there what it does on a pool of lists.
    - [Names], [Table] (table/cq_table.c): columns, schemas, tables and their set.
    - [Schemas]: every sequence of operations on tables keeps them well formed.
    - [Races]: the functions that change a schema take no lock.  Their pieces are
      interleaved with the generators that read it: while columns are only added
      a reader sees a whole schema ([additions_are_seen_whole]); a drop can make it
      run into a column that has been released ([a_drop_ends_a_reader]).
    - [Server] (server/cq_server.c): servers and clusters.
    - [EngineCtx] (engine/cq_engine.h, engine/cq_stats.c): a thread's context.
    - [Keys] (engine/cq_engine.c): the blocks of keys that nothing uses.
    - [SqlGen] (cq_mysql/cq_sql_gen.c): the statement generators, byte by byte into
      the buffer, and the texts they write.
    - [MysqlCmd] (cq_mysql/cq_mysql_cmd.c): the commands; when the check of a
      [select] reports an inconsistency, and what is counted.
    - [Ddl]: what [create table] and the two [alter table] commands do to the
      statement, the columns and the servers.
    - [Safety]: what the commands rely on of the tables and of a context, and that
      every command keeps it: it returns, or stops as [expected].
    - [Engine] (engine/cq_engine.c): one turn of the loop of each kind of thread,
      and that walking a command list runs its commands in order.
    - [Turns]: the same as [Safety] for the parts of a turn, from the context's
      start to its end ([data_ok], [thread_ok], [configured]).
    - [Threads] (engine/cq_engine.c): the threads, interleaved step by step; what
      holds in every interleaving.  Steps are sequentially consistent, and a thread
      may pause anywhere; [sleep] may be cut short only in the time thread.  The
      statements [total_request += n] and [g_stat.n = ...] are not atomic.  The
      report of the statistics fits in its buffer ([stat_log_fits]).
    - [Ending]: from every state the threads can still come to their end, exactly
      if there is a table or the table thread can still make one
      ([can_be_joined]); otherwise [start_engine] never returns.
    - [System] (engine/cq_engine.c): [Engine] and [Threads] together, the whole
      program between [start_engine] and the joins.  Every run of it is seen as
      a run of [Threads] ([system_refines_threads]).  The engine threads are
      interleaved at every command, as they are at the additions to the total; a
      turn of the table thread or of the alter thread is one step, and so is one
      command: the runs of [System] are those in which no other thread interrupts
      these ([uninterrupted_run]).  From a proper configuration no such run comes
      to a fault of its own ([system_safe]), and the theorem shows with it where
      that ends: from each of these states a drop that could interrupt a generator
      would release a column that is read afterwards ([drop_overtakes_reader]).
      The races within a command are not [System]'s: those of the counters are in
      [Threads] ([race_step]), those of the schemas in [Races]; that the operations
      of a shared hash table may be taken for one step is [Sharing]'s theorem.
    - [Progress]: once the time thread has rung and there is a table, the threads
      of [System] can make no more than [most_steps] steps, a number that the
      command lists give ([system_winds_down]); and from every state with a table
      they can all come to their end ([system_can_end]).
    - [Verify] (parser/verify.c): the checks of addresses, ports and rates.
    - [ParserXml], [ParserTxt] (parser/parser.c, parser/file_operation.c): the two
      kinds of configuration, the generated and shuffled commands.
    - [Program] (mylib/options_impl.h, engine/checkQ.c): what the options can be,
      start and end.  [main] runs [System] on what the configuration has filled;
      what it reports at its end is what its threads have counted
      ([main_reports]).
    - [Config]: [proper] decides whether an XML document is one the program can
      work with; from such a document the parser makes what it describes
      ([parser_read_xml_sets_up]), which is what [System] relies on.
    - [Generated]: what a text configuration's window and rates make of the bucket:
      so many lists, each a shuffle of the commands that the rates stand for
      ([ParserTxt.in_proportion]), and which fault it is when there is one column or
      the commands do not fill the columns ([parser_gen_cmd_bucket_fills]).
    - [Whole]: with a proper configuration no run of [main], from the options to
      the release of everything, comes to a fault of its own, when [System]'s
      commands and turns are not interrupted ([main_safe]).
    - [Textual]: with a text configuration no table is ever made, whatever the
      interleaving, and no run of [main] reports ([text_configuration_never_works]).
    - [Tests] (mylib/t/hash_test.c, mylib/t/vector_test.c): the repository's tests of
      the hash table and the vector, run on the models of [Hash] and [Vector].

    [Vector] and [Hash] are used by the parts above them through their
    specifications only; [Command], [Table] and [Server] keep their invariants
    ([crep], [trep], the two tables of a cluster) which [Engine] and the parsers
    build on.  [Safety], [Turns] and [System] assume memory for blocks of up to
    1024 bytes; when a larger one, a context or an array, is refused the program
    aborts.

    ** Parameters

    Code outside of src/src/ is an argument, mostly of a class: [Allocator] (which
    requests [malloc] grants and whether [realloc] moves a block), [RandSource]
    and [RandSeed] ([rand] and [srand]), [Clock], [MysqlClient] (the client
    library), [Regex] ([regcomp] and [regexec]), [file_system], and the tree of an
    XML document.  Their few laws are documented behaviour: a bound on the size of
    an object, on a random number, on a time, and for [system_safe] that the
    result of a query has the columns it names ([SelectShape]).

    ** Not modelled

    The messages of the log are not part of the results of the functions that
    print them, except the statistics' lines and the report of an inconsistency;
    nor is the stack that [signal_segv] prints.  The [_execute] macros of
    mylib/my_mutex.h are not used by the program, and [pre_data_t]
    (engine/cq_engine.h) is a type without functions.  [help_info] only prints.  A table that is destroyed is a value here
    and leaves nothing behind.  The libraries under src/lib (libxml2, libmysql) are
    third-party code: they make up most of the repository's lines, and the program
    only calls them.  The other unit tests print, or need a running server. *)

From stdpp Require Import base gmap sets list strings relations.
From Stdlib Require Import ZArith Lia.

#[global] Set Default Proof Using "Type".
Local Open Scope Z_scope.

(** ** How a C execution can end *)

(** The faults a model can run into; a model never continues after one. *)
Inductive fault :=
  | NullDeref
  | OutOfBounds
  | UseAfterFree
  | Uninitialized
  | DivByZero
  | SignedOverflow
  | BadConversion
  | BadLock.

(** Why an execution stopped without returning: [abort()], [exit(code)], a
    fault, a lock that will never be granted, or a loop that never ends. *)
Inductive stop :=
  | Aborted
  | Exited (code : Z)
  | Undefined (f : fault)
  | Blocked
  | Diverges.

Inductive res (A : Type) :=
  | Ok (a : A)
  | Stop (w : stop).
Arguments Ok {A} a.
Arguments Stop {A} w.

#[export] Instance fault_eq_dec : EqDecision fault.
Proof. solve_decision. Defined.
#[export] Instance stop_eq_dec : EqDecision stop.
Proof. solve_decision. Defined.
#[export] Instance res_eq_dec `{EqDecision A} : EqDecision (res A).
Proof. solve_decision. Defined.

#[export] Instance res_mret : MRet res := λ A a, Ok a.
#[export] Instance res_mbind : MBind res := λ A B f m,
  match m with Ok a => f a | Stop w => Stop w end.

(** ** The state monad of the program: a state is kept even when execution stops *)

Definition M (S A : Type) : Type := S → res A * S.

#[export] Instance M_mret {S} : MRet (M S) := λ A a s, (Ok a, s).
#[export] Instance M_mbind {S} : MBind (M S) := λ A B f m s,
  match m s with
  | (Ok a, s') => f a s'
  | (Stop w, s') => (Stop w, s')
  end.

Section monad.
Context {S : Type}.

Definition mstop {A} (w : stop) : M S A := λ s, (Stop w, s).
Definition mget : M S S := λ s, (Ok s, s).
Definition mput (s : S) : M S unit := λ _, (Ok tt, s).
Definition mgets {A} (f : S → A) : M S A := λ s, (Ok (f s), s).
Definition mmodify (f : S → S) : M S unit := λ s, (Ok tt, f s).
Definition mlift {A} (r : res A) : M S A := λ s, (r, s).

Definition my_assert (b : bool) : M S unit :=
  if b then mret tt else mstop Aborted.

(** Run a computation on a part of the state. *)
Definition zoom {T A} (get : S → T) (set : T → S → S) (m : M T A) : M S A :=
  λ s, let '(r, t) := m (get s) in (r, set t s).
End monad.

Definition on_fst {S1 S2 A} : M S1 A → M (S1 * S2) A := zoom fst (λ s1 s, (s1, s.2)).
Definition on_snd {S1 S2 A} : M S2 A → M (S1 * S2) A := zoom snd (λ s2 s, (s.1, s2)).

(** A computation that only reads and writes what it allocates. *)
Definition pure_state {S A} (m : M () A) : M S A := zoom (λ _, ()) (λ _ s, s) m.

Lemma bind_ok {S A B} (m : M S A) (f : A → M S B) s a s' :
  m s = (Ok a, s') → (m ≫= f) s = f a s'.
Proof. intros H. unfold mbind, M_mbind. by rewrite H. Qed.

Lemma bind_stop {S A B} (m : M S A) (f : A → M S B) s w s' :
  m s = (Stop w, s') → (m ≫= f) s = (Stop w, s').
Proof. intros H. unfold mbind, M_mbind. by rewrite H. Qed.

Lemma bind_ext {S A B} (m : M S A) (f g : A → M S B) s :
  (∀ a s', m s = (Ok a, s') → f a s' = g a s') → (m ≫= f) s = (m ≫= g) s.
Proof. intros Hfg. unfold mbind, M_mbind. destruct (m s) as [[a|w] s'] eqn:Hm; auto. Qed.

Lemma bind_assoc {S A B C} (m : M S A) (f : A → M S B) (g : B → M S C) s :
  ((m ≫= f) ≫= g) s = (m ≫= λ a, f a ≫= g) s.
Proof. unfold mbind, M_mbind. by destruct (m s) as [[a|w] s']. Qed.

Lemma zoom_ok {S T A} (get : S → T) set (m : M T A) s a t :
  m (get s) = (Ok a, t) → zoom get set m s = (Ok a, set t s).
Proof. intros Hm. unfold zoom. by rewrite Hm. Qed.

Lemma pure_state_ok {S A} (m : M () A) (s : S) a :
  m () = (Ok a, ()) → pure_state m s = (Ok a, s).
Proof. intros Hm. unfold pure_state. by erewrite zoom_ok by exact Hm. Qed.

Lemma on_fst_ok {S1 S2 A} (m : M S1 A) (s1 : S1) (s2 : S2) a s1' :
  m s1 = (Ok a, s1') → on_fst m (s1, s2) = (Ok a, (s1', s2)).
Proof. intros Hm. unfold on_fst. by erewrite zoom_ok by exact Hm. Qed.
Lemma on_fst_bind {S1 S2 A B} (m : M S1 A) (f : A → M S1 B) (s : S1 * S2) :
  on_fst (m ≫= f) s = (on_fst m ≫= λ a, on_fst (f a)) s.
Proof. unfold on_fst, zoom, mbind, M_mbind. cbn. by destruct (m s.1) as [[a|w] s']. Qed.
Lemma on_snd_ok {S1 S2 A} (m : M S2 A) (s1 : S1) (s2 : S2) a s2' :
  m s2 = (Ok a, s2') → on_snd m (s1, s2) = (Ok a, (s1, s2')).
Proof. intros Hm. unfold on_snd. by erewrite zoom_ok by exact Hm. Qed.

(** ** Loops

    A C loop is a step function to [inl] (go on) or [inr] (leave), run for a
    binary number of iterations, so that the bound can be the period of a
    64-bit counter. *)

Section loop.
Context {S R : Type} (step : S → S + R).

Fixpoint loop (p : positive) (s : S) : S + R :=
  match p with
  | xH => step s
  | xO p => match loop p s with inl s' => loop p s' | inr r => inr r end
  | xI p => match step s with
            | inl s' => match loop p s' with
                        | inl s'' => loop p s''
                        | inr r => inr r
                        end
            | inr r => inr r
            end
  end.

(** The same with a unary count, for reasoning. *)
Fixpoint run (n : nat) (s : S) : S + R :=
  match n with
  | O => inl s
  | Datatypes.S n => match step s with inl s' => run n s' | inr r => inr r end
  end.

Lemma run_add n m s :
  run (n + m) s = match run n s with inl s' => run m s' | inr r => inr r end.
Proof.
  revert s. induction n as [|n IH]; intros s; simpl; [done|].
  destruct (step s); [apply IH | done].
Qed.

Lemma loop_run p s : loop p s = run (Pos.to_nat p) s.
Proof.
  revert s. induction p as [p IH|p IH|]; intros s.
  - rewrite Pos2Nat.inj_xI. cbn [loop run]. destruct (step s) as [s'|r]; [|done].
    replace (2 * Pos.to_nat p)%nat with (Pos.to_nat p + Pos.to_nat p)%nat by lia.
    rewrite run_add, IH. by destruct (run (Pos.to_nat p) s').
  - rewrite Pos2Nat.inj_xO. cbn [loop].
    replace (2 * Pos.to_nat p)%nat with (Pos.to_nat p + Pos.to_nat p)%nat by lia.
    rewrite run_add, IH. by destruct (run (Pos.to_nat p) s).
  - change (step s = match step s with inl s' => inl s' | inr r => inr r end).
    by destruct (step s).
Qed.

Lemma run_le n m s r : run n s = inr r → (n ≤ m)%nat → run m s = inr r.
Proof.
  intros H Hle. replace m with (n + (m - n))%nat by lia.
  by rewrite run_add, H.
Qed.

Lemma loop_of_run n p s r :
  run n s = inr r → (n ≤ Pos.to_nat p)%nat → loop p s = inr r.
Proof. intros H Hle. rewrite loop_run. by eapply run_le. Qed.

(** Total correctness: an invariant, a decreasing measure, a postcondition. *)
Lemma loop_total (I : S → Prop) (μ : S → nat) (Q : R → Prop) p s :
  (∀ s, I s → match step s with inl s' => I s' ∧ (μ s' < μ s)%nat | inr r => Q r end) →
  I s → (μ s < Pos.to_nat p)%nat →
  ∃ r, loop p s = inr r ∧ Q r.
Proof.
  intros Hstep HI Hμ. rewrite loop_run.
  revert s HI Hμ. induction (Pos.to_nat p) as [|n IH]; intros s HI Hμ; [lia|].
  simpl. specialize (Hstep s HI). destruct (step s) as [s'|r]; [|by eauto].
  destruct Hstep as [HI' Hlt]. apply IH; [done|lia].
Qed.
End loop.

(** Two loops in lock step. *)
Lemma loop_rel {S1 S2 R1 R2} (f : S1 → S1 + R1) (g : S2 → S2 + R2)
    (RS : S1 → S2 → Prop) (RR : R1 → R2 → Prop) p s1 s2 :
  (∀ s1 s2, RS s1 s2 →
     match f s1, g s2 with
     | inl s1', inl s2' => RS s1' s2'
     | inr r1, inr r2 => RR r1 r2
     | _, _ => False
     end) →
  RS s1 s2 →
  match loop f p s1, loop g p s2 with
  | inl s1', inl s2' => RS s1' s2'
  | inr r1, inr r2 => RR r1 r2
  | _, _ => False
  end.
Proof.
  intros Hstep. rewrite !loop_run. revert s1 s2.
  induction (Pos.to_nat p) as [|n IH]; intros s1 s2 HR; [done|]. cbn [run].
  specialize (Hstep s1 s2 HR). destruct (f s1), (g s2); try done. by apply IH.
Qed.

(** The period of a 64-bit counter: the bound of a loop that only leaves by a test. *)
Definition P64 : positive := 2 ^ 64.

Lemma P64_ge n : Z.of_nat n ≤ 2 ^ 64 → (n ≤ Pos.to_nat P64)%nat.
Proof. unfold P64. lia. Qed.

(** A loop whose body has effects; it [Diverges] when the bound runs out. *)
Definition mloop {S A R} (p : positive) (body : A → M S (A + R)) (a : A) : M S R :=
  λ s,
    match loop (λ '(a, s), match body a s with
                           | (Ok (inl a'), s') => inl (a', s')
                           | (Ok (inr r), s') => inr (Ok r, s')
                           | (Stop w, s') => inr (Stop w, s')
                           end) p (a, s) with
    | inl (_, s') => (Stop Diverges, s')
    | inr r => r
    end.

(** An invariant indexed by a bound on the iterations that are left. *)
Lemma mloop_indexed {S A R} (body : A → M S (A + R)) (I : nat → A → S → Prop)
    (Q : R → S → Prop) p n a s :
  (∀ n a s, I n a s → ∃ x s', body a s = (Ok x, s') ∧
     match x with inl a' => ∃ n', (n' < n)%nat ∧ I n' a' s' | inr r => Q r s' end) →
  I n a s → (n < Pos.to_nat p)%nat →
  ∃ r s', mloop p body a s = (Ok r, s') ∧ Q r s'.
Proof.
  intros Hbody HI Hn. unfold mloop.
  set (step := λ '(a, s), _). rewrite loop_run.
  enough (∃ r s', run step (Pos.to_nat p) (a, s) = inr (Ok r, s') ∧ Q r s')
    as (r & s' & -> & HQ) by (by exists r, s').
  revert n a s HI Hn. induction (Pos.to_nat p) as [|k IH]; intros n a s HI Hn; [lia|].
  destruct (Hbody n a s HI) as ([a2|r] & s2 & Hb & H2); cbn [run]; subst step; cbn beta iota;
    rewrite Hb.
  - destruct H2 as (n' & Hlt & HI'). apply (IH n' a2 s2 HI'). lia.
  - by exists r, s2.
Qed.

Lemma mloop_total {S A R} (body : A → M S (A + R)) (I : A → S → Prop) (μ : A → nat)
    (Q : R → S → Prop) p a s :
  (∀ a s, I a s → ∃ x s', body a s = (Ok x, s') ∧
     match x with inl a' => I a' s' ∧ (μ a' < μ a)%nat | inr r => Q r s' end) →
  I a s → (μ a < Pos.to_nat p)%nat →
  ∃ r s', mloop p body a s = (Ok r, s') ∧ Q r s'.
Proof.
  intros Hbody HI Hμ.
  apply (mloop_indexed body (λ n a s, I a s ∧ μ a = n) Q p (μ a)); [|done..].
  intros n a1 s1 [H1 <-]. destruct (Hbody a1 s1 H1) as ([a2|r] & s2 & Hb & H2).
  - exists (inl a2), s2. split; [done|]. exists (μ a2). by destruct H2.
  - by exists (inr r), s2.
Qed.

(** [for (i = 0; i < n; i++) acc = body(i, acc)], stopping at the first fault. *)
Fixpoint for_from {A} (n : nat) (i : Z) (body : Z → A → res A) (acc : A) : res A :=
  match n with
  | O => Ok acc
  | Datatypes.S n => match body i acc with
                     | Ok acc' => for_from n (i + 1) body acc'
                     | Stop w => Stop w
                     end
  end.
Definition for_upto {A} (n : Z) (body : Z → A → res A) (acc : A) : res A :=
  for_from (Z.to_nat n) 0 body acc.

(** The same with effects: [for (i = 0; i < n; i++) body(i)]. *)
Fixpoint mfor_from {S} (n : nat) (i : Z) (body : Z → M S ()) : M S () :=
  match n with
  | O => mret ()
  | Datatypes.S n => body i;; mfor_from n (i + 1) body
  end.
Definition mfor {S} (n : Z) (body : Z → M S ()) : M S () := mfor_from (Z.to_nat n) 0 body.

(** A [for] loop over the indices of a list keeps an invariant, or stops in a
    way that one of its turns does. *)
Lemma for_upto_ends {A B} (l : list B) (body : Z → A → res A) (I : nat → A → Prop)
    (D : stop → Prop) acc :
  (∀ i x acc, l !! i = Some x → I i acc →
     (∃ acc', body (Z.of_nat i) acc = Ok acc' ∧ I (Datatypes.S i) acc') ∨
     (∃ w, body (Z.of_nat i) acc = Stop w ∧ D w)) →
  I 0%nat acc →
  (∃ acc', for_upto (Z.of_nat (length l)) body acc = Ok acc' ∧ I (length l) acc') ∨
  (∃ w, for_upto (Z.of_nat (length l)) body acc = Stop w ∧ D w).
Proof.
  intros Hb H0. unfold for_upto. rewrite Nat2Z.id.
  assert (∀ n k acc, (n + k = length l)%nat → I k acc →
    (∃ acc', for_from n (Z.of_nat k) body acc = Ok acc' ∧ I (length l) acc') ∨
    (∃ w, for_from n (Z.of_nat k) body acc = Stop w ∧ D w)) as Hgen.
  { induction n as [|n IH]; intros k a Hn Ha.
    - left. exists a. cbn. split; [done|]. by replace (length l) with k by lia.
    - destruct (l !! k) as [x|] eqn:Hx; [|apply lookup_ge_None in Hx; lia].
      cbn [for_from]. destruct (Hb k x a Hx Ha) as [(a' & -> & Ha')|(w & -> & Hw)].
      + replace (Z.of_nat k + 1) with (Z.of_nat (Datatypes.S k)) by lia.
        apply IH; [lia|done].
      + right. by exists w. }
  apply (Hgen (length l) 0%nat acc); [lia|done].
Qed.

Lemma for_upto_inv {A B} (l : list B) (body : Z → A → res A) (I : nat → A → Prop) acc :
  (∀ i x acc, l !! i = Some x → I i acc →
     ∃ acc', body (Z.of_nat i) acc = Ok acc' ∧ I (Datatypes.S i) acc') →
  I 0%nat acc →
  ∃ acc', for_upto (Z.of_nat (length l)) body acc = Ok acc' ∧ I (length l) acc'.
Proof.
  intros Hb H0.
  destruct (for_upto_ends l body I (λ _, False) acc) as [Hr|(w & _ & [])]; [|done..].
  intros i x a Hx Ha. left. by eapply Hb.
Qed.

Lemma mfor_inv {S B} (l : list B) (body : Z → M S ()) (I : nat → S → Prop) s :
  (∀ i x s, l !! i = Some x → I i s →
     ∃ s', body (Z.of_nat i) s = (Ok (), s') ∧ I (Datatypes.S i) s') →
  I 0%nat s →
  ∃ s', mfor (Z.of_nat (length l)) body s = (Ok (), s') ∧ I (length l) s'.
Proof.
  intros Hb H0. unfold mfor. rewrite Nat2Z.id.
  assert (∀ n k s, (n + k = length l)%nat → I k s →
    ∃ s', mfor_from n (Z.of_nat k) body s = (Ok (), s') ∧ I (length l) s') as Hgen.
  { induction n as [|n IH]; intros k a Hn Ha.
    - exists a. split; [done|]. by replace (length l) with k by lia.
    - destruct (l !! k) as [x|] eqn:Hx; [|apply lookup_ge_None in Hx; lia].
      destruct (Hb k x a Hx Ha) as (a' & Heq & Ha').
      cbn [mfor_from]. erewrite bind_ok by exact Heq.
      replace (Z.of_nat k + 1) with (Z.of_nat (Datatypes.S k)) by lia.
      apply IH; [lia|done]. }
  apply (Hgen (length l) 0%nat s); [lia|done].
Qed.

(** ** Machine integers *)

Definition u64 (z : Z) : Z := z mod 2 ^ 64.
Definition i32 (z : Z) : Z := (z + 2 ^ 31) mod 2 ^ 32 - 2 ^ 31.
Definition INT_MAX : Z := 2147483647.
Definition PTRDIFF_MAX : Z := 2 ^ 63 - 1.

Lemma u64_range z : 0 ≤ u64 z < 2 ^ 64.
Proof. apply Z.mod_pos_bound. lia. Qed.
Lemma u64_small z : 0 ≤ z < 2 ^ 64 → u64 z = z.
Proof. apply Z.mod_small. Qed.
Lemma i32_small z : - 2 ^ 31 ≤ z < 2 ^ 31 → i32 z = z.
Proof. intros H. unfold i32. rewrite Z.mod_small; lia. Qed.
Lemma i32_range z : - 2 ^ 31 ≤ i32 z < 2 ^ 31.
Proof. unfold i32. pose proof (Z.mod_pos_bound (z + 2 ^ 31) (2 ^ 32)). lia. Qed.
Lemma u64_add_l a b : u64 (u64 a + b) = u64 (a + b).
Proof. unfold u64. by rewrite Zplus_mod_idemp_l. Qed.
Lemma u64_add_r a b : u64 (a + u64 b) = u64 (a + b).
Proof. unfold u64. by rewrite Zplus_mod_idemp_r. Qed.
Lemma u64_sub_l a b : u64 (u64 a - b) = u64 (a - b).
Proof. unfold u64. by rewrite Zminus_mod_idemp_l. Qed.
Lemma u64_idemp a : u64 (u64 a) = u64 a.
Proof. unfold u64. by rewrite Z.mod_mod. Qed.

(** ** [ret_t] of return.h *)

Inductive ret_t := RET_SUCCEED | RET_FAILED.
#[export] Instance ret_t_eq_dec : EqDecision ret_t.
Proof. solve_decision. Defined.

(** ** Arrays obtained from [malloc]

    [None] is a cell that was never written; a [Dangling] buffer is a pointer
    to storage that has been released. *)

Inductive buffer (A : Type) :=
  | Live (cells : list (option A))
  | Dangling.
Arguments Live {A} cells.
Arguments Dangling {A}.

#[export] Instance buffer_eq_dec `{EqDecision A} : EqDecision (buffer A).
Proof. solve_decision. Defined.

Section buffer.
Context {A : Type}.
Implicit Types (b : buffer A) (cells : list (option A)) (i : Z).

Definition fresh_buffer (n : Z) : buffer A := Live (replicate (Z.to_nat n) None).

Definition arr_read b i : res A :=
  match b with
  | Dangling => Stop (Undefined UseAfterFree)
  | Live cells =>
      if i <? 0 then Stop (Undefined OutOfBounds)
      else match cells !! Z.to_nat i with
           | None => Stop (Undefined OutOfBounds)
           | Some None => Stop (Undefined Uninitialized)
           | Some (Some a) => Ok a
           end
  end.

Definition arr_write b i (a : A) : res (buffer A) :=
  match b with
  | Dangling => Stop (Undefined UseAfterFree)
  | Live cells =>
      if (i <? 0) || (Z.of_nat (length cells) <=? i)
      then Stop (Undefined OutOfBounds)
      else Ok (Live (<[Z.to_nat i := Some a]> cells))
  end.

(** [memcpy(dst + d, src + s, n)] on whole cells. *)
Definition arr_copy (dst src : buffer A) (d s n : Z) : res (buffer A) :=
  match dst, src with
  | Live dc, Live sc =>
      if (n <? 0) || (d <? 0) || (s <? 0)
         || (Z.of_nat (length dc) <? d + n) || (Z.of_nat (length sc) <? s + n)
      then Stop (Undefined OutOfBounds)
      else Ok (Live (take (Z.to_nat d) dc ++ take (Z.to_nat n) (drop (Z.to_nat s) sc)
                     ++ drop (Z.to_nat (d + n)) dc))
  | _, _ => Stop (Undefined UseAfterFree)
  end.

Lemma arr_read_ok cells i a :
  0 ≤ i → cells !! Z.to_nat i = Some (Some a) → arr_read (Live cells) i = Ok a.
Proof.
  intros Hi Hl. unfold arr_read. rewrite (proj2 (Z.ltb_ge i 0)) by lia. by rewrite Hl.
Qed.

Lemma arr_write_ok cells i a :
  0 ≤ i < Z.of_nat (length cells) →
  arr_write (Live cells) i a = Ok (Live (<[Z.to_nat i := Some a]> cells)).
Proof.
  intros Hi. unfold arr_write.
  rewrite (proj2 (Z.ltb_ge i 0)), (proj2 (Z.leb_gt _ i)) by lia. done.
Qed.

Lemma arr_copy_ok dc sc d s n :
  0 ≤ n → 0 ≤ d → 0 ≤ s → d + n ≤ Z.of_nat (length dc) →
  s + n ≤ Z.of_nat (length sc) →
  arr_copy (Live dc) (Live sc) d s n =
    Ok (Live (take (Z.to_nat d) dc ++ take (Z.to_nat n) (drop (Z.to_nat s) sc)
              ++ drop (Z.to_nat (d + n)) dc)).
Proof.
  intros Hn Hd Hs Hdn Hsn. unfold arr_copy.
  repeat match goal with
         | |- context [ ?a <? ?b ] => rewrite (proj2 (Z.ltb_ge a b)) by lia
         end.
  done.
Qed.
End buffer.

(** ** Automation *)

Create HintDb checkq.

(** Decide the integer comparisons of the goal that [lia] can settle. *)
Ltac zbool :=
  repeat match goal with
  | |- context [ ?a <? ?b ] =>
      first [ rewrite (proj2 (Z.ltb_lt a b)) by lia
            | rewrite (proj2 (Z.ltb_ge a b)) by lia ]
  | |- context [ ?a <=? ?b ] =>
      first [ rewrite (proj2 (Z.leb_le a b)) by lia
            | rewrite (proj2 (Z.leb_gt a b)) by lia ]
  | |- context [ ?a =? ?b ] =>
      first [ rewrite (proj2 (Z.eqb_eq a b)) by lia
            | rewrite (proj2 (Z.eqb_neq a b)) by lia ]
  end.

(** Split on the first integer comparison of the goal. *)
Ltac zcase :=
  match goal with
  | |- context [ ?a <? ?b ] => destruct (Z.ltb_spec a b)
  | |- context [ ?a <=? ?b ] => destruct (Z.leb_spec a b)
  | |- context [ ?a =? ?b ] => destruct (Z.eqb_spec a b)
  end.

(** Unfold the monad and compute the straight-line part of a model. *)
Ltac mstep :=
  unfold mbind, M_mbind, mret, M_mret, mget, mput, mgets, mmodify, mlift, mstop, zoom,
    res_mbind, res_mret;
  cbn beta iota.

(** ** Generic list facts *)

Lemma lookup_replicate_None {A} n i :
  (i < n)%nat → replicate n (@None A) !! i = Some None.
Proof. intros H. by apply lookup_replicate_2. Qed.

Lemma list_snoc_inv {A} (l : list A) : l ≠ [] → ∃ l' x, l = l' ++ [x].
Proof.
  intros H. destruct (rev l) as [|x r] eqn:E.
  - apply (f_equal (@rev A)) in E. rewrite rev_involutive in E. done.
  - exists (rev r), x. apply (f_equal (@rev A)) in E.
    by rewrite rev_involutive in E.
Qed.

(** A decidable property of some natural number holds of a least one. *)
Lemma least_nat (P : nat → Prop) `{∀ n, Decision (P n)} n :
  P n → ∃ m, (m ≤ n)%nat ∧ P m ∧ ∀ j, (j < m)%nat → ¬ P j.
Proof.
  revert n. induction n as [n IH] using lt_wf_ind. intros Hn.
  destruct (decide (Exists P (seq 0 n))) as [HE|Hno].
  - apply Exists_exists in HE as (j & Hj & HP).
    apply elem_of_seq in Hj. destruct (IH j ltac:(lia) HP) as (m & Hm & H1 & H2).
    exists m. split_and!; [lia|done|done].
  - exists n. split_and!; [lia|done|]. intros j Hj HP. apply Hno, Exists_exists. exists j.
    split; [|done]. apply elem_of_seq. lia.
Qed.

Lemma omap_insert_add {A B} (f : A → option B) (l : list A) i x y b :
  l !! i = Some x → f x = None → f y = Some b →
  omap f (<[i := y]> l) ≡ₚ b :: omap f l.
Proof.
  intros Hl Hx Hy. rewrite <- (take_drop_middle l i x Hl) at 2.
  rewrite insert_take_drop by (by eapply lookup_lt_Some).
  rewrite !omap_app. cbn. rewrite Hx, Hy. symmetry. apply Permutation_middle.
Qed.

Lemma omap_insert_del {A B} (f : A → option B) (l : list A) i x y b :
  l !! i = Some x → f x = Some b → f y = None →
  omap f l ≡ₚ b :: omap f (<[i := y]> l).
Proof.
  intros Hl Hx Hy. rewrite <- (take_drop_middle l i x Hl) at 1.
  rewrite insert_take_drop by (by eapply lookup_lt_Some).
  rewrite !omap_app. cbn. rewrite Hx, Hy. symmetry. apply Permutation_middle.
Qed.

(** ** Systems of threads *)

Lemma list_lookup_insert_Some_2 {A} (l : list A) i j x y :
  <[i := x]> l !! j = Some y → (i = j ∧ x = y) ∨ (i ≠ j ∧ l !! j = Some y).
Proof. intros [(-> & -> & _)|?]%list_lookup_insert_Some; by eauto. Qed.

(** *** Sums over a list *)

Definition zsum {A} (f : A → Z) (l : list A) : Z := foldr (λ x a, f x + a) 0 l.

Lemma zsum_app {A} (f : A → Z) l k : zsum f (l ++ k) = zsum f l + zsum f k.
Proof. induction l as [|x l IH]; cbn; [done|]. unfold zsum in *. lia. Qed.

Lemma zsum_insert {A} (f : A → Z) l i x y : l !! i = Some x →
  zsum f (<[i := y]> l) = zsum f l - f x + f y.
Proof.
  intros Hx. rewrite <- (take_drop_middle l i x Hx) at 2.
  rewrite insert_take_drop by (by eapply lookup_lt_Some). rewrite !zsum_app. cbn.
  unfold zsum. lia.
Qed.

Lemma zsum_replicate_0 {A} (f : A → Z) n x : f x = 0 → zsum f (replicate n x) = 0.
Proof. intros Hx. induction n as [|n IH]; [done|]. cbn. unfold zsum in IH. lia. Qed.

Lemma zsum_nil {A} (f : A → Z) : zsum f [] = 0.
Proof. done. Qed.
Lemma zsum_cons {A} (f : A → Z) x l : zsum f (x :: l) = f x + zsum f l.
Proof. done. Qed.

#[global] Arguments zsum {A} f l : simpl never.

Lemma rtc_invariant {A} (R : relation A) (I : A → Prop) x y :
  (∀ a b, R a b → I a → I b) → rtc R x y → I x → I y.
Proof. intros HI. induction 1 as [|x y z Hxy _ IH]; [done|]. eauto. Qed.
