(* ===== verification/Outcomes.v ===== *)
(** * Outcomes: how a computation can end

    [runs E m s Q]: started in [s], the computation [m] either returns, with [Q]
    of its answer and of the state it leaves, or stops in a way that [E] expects.
    The rules follow the structure of the computation, so that the parts of a
    program can be taken one by one. *)

From stdpp Require Import base gmap list.
From Stdlib Require Import ZArith Lia.
From S2P Require Import Prelude.
Local Open Scope Z_scope.

Definition runs {S A} (E : stop → Prop) (m : M S A) (s : S) (Q : A → S → Prop) : Prop :=
  match m s with
  | (Ok a, s') => Q a s'
  | (Stop w, _) => E w
  end.

Section rules.
Context {S : Type} (E : stop → Prop).
Implicit Types (s : S).

Lemma runs_ok {A} (m : M S A) s a s' Q : m s = (Ok a, s') → Q a s' → runs E m s Q.
Proof. intros Hm HQ. unfold runs. by rewrite Hm. Qed.

Lemma runs_stop {A} (m : M S A) s w s' Q : m s = (Stop w, s') → E w → runs E m s Q.
Proof. intros Hm HE. unfold runs. by rewrite Hm. Qed.

Lemma runs_weaken {A} (m : M S A) s (Q Q' : A → S → Prop) :
  runs E m s Q → (∀ a s', Q a s' → Q' a s') → runs E m s Q'.
Proof. unfold runs. destruct (m s) as [[a|w] s']; eauto. Qed.

Lemma runs_ret {A} (a : A) s (Q : A → S → Prop) : Q a s → runs E (mret a) s Q.
Proof. done. Qed.

Lemma runs_mstop {A} w s (Q : A → S → Prop) : E w → runs E (mstop w) s Q.
Proof. done. Qed.

Lemma runs_bind {A B} (m : M S A) (f : A → M S B) s Q :
  runs E m s (λ a s', runs E (f a) s' Q) → runs E (m ≫= f) s Q.
Proof.
  unfold runs, mbind, M_mbind. by destruct (m s) as [[a|w] s'].
Qed.

(** The first part is known to return, or its own conclusion is at hand. *)
Lemma runs_then_ok {A B} (m : M S A) (f : A → M S B) s a s' Q :
  m s = (Ok a, s') → runs E (f a) s' Q → runs E (m ≫= f) s Q.
Proof. intros Hm Hf. apply runs_bind. by eapply runs_ok. Qed.

Lemma runs_then {A B} (m : M S A) (f : A → M S B) s (Q1 : A → S → Prop) Q :
  runs E m s Q1 → (∀ a s', Q1 a s' → runs E (f a) s' Q) → runs E (m ≫= f) s Q.
Proof. intros Hm Hf. apply runs_bind. by eapply runs_weaken. Qed.

Lemma runs_get (f : S → M S ()) s Q : runs E (f s) s Q → runs E (mget ≫= f) s Q.
Proof. done. Qed.

Lemma runs_gets {A B} (g : S → A) (f : A → M S B) s Q :
  runs E (f (g s)) s Q → runs E (mgets g ≫= f) s Q.
Proof. done. Qed.

Lemma runs_modify (g : S → S) s (Q : () → S → Prop) : Q () (g s) → runs E (mmodify g) s Q.
Proof. done. Qed.

Lemma runs_zoom {T A} (get : S → T) (set : T → S → S) (m : M T A) s (Q : A → S → Prop) :
  runs E m (get s) (λ a t, Q a (set t s)) → runs E (zoom get set m) s Q.
Proof. unfold runs, zoom. by destruct (m (get s)) as [[a|w] t]. Qed.

Lemma runs_pure_state {A} (m : M () A) s (Q : A → S → Prop) :
  runs E m () (λ a _, Q a s) → runs E (pure_state m) s Q.
Proof. unfold runs, pure_state, zoom. by destruct (m ()) as [[a|w] []]. Qed.

(** A list of commands, with an invariant. *)
Lemma runs_foldr {B} (f : B → M S ()) (l : list B) (I : S → Prop) s :
  (∀ x s, x ∈ l → I s → runs E (f x) s (λ _, I)) → I s →
  runs E (foldr (λ x k, f x;; k) (mret ()) l) s (λ _, I).
Proof.
  revert s. induction l as [|x l IH]; intros s Hf HI; [done|]. cbn [foldr].
  eapply runs_then; [apply Hf; [by left|done]|]. intros [] s' HI'.
  apply IH; [|done]. intros y s2 Hy. apply Hf. by right.
Qed.

(** A [for] loop over the indices of a list. *)
Lemma runs_mfor {B} (l : list B) (body : Z → M S ()) (I : S → Prop) s :
  (∀ i x s, l !! i = Some x → I s → runs E (body (Z.of_nat i)) s (λ _, I)) → I s →
  runs E (mfor (Z.of_nat (length l)) body) s (λ _, I).
Proof.
  intros Hb. unfold mfor. rewrite Nat2Z.id.
  assert (∀ l2 k s, (∀ i x, l2 !! i = Some x → l !! (k + i)%nat = Some x) → I s →
    runs E (mfor_from (length l2) (Z.of_nat k) body) s (λ _, I)) as Hgen.
  { induction l2 as [|x l2 IH]; intros k s1 Hl HI; [done|]. cbn [mfor_from length].
    eapply runs_then; [apply (Hb k x); [rewrite <- (Nat.add_0_r k); by apply Hl|done]|].
    intros [] s2 HI2. replace (Z.of_nat k + 1) with (Z.of_nat (Datatypes.S k)) by lia.
    apply IH; [|done]. intros i y Hi.
    replace (Datatypes.S k + i)%nat with (k + Datatypes.S i)%nat by lia. by apply Hl. }
  intros HI. by apply (Hgen l 0%nat).
Qed.
End rules.

(** More ends expected. *)
Lemma runs_expect {S A} (E E' : stop → Prop) (m : M S A) s Q :
  runs E m s Q → (∀ w, E w → E' w) → runs E' m s Q.
Proof. unfold runs. destruct (m s) as [[a|w] s']; eauto. Qed.

Lemma runs_any {S A} (m : M S A) s : runs (λ _, True) m s (λ _ _, True).
Proof. unfold runs. by destruct (m s) as [[] ?]. Qed.

(** What is known of a computation that returned. *)
Lemma runs_inv {S A} E (m : M S A) s Q a s' : runs E m s Q → m s = (Ok a, s') → Q a s'.
Proof. unfold runs. intros Hr Hm. by rewrite Hm in Hr. Qed.
Lemma runs_inv_stop {S A} E (m : M S A) s Q w s' : runs E m s Q → m s = (Stop w, s') → E w.
Proof. unfold runs. intros Hr Hm. by rewrite Hm in Hr. Qed.

(** ** What a computation leaves alone

    [keeps f m]: however [m] ends, the part [f] of the state is what it was. *)

Definition keeps {S A B} (f : S → B) (m : M S A) : Prop := ∀ s, f (m s).2 = f s.

Section keeps.
Context {S B : Type} (f : S → B).

Lemma keeps_ret {A} (a : A) : keeps f (mret a).
Proof. by intros s. Qed.
Lemma keeps_mstop {A} w : keeps f (mstop (A := A) w).
Proof. by intros s. Qed.
Lemma keeps_gets {A} (g : S → A) : keeps f (mgets g).
Proof. by intros s. Qed.
Lemma keeps_get : keeps f mget.
Proof. by intros s. Qed.
Lemma keeps_mlift {A} (r : res A) : keeps f (mlift r).
Proof. by intros s. Qed.
Lemma keeps_modify (g : S → S) : (∀ s, f (g s) = f s) → keeps f (mmodify g).
Proof. intros Hg s. apply Hg. Qed.
Lemma keeps_assert b : keeps f (my_assert b).
Proof. intros s. by destruct b. Qed.

Lemma keeps_bind {A C} (m : M S A) (k : A → M S C) :
  keeps f m → (∀ a, keeps f (k a)) → keeps f (m ≫= k).
Proof.
  intros Hm Hk s. unfold mbind, M_mbind. specialize (Hm s).
  destruct (m s) as [[a|w] s']; [by rewrite Hk|done].
Qed.

(** Through a [zoom]: the part is elsewhere, or kept inside. *)
Lemma keeps_zoom_away {T A} (get : S → T) set (m : M T A) :
  (∀ t s, f (set t s) = f s) → keeps f (zoom get set m).
Proof. intros Hf s. unfold zoom. by destruct (m (get s)) as [r t]; cbn. Qed.
Lemma keeps_zoom {T A C} (g : T → C) (get : S → T) set (m : M T A) :
  keeps g m → (∀ t s, g t = g (get s) → f (set t s) = f s) → keeps f (zoom get set m).
Proof.
  intros Hm Hf s. unfold zoom. specialize (Hm (get s)).
  destruct (m (get s)) as [r t]. by apply Hf.
Qed.

Lemma keeps_foldr {X} (g : X → M S ()) (l : list X) :
  (∀ x, keeps f (g x)) → keeps f (foldr (λ x k, g x;; k) (mret ()) l).
Proof.
  intros Hg. induction l as [|x l IH]; [apply keeps_ret|]. cbn.
  apply keeps_bind; [apply Hg|done].
Qed.

Lemma keeps_mfor n (body : Z → M S ()) : (∀ i, keeps f (body i)) → keeps f (mfor n body).
Proof.
  intros Hb. unfold mfor. generalize 0. induction (Z.to_nat n) as [|k IH]; intros i; cbn.
  - apply keeps_ret.
  - by apply keeps_bind.
Qed.

Lemma keeps_mloop {A R} p (body : A → M S (A + R)) a :
  (∀ a, keeps f (body a)) → keeps f (mloop p body a).
Proof.
  intros Hb s. unfold mloop. rewrite loop_run. revert a s.
  induction (Pos.to_nat p) as [|n IH]; intros a s; [done|]. cbn [run].
  specialize (Hb a s). destruct (body a s) as [[[a'|r]|w] s']; [|done..].
  rewrite IH. exact Hb.
Qed.
End keeps.

(** The rules, by the structure of the computation. *)
Create HintDb keeps.
#[export] Hint Resolve keeps_ret keeps_mstop keeps_gets keeps_get keeps_mlift keeps_assert : keeps.

Ltac keeps_step :=
  match goal with
  | |- keeps _ (mbind _ _) => apply keeps_bind; [|intros ?]
  | |- keeps _ (if ?b then _ else _) => destruct b
  | |- keeps _ (match ?x with _ => _ end) => destruct x
  | |- keeps _ (let _ := _ in _) => cbv zeta
  | |- keeps _ (foldr _ (mret ()) _) => apply keeps_foldr; intros ?
  | |- keeps _ (mfor _ _) => apply keeps_mfor; intros ?
  | |- keeps _ (mloop _ _ _) => apply keeps_mloop; intros ?
  | |- _ => solve [auto with keeps]
  | |- keeps _ (mmodify _) => apply keeps_modify; by intros ?
  end.
Ltac keeps := repeat keeps_step.

(** What is left alone is the same at the end. *)
Lemma runs_kept {S A B} E (f : S → B) (m : M S A) s Q :
  keeps f m → runs E m s Q → runs E m s (λ a s', Q a s' ∧ f s' = f s).
Proof.
  intros Hk. specialize (Hk s). unfold runs. by destruct (m s) as [[a|w] s'].
Qed.
Lemma runs_only_kept {S A B} E (f : S → B) (m : M S A) s :
  keeps f m → runs E m s (λ _ _, True) → runs E m s (λ _ s', f s' = f s).
Proof. intros Hk Hm. eapply runs_weaken; [by apply (runs_kept _ f)|]. by intros a s' [_ ?]. Qed.

(** Several parts at once, and a part of a part. *)
Lemma keeps_pair {S A B C} (f : S → B) (g : S → C) (m : M S A) :
  keeps f m → keeps g m → keeps (λ s, (f s, g s)) m.
Proof. intros Hf Hg s. by rewrite Hf, Hg. Qed.
Lemma keeps_of {S A B C} (f : S → B) (g : B → C) (m : M S A) :
  keeps f m → keeps (λ s, g (f s)) m.
Proof. intros Hf s. by rewrite Hf. Qed.

(** [my_malloc] gives memory, or aborts. *)
Definition aborts (w : stop) : Prop := w = Aborted.
(** So may a search in a hash table go on for ever. *)
Definition aborts_or_diverges (w : stop) : Prop := w = Aborted ∨ w = Diverges.
