(* ===== verification/Mylib.v ===== *)
(** * Mylib: the allocator and lock wrappers of src/src/mylib

    [cq_malloc], [my_realloc] of mylib.c over an abstract C allocator, and the
    reader/writer lock macros of my_mutex.h over a sequential model of a
    pthread rwlock. *)

From stdpp Require Import base gmap list.
From Stdlib Require Import ZArith Lia.
From S2P Require Import Prelude.
Local Open Scope Z_scope.

(** The C library's allocator: which requests succeed, and whether a [realloc]
    from one size to another keeps the block where it is.  The one law is the
    documented bound on an object's size. *)
Class Allocator := {
  malloc_ok : Z → bool;
  realloc_in_place : Z → Z → bool;
  malloc_ok_bound n : malloc_ok n = true → n ≤ PTRDIFF_MAX;
}.

(** An allocator that grants every legal request and never moves a block. *)
Program Definition roomy_allocator : Allocator := {|
  malloc_ok n := n <=? PTRDIFF_MAX;
  realloc_in_place _ _ := true;
|}.
Next Obligation. intros n H. by apply Z.leb_le. Qed.

(** The same, but [realloc] always moves the block. *)
Program Definition moving_allocator : Allocator := {|
  malloc_ok n := n <=? PTRDIFF_MAX;
  realloc_in_place _ _ := false;
|}.
Next Obligation. intros n H. by apply Z.leb_le. Qed.

Section malloc.
Context `{Allocator} {S : Type}.

(** [cq_malloc]: the block, or [abort()]. *)
Definition cq_malloc {A} (size : Z) (block : A) : M S A :=
  if malloc_ok (u64 size) then mret block else mstop Aborted.

(** [my_realloc] on an array of [old] cells of [width] bytes.  The result of
    [realloc] is only tested: the pointer returned is the old one, which
    dangles when the block was moved. *)
Definition my_realloc {A} (width : Z) (ptr : buffer A) (old new : Z) : M S (buffer A) :=
  let size := u64 (width * new) in
  if negb (size =? 0) && negb (malloc_ok size) then mstop Aborted
  else match ptr with
       | Dangling => mstop (Undefined UseAfterFree)
       | Live cells =>
           mret (if realloc_in_place (u64 (width * old)) size
                 then Live (take (Z.to_nat new) cells
                            ++ replicate (Z.to_nat new - length cells) None)
                 else Dangling)
       end.

Lemma cq_malloc_ok {A} size (a : A) (s : S) :
  malloc_ok (u64 size) = true → cq_malloc size a s = (Ok a, s).
Proof. intros Hok. unfold cq_malloc. by rewrite Hok. Qed.

Lemma cq_malloc_abort {A} size (a : A) (s : S) :
  malloc_ok (u64 size) = false → cq_malloc size a s = (Stop Aborted, s).
Proof. intros Hok. unfold cq_malloc. by rewrite Hok. Qed.
End malloc.

(** ** Reader/writer locks (my_mutex.h)

    The sequential view of a [pthread_rwlock_t]: a request that cannot be
    granted blocks for ever, since the only thread that could release the lock
    is the one that waits. *)

Inductive my_rwlock_t :=
  | RwFree
  | RwRead (readers : positive)
  | RwWrite.

#[export] Instance my_rwlock_eq_dec : EqDecision my_rwlock_t.
Proof. solve_decision. Defined.

Definition MY_RWLOCK_INITER : my_rwlock_t := RwFree.

Definition my_rdlock (l : my_rwlock_t) : res my_rwlock_t :=
  match l with
  | RwFree => Ok (RwRead 1)
  | RwRead n => Ok (RwRead (Pos.succ n))
  | RwWrite => Stop Blocked
  end.

Definition my_wrlock (l : my_rwlock_t) : res my_rwlock_t :=
  match l with
  | RwFree => Ok RwWrite
  | RwRead _ | RwWrite => Stop Blocked
  end.

Definition my_rwunlock (l : my_rwlock_t) : res my_rwlock_t :=
  match l with
  | RwFree => Stop (Undefined BadLock)
  | RwRead 1 => Ok RwFree
  | RwRead n => Ok (RwRead (Pos.pred n))
  | RwWrite => Ok RwFree
  end.

Lemma rdlock_unlock l l' : my_rdlock l = Ok l' → my_rwunlock l' = Ok l.
Proof.
  destruct l as [|n|]; intros [= <-]; [done|].
  transitivity (Ok (RwRead (Pos.pred (Pos.succ n)))).
  - by destruct n.
  - by rewrite Pos.pred_succ.
Qed.

Lemma wrlock_unlock l l' : my_wrlock l = Ok l' → my_rwunlock l' = Ok l.
Proof. by destruct l; intros [= <-]. Qed.

(** Taking a free lock, and giving back the one just taken. *)
#[export] Hint Resolve rdlock_unlock wrlock_unlock : checkq.
