(* ===== verification/Io.v ===== *)
(** * Io: reading and writing a whole buffer (src/src/mylib/mylib.c)

    [my_read] and [my_write] repeat [read] and [write] until [count] bytes have
    passed.  What the system calls answer is a sequence, one entry per call:
    the bytes (or their number), or an error number.  A [size_t] cannot hold the
    -1 of an error, and the buffer's address never moves. *)

From stdpp Require Import base list.
From Stdlib Require Import ZArith Lia.
From S2P Require Import Prelude Mylib.
Local Open Scope Z_scope.

Definition EAGAIN : Z := 11.
Definition EINPROGRESS : Z := 115.

(** An answer of [read]: the bytes, or [errno]. *)
Inductive read_answer := Bytes (bs : list Z) | ReadError (e : Z).
(** An answer of [write]: how many bytes it took, or [errno]. *)
Inductive write_answer := Took (n : Z) | WriteError (e : Z).

Record io := Io { calls : nat; errno : Z; io_count : Z; io_buf : list Z }.

Section io.
(** The answers of the calls, in order. *)
Context (reads : nat → read_answer) (writes : nat → write_answer).

(** Bytes copied to the start of the buffer. *)
Definition put_bytes (bs buf : list Z) : res (list Z) :=
  if (length buf <? length bs)%nat then Stop (Undefined OutOfBounds)
  else Ok (bs ++ drop (length bs) buf).

(** The result of [read] as a [size_t]; an error sets [errno], success leaves it. *)
Definition do_read (s : io) : res (Z * io) :=
  match reads (calls s) with
  | Bytes bs =>
      let bs := take (Z.to_nat (io_count s)) bs in
      buf ← put_bytes bs (io_buf s);
      Ok (Z.of_nat (length bs), Io (S (calls s)) (errno s) (io_count s) buf)
  | ReadError e => Ok (u64 (-1), Io (S (calls s)) e (io_count s) (io_buf s))
  end.

(** One turn of the loop, whose condition [>= 0] a [size_t] always meets. *)
Definition my_read_step (total : Z) (s : io) : io + res (Z * list Z) :=
  match do_read s with
  | Stop w => inr (Stop w)
  | Ok (rdsz, s) =>
      let count := u64 (io_count s - rdsz) in
      let s := Io (calls s) (errno s) count (io_buf s) in
      if negb (errno s =? EAGAIN) && negb (errno s =? 0) then inr (Ok (-1, io_buf s))
      else if count =? 0 then inr (Ok (total, io_buf s))
      else inl s
  end.

(** The result, and the buffer. *)
Definition my_read (errno0 count : Z) (buf : list Z) : res (Z * list Z) :=
  match loop (my_read_step count) P64 (Io 0 errno0 count buf) with
  | inr r => r
  | inl _ => Stop Diverges
  end.

(** The bytes that a call of [write] sent. *)
Definition do_write (s : io) : Z * io * list Z :=
  match writes (calls s) with
  | Took n => (n, Io (S (calls s)) (errno s) (io_count s) (io_buf s), take (Z.to_nat n) (io_buf s))
  | WriteError e => (u64 (-1), Io (S (calls s)) e (io_count s) (io_buf s), [])
  end.

(** One turn: [wrsz < 0] is never true of a [size_t]. *)
Definition my_write_step (total : Z) (a : io * list Z) : io * list Z + res (Z * list Z) :=
  let '(s, sent) := a in
  let '(wrsz, s, bs) := do_write s in
  let sent := sent ++ bs in
  if wrsz =? 0 then inr (Ok (-1, sent)) else
    let count := u64 (io_count s - wrsz) in
    let s := Io (calls s) (errno s) count (io_buf s) in
    if negb (errno s =? EAGAIN) && negb (errno s =? 0) && negb (errno s =? EINPROGRESS)
    then inr (Ok (-1, sent))
    else if count =? 0 then inr (Ok (total, sent))
    else inl (s, sent).

(** The result, and everything that was sent. *)
Definition my_write (errno0 count : Z) (buf : list Z) : res (Z * list Z) :=
  match loop (my_write_step count) P64 (Io 0 errno0 count buf, []) with
  | inr r => r
  | inl _ => Stop Diverges
  end.

(** ** What a reader gets *)

(** A call that delivers the bytes [bs], no more than asked for. *)
Lemma my_read_step_bytes total s bs :
  reads (calls s) = Bytes bs → Z.of_nat (length bs) ≤ io_count s < 2 ^ 64 →
  (length bs ≤ length (io_buf s))%nat → errno s = 0 →
  my_read_step total s =
    let s' := Io (S (calls s)) 0 (io_count s - Z.of_nat (length bs))
                (bs ++ drop (length bs) (io_buf s)) in
    if io_count s' =? 0 then inr (Ok (total, io_buf s')) else inl s'.
Proof.
  intros Hr Hc Hb He. unfold my_read_step, do_read. rewrite Hr. cbv zeta.
  rewrite take_ge by lia. unfold put_bytes.
  rewrite (proj2 (Nat.ltb_ge _ _)) by lia. cbn [mbind res_mbind calls errno io_count io_buf].
  rewrite He, u64_small by lia. done.
Qed.


(** A call that takes [n] bytes. *)
Lemma my_write_step_took total s sent n :
  writes (calls s) = Took n → 0 < n ≤ io_count s → io_count s < 2 ^ 64 → errno s = 0 →
  my_write_step total (s, sent) =
    let s' := Io (S (calls s)) 0 (io_count s - n) (io_buf s) in
    let sent' := sent ++ take (Z.to_nat n) (io_buf s) in
    if io_count s' =? 0 then inr (Ok (total, sent')) else inl (s', sent').
Proof.
  intros Hw Hn Hc He. unfold my_write_step, do_write. rewrite Hw. cbv zeta.
  rewrite (proj2 (Z.eqb_neq n 0)) by lia. cbn [calls errno io_count io_buf].
  by rewrite He, u64_small by lia.
Qed.

(** When [write] takes everything at once the buffer is sent; when it takes it in two parts the
    second part is the start of the buffer once more; an error other than the two tolerated ones
    is a failure. *)
Theorem my_write_outcomes count buf n :
  0 < n ≤ count → count < 2 ^ 64 → length buf = Z.to_nat count →
  (writes 0%nat = Took count → my_write 0 count buf = Ok (count, buf)) ∧
  (n < count → writes 0%nat = Took n → writes 1%nat = Took (count - n) →
     my_write 0 count buf =
       Ok (count, take (Z.to_nat n) buf ++ take (Z.to_nat (count - n)) buf)) ∧
  (∀ e, e ≠ 0 → e ≠ EAGAIN → e ≠ EINPROGRESS → writes 0%nat = WriteError e →
     my_write 0 count buf = Ok (-1, [])).
Proof.
  intros Hn Hc Hlen. unfold my_write. rewrite loop_run.
  assert (∃ k, Pos.to_nat P64 = S (S k)) as [k ->]
    by (exists (pred (pred (Pos.to_nat P64))); unfold P64; lia).
  split; [|split].
  - intros Hw. cbn [run]. rewrite (my_write_step_took _ _ _ count) by (cbn; done || lia).
    cbv zeta. cbn [calls io_count io_buf app]. rewrite Z.sub_diag. cbn [Z.eqb].
    by rewrite take_ge by lia.
  - intros Hlt Hw0 Hw1. cbn [run]. rewrite (my_write_step_took _ _ _ n) by (cbn; done || lia).
    cbv zeta. cbn [calls io_count io_buf app]. rewrite (proj2 (Z.eqb_neq _ 0)) by lia.
    cbn [run]. rewrite (my_write_step_took _ _ _ (count - n)) by (cbn -[Z.sub]; done || lia).
    cbv zeta. cbn [calls io_count io_buf]. by rewrite Z.sub_diag.
  - intros e H0 Ha Hp Hw. cbn [run]. unfold my_write_step, do_write. cbn [calls]. rewrite Hw.
    cbv zeta. change (u64 (-1) =? 0) with false. cbn [errno io_count io_buf app].
    by rewrite !(proj2 (Z.eqb_neq _ _)) by done.
Qed.
End io.

(** ** Witness *)

(** A reader that gets two bytes, then two bytes, then the end. *)
Definition two_and_two (k : nat) : read_answer :=
  match k with 0%nat => Bytes [1; 2] | 1%nat => Bytes [3; 4] | _ => Bytes [] end.
Definition two_and_end (k : nat) : read_answer :=
  match k with 0%nat => Bytes [1; 2] | _ => Bytes [] end.

