(* ===== verification/Cond.v ===== *)
(** * Cond: the condition variables of the library (src/src/mylib/my_mutex.c)

    A [my_cond_t] is a mutex, a POSIX condition and a flag.  Each thread runs one
    of its operations, a program counter between two calls of the POSIX library;
    [cond_step] interleaves them.  As POSIX documents, a waiter gives up the mutex
    and sleeps in one step, takes the mutex again before it goes on, may wake up
    without a signal, and a signal wakes one sleeper if there is one. *)

From stdpp Require Import base list relations.
From Stdlib Require Import ZArith Lia.
From S2P Require Import Prelude Mylib.
Local Open Scope Z_scope.

(** ** The deadline of [my_cond_timedwait] *)

(** From the time of day and the seconds to wait, in whole seconds and
    nanoseconds. *)
Definition wait_time (now_sec now_usec tv_sec tv_nsec : Z) : Z * Z :=
  let sec := now_sec + tv_sec in
  let nsec := now_usec * 1000 + tv_nsec in
  if 1000000000 <? nsec then (sec + 1, nsec - 1000000000) else (sec, nsec).

(** ** The operations *)

Record my_cond_t := MyCond { cond_mutex : option nat; cond_flag : bool }.

Definition MY_COND_INITER : my_cond_t := MyCond None false.

Inductive cond_pc :=
  (* [my_cond_wait] *)
  | WLock | WTest | WBlocked | WWoken | WClear | WUnlock | WDone
  (* [my_cond_timedwait] *)
  | TLock | TTest | TBlocked | TWoken (signalled : bool) | TClear | TUnlock (ret : ret_t)
  | TDone (ret : ret_t)
  (* [my_cond_signal] *)
  | SLock | SSet | SSignal | SUnlock | SDone.

Definition with_flag (b : bool) (c : my_cond_t) : my_cond_t := MyCond (cond_mutex c) b.
Definition with_mutex (m : option nat) (c : my_cond_t) : my_cond_t := MyCond m (cond_flag c).

(** [pthread_mutex_lock], which waits while another thread has the mutex. *)
Definition take (i : nat) (next : cond_pc) (c : my_cond_t) : option (my_cond_t * cond_pc) :=
  match cond_mutex c with None => Some (with_mutex (Some i) c, next) | Some _ => None end.

(** The next step of the thread [i]. *)
Definition my_cond_wait (i : nat) (c : my_cond_t) (pc : cond_pc) : option (my_cond_t * cond_pc) :=
  match pc with
  | WLock => take i WTest c
  | WTest => Some (if cond_flag c then (c, WClear) else (with_mutex None c, WBlocked))
  | WBlocked => Some (c, WWoken)
  | WWoken => take i WTest c
  | WClear => Some (with_flag false c, WUnlock)
  | WUnlock => Some (with_mutex None c, WDone)
  | _ => None
  end.

(** [signalled] is whether the sleep ends before the deadline. *)
Definition my_cond_timedwait (signalled : bool) (i : nat) (c : my_cond_t) (pc : cond_pc)
    : option (my_cond_t * cond_pc) :=
  match pc with
  | TLock => take i TTest c
  | TTest => Some (if cond_flag c then (c, TUnlock RET_FAILED) else (with_mutex None c, TBlocked))
  | TBlocked => Some (c, TWoken signalled)
  | TWoken b => take i (if b then TClear else TUnlock RET_FAILED) c
  | TClear => Some (with_flag false c, TUnlock RET_SUCCEED)
  | TUnlock ret => Some (with_mutex None c, TDone ret)
  | _ => None
  end.

(** The call of [pthread_cond_signal] is a step of the system. *)
Definition my_cond_signal (i : nat) (c : my_cond_t) (pc : cond_pc) : option (my_cond_t * cond_pc) :=
  match pc with
  | SLock => take i SSet c
  | SSet => Some (with_flag true c, SSignal)
  | SUnlock => Some (with_mutex None c, SDone)
  | _ => None
  end.

Definition sleeper (pc : cond_pc) : bool :=
  match pc with WBlocked | TBlocked => true | _ => false end.
Definition wake (pc : cond_pc) : cond_pc :=
  match pc with WBlocked => WWoken | TBlocked => TWoken true | _ => pc end.

Inductive cond_step : my_cond_t * list cond_pc → my_cond_t * list cond_pc → Prop :=
  | step_wait c pcs i pc c' pc' : pcs !! i = Some pc → my_cond_wait i c pc = Some (c', pc') →
      cond_step (c, pcs) (c', <[i := pc']> pcs)
  | step_timedwait c pcs i pc b c' pc' : pcs !! i = Some pc →
      my_cond_timedwait b i c pc = Some (c', pc') → cond_step (c, pcs) (c', <[i := pc']> pcs)
  | step_signal c pcs i pc c' pc' : pcs !! i = Some pc → my_cond_signal i c pc = Some (c', pc') →
      cond_step (c, pcs) (c', <[i := pc']> pcs)
  | step_wake c pcs i j pc : pcs !! i = Some SSignal → pcs !! j = Some pc → sleeper pc = true →
      cond_step (c, pcs) (c, <[i := SUnlock]> (<[j := wake pc]> pcs))
  | step_no_sleeper c pcs i : pcs !! i = Some SSignal →
      Forall (λ pc, sleeper pc = false) pcs → cond_step (c, pcs) (c, <[i := SUnlock]> pcs).

(** ** Waits and signals *)

(** Where a thread holds the mutex. *)
Definition holds (pc : cond_pc) : bool :=
  match pc with
  | WTest | WClear | WUnlock | TTest | TClear | TUnlock _ | SSet | SSignal | SUnlock => true
  | _ => false
  end.
(** A wait that has taken the flag down, and a signal that has put it up. *)
Definition took (pc : cond_pc) : Z :=
  match pc with WUnlock | WDone => 1 | _ => 0 end.
Definition gave (pc : cond_pc) : Z :=
  match pc with SSignal | SUnlock | SDone => 1 | _ => 0 end.
Definition timed (pc : cond_pc) : bool :=
  match pc with TLock | TTest | TBlocked | TWoken _ | TClear | TUnlock _ | TDone _ => true
  | _ => false end.

(** Someone will look at the flag. *)
Definition attends (pc : cond_pc) : bool :=
  match pc with SSignal | WWoken | WTest | WClear => true | _ => false end.

Record cond_inv (s : my_cond_t * list cond_pc) : Prop := {
  ci_untimed : Forall (λ pc, timed pc = false) s.2;
  ci_holds i pc : s.2 !! i = Some pc → holds pc = true → cond_mutex s.1 = Some i;
  ci_clear i : s.2 !! i = Some WClear → cond_flag s.1 = true;
  ci_count : zsum took s.2 + (if cond_flag s.1 then 1 else 0) ≤ zsum gave s.2;
  ci_attends : cond_flag s.1 = true →
    (∃ i pc, s.2 !! i = Some pc ∧ attends pc = true) ∨ Forall (λ pc, sleeper pc = false) s.2;
}.

Lemma cond_inv_update c pcs i pc c' pc' :
  cond_inv (c, pcs) → pcs !! i = Some pc → timed pc' = false →
  (holds pc' = true → cond_mutex c' = Some i) →
  (cond_mutex c' = cond_mutex c ∨ cond_mutex c = None ∨ cond_mutex c = Some i) →
  (cond_flag c' = cond_flag c ∨ cond_flag c' = true ∨ cond_mutex c = Some i) →
  (pc' = WClear → cond_flag c' = true) →
  took pc' + (if cond_flag c' then 1 else 0) + gave pc ≤
    took pc + (if cond_flag c then 1 else 0) + gave pc' →
  (cond_flag c' = true →
     attends pc' = true ∨ (∃ j pc, j ≠ i ∧ pcs !! j = Some pc ∧ attends pc = true) ∨
     sleeper pc' = false ∧ (Forall (λ pc, sleeper pc = false) pcs ∨
                            cond_flag c = true ∧ attends pc = false)) →
  cond_inv (c', <[i := pc']> pcs).
Proof.
  intros [U Ho Cl Ct At] Hi Hu Hh Hm Hf Hcl Hct Hat; cbn [fst snd] in *.
  assert (∀ j pcj, i ≠ j → pcs !! j = Some pcj → holds pcj = true →
    cond_mutex c' = Some j ∧ cond_mutex c ≠ Some i) as Hothers.
  { intros j pcj Hne Hj Hp. specialize (Ho j pcj Hj Hp).
    destruct Hm as [->|[Hn|Hs]]; [|congruence..]. split; congruence. }
  split; cbn [fst snd].
  - by apply Forall_insert.
  - intros j pcj [[<- <-]|[Hne Hj]]%list_lookup_insert_Some_2 Hp; [by apply Hh|].
    by eapply Hothers.
  - intros j [[<- Hpc]|[Hne Hj]]%list_lookup_insert_Some_2; [by apply Hcl|].
    destruct Hf as [->|[->|Hs]]; [by eapply Cl|done|].
    by destruct (Hothers j WClear Hne Hj eq_refl).
  - rewrite !(zsum_insert _ _ _ _ _ Hi). lia.
  - intros Hfl. pose proof (lookup_lt_Some _ _ _ Hi) as Hlt.
    assert (∀ j pcj, j ≠ i → pcs !! j = Some pcj → attends pcj = true →
      ∃ k p, <[i := pc']> pcs !! k = Some p ∧ attends p = true) as Hkeep.
    { intros j pcj Hne Hj Ha. exists j, pcj. by rewrite list_lookup_insert_ne. }
    destruct (Hat Hfl) as [Ha|[(j & pcj & Hne & Hj & Ha)|[Hs [Hall|[Hfc Hna]]]]].
    + left. exists i, pc'. by rewrite list_lookup_insert_eq.
    + left. by eapply Hkeep.
    + right. by apply Forall_insert.
    + destruct (At Hfc) as [(j & pcj & Hj & Ha)|Hall]; [|right; by apply Forall_insert].
      left. eapply (Hkeep j pcj); [|done..]. intros ->. congruence.
Qed.

(** A step of one thread: what is left of the conditions above is about the flag
    and the mutex before it. *)
Ltac one_of := first [done | by left | by right; left | by right; right; auto].

Ltac cond_case I Hi Hs Ho :=
  cbn in Hs; unfold take in Hs; repeat case_match; simplify_eq;
  (eapply (cond_inv_update _ _ _ _ _ _ I Hi); cbn in *;
  [done|intros ?; first [done|by apply Ho]|try one_of; auto|try one_of; auto
  |intros ?; congruence
  |repeat (match goal with |- context [if ?b then _ else _] => destruct b end); lia
  |intros Hfl; try congruence; first [by left | right; right; split; [done|by right]]]).

Lemma cond_inv_step s s' : cond_step s s' → cond_inv s → cond_inv s'.
Proof.
  destruct 1 as [c pcs i pc c' pc' Hi Hs|c pcs i pc b c' pc' Hi Hs|c pcs i pc c' pc' Hi Hs
                |c pcs i j pc Hi Hj Hsl|c pcs i Hi Hall]; intros I; pose proof I as [U Ho Cl Ct At].
  - specialize (Ho i pc Hi). destruct pc; try done; try (by cond_case I Hi Hs Ho).
    pose proof (Cl i Hi) as Hf. cond_case I Hi Hs Ho.
  - exfalso. pose proof (Forall_lookup_1 _ _ _ _ U Hi) as Ht. by destruct pc.
  - specialize (Ho i pc Hi). destruct pc; try done; by cond_case I Hi Hs Ho.
  - assert (i ≠ j) as Hne by (intros ->; rewrite Hi in Hj; by simplify_eq).
    pose proof (Ho i _ Hi eq_refl) as Hm. cbn in Hm.
    pose proof (Forall_lookup_1 _ _ _ _ U Hj) as Ht.
    assert (pc = WBlocked) as -> by (by destruct pc).
    assert (cond_inv (c, <[j := WWoken]> pcs)) as I1.
    { apply (cond_inv_update _ _ _ _ _ _ I Hj); cbn; eauto; done. }
    eapply (cond_inv_update _ _ _ SSignal _ _ I1); cbn; eauto; try done.
    + by rewrite list_lookup_insert_ne.
    + intros _. right. left. exists j, WWoken. split; [done|].
      by rewrite list_lookup_insert_eq by (by eapply lookup_lt_Some).
  - pose proof (Ho i _ Hi eq_refl) as Hm. cbn in Hm.
    apply (cond_inv_update _ _ _ _ _ _ I Hi); cbn; [done|done|by left|by left|done|lia|].
    intros _. right. right. split; [done|by left].
Qed.

(** [n] threads that wait and [m] that signal. *)
Definition cond_start (n m : nat) : my_cond_t * list cond_pc :=
  (MY_COND_INITER, replicate n WLock ++ replicate m SLock).

Lemma cond_start_inv n m : cond_inv (cond_start n m).
Proof.
  assert (∀ pc, pc ∈ replicate n WLock ++ replicate m SLock → pc = WLock ∨ pc = SLock) as Hpc.
  { intros pc [Hp|Hp]%elem_of_app; apply elem_of_replicate in Hp as [-> _]; by eauto. }
  split; cbn.
  - apply Forall_forall. intros pc [-> | ->]%Hpc; done.
  - intros i pc Hi%list_elem_of_lookup_2. by destruct (Hpc pc Hi) as [-> | ->].
  - intros i Hi%list_elem_of_lookup_2. by destruct (Hpc _ Hi).
  - rewrite !zsum_app, !zsum_replicate_0 by done. done.
  - done.
Qed.

Lemma cond_reachable n m s : rtc cond_step (cond_start n m) s → cond_inv s.
Proof.
  intros Hr. apply (rtc_invariant cond_step cond_inv _ _ cond_inv_step Hr), cond_start_inv.
Qed.


(** *** With a deadline *)

(** [my_cond_timedwait] fails on a flag that is already up, and leaves it up; and
    it trusts its wake-up without another look at the flag, so that one signal can make both it
    and a [my_cond_wait] return. *)
Theorem timedwait_double_wake b i c :
  (cond_flag c = true → my_cond_timedwait b i c TTest = Some (c, TUnlock RET_FAILED)) ∧
  ∃ s, rtc cond_step (MY_COND_INITER, [TLock; WLock; SLock]) s ∧
    s.2 = [TDone RET_SUCCEED; WDone; SDone].
Proof.
  split; [by intros Hf; cbn; rewrite Hf|]. eexists. split.
  - eapply rtc_l; [eapply (step_timedwait _ _ 0 TLock true); reflexivity|]. cbn.
    eapply rtc_l; [eapply (step_timedwait _ _ 0 TTest true); reflexivity|]. cbn.
    eapply rtc_l; [eapply (step_signal _ _ 2); reflexivity|]. cbn.
    eapply rtc_l; [eapply (step_signal _ _ 2); reflexivity|]. cbn.
    eapply rtc_l; [eapply (step_wake _ _ 2 0); reflexivity|]. cbn.
    eapply rtc_l; [eapply (step_signal _ _ 2); reflexivity|]. cbn.
    do 4 (eapply rtc_l; [eapply (step_wait _ _ 1); reflexivity|]; cbn).
    do 3 (eapply rtc_l; [eapply (step_timedwait _ _ 0 _ true); reflexivity|]; cbn).
    apply rtc_refl.
  - reflexivity.
Qed.

(** ** Witnesses *)

Lemma one_signal : rtc cond_step (cond_start 1 1) (MyCond None false, [WDone; SDone]).
Proof.
  do 2 (eapply rtc_l; [eapply (step_wait _ _ 0); reflexivity|]; cbn).
  do 2 (eapply rtc_l; [eapply (step_signal _ _ 1); reflexivity|]; cbn).
  eapply rtc_l; [eapply (step_wake _ _ 1 0); reflexivity|]. cbn.
  eapply rtc_l; [eapply (step_signal _ _ 1); reflexivity|]. cbn.
  do 4 (eapply rtc_l; [eapply (step_wait _ _ 0); reflexivity|]; cbn).
  apply rtc_refl.
Qed.


Example timedwait_double_wake_witness :
  my_cond_timedwait true 0 (MyCond (Some 0%nat) true) TTest =
    Some (MyCond (Some 0%nat) true, TUnlock RET_FAILED) ∧
  ∃ s, rtc cond_step (MY_COND_INITER, [TLock; WLock; SLock]) s ∧
    s.2 = [TDone RET_SUCCEED; WDone; SDone].
Proof.
  destruct (timedwait_double_wake true 0 (MyCond (Some 0%nat) true)) as [Hf Hs].
  split; [by apply Hf|exact Hs].
Defined.
