(* ===== verification/Vector.v ===== *)
(** * Vector: the growable ring buffer of src/src/mylib/vector.c

    [vector E] is [struct vector_t]; every operation is a computation on it.
    The contents are the abstract list [l] of [vrep v l]; the theorems state
    each operation as the operation of a double-ended queue on that list. *)

From stdpp Require Import base gmap list.
From Stdlib Require Import ZArith Lia.
From S2P Require Import Prelude Outcomes Mylib.
Local Open Scope Z_scope.

Definition VECTOR_INIT_SIZE : Z := 10.
Definition VECTOR_GROW_FACTOR : Z := 2.

(** [struct vector_t].  [entry_free_func] is not a field: the operations that
    call it return the entries it is called on, in order. *)
Record vector (E : Type) := Vector {
  elements : buffer E;
  start : Z;
  end_ : Z;
  capacity : Z;
  rwlock : my_rwlock_t;
  isempty : bool;
}.
Arguments Vector {E}.
Arguments elements {E}.
Arguments start {E}.
Arguments end_ {E}.
Arguments capacity {E}.
Arguments rwlock {E}.
Arguments isempty {E}.

Section vector.
Context `{Allocator} {E : Type}.
Implicit Types (v : vector E) (l : list E) (entry : E).

Definition set_elements b v : vector E :=
  Vector b (start v) (end_ v) (capacity v) (rwlock v) (isempty v).
Definition set_start n v : vector E :=
  Vector (elements v) n (end_ v) (capacity v) (rwlock v) (isempty v).
Definition set_end n v : vector E :=
  Vector (elements v) (start v) n (capacity v) (rwlock v) (isempty v).
Definition set_capacity n v : vector E :=
  Vector (elements v) (start v) (end_ v) n (rwlock v) (isempty v).
Definition set_rwlock k v : vector E :=
  Vector (elements v) (start v) (end_ v) (capacity v) k (isempty v).
Definition set_isempty e v : vector E :=
  Vector (elements v) (start v) (end_ v) (capacity v) (rwlock v) e.

(** The lock calls on [vector->rwlock]. *)
Definition on_rwlock (f : my_rwlock_t → res my_rwlock_t) : M (vector E) unit :=
  k ← mgets rwlock; k' ← mlift (f k); mmodify (set_rwlock k').

Definition get_next_index v (index : Z) : Z :=
  if index <? u64 (capacity v - 1) then u64 (index + 1) else 0.

Definition get_prev_index v (index : Z) : Z :=
  if index =? 0 then u64 (capacity v - 1) else u64 (index - 1).

Definition get_real_index v (index : Z) : Z :=
  let real_index := u64 (start v + index) in
  if real_index <? capacity v then real_index else u64 (real_index - capacity v).

Definition vector_isfull v : bool := negb (isempty v) && (end_ v =? start v).

Definition vector_grow : M (vector E) ret_t :=
  v ← mget;
  my_assert (vector_isfull v);;
  let new_capacity := u64 (capacity v * VECTOR_GROW_FACTOR) in
  new_elements ← cq_malloc (u64 (new_capacity * 8)) (fresh_buffer new_capacity);
  let first_size := u64 (capacity v - start v) in
  new_elements ← mlift (arr_copy new_elements (elements v) 0 (start v) first_size);
  new_elements ← mlift (arr_copy new_elements (elements v) first_size 0 (start v));
  mmodify (set_elements new_elements);;
  mmodify (set_start 0);;
  mmodify (λ v, set_end (capacity v) v);;
  mmodify (set_capacity new_capacity);;
  mret RET_SUCCEED.

(** [my_malloc(sizeof(vector_t))]: five words, a rwlock of 56 bytes, a flag. *)
Definition sizeof_vector_t : Z := 104.

Definition vector_alloc : M unit (vector E) :=
  cq_malloc sizeof_vector_t ();;
  elements ← cq_malloc (VECTOR_INIT_SIZE * 8) (fresh_buffer VECTOR_INIT_SIZE);
  mret (Vector elements 0 0 VECTOR_INIT_SIZE MY_RWLOCK_INITER true).

(** [vector_isfull(vector) && vector_grow(vector) != RET_SUCCEED] *)
Definition full_and_not_grown : M (vector E) bool :=
  v ← mget;
  if vector_isfull v
  then r ← vector_grow; mret (negb (bool_decide (r = RET_SUCCEED)))
  else mret false.

Definition vector_push_back entry : M (vector E) ret_t :=
  on_rwlock my_wrlock;;
  failed ← full_and_not_grown;
  ret ← (if failed : bool then mret RET_FAILED else
    v ← mget;
    elements' ← mlift (arr_write (elements v) (end_ v) entry);
    mmodify (set_elements elements');;
    mmodify (λ v, set_end (get_next_index v (end_ v)) v);;
    mmodify (set_isempty false);;
    mret RET_SUCCEED);
  on_rwlock my_rwunlock;;
  mret ret.

Definition vector_pop : M (vector E) (option E) :=
  on_rwlock my_wrlock;;
  v ← mget;
  ret ← (if isempty v then mret None else
    let index := get_prev_index v (end_ v) in
    ret ← mlift (arr_read (elements v) index);
    mmodify (set_end index);;
    v ← mget;
    (if end_ v =? start v then mmodify (set_isempty true) else mret tt);;
    mret (Some ret));
  on_rwlock my_rwunlock;;
  mret ret.

Definition vector_unshift entry : M (vector E) ret_t :=
  on_rwlock my_wrlock;;
  failed ← full_and_not_grown;
  ret ← (if failed : bool then mret RET_FAILED else
    v ← mget;
    let index := get_prev_index v (start v) in
    elements' ← mlift (arr_write (elements v) index entry);
    mmodify (set_elements elements');;
    mmodify (set_start index);;
    mmodify (set_isempty false);;
    mret RET_SUCCEED);
  on_rwlock my_rwunlock;;
  mret ret.

Definition vector_shift : M (vector E) (option E) :=
  on_rwlock my_wrlock;;
  v ← mget;
  ret ← (if isempty v then mret None else
    ret ← mlift (arr_read (elements v) (start v));
    mmodify (set_start (get_next_index v (start v)));;
    v ← mget;
    (if end_ v =? start v then mmodify (set_isempty true) else mret tt);;
    mret (Some ret));
  on_rwlock my_rwunlock;;
  mret ret.

(** Not implemented in the source: both only log. *)
Definition vector_insert entry (index : Z) : M (vector E) ret_t :=
  on_rwlock my_wrlock;; on_rwlock my_rwunlock;; mret RET_FAILED.
Definition vector_remove (index : Z) : M (vector E) (option E) :=
  on_rwlock my_wrlock;; on_rwlock my_rwunlock;; mret None.

Definition vector_get (index : Z) : M (vector E) (option E) :=
  on_rwlock my_rdlock;;
  v ← mget;
  ret ← (if isempty v || (capacity v <=? index) then mret None else
    ret ← mlift (arr_read (elements v) (get_real_index v index));
    mret (Some ret));
  on_rwlock my_rwunlock;;
  mret ret.

Definition vector_size : M (vector E) Z :=
  on_rwlock my_rdlock;;
  v ← mget;
  let ret := if isempty v then 0
             else if start v <? end_ v then u64 (end_ v - start v)
             else u64 (u64 (capacity v - start v) + end_ v) in
  on_rwlock my_rwunlock;;
  mret ret.

Definition vector_isempty : M (vector E) bool := mgets isempty.

(** [for (i = start; i != end; i = next(i)) free(elements[i])]: the entries
    freed.  The index is a [size_t]: after 2^64 rounds without meeting [end]
    the loop would never stop. *)
Definition free_entries v : res (list E) :=
  match loop (λ '(i, freed),
                if i =? end_ v then inr (Ok freed) else
                match arr_read (elements v) i with
                | Ok e => inl (get_next_index v i, freed ++ [e])
                | Stop w => inr (Stop w)
                end) P64 (start v, []) with
  | inl _ => Stop Diverges
  | inr r => r
  end.

Definition vector_empty : M (vector E) (ret_t * list E) :=
  on_rwlock my_wrlock;;
  v ← mget;
  freed ← (if isempty v then mret [] else mlift (free_entries v));
  elements' ← my_realloc 8 (elements v) (capacity v) VECTOR_INIT_SIZE;
  mmodify (set_elements elements');;
  mmodify (set_start 0);;
  mmodify (set_end 0);;
  mmodify (set_isempty true);;
  mmodify (set_capacity VECTOR_INIT_SIZE);;
  on_rwlock my_rwunlock;;
  mret (RET_SUCCEED, freed).

(** The vector is gone afterwards (its lock is still held). *)
Definition vector_destroy : M (vector E) (list E) :=
  on_rwlock my_wrlock;;
  v ← mget;
  freed ← mlift (free_entries v);
  mmodify (set_elements Dangling);;
  mret freed.
End vector.

(** ** The representation of a list by a vector *)

Section proofs.
Context `{Allocator} {E : Type}.
Implicit Types (v : vector E) (l : list E) (x : E) (i : Z).

(** The cell that holds entry number [i]. *)
Definition slot v (i : Z) : Z := (start v + i) mod capacity v.

Record vrep_in (k : my_rwlock_t) v l (cells : list (option E)) : Prop := {
  vr_elements : elements v = Live cells;
  vr_length : Z.of_nat (length cells) = capacity v;
  vr_bound : 8 * capacity v ≤ PTRDIFF_MAX;
  vr_start : 0 ≤ start v < capacity v;
  vr_fits : Z.of_nat (length l) ≤ capacity v;
  vr_end : end_ v = slot v (Z.of_nat (length l));
  vr_isempty : isempty v = bool_decide (l = []);
  vr_rwlock : rwlock v = k;
  vr_cells (i : nat) x : l !! i = Some x → cells !! Z.to_nat (slot v (Z.of_nat i)) = Some (Some x);
}.

Definition vrep v l : Prop := ∃ cells, vrep_in RwFree v l cells.

(** Room for one more: either a free cell, or memory for twice the cells. *)
Definition room v : Prop :=
  vector_isfull v = true → malloc_ok (16 * capacity v) = true.

Lemma mod_wrap a c : 0 ≤ a < 2 * c → a mod c = if a <? c then a else a - c.
Proof.
  intros Ha. zcase; [rewrite Z.mod_small; lia|].
  symmetry. apply (Z.mod_unique_pos _ _ 1); lia.
Qed.

Lemma next_index v i : 0 < capacity v < 2 ^ 63 → 0 ≤ i < capacity v →
  get_next_index v i = (i + 1) mod capacity v.
Proof.
  intros Hc Hi. unfold get_next_index. rewrite mod_wrap by lia.
  rewrite !u64_small by lia. repeat zcase; lia.
Qed.

Lemma prev_index v i : 0 < capacity v < 2 ^ 63 → 0 ≤ i < capacity v →
  get_prev_index v i = (i - 1) mod capacity v.
Proof.
  intros Hc Hi. unfold get_prev_index. zcase; subst.
  - rewrite u64_small by lia. apply (Z.mod_unique_pos _ _ (-1)); lia.
  - rewrite u64_small, Z.mod_small by lia. done.
Qed.

Lemma real_index v i : 0 ≤ start v < capacity v → capacity v < 2 ^ 62 →
  0 ≤ i < capacity v → get_real_index v i = slot v i.
Proof.
  intros Hs Hc Hi. unfold get_real_index, slot. rewrite mod_wrap by lia.
  rewrite (u64_small (start v + i)) by lia. zcase; [done|].
  rewrite u64_small; lia.
Qed.

Lemma slot_range v i : 0 < capacity v → 0 ≤ slot v i < capacity v.
Proof. intros. by apply Z.mod_pos_bound. Qed.

Lemma slot_inj v i j : 0 ≤ start v < capacity v →
  0 ≤ i < capacity v → 0 ≤ j < capacity v → slot v i = slot v j → i = j.
Proof.
  unfold slot. intros Hs Hi Hj. rewrite !mod_wrap by lia. repeat zcase; lia.
Qed.

Lemma slot_next v i : 0 < capacity v → (slot v i + 1) mod capacity v = slot v (i + 1).
Proof.
  intros. unfold slot. rewrite Zplus_mod_idemp_l. f_equal. lia.
Qed.

Lemma slot_prev v i : 0 < capacity v → (slot v i - 1) mod capacity v = slot v (i - 1).
Proof.
  intros. unfold slot. rewrite Zminus_mod_idemp_l. f_equal. lia.
Qed.

Lemma slot_capacity v i : 0 < capacity v → slot v (i + capacity v) = slot v i.
Proof.
  intros. unfold slot. rewrite Z.add_assoc.
  rewrite <- (Z.mul_1_l (capacity v)) at 1. by rewrite Z.mod_add by lia.
Qed.

Lemma vrep_in_bounds k v l cells : vrep_in k v l cells → 0 < capacity v < 2 ^ 60.
Proof. intros [?? Hb Hs ?????]. unfold PTRDIFF_MAX in Hb. lia. Qed.

Lemma relock k k' v l cells :
  vrep_in k v l cells → vrep_in k' (set_rwlock k' v) l cells.
Proof. intros []. by split. Qed.

(** The flags of the struct in terms of the contents. *)
Lemma isfull_spec k v l cells : vrep_in k v l cells →
  vector_isfull v = (Z.of_nat (length l) =? capacity v).
Proof.
  intros R. unfold vector_isfull. rewrite (vr_isempty _ _ _ _ R), (vr_end _ _ _ _ R).
  pose proof (vr_start _ _ _ _ R). pose proof (vr_fits _ _ _ _ R).
  case_bool_decide as Hl; subst; cbn [negb andb length] in *; [by zbool|].
  assert (0 < Z.of_nat (length l)) by (destruct l; [done|cbn [length]; lia]).
  unfold slot. rewrite mod_wrap by lia. repeat zcase; lia.
Qed.

(** *** The four ways an operation moves an end of the window *)

Lemma add_last k v l cells x :
  vrep_in k v l cells → Z.of_nat (length l) < capacity v →
  vrep_in k
    (Vector (Live (<[Z.to_nat (end_ v) := Some x]> cells)) (start v)
       (get_next_index v (end_ v)) (capacity v) (rwlock v) false)
    (l ++ [x]) (<[Z.to_nat (end_ v) := Some x]> cells).
Proof.
  intros R Hlt. pose proof (vrep_in_bounds _ _ _ _ R).
  destruct R as [He Hlen Hb Hs Hf Hend Hem Hk Hc].
  pose proof (slot_range v (Z.of_nat (length l)) ltac:(lia)).
  rewrite next_index, Hend, slot_next by lia.
  split; cbn; rewrite ?length_insert, ?length_app; cbn; try lia.
  - done.
  - unfold slot; cbn. f_equal. lia.
  - by destruct l.
  - done.
  - intros i y Hi.
    destruct (decide (i = length l)) as [->|Hne].
    + rewrite lookup_app_r, Nat.sub_diag in Hi by lia. injection Hi as ->.
      apply list_lookup_insert_eq. lia.
    + assert (i < length l)%nat.
      { apply lookup_lt_Some in Hi. rewrite length_app in Hi. cbn in Hi. lia. }
      rewrite lookup_app_l in Hi by done.
      rewrite list_lookup_insert_ne; [by apply Hc|].
      intros Heq. apply Z2Nat.inj in Heq; [|lia|apply slot_range; cbn; lia].
      apply (slot_inj v) in Heq; lia.
Qed.

Lemma add_first k v l cells x :
  vrep_in k v l cells → Z.of_nat (length l) < capacity v →
  let index := get_prev_index v (start v) in
  vrep_in k
    (Vector (Live (<[Z.to_nat index := Some x]> cells)) index
       (end_ v) (capacity v) (rwlock v) false)
    (x :: l) (<[Z.to_nat index := Some x]> cells).
Proof.
  intros R Hlt index. pose proof (vrep_in_bounds _ _ _ _ R).
  destruct R as [He Hlen Hb Hs Hf Hend Hem Hk Hc].
  assert (index = slot v (-1)) as Hi.
  { subst index. rewrite prev_index by lia. unfold slot. f_equal. }
  pose proof (slot_range v (-1) ltac:(lia)).
  assert (Hsh : ∀ i, (index + i) mod capacity v = slot v (i - 1)).
  { intros i. rewrite Hi. unfold slot. rewrite Zplus_mod_idemp_l. f_equal. lia. }
  split; cbn [elements start end_ capacity rwlock isempty slot];
    rewrite ?length_insert; cbn [length]; try lia; try done.
  - unfold slot; cbn [start capacity]. rewrite Hsh, Hend. f_equal. lia.
  - intros [|i] y Hy; unfold slot; cbn [start capacity]; rewrite Hsh.
    + injection Hy as ->. change (Z.of_nat 0 - 1) with (-1). rewrite <- Hi.
      apply list_lookup_insert_eq. lia.
    + cbn in Hy. assert (i < length l)%nat by by eapply lookup_lt_Some.
      replace (Z.of_nat (S i) - 1) with (Z.of_nat i) by lia.
      rewrite list_lookup_insert_ne; [by apply Hc|].
      rewrite Hi. intros Heq. apply Z2Nat.inj in Heq; [|lia|apply slot_range; lia].
      rewrite <- (slot_capacity v (-1)) in Heq by lia.
      apply (slot_inj v) in Heq; lia.
Qed.

Lemma drop_last k v l cells x :
  vrep_in k v (l ++ [x]) cells →
  let index := get_prev_index v (end_ v) in
  cells !! Z.to_nat index = Some (Some x) ∧ 0 ≤ index ∧
  (index =? start v) = bool_decide (l = []) ∧
  vrep_in k (Vector (elements v) (start v) index (capacity v) (rwlock v)
               (bool_decide (l = []))) l cells.
Proof.
  intros R index. pose proof (vrep_in_bounds _ _ _ _ R).
  destruct R as [He Hlen Hb Hs Hf Hend Hem Hk Hc].
  rewrite length_app in *. cbn [length] in *.
  assert (index = slot v (Z.of_nat (length l))) as Hi.
  { pose proof (slot_range v (Z.of_nat (length l + 1)) ltac:(lia)).
    subst index. rewrite Hend, prev_index, slot_prev by lia. f_equal. lia. }
  clearbody index. subst index.
  pose proof (slot_range v (Z.of_nat (length l)) ltac:(lia)).
  split_and!; try lia.
  - apply Hc. by rewrite lookup_app_r, Nat.sub_diag by lia.
  - clear Hem. case_bool_decide as E1; [subst; cbn [length]; unfold slot; rewrite mod_wrap by lia; repeat zcase; lia|].
    assert (0 < Z.of_nat (length l)) by (destruct l; [done|cbn [length]; lia]).
    unfold slot. rewrite mod_wrap by lia. repeat zcase; lia.
  - split; cbn; try done; try lia.
    intros i y Hy. apply Hc. by apply lookup_app_l_Some.
Qed.

Lemma drop_first k v l cells x :
  vrep_in k v (x :: l) cells →
  let index := get_next_index v (start v) in
  cells !! Z.to_nat (start v) = Some (Some x) ∧
  (end_ v =? index) = bool_decide (l = []) ∧
  vrep_in k (Vector (elements v) index (end_ v) (capacity v) (rwlock v)
               (bool_decide (l = []))) l cells.
Proof.
  intros R index. pose proof (vrep_in_bounds _ _ _ _ R).
  destruct R as [He Hlen Hb Hs Hf Hend Hem Hk Hc]. cbn [length] in *.
  assert (Hi : index = slot v 1) by (subst index; rewrite next_index by lia; done).
  clearbody index. subst index.
  pose proof (slot_range v 1 ltac:(lia)).
  assert (Hsh : ∀ i, (slot v 1 + i) mod capacity v = slot v (i + 1)).
  { intros i. unfold slot. rewrite Zplus_mod_idemp_l. f_equal. lia. }
  split_and!.
  - specialize (Hc 0%nat x eq_refl). unfold slot in Hc. rewrite Z.add_0_r, Z.mod_small in Hc by lia.
    done.
  - clear Hem. case_bool_decide as E1; [subst; rewrite Hend; cbn [length]; by apply Z.eqb_refl|].
    assert (0 < Z.of_nat (length l)) by (destruct l; [done|cbn [length]; lia]).
    rewrite Hend. apply Z.eqb_neq. intros Heq.
    destruct (decide (Z.of_nat (S (length l)) = capacity v)) as [Hc'|].
    + rewrite Hc' in Heq.  unfold slot in Heq. rewrite !mod_wrap in Heq by lia.
      revert Heq. repeat zcase; lia.
    + apply (slot_inj v) in Heq; lia.
  - split; cbn [elements start end_ capacity rwlock isempty]; try done; try lia.
    + unfold slot; cbn [start capacity]. rewrite Hsh, Hend. f_equal. lia.
    + intros i y Hy. unfold slot; cbn [start capacity]. rewrite Hsh.
      replace (Z.of_nat i + 1) with (Z.of_nat (S i)) by lia. by apply Hc.
Qed.

(** *** Locking *)

Lemma wrlock_free v : rwlock v = RwFree →
  on_rwlock my_wrlock v = (Ok (), set_rwlock RwWrite v).
Proof. intros E1. unfold on_rwlock. mstep. by rewrite E1. Qed.
Lemma rdlock_free v : rwlock v = RwFree →
  on_rwlock my_rdlock v = (Ok (), set_rwlock (RwRead 1) v).
Proof. intros E1. unfold on_rwlock. mstep. by rewrite E1. Qed.
Lemma rwunlock_write v : rwlock v = RwWrite →
  on_rwlock my_rwunlock v = (Ok (), set_rwlock RwFree v).
Proof. intros E1. unfold on_rwlock. mstep. by rewrite E1. Qed.
Lemma rwunlock_read v : rwlock v = RwRead 1 →
  on_rwlock my_rwunlock v = (Ok (), set_rwlock RwFree v).
Proof. intros E1. unfold on_rwlock. mstep. by rewrite E1. Qed.

(** *** Growing *)

Lemma rotate_lookup {A} (cells : list A) s i :
  0 ≤ s < Z.of_nat (length cells) → 0 ≤ i < Z.of_nat (length cells) →
  (drop (Z.to_nat s) cells ++ take (Z.to_nat s) cells) !! Z.to_nat i =
    cells !! Z.to_nat ((s + i) mod Z.of_nat (length cells)).
Proof.
  intros Hs Hi. rewrite mod_wrap by lia. zcase.
  - rewrite lookup_app_l by (rewrite length_drop; lia).
    rewrite lookup_drop. f_equal. lia.
  - rewrite lookup_app_r by (rewrite length_drop; lia).
    rewrite length_drop, lookup_take_lt by lia. f_equal. lia.
Qed.

Lemma grow_cells (cells : list (option E)) s :
  0 ≤ s < Z.of_nat (length cells) →
  let c := Z.of_nat (length cells) in
  (new ← arr_copy (fresh_buffer (2 * c)) (Live cells) 0 s (c - s);
   arr_copy new (Live cells) (c - s) 0 s) =
    Ok (Live (drop (Z.to_nat s) cells ++ take (Z.to_nat s) cells
              ++ replicate (length cells) None)).
Proof.
  intros Hs c. subst c. unfold fresh_buffer.
  rewrite arr_copy_ok by (rewrite ?length_replicate; lia).
  unfold mbind, res_mbind. cbn [take app].
  rewrite arr_copy_ok;
    rewrite ?length_app, ?length_take, ?length_drop, ?length_replicate; try lia.
  change (Z.to_nat 0) with 0%nat. rewrite drop_0, take_0, !app_nil_l.
  rewrite (take_ge (drop _ cells)) by (rewrite length_drop; lia).
  rewrite take_app_length' by (rewrite length_drop; lia).
  rewrite drop_app_ge, !drop_replicate, length_drop by (rewrite length_drop; lia).
  repeat f_equal. lia.
Qed.

Lemma grow_spec k v l cells :
  vrep_in k v l cells → Z.of_nat (length l) = capacity v →
  malloc_ok (16 * capacity v) = true →
  ∃ v' cells', vector_grow v = (Ok RET_SUCCEED, v') ∧
    vrep_in k v' l cells' ∧ capacity v' = 2 * capacity v.
Proof.
  intros R Hfull Hok. pose proof (vrep_in_bounds _ _ _ _ R).
  pose proof (isfull_spec _ _ _ _ R) as Hf. rewrite Hfull, Z.eqb_refl in Hf.
  destruct R as [He Hlen Hb Hs Hfit Hend Hem Hk Hc].
  pose proof (grow_cells cells (start v)) as Hg. rewrite Hlen in Hg.
  cbv zeta in Hg. specialize (Hg Hs).
  unfold vector_grow, my_assert. mstep. rewrite Hf. mstep.
  unfold VECTOR_GROW_FACTOR.
  rewrite (u64_small (capacity v * 2)), (u64_small (capacity v - start v)) by lia.
  rewrite cq_malloc_ok by (rewrite u64_idemp, u64_small by lia; rewrite <- Hok; f_equal; lia).
  rewrite He. replace (capacity v * 2) with (2 * capacity v) by lia. mstep.
  unfold mbind, res_mbind in Hg.
  destruct (arr_copy (fresh_buffer _) _ _ _ _) as [b|] eqn:E1 in Hg |- *; [|done].
  cbn beta iota. rewrite Hg.
  eexists _, _. split_and!; [done| |done].
  split; cbn [elements start end_ capacity rwlock isempty set_elements set_start
              set_end set_capacity]; try done; try lia.
  - rewrite !length_app, length_drop, length_take, length_replicate. lia.
  - apply malloc_ok_bound in Hok. lia.
  - unfold slot; cbn. rewrite Z.mod_small; lia.
  - intros i y Hy. pose proof (lookup_lt_Some _ _ _ Hy).
    unfold slot; cbn. rewrite Z.mod_small by lia.
    rewrite app_assoc, lookup_app_l
      by (rewrite length_app, length_drop, length_take; lia).
    rewrite rotate_lookup by lia. rewrite Hlen. by apply Hc.
Qed.

Lemma grown_spec k v l cells :
  vrep_in k v l cells → room v →
  ∃ v' cells', full_and_not_grown v = (Ok false, v') ∧
    vrep_in k v' l cells' ∧ Z.of_nat (length l) < capacity v' ∧
    capacity v' = if vector_isfull v then 2 * capacity v else capacity v.
Proof.
  intros R Hroom. unfold full_and_not_grown, room in *. mstep.
  pose proof (isfull_spec _ _ _ _ R) as Hf. pose proof (vrep_in_bounds _ _ _ _ R).
  pose proof (vr_fits _ _ _ _ R).
  destruct (vector_isfull v).
  - symmetry in Hf. apply Z.eqb_eq in Hf.
    destruct (grow_spec _ _ _ _ R Hf (Hroom eq_refl)) as (v' & cells' & -> & R' & Hc).
    eexists _, _. split_and!; [done|done|lia|done].
  - symmetry in Hf. apply Z.eqb_neq in Hf. eexists _, _. split_and!; [done|done|lia|done].
Qed.

(** *** The operations, on a free vector *)

Lemma vector_push_back_spec v l x :
  vrep v l → room v →
  ∃ v', vector_push_back x v = (Ok RET_SUCCEED, v') ∧ vrep v' (l ++ [x]) ∧
    capacity v' = if vector_isfull v then 2 * capacity v else capacity v.
Proof.
  intros [cells R] Hroom. unfold vector_push_back.
  erewrite bind_ok by (apply wrlock_free, R).
  apply (relock _ RwWrite) in R.
  destruct (grown_spec _ _ _ _ R Hroom) as (v' & cells' & Hg & R' & Hlt & Hcap).
  erewrite bind_ok by done. cbn beta iota.
  pose proof (vrep_in_bounds _ _ _ _ R').
  pose proof (add_last _ _ _ _ x R' Hlt) as Hadd.
  mstep. rewrite (vr_elements _ _ _ _ R'), arr_write_ok.
  2: { rewrite (vr_end _ _ _ _ R'), (vr_length _ _ _ _ R'). apply slot_range. lia. }
  unfold on_rwlock. mstep. cbn. rewrite (vr_rwlock _ _ _ _ R'). cbn.
  eexists. split_and!; [done| |done]. eexists.
  by apply (relock _ RwFree) in Hadd.
Qed.

Lemma vector_unshift_spec v l x :
  vrep v l → room v →
  ∃ v', vector_unshift x v = (Ok RET_SUCCEED, v') ∧ vrep v' (x :: l).
Proof.
  intros [cells R] Hroom. unfold vector_unshift.
  erewrite bind_ok by (apply wrlock_free, R).
  apply (relock _ RwWrite) in R.
  destruct (grown_spec _ _ _ _ R Hroom) as (v' & cells' & Hg & R' & Hlt & Hcap).
  erewrite bind_ok by done. cbn beta iota.
  pose proof (vrep_in_bounds _ _ _ _ R'). pose proof (vr_start _ _ _ _ R').
  pose proof (add_first _ _ _ _ x R' Hlt) as Hadd.
  mstep. rewrite (vr_elements _ _ _ _ R'), arr_write_ok.
  2: { rewrite (vr_length _ _ _ _ R'), prev_index by lia. apply Z.mod_pos_bound. lia. }
  unfold on_rwlock. mstep. cbn. rewrite (vr_rwlock _ _ _ _ R'). cbn.
  eexists. split; [done|]. eexists.
  by apply (relock _ RwFree) in Hadd.
Qed.

Lemma vector_pop_spec v l :
  vrep v l →
  ∃ v', vector_pop v = (Ok (last l), v') ∧ vrep v' (take (pred (length l)) l).
Proof.
  intros [cells R]. unfold vector_pop.
  erewrite bind_ok by (apply wrlock_free, R).
  apply (relock _ RwWrite) in R.
  set (v0 := set_rwlock RwWrite v) in *. clearbody v0.
  pose proof (vr_rwlock _ _ _ _ R) as Hk.
  mstep. rewrite (vr_isempty _ _ _ _ R). case_bool_decide as Hl; subst.
  - rewrite rwunlock_write by done. eexists. split; [done|].
    exists cells. by eapply (relock _ RwFree).
  - destruct (list_snoc_inv l Hl) as (l' & x & ->).
    destruct (drop_last _ _ _ _ _ R) as (Hx & Hi & Hb & R').
    rewrite (vr_elements _ _ _ _ R), (arr_read_ok _ _ x) by done. cbn [end_ start set_end].
    rewrite Hb. rewrite last_snoc, length_app. cbn [length].
    rewrite Nat.add_1_r. cbn [pred]. rewrite take_app_length.
    unfold on_rwlock. mstep.
    exists (set_rwlock RwFree (Vector (elements v0) (start v0) (get_prev_index v0 (end_ v0))
       (capacity v0) (rwlock v0) (bool_decide (l' = [])))).
    split; [|exists cells; by apply (relock _ RwFree) in R'].
    case_bool_decide; cbn; rewrite Hk; cbn; [done|].
    unfold set_rwlock, set_end, set_start. cbn.
    by rewrite (vr_isempty _ _ _ _ R), bool_decide_false.
Qed.

Lemma vector_shift_spec v l :
  vrep v l → ∃ v', vector_shift v = (Ok (head l), v') ∧ vrep v' (tail l).
Proof.
  intros [cells R]. unfold vector_shift.
  erewrite bind_ok by (apply wrlock_free, R).
  apply (relock _ RwWrite) in R.
  set (v0 := set_rwlock RwWrite v) in *. clearbody v0.
  pose proof (vr_rwlock _ _ _ _ R) as Hk. pose proof (vr_start _ _ _ _ R).
  mstep. rewrite (vr_isempty _ _ _ _ R). case_bool_decide as Hl; subst.
  - rewrite rwunlock_write by done. eexists. split; [done|].
    exists cells. by eapply (relock _ RwFree).
  - destruct l as [|x l']; [done|]. cbn [head tail].
    destruct (drop_first _ _ _ _ _ R) as (Hx & Hb & R').
    rewrite (vr_elements _ _ _ _ R), (arr_read_ok _ _ x) by (done || lia).
    cbn [end_ start set_start]. rewrite Hb.
    unfold on_rwlock. mstep.
    exists (set_rwlock RwFree (Vector (elements v0) (get_next_index v0 (start v0)) (end_ v0)
       (capacity v0) (rwlock v0) (bool_decide (l' = [])))).
    split; [|exists cells; by apply (relock _ RwFree) in R'].
    case_bool_decide; cbn; rewrite Hk; cbn; [done|].
    unfold set_rwlock, set_end, set_start. cbn.
    by rewrite (vr_isempty _ _ _ _ R), bool_decide_false.
Qed.

Lemma vector_size_spec v l :
  vrep v l → vector_size v = (Ok (Z.of_nat (length l)), v).
Proof.
  intros [cells R]. unfold vector_size.
  erewrite bind_ok by (apply rdlock_free, R). mstep.
  rewrite rwunlock_read by done. cbn [isempty start end_ capacity set_rwlock].
  pose proof (vrep_in_bounds _ _ _ _ R).
  destruct R as [He Hlen Hb Hs Hf Hend Hem Hk Hc].
  assert (set_rwlock RwFree (set_rwlock (RwRead 1) v) = v) as ->.
  { destruct v; cbn in *. by subst. }
  f_equal. f_equal. rewrite Hem. clear Hem. case_bool_decide as Hl; [by subst|].
  assert (0 < Z.of_nat (length l)) by (destruct l; [done|cbn [length]; lia]).
  rewrite Hend. unfold slot. rewrite mod_wrap by lia.
  repeat zcase; rewrite ?(u64_small (_ - _)) by lia; rewrite ?u64_small; lia.
Qed.

Lemma vector_get_spec v l (i : Z) :
  vrep v l → 0 ≤ i < Z.of_nat (length l) →
  vector_get i v = (Ok (l !! Z.to_nat i), v).
Proof.
  intros [cells R] Hi. unfold vector_get.
  erewrite bind_ok by (apply rdlock_free, R). mstep.
  cbn [isempty start end_ capacity elements set_rwlock].
  pose proof (vrep_in_bounds _ _ _ _ R). pose proof (real_index v i) as Hr.
  destruct R as [He Hlen Hb Hs Hf Hend Hem Hk Hc].
  rewrite Hem, bool_decide_false by (intros ->; cbn in Hi; lia). zbool. cbn [orb].
  change (get_real_index (set_rwlock (RwRead 1) v) i) with (get_real_index v i).
  rewrite Hr by lia.
  destruct (l !! Z.to_nat i) as [x|] eqn:Hx; [|apply lookup_ge_None in Hx; lia].
  rewrite He, (arr_read_ok _ _ x).
  - rewrite rwunlock_read by done. f_equal. destruct v; cbn in *; by subst.
  - apply slot_range. lia.
  - apply Hc in Hx. by rewrite Z2Nat.id in Hx by lia.
Qed.

(** Beyond the capacity, or on an empty vector, the result is [NULL]. *)
Lemma get_beyond v l (i : Z) :
  vrep v l → l = [] ∨ capacity v ≤ i → vector_get i v = (Ok None, v).
Proof.
  intros [cells R] Hi. unfold vector_get.
  erewrite bind_ok by (apply rdlock_free, R). mstep.
  cbn [isempty capacity set_rwlock].
  destruct R as [He Hlen Hb Hs Hf Hend Hem Hk Hc]. rewrite Hem.
  replace (bool_decide (l = []) || (capacity v <=? i)) with true.
  - rewrite rwunlock_read by done. f_equal. destruct v; cbn in *; by subst.
  - clear Hem. case_bool_decide; [done|]. destruct Hi; [done|]. zbool. done.
Qed.

(** *** Releasing the entries *)

Lemma free_entries_run k v l cells (j : nat) :
  vrep_in k v l cells → Z.of_nat (length l) < capacity v → (j ≤ length l)%nat →
  run (λ '(i, freed),
         if i =? end_ v then inr (Ok freed) else
         match arr_read (elements v) i with
         | Ok e => inl (get_next_index v i, freed ++ [e])
         | Stop w => inr (Stop w)
         end) (S (length l - j)) (slot v (Z.of_nat j), take j l) = inr (Ok l).
Proof.
  intros R Hlt. pose proof (vrep_in_bounds _ _ _ _ R).
  destruct R as [He Hlen Hb Hs Hf Hend Hem Hk Hc].
  remember (length l - j)%nat as n eqn:Hn. revert j Hn.
  induction n as [|n IH]; intros j Hn Hj; cbn [run].
  - replace j with (length l) by lia. rewrite Hend, Z.eqb_refl.
    by rewrite take_ge by lia.
  - rewrite (proj2 (Z.eqb_neq _ _)).
    2: { rewrite Hend. intros Heq. apply (slot_inj v) in Heq; lia. }
    destruct (l !! j) as [x|] eqn:Hx; [|apply lookup_ge_None in Hx; lia].
    rewrite He, (arr_read_ok _ _ x) by (by apply Hc || (apply slot_range; lia)).
    rewrite next_index, slot_next by (try apply slot_range; lia).
    rewrite <- (take_S_r l j x) by done.
    replace (Z.of_nat j + 1) with (Z.of_nat (S j)) by lia.
    rewrite <- He. apply IH; lia.
Qed.

(** Every entry is released, unless the vector is full. *)
Lemma free_entries_spec k v l cells :
  vrep_in k v l cells →
  free_entries v = Ok (if Z.of_nat (length l) =? capacity v then [] else l).
Proof.
  intros R. unfold free_entries. pose proof (vrep_in_bounds _ _ _ _ R).
  zcase.
  - assert (Hend : (start v =? end_ v) = true).
    { pose proof (isfull_spec _ _ _ _ R) as Hfull.
      rewrite (proj2 (Z.eqb_eq _ _)) in Hfull by done.
      unfold vector_isfull in Hfull. apply andb_true_iff in Hfull as [_ Hfull].
      by rewrite Z.eqb_sym. }
    erewrite (loop_of_run _ 1); [done| |apply P64_ge; lia].
    cbn [run]. by rewrite Hend.
  - assert (Z.of_nat (length l) < capacity v) as Hlt.
    { pose proof (vr_fits _ _ _ _ R). lia. }
    pose proof (free_entries_run _ _ _ _ 0 R Hlt ltac:(lia)) as Hrun.
    unfold slot in Hrun. pose proof (vr_start _ _ _ _ R).
    rewrite Z.add_0_r, Z.mod_small, take_0, Nat.sub_0_r in Hrun by lia.
    erewrite loop_of_run; [|exact Hrun|]; [done|].
    apply P64_ge. lia.
Qed.

Lemma vector_alloc_spec :
  malloc_ok sizeof_vector_t = true → malloc_ok 80 = true →
  ∃ v, vector_alloc (E:=E) tt = (Ok v, tt) ∧ vrep v [] ∧ capacity v = VECTOR_INIT_SIZE.
Proof.
  intros H1 H2. unfold vector_alloc. rewrite (bind_ok _ _ tt () tt).
  2: { apply cq_malloc_ok. by rewrite <- H1. }
  rewrite (bind_ok _ _ tt (fresh_buffer VECTOR_INIT_SIZE) tt).
  2: { apply cq_malloc_ok. by rewrite <- H2. }
  eexists. split_and!; [done| |done].
  exists (replicate 10 None). split; try done; unfold PTRDIFF_MAX; cbn; lia.
Qed.

Lemma push_back_oom v l x :
  vrep v l → vector_isfull v = true → malloc_ok (16 * capacity v) = false →
  ∃ v', vector_push_back x v = (Stop Aborted, v').
Proof.
  intros [cells R] Hfull Hoom. unfold vector_push_back.
  pose proof (vrep_in_bounds _ _ _ _ R).
  erewrite bind_ok by (apply wrlock_free, R).
  set (v0 := set_rwlock RwWrite v).
  assert (vector_isfull v0 = true) as Hf0 by done.
  assert (capacity v0 = capacity v) as Hc0 by done. clearbody v0.
  unfold full_and_not_grown, vector_grow, my_assert, VECTOR_GROW_FACTOR.
  mstep. rewrite Hf0. mstep. rewrite Hf0. mstep. rewrite Hc0.
  rewrite (u64_small (capacity v * 2)) by lia.
  rewrite cq_malloc_abort; [by eexists|].
  rewrite u64_idemp, u64_small by lia. rewrite <- Hoom. f_equal. lia.
Qed.
End proofs.

(** ** The vector as a double-ended queue *)

Section deque.
Context `{Allocator} {E : Type}.

Inductive vop :=
  | PushBack (x : E) | Pop | Unshift (x : E) | Shift | Get (i : Z) | Size | IsEmpty.
Inductive vout :=
  | ORet (r : ret_t) | OEntry (e : option E) | OSize (n : Z) | OBool (b : bool).

Definition vector_exec (o : vop) : M (vector E) vout :=
  match o with
  | PushBack x => r ← vector_push_back x; mret (ORet r)
  | Pop => e ← vector_pop; mret (OEntry e)
  | Unshift x => r ← vector_unshift x; mret (ORet r)
  | Shift => e ← vector_shift; mret (OEntry e)
  | Get i => e ← vector_get i; mret (OEntry e)
  | Size => n ← vector_size; mret (OSize n)
  | IsEmpty => b ← vector_isempty; mret (OBool b)
  end.

Fixpoint vector_run (ops : list vop) : M (vector E) (list vout) :=
  match ops with
  | [] => mret []
  | o :: ops => r ← vector_exec o; rs ← vector_run ops; mret (r :: rs)
  end.

(** The abstract queue: its state is the list of its entries. *)
Definition deque_exec (o : vop) (l : list E) : vout * list E :=
  match o with
  | PushBack x => (ORet RET_SUCCEED, l ++ [x])
  | Pop => (OEntry (last l), take (pred (length l)) l)
  | Unshift x => (ORet RET_SUCCEED, x :: l)
  | Shift => (OEntry (head l), tail l)
  | Get i => (OEntry (l !! Z.to_nat i), l)
  | Size => (OSize (Z.of_nat (length l)), l)
  | IsEmpty => (OBool (bool_decide (l = [])), l)
  end.

(** An index is only asked for below the current size. *)
Definition deque_legal (o : vop) (l : list E) : Prop :=
  match o with Get i => 0 ≤ i < Z.of_nat (length l) | _ => True end.

Fixpoint deque_run (ops : list vop) (l : list E) : list vout * list E :=
  match ops with
  | [] => ([], l)
  | o :: ops => let '(r, l) := deque_exec o l in
                let '(rs, l) := deque_run ops l in (r :: rs, l)
  end.

Fixpoint deque_run_legal (ops : list vop) (l : list E) : Prop :=
  match ops with
  | [] => True
  | o :: ops => deque_legal o l ∧ deque_run_legal ops (deque_exec o l).2
  end.

Lemma exec_refines o v l :
  vrep v l → deque_legal o l → room v →
  ∃ v', vector_exec o v = (Ok (deque_exec o l).1, v') ∧ vrep v' (deque_exec o l).2.
Proof.
  intros R Hlegal Hroom. destruct o as [x| |x| |i| |]; cbn in *.
  - destruct (vector_push_back_spec v l x R Hroom) as (v' & Hx & R' & _).
    erewrite bind_ok by done. by eexists.
  - destruct (vector_pop_spec v l R) as (v' & Hx & R'). erewrite bind_ok by done. by eexists.
  - destruct (vector_unshift_spec v l x R Hroom) as (v' & Hx & R').
    erewrite bind_ok by done. by eexists.
  - destruct (vector_shift_spec v l R) as (v' & Hx & R'). erewrite bind_ok by done. by eexists.
  - erewrite bind_ok by by apply vector_get_spec. by eexists.
  - erewrite bind_ok by by apply vector_size_spec. by eexists.
  - eexists. split; [|done]. destruct R as [cells R].
    unfold vector_isempty. mstep. by rewrite (vr_isempty _ _ _ _ R).
Qed.

Lemma deque_exec_length o (l : list E) :
  (length (deque_exec o l).2 ≤ S (length l))%nat.
Proof.
  destruct o; cbn; rewrite ?length_app, ?length_take; cbn; try lia.
  destruct l; cbn; lia.
Qed.

Lemma room_of_memory v (l : list E) (n : nat) :
  vrep v l → (∀ m, m ≤ 16 * Z.of_nat (length l + n) → malloc_ok m = true) → room v.
Proof.
  intros [cells R] Hmem Hfull. rewrite (isfull_spec _ _ _ _ R) in Hfull.
  apply Z.eqb_eq in Hfull. apply Hmem. lia.
Qed.
End deque.
Arguments vop : clear implicits.
Arguments vout : clear implicits.

(** ** Properties *)

Section properties.
Context `{Allocator} {E : Type}.
Implicit Types (v : vector E) (l : list E).

(** C3 (refinement). Every sequence of operations on a vector
    (push, pop, unshift, shift, size, isempty, get below the size) returns
    what the double-ended queue returns and leaves the vector representing
    the queue's contents, across any number of growths, when the allocator
    can serve twice the entries. *)
Theorem vector_refines_deque (ops : list (vop E)) v l :
  vrep v l → deque_run_legal ops l →
  (∀ n, n ≤ 16 * Z.of_nat (length l + length ops) → malloc_ok n = true) →
  ∃ v', vector_run ops v = (Ok (deque_run ops l).1, v') ∧ vrep v' (deque_run ops l).2.
Proof.
  revert v l. induction ops as [|o ops IH]; intros v l R Hlegal Hmem; cbn in *.
  - by eexists.
  - destruct Hlegal as [Ho Hops].
    destruct (exec_refines o v l R Ho) as (v1 & H1 & R1).
    { by eapply room_of_memory. }
    pose proof (deque_exec_length o l) as Hlen.
    destruct (IH v1 (deque_exec o l).2 R1 Hops) as (v2 & H2 & R2).
    { intros n Hn. apply Hmem. lia. }
    erewrite bind_ok by done. erewrite bind_ok by done. exists v2.
    destruct (deque_exec o l) as [r l1]. cbn in *.
    by destruct (deque_run ops l1) as [rs l2].
Qed.

(** A push on a vector of any size succeeds and appends, the
    capacity doubling exactly when the ring is full; the only other outcome
    is [abort()], when the ring is full and the allocator refuses the
    [16 * capacity] bytes, a size that never wraps around. *)
Theorem vector_push_back_growth v l x :
  vrep v l →
  u64 (u64 (capacity v * VECTOR_GROW_FACTOR) * 8) = 16 * capacity v ∧
  ∃ v', vector_push_back x v =
    (if vector_isfull v && negb (malloc_ok (16 * capacity v)) then Stop Aborted
     else Ok RET_SUCCEED, v') ∧
  (vector_isfull v && negb (malloc_ok (16 * capacity v)) = false →
     vrep v' (l ++ [x]) ∧
     capacity v' = if vector_isfull v then 2 * capacity v else capacity v).
Proof.
  intros R. split.
  { destruct R as [cells R]. pose proof (vrep_in_bounds _ _ _ _ R).
    unfold VECTOR_GROW_FACTOR. rewrite (u64_small (capacity v * 2)), u64_small; lia. }
  destruct (vector_isfull v && negb (malloc_ok (16 * capacity v))) eqn:Hoom.
  - apply andb_true_iff in Hoom as [Hfull Hno]. apply negb_true_iff in Hno.
    destruct (push_back_oom v l x R Hfull Hno) as [v' Hx]. by exists v'.
  - destruct (vector_push_back_spec v l x R) as (v' & Hx & R' & Hc); [|by exists v'].
    intros Hfull. rewrite Hfull in Hoom. by destruct (malloc_ok _).
Qed.

(** A push appends, or there is no memory. *)
Lemma vector_push_back_runs v l x : vrep v l →
  runs aborts (vector_push_back x) v (λ r v', r = RET_SUCCEED ∧ vrep v' (l ++ [x])).
Proof.
  intros R. destruct (vector_push_back_growth v l x R) as (_ & v' & Hx & Hv). unfold runs.
  rewrite Hx. destruct (vector_isfull v && _); [done|]. split; [done|by apply Hv].
Qed.

(** What [vector_destroy] frees: all or, when the ring is exactly full, nothing. *)
Definition freed_of v l : list E := if Z.of_nat (length l) =? capacity v then [] else l.

Lemma vector_destroy_ok v l : vrep v l → ∃ v', vector_destroy v = (Ok (freed_of v l), v').
Proof.
  intros [cells R]. unfold vector_destroy.
  erewrite bind_ok by (apply wrlock_free, R).
  apply (relock _ RwWrite) in R. mstep. rewrite (free_entries_spec _ _ _ _ R). by eexists.
Qed.

(** C38 (release). [vector_destroy] applies the free function to the entries
    once each, front to back, except when the ring is exactly full: then
    [start == end] and it frees none of them. *)
Theorem vector_destroy_releases v l :
  vrep v l →
  (vector_destroy v).1 =
    Ok (if Z.of_nat (length l) =? capacity v then [] else l).
Proof. intros R. destruct (vector_destroy_ok v l R) as [v' Hd]. by rewrite Hd. Qed.

(** [vector_empty] releases like [vector_destroy] and gives an
    empty vector of the initial capacity back; but when [realloc] moved the
    block, the vector keeps the old pointer and the next push is a use
    after free. *)
Theorem vector_empty_resets v l x :
  vrep v l → malloc_ok 80 = true →
  ∃ v', vector_empty v =
    (Ok (RET_SUCCEED, if Z.of_nat (length l) =? capacity v then [] else l), v') ∧
  if realloc_in_place (u64 (8 * capacity v)) 80 then vrep v' []
  else (vector_push_back x v').1 = Stop (Undefined UseAfterFree).
Proof.
  intros [cells R] Hmem. unfold vector_empty.
  pose proof (vrep_in_bounds _ _ _ _ R) as Hb.
  erewrite bind_ok by (apply wrlock_free, R).
  apply (relock _ RwWrite) in R.
  set (v0 := set_rwlock RwWrite v) in *.
  change (capacity v) with (capacity v0) in *. clearbody v0.
  assert ((if isempty v0 then mret [] else mlift (free_entries v0)) v0 =
    (Ok (if Z.of_nat (length l) =? capacity v0 then [] else l), v0)) as Hfree.
  { pose proof (free_entries_spec _ _ _ _ R) as Hfe. rewrite (vr_isempty _ _ _ _ R).
    case_bool_decide; subst; mstep; [|by rewrite Hfe].
    cbn [length]. by destruct (Z.of_nat 0 =? capacity v0). }
  unfold mget. mstep. unfold M_mret, mret, mlift in Hfree. rewrite Hfree.
  unfold my_realloc. rewrite (vr_elements _ _ _ _ R).
  change (u64 (8 * VECTOR_INIT_SIZE)) with 80. rewrite Hmem. cbn [negb andb Z.eqb].
  unfold on_rwlock. mstep. cbn.
  rewrite (vr_rwlock _ _ _ _ R). cbn. eexists. split; [done|].
  destruct (realloc_in_place _ _).
  - eexists. split; try done; cbn [elements capacity start end_ set_elements].
    cbn. rewrite length_app, length_take, length_replicate.
    unfold VECTOR_INIT_SIZE. lia.
  - done.
Qed.

(** An index below the size gives the entry; one at or above the
    capacity, or any index of an empty vector, gives [NULL]; in no case does
    a read change the vector. *)
Theorem vector_get_range v l (i : Z) :
  vrep v l → 0 ≤ i →
  (i < Z.of_nat (length l) → vector_get i v = (Ok (l !! Z.to_nat i), v)) ∧
  (l = [] ∨ capacity v ≤ i → vector_get i v = (Ok None, v)).
Proof.
  intros R Hi. split; intros Hx; [by apply vector_get_spec|by eapply get_beyond].
Qed.
End properties.

(** ** Witnesses *)

Definition sample_vector : vector nat :=
  Vector (Live [Some 1; None; None; None; None; None; None; None; None; Some 0])%nat
    9 1 10 RwFree false.

Definition full_vector : vector nat :=
  Vector (Live [Some 3; Some 4; Some 5; Some 6; Some 7; Some 8; Some 9; Some 0; Some 1;
                Some 2])%nat 7 7 10 RwFree false.

Definition sample_rep : @vrep nat sample_vector [0%nat; 1%nat].
Proof.
  eexists. split; try reflexivity; try (vm_compute; intuition congruence).
  intros [|[|i]] x Hx; try discriminate Hx; by injection Hx as <-.
Defined.

Definition full_rep : @vrep nat full_vector (seq 0 10).
Proof.
  eexists. split; try reflexivity; try (vm_compute; intuition congruence).
  intros i x Hx. do 10 (destruct i as [|i]; [by injection Hx as <-|]). discriminate Hx.
Defined.

Local Existing Instance roomy_allocator.

Example vector_refines_deque_witness :
  ∃ v', vector_run [Shift; PushBack 7%nat; Get 1; Size] sample_vector =
    (Ok [OEntry (Some 0%nat); ORet RET_SUCCEED; OEntry (Some 7%nat); OSize 2], v') ∧
    vrep v' [1%nat; 7%nat].
Proof.
  apply (vector_refines_deque [Shift; PushBack 7%nat; Get 1; Size] _ [0%nat; 1%nat]).
  - apply sample_rep.
  - cbn. repeat split; lia.
  - intros n Hn. apply Z.leb_le. unfold PTRDIFF_MAX. cbn in Hn. lia.
Defined.

Example vector_push_back_growth_witness :
  u64 (u64 (10 * VECTOR_GROW_FACTOR) * 8) = 160 ∧
  ∃ v', vector_push_back 77%nat full_vector = (Ok RET_SUCCEED, v') ∧
    (false = false → vrep v' (seq 0 10 ++ [77%nat]) ∧ capacity v' = 20).
Proof. exact (vector_push_back_growth full_vector (seq 0 10) 77%nat full_rep). Defined.

Example vector_destroy_releases_witness :
  (vector_destroy sample_vector).1 = Ok [0%nat; 1%nat] ∧
  (vector_destroy full_vector).1 = Ok [].
Proof.
  split.
  - exact (vector_destroy_releases sample_vector _ sample_rep).
  - exact (vector_destroy_releases full_vector _ full_rep).
Defined.

Example vector_empty_resets_witness :
  ∃ v', @vector_empty moving_allocator nat sample_vector =
    (Ok (RET_SUCCEED, [0%nat; 1%nat]), v') ∧
    (@vector_push_back moving_allocator nat 5%nat v').1 = Stop (Undefined UseAfterFree).
Proof.
  exact (@vector_empty_resets moving_allocator nat sample_vector _ 5%nat sample_rep eq_refl).
Defined.

Example vector_get_range_witness :
  (1 < 2 → vector_get 1 sample_vector = (Ok (Some 1%nat), sample_vector)) ∧
  ([0%nat; 1%nat] = [] ∨ 10 ≤ 1 → vector_get 1 sample_vector = (Ok None, sample_vector)).
Proof. apply (vector_get_range sample_vector _ 1 sample_rep). lia. Defined.
