(* ===== verification/Mix.v ===== *)
(** * Mix: the 64-bit mixing function and the random string generator

    [mix64], [frandom] and [string_frandom] of src/src/mylib/frandom.c (the
    mixing macro is the one of hash.c as well).  Words are integers reduced by
    [u64] wherever the C arithmetic wraps; bytes are integers in [0, 256). *)

From stdpp Require Import base list sorting.
From Stdlib Require Import ZArith Lia.
From S2P Require Import Prelude.
Local Open Scope Z_scope.

(** ** [mix64] *)

(** One line of the macro: [x -= y; x -= z; x ^= (z >> k)], or [(z << k)]. *)
Definition mixr (x y z k : Z) : Z := Z.lxor (u64 (u64 (x - y) - z)) (Z.shiftr z k).
Definition mixl (x y z k : Z) : Z := Z.lxor (u64 (u64 (x - y) - z)) (u64 (Z.shiftl z k)).

(** The line is applied to [a], [b] or [c], the other two in the order
    [a -= b; a -= c], [b -= c; b -= a], [c -= a; c -= b]. *)
Definition on_a (f : Z → Z → Z → Z → Z) k (t : Z * Z * Z) :=
  let '(a, b, c) := t in (f a b c k, b, c).
Definition on_b (f : Z → Z → Z → Z → Z) k (t : Z * Z * Z) :=
  let '(a, b, c) := t in (a, f b c a k, c).
Definition on_c (f : Z → Z → Z → Z → Z) k (t : Z * Z * Z) :=
  let '(a, b, c) := t in (a, b, f c a b k).

Definition mix64 (t : Z * Z * Z) : Z * Z * Z :=
  let t := on_a mixr 43 t in
  let t := on_b mixl 9 t in
  let t := on_c mixr 8 t in
  let t := on_a mixr 38 t in
  let t := on_b mixl 23 t in
  let t := on_c mixr 5 t in
  let t := on_a mixr 35 t in
  let t := on_b mixl 49 t in
  let t := on_c mixr 11 t in
  let t := on_a mixr 12 t in
  let t := on_b mixl 18 t in
  let t := on_c mixr 22 t in
  t.

(** The inverse of one line, and of the macro, line by line from the last. *)
Definition unmixr (x y z k : Z) : Z := u64 (u64 (Z.lxor x (Z.shiftr z k) + z) + y).
Definition unmixl (x y z k : Z) : Z := u64 (u64 (Z.lxor x (u64 (Z.shiftl z k)) + z) + y).

Definition unmix64 (t : Z * Z * Z) : Z * Z * Z :=
  let t := on_c unmixr 22 t in
  let t := on_b unmixl 18 t in
  let t := on_a unmixr 12 t in
  let t := on_c unmixr 11 t in
  let t := on_b unmixl 49 t in
  let t := on_a unmixr 35 t in
  let t := on_c unmixr 5 t in
  let t := on_b unmixl 23 t in
  let t := on_a unmixr 38 t in
  let t := on_c unmixr 8 t in
  let t := on_b unmixl 9 t in
  let t := on_a unmixr 43 t in
  t.

Definition is_u64 (z : Z) : Prop := 0 ≤ z < 2 ^ 64.
Definition is_u64_triple (t : Z * Z * Z) : Prop :=
  is_u64 t.1.1 ∧ is_u64 t.1.2 ∧ is_u64 t.2.

(** ** [frandom] *)

Definition GOLDEN : Z := 0x9e3779b97f4a7c13.

Definition frandom (k level : Z) : Z :=
  let c := GOLDEN in
  let b := level in
  let a := u64 (k + level) in
  let '(a, b, c) := mix64 (a, b, c) in c.

(** ** [string_frandom] *)

Definition bit_sets : list Z :=
  [0x3030303030303030; 0x4040404040404040; 0x5050505050505050; 0x6060606060606060].
Definition bit_masks : list Z :=
  [0x3f3f3f3f3f3f3f3f; 0x4f4f4f4f4f4f4f4f; 0x5f5f5f5f5f5f5f5f; 0x6f6f6f6f6f6f6f6f].

(** The bytes of a word in memory (little-endian). *)
Definition word_bytes (w : Z) : list Z :=
  map (λ i, Z.land (Z.shiftr w (8 * i)) 255) [0; 1; 2; 3; 4; 5; 6; 7].

(** [(rd & BIT_MASK) | BIT_SET] *)
Definition masked (BIT_MASK BIT_SET rd : Z) : Z := Z.lor (Z.land rd BIT_MASK) BIT_SET.

Local Infix "^^" := Z.lxor (at level 50, left associativity).

(** The generators: the raw words they store, and the level they leave. *)
Definition string_gen_1 (seed level : Z) : list Z * Z :=
  ([frandom seed level], u64 (level + 1)).

Definition string_gen_2 (seed level : Z) : list Z * Z :=
  let rd1 := frandom seed level in
  let level := u64 (level + 1) in
  let rd2 := frandom seed level in
  let level := u64 (level + 1) in
  ([rd1; rd2; rd1 ^^ rd2], level).

Definition string_gen_3 (seed level : Z) : list Z * Z :=
  let rd1 := frandom seed level in
  let level := u64 (level + 1) in
  let rd2 := frandom seed level in
  let level := u64 (level + 1) in
  let rd3 := frandom seed level in
  let level := u64 (level + 1) in
  let rd_12 := rd1 ^^ rd2 in
  ([rd1; rd2; rd3; rd_12; rd1 ^^ rd3; rd2 ^^ rd3; rd_12 ^^ rd3], level).

Definition string_gen_4 (seed level : Z) : list Z * Z :=
  let rd1 := frandom seed level in
  let level := u64 (level + 1) in
  let rd2 := frandom seed level in
  let level := u64 (level + 1) in
  let rd3 := frandom seed level in
  let level := u64 (level + 1) in
  let rd4 := frandom seed level in
  let level := u64 (level + 1) in
  let rd_12 := rd1 ^^ rd2 in
  let rd_23 := rd2 ^^ rd3 in
  let rd_34 := rd3 ^^ rd4 in
  let rd_123 := rd_12 ^^ rd3 in
  ([rd1; rd2; rd3; rd4; rd_12; rd1 ^^ rd3; rd1 ^^ rd4; rd_23; rd2 ^^ rd4; rd_34;
    rd_123; rd_12 ^^ rd4; rd1 ^^ rd_34; rd_23 ^^ rd4; rd_123 ^^ rd4], level).

Definition string_gen_5 (seed level : Z) : list Z * Z :=
  let rd1 := frandom seed level in
  let level := u64 (level + 1) in
  let rd2 := frandom seed level in
  let level := u64 (level + 1) in
  let rd3 := frandom seed level in
  let level := u64 (level + 1) in
  let rd4 := frandom seed level in
  let level := u64 (level + 1) in
  let rd5 := frandom seed level in
  let level := u64 (level + 1) in
  let rd_12 := rd1 ^^ rd2 in
  let rd_13 := rd1 ^^ rd3 in
  let rd_23 := rd2 ^^ rd3 in
  let rd_34 := rd3 ^^ rd4 in
  let rd_45 := rd4 ^^ rd5 in
  let rd_123 := rd_12 ^^ rd3 in
  let rd_234 := rd_23 ^^ rd4 in
  let rd_345 := rd_34 ^^ rd5 in
  let rd_1234 := rd_123 ^^ rd4 in
  ([rd1; rd2; rd3; rd4; rd5; rd_12; rd_13; rd1 ^^ rd4; rd1 ^^ rd5; rd_23; rd2 ^^ rd4;
    rd2 ^^ rd5; rd_34; rd3 ^^ rd5; rd_45; rd_123; rd_12 ^^ rd4; rd_12 ^^ rd5;
    rd_13 ^^ rd4; rd_13 ^^ rd5; rd1 ^^ rd_45; rd_234; rd_23 ^^ rd5; rd2 ^^ rd_45;
    rd_345; rd_1234; rd_123 ^^ rd5; rd_12 ^^ rd_45; rd1 ^^ rd_345; rd2 ^^ rd_345;
    rd_1234 ^^ rd5], level).

(** One round of the [while (len > 0)] loop: the generator selected by the
    remaining length, or the last partial word and [break].  The state is the
    remaining length, the level and the bytes written so far. *)
Definition string_frandom_step (seed BIT_MASK BIT_SET : Z)
    (s : Z * Z * list Z) : Z * Z * list Z + list Z :=
  let '(len, level, buf) := s in
  let fill (size : Z) (g : list Z * Z) :=
    inl (len - size, g.2, buf ++ concat (map (word_bytes ∘ masked BIT_MASK BIT_SET) g.1)) in
  if negb (0 <? len) then inr buf
  else if 248 <=? len then fill 248 (string_gen_5 seed level)
  else if 120 <=? len then fill 120 (string_gen_4 seed level)
  else if 56 <=? len then fill 56 (string_gen_3 seed level)
  else if 24 <=? len then fill 24 (string_gen_2 seed level)
  else if 8 <=? len then fill 8 (string_gen_1 seed level)
  else inr (buf ++ take (Z.to_nat len)
              (word_bytes (masked BIT_MASK BIT_SET (frandom seed level)))).

(** The bytes written; [None] would mean that the loop never ends. *)
Definition string_frandom (length seed : Z) : option (list Z) :=
  let index := Z.shiftr (Z.land seed 0x30) 4 in
  let BIT_SET := nth (Z.to_nat index) bit_sets 0 in
  let BIT_MASK := nth (Z.to_nat index) bit_masks 0 in
  match loop (string_frandom_step seed BIT_MASK BIT_SET) P64 (length, 0, []) with
  | inr buf => Some buf
  | inl _ => None
  end.

(** ** Lemmas on words *)

Lemma u64_land z : u64 z = Z.land z (Z.ones 64).
Proof. unfold u64. by rewrite Z.land_ones. Qed.

Lemma is_u64_eq z : is_u64 z ↔ u64 z = z.
Proof.
  unfold is_u64. split; [by apply u64_small|]. intros <-. apply u64_range.
Qed.

Lemma u64_is_u64 z : is_u64 (u64 z).
Proof. apply u64_range. Qed.

Lemma land_lxor_distr_l a b c : Z.land (Z.lxor a b) c = Z.lxor (Z.land a c) (Z.land b c).
Proof.
  apply Z.bits_inj'. intros n Hn. rewrite Z.land_spec, !Z.lxor_spec, !Z.land_spec.
  by destruct (Z.testbit a n), (Z.testbit b n), (Z.testbit c n).
Qed.

Lemma lxor_is_u64 a b : is_u64 a → is_u64 b → is_u64 (Z.lxor a b).
Proof.
  rewrite !is_u64_eq, !u64_land. intros Ha Hb.
  by rewrite land_lxor_distr_l, Ha, Hb.
Qed.

Lemma lor_is_u64 a b : is_u64 a → is_u64 b → is_u64 (Z.lor a b).
Proof.
  rewrite !is_u64_eq, !u64_land. intros Ha Hb.
  by rewrite Z.land_lor_distr_l, Ha, Hb.
Qed.

Lemma shiftr_is_u64 a k : is_u64 a → 0 ≤ k → is_u64 (Z.shiftr a k).
Proof.
  unfold is_u64. intros Ha Hk. rewrite Z.shiftr_div_pow2 by done. split.
  - apply Z.div_pos; lia.
  - apply Z.div_lt_upper_bound; nia.
Qed.

Lemma mixr_is_u64 x y z k : is_u64 z → 0 ≤ k → is_u64 (mixr x y z k).
Proof. intros. apply lxor_is_u64; [apply u64_is_u64|by apply shiftr_is_u64]. Qed.
Lemma mixl_is_u64 x y z k : is_u64 (mixl x y z k).
Proof. apply lxor_is_u64; apply u64_is_u64. Qed.
Lemma unmixr_is_u64 x y z k : is_u64 (unmixr x y z k).
Proof. apply u64_is_u64. Qed.
Lemma unmixl_is_u64 x y z k : is_u64 (unmixl x y z k).
Proof. apply u64_is_u64. Qed.
#[export] Hint Resolve u64_is_u64 lxor_is_u64 lor_is_u64 shiftr_is_u64 mixr_is_u64
  mixl_is_u64 unmixr_is_u64 unmixl_is_u64 : checkq.

(** Subtracting [y] then [z] is undone by adding [z] then [y], and conversely. *)
Lemma sub_sub_add_add x y z : is_u64 x → u64 (u64 (u64 (u64 (x - y) - z) + z) + y) = x.
Proof.
  intros Hx. rewrite u64_add_l. rewrite <- (u64_small x) at 2 by done.
  rewrite <- Z.add_assoc, u64_add_l.
  replace (u64 (x - y) - z + (z + y)) with (u64 (x - y) + y) by lia.
  rewrite u64_add_l. f_equal. lia.
Qed.

Lemma add_add_sub_sub x y z : is_u64 x → u64 (u64 (u64 (u64 (x + z) + y) - y) - z) = x.
Proof.
  intros Hx. rewrite u64_sub_l. rewrite <- (u64_small x) at 2 by done.
  rewrite <- Z.sub_add_distr, u64_sub_l.
  replace (u64 (x + z) + y - (y + z)) with (u64 (x + z) - z) by lia.
  rewrite u64_sub_l. f_equal. lia.
Qed.

Lemma lxor_twice a b : Z.lxor (Z.lxor a b) b = a.
Proof. by rewrite Z.lxor_assoc, Z.lxor_nilpotent, Z.lxor_0_r. Qed.

Lemma unmixr_mixr x y z k : is_u64 x → unmixr (mixr x y z k) y z k = x.
Proof. intros. unfold unmixr, mixr. rewrite lxor_twice. by apply sub_sub_add_add. Qed.
Lemma unmixl_mixl x y z k : is_u64 x → unmixl (mixl x y z k) y z k = x.
Proof. intros. unfold unmixl, mixl. rewrite lxor_twice. by apply sub_sub_add_add. Qed.
Lemma mixr_unmixr x y z k :
  is_u64 x → is_u64 z → 0 ≤ k → mixr (unmixr x y z k) y z k = x.
Proof.
  intros. unfold unmixr, mixr. rewrite add_add_sub_sub by auto with checkq.
  apply lxor_twice.
Qed.
Lemma mixl_unmixl x y z k : is_u64 x → mixl (unmixl x y z k) y z k = x.
Proof.
  intros. unfold unmixl, mixl. rewrite add_add_sub_sub by auto with checkq.
  apply lxor_twice.
Qed.

(** Lines on triples: range, and the two inversions. *)
Definition line_ok (f : Z → Z → Z → Z → Z) (k : Z) : Prop :=
  ∀ x y z, is_u64 z → is_u64 (f x y z k).
Definition line_inv (f g : Z → Z → Z → Z → Z) (k : Z) : Prop :=
  ∀ x y z, is_u64 x → is_u64 z → g (f x y z k) y z k = x.

Lemma on_range f k t : line_ok f k → is_u64_triple t →
  is_u64_triple (on_a f k t) ∧ is_u64_triple (on_b f k t) ∧ is_u64_triple (on_c f k t).
Proof.
  destruct t as [[a b] c]. intros Hf (Ha & Hb & Hc). cbn in *.
  unfold is_u64_triple; cbn. split_and!; auto.
Qed.

Lemma on_inv f g k t : line_inv f g k → is_u64_triple t →
  on_a g k (on_a f k t) = t ∧ on_b g k (on_b f k t) = t ∧ on_c g k (on_c f k t) = t.
Proof.
  destruct t as [[a b] c]. intros Hf (Ha & Hb & Hc). cbn in *.
  split_and!; by rewrite Hf.
Qed.

Lemma mixr_line k : 0 ≤ k → line_ok mixr k ∧ line_inv mixr unmixr k ∧ line_inv unmixr mixr k.
Proof.
  intros Hk. split_and!; intros x y z; intros.
  - by apply mixr_is_u64.
  - by apply unmixr_mixr.
  - by apply mixr_unmixr.
Qed.
Lemma mixl_line k : line_ok mixl k ∧ line_inv mixl unmixl k ∧ line_inv unmixl mixl k.
Proof.
  split_and!; intros x y z; intros; auto using mixl_is_u64, unmixl_mixl, mixl_unmixl.
Qed.
Lemma unmixr_line k : line_ok unmixr k.
Proof. intros ????. apply unmixr_is_u64. Qed.
Lemma unmixl_line k : line_ok unmixl k.
Proof. intros ????. apply unmixl_is_u64. Qed.

(** Settle the side conditions of [on_range] and [on_inv]. *)
Ltac mix_line :=
  lazymatch goal with
  | |- line_ok mixr _ => apply mixr_line; lia
  | |- line_ok mixl _ => apply mixl_line
  | |- line_ok unmixr _ => apply unmixr_line
  | |- line_ok unmixl _ => apply unmixl_line
  | |- line_inv mixr _ _ => apply mixr_line; lia
  | |- line_inv unmixr _ _ => apply mixr_line; lia
  | |- line_inv _ _ _ => apply mixl_line
  | |- is_u64_triple (on_a _ _ _) => eapply on_range; mix_line
  | |- is_u64_triple (on_b _ _ _) => eapply on_range; mix_line
  | |- is_u64_triple (on_c _ _ _) => eapply on_range; mix_line
  | |- is_u64_triple _ => assumption
  end.

(** Undo the innermost pair of matching lines. *)
Ltac unmix_step :=
  match goal with
  | |- context [on_a ?g ?k (on_a ?f ?k ?t)] =>
      rewrite (proj1 (on_inv f g k t ltac:(mix_line) ltac:(mix_line)))
  | |- context [on_b ?g ?k (on_b ?f ?k ?t)] =>
      rewrite (proj1 (proj2 (on_inv f g k t ltac:(mix_line) ltac:(mix_line))))
  | |- context [on_c ?g ?k (on_c ?f ?k ?t)] =>
      rewrite (proj2 (proj2 (on_inv f g k t ltac:(mix_line) ltac:(mix_line))))
  end.

Lemma mix64_range t : is_u64_triple t → is_u64_triple (mix64 t).
Proof. intros Ht. unfold mix64. cbv zeta. mix_line. Qed.

Lemma frandom_range k level : is_u64 level → is_u64 (frandom k level).
Proof.
  intros Hl. unfold frandom.
  pose proof (mix64_range (u64 (k + level), level, GOLDEN)) as H.
  destruct (mix64 _) as [[a b] c]. apply H.
  split_and!; cbn; [apply u64_is_u64|done|by vm_compute].
Qed.

(** ** The generated strings *)

(** Successive draws, each one level after the other. *)
Fixpoint draws (n : nat) (seed level : Z) : list Z :=
  match n with
  | O => []
  | S n => frandom seed level :: draws n seed (u64 (level + 1))
  end.

(** The exclusive or of the draws whose bit is set in a mask. *)
Fixpoint xor_mask (rds : list Z) (mask : Z) : Z :=
  match rds with
  | [] => 0
  | rd :: rds => if Z.odd mask then Z.lxor rd (xor_mask rds (Z.div2 mask))
                 else xor_mask rds (Z.div2 mask)
  end.

(** The masks of the words of each generator, in the order of the code. *)
Definition codes_2 : list Z := [1; 2; 3].
Definition codes_3 : list Z := [1; 2; 4; 3; 5; 6; 7].
Definition codes_4 : list Z := [1; 2; 4; 8; 3; 5; 9; 6; 10; 12; 7; 11; 13; 14; 15].
Definition codes_5 : list Z :=
  [1; 2; 4; 8; 16; 3; 5; 9; 17; 6; 10; 18; 12; 20; 24; 7; 11; 19; 13; 21; 25; 14; 22; 26;
   28; 15; 23; 27; 29; 30; 31].

(** Which of the four character classes a seed selects. *)
Definition class_of (seed : Z) : Z := Z.shiftr (Z.land seed 0x30) 4.
Definition in_class (cl b : Z) : Prop := 16 * (3 + cl) ≤ b < 16 * (4 + cl).

Lemma byte_cases (P : Z → bool) :
  forallb P (map Z.of_nat (seq 0 256)) = true → ∀ x, P (Z.land x 255) = true.
Proof.
  intros HP x. rewrite forallb_forall in HP. apply HP, in_map_iff.
  change 255 with (Z.ones 8). rewrite Z.land_ones by lia.
  pose proof (Z.mod_pos_bound x (2 ^ 8) ltac:(lia)).
  exists (Z.to_nat (x mod 2 ^ 8)). split; [lia|]. apply in_seq. lia.
Qed.

Lemma class_of_range seed : class_of seed = 0 ∨ class_of seed = 1 ∨
  class_of seed = 2 ∨ class_of seed = 3.
Proof.
  unfold class_of.
  assert (Z.land seed 48 = Z.land (Z.land seed 255) 48) as ->.
  { by rewrite <- Z.land_assoc. }
  pose proof (byte_cases (λ x, let c := Z.shiftr (Z.land x 48) 4 in
    (c =? 0) || (c =? 1) || (c =? 2) || (c =? 3)) ltac:(by vm_compute) seed) as H.
  cbv beta zeta in H. lia.
Qed.

Lemma masked_byte m s rd i :
  Z.land (Z.shiftr (masked m s rd) i) 255 =
    Z.lor (Z.land (Z.land (Z.shiftr rd i) 255) (Z.land (Z.shiftr m i) 255))
      (Z.land (Z.shiftr s i) 255).
Proof.
  unfold masked. rewrite Z.shiftr_lor, Z.shiftr_land, Z.land_lor_distr_l. f_equal.
  rewrite <- (Z.land_assoc _ 255), (Z.land_comm 255), <- !Z.land_assoc.
  by rewrite Z.land_diag.
Qed.

Lemma masked_in_class seed rd :
  let cl := class_of seed in
  Forall (in_class cl)
    (word_bytes (masked (nth (Z.to_nat cl) bit_masks 0) (nth (Z.to_nat cl) bit_sets 0) rd)).
Proof.
  assert (∀ cl m s i,
    forallb (λ x, let b := Z.lor (Z.land x (Z.land (Z.shiftr m i) 255))
                             (Z.land (Z.shiftr s i) 255) in
                  (16 * (3 + cl) <=? b) && (b <? 16 * (4 + cl)))
      (map Z.of_nat (seq 0 256)) = true →
    in_class cl (Z.land (Z.shiftr (masked m s rd) i) 255)) as Hb.
  { intros cl m s i Hall. rewrite masked_byte. unfold in_class.
    pose proof (byte_cases _ Hall (Z.shiftr rd i)) as Hx. cbv beta zeta in Hx. lia. }
  intros cl. subst cl.
  destruct (class_of_range seed) as [-> | [-> | [-> | ->]]]; unfold word_bytes, map;
    repeat (apply Forall_cons; split; [apply Hb; by vm_compute|]); by apply Forall_nil_2.
Qed.

Lemma length_word_bytes w : length (word_bytes w) = 8%nat.
Proof. done. Qed.

Lemma words_in_class seed rds :
  let cl := class_of seed in
  let bs := concat (map (word_bytes ∘
    masked (nth (Z.to_nat cl) bit_masks 0) (nth (Z.to_nat cl) bit_sets 0)) rds) in
  Forall (in_class cl) bs ∧ length bs = (8 * length rds)%nat.
Proof.
  intros cl. cbv zeta. induction rds as [|rd rds [IH1 IH2]]; [done|].
  cbn [map concat]. rewrite length_app, IH2. split.
  - apply Forall_app. split; [apply masked_in_class|done].
  - cbn [compose length]. unfold compose. rewrite length_word_bytes. lia.
Qed.

(** The loop writes exactly the missing bytes, all of the class of the seed. *)
Lemma string_frandom_total n seed :
  0 ≤ n < 2 ^ 64 →
  ∃ buf, string_frandom n seed = Some buf ∧ Z.of_nat (length buf) = n ∧
    Forall (in_class (class_of seed)) buf.
Proof.
  intros Hn. unfold string_frandom. change (Z.shiftr (Z.land seed 48) 4) with (class_of seed).
  set (m := nth _ bit_masks 0). set (s := nth _ bit_sets 0).
  destruct (loop_total (string_frandom_step seed m s)
    (λ '(len, level, buf), 0 ≤ len ∧ Z.of_nat (length buf) + len = n ∧
       Forall (in_class (class_of seed)) buf)
    (λ '(len, _, _), Z.to_nat len)
    (λ buf, Z.of_nat (length buf) = n ∧ Forall (in_class (class_of seed)) buf)
    P64 (n, 0, [])) as (buf & -> & Hl & Hc).
  - intros [[len level] buf] (Hlen & Hsum & Hc). cbn [string_frandom_step].
    destruct (Z.ltb_spec 0 len); cbn [negb]; [|split; [lia|done]].
    assert (∀ size g, 0 < size ≤ len → size = 8 * Z.of_nat (length g) →
      let bs := concat (map (word_bytes ∘ masked m s) g) in
      (0 ≤ len - size ∧ Z.of_nat (length (buf ++ bs)) + (len - size) = n ∧
       Forall (in_class (class_of seed)) (buf ++ bs)) ∧
      (Z.to_nat (len - size) < Z.to_nat len)%nat) as Hfill.
    { intros size g Hs Hg. destruct (words_in_class seed g) as [H1 H2].
      cbv zeta. rewrite length_app. subst m s. rewrite H2.
      split_and!; [lia|lia| |lia]. by apply Forall_app. }
    repeat (zcase; [apply Hfill; [lia|done]|]).
    rewrite length_app, length_take, length_word_bytes. split; [lia|].
    apply Forall_app. split; [done|]. apply Forall_take. apply masked_in_class.
  - split_and!; [lia|cbn; lia|by apply Forall_nil_2].
  - unfold P64. lia.
  - by exists buf.
Qed.

(** C35 (reversibility). [mix64] is reversible, as its comment claims: the lines
    run backwards recover the three words from the result, and every triple of
    words is a result, so the mixing loses nothing. *)
Theorem mix64_reversible t :
  is_u64_triple t → unmix64 (mix64 t) = t ∧ mix64 (unmix64 t) = t.
Proof.
  intros Ht. unfold mix64, unmix64. cbv zeta.
  split; repeat unmix_step; reflexivity.
Qed.

(** The multi-word generators fill their words with the
    exclusive ors of all the nonempty subsets of their draws, each subset
    once: 3 words from 2 draws, 7 from 3, 15 from 4 and 31 from 5, the level
    advancing by one a draw. *)
Theorem string_gen_all_subsets seed level :
  (string_gen_2 seed level).1 = map (xor_mask (draws 2 seed level)) codes_2 ∧
  (string_gen_3 seed level).1 = map (xor_mask (draws 3 seed level)) codes_3 ∧
  (string_gen_4 seed level).1 = map (xor_mask (draws 4 seed level)) codes_4 ∧
  (string_gen_5 seed level).1 = map (xor_mask (draws 5 seed level)) codes_5 ∧
  codes_2 ≡ₚ map Z.of_nat (seq 1 3) ∧ codes_3 ≡ₚ map Z.of_nat (seq 1 7) ∧
  codes_4 ≡ₚ map Z.of_nat (seq 1 15) ∧ codes_5 ≡ₚ map Z.of_nat (seq 1 31).
Proof.
  assert (∀ l1 l2, merge_sort Z.le l1 = l2 → l1 ≡ₚ l2) as Hsort.
  { intros l1 l2 <-. symmetry. apply merge_sort_Permutation. }
  split_and!; try (apply Hsort; by vm_compute).
  all: unfold string_gen_2, string_gen_3, string_gen_4, string_gen_5, draws, codes_2,
    codes_3, codes_4, codes_5; cbv zeta; cbn [fst].
  all: repeat match goal with
       | |- context [frandom ?a ?b] => generalize (frandom a b); intros
       end.
  all: unfold map, xor_mask; cbn [Z.odd Z.div2 Pos.div2]; rewrite ?Z.lxor_0_r, ?Z.lxor_assoc;
    reflexivity.
Qed.

(** C37 (strings). For every length and seed [string_frandom] ends, having
    written exactly that many bytes, all within the sixteen characters of the
    class the seed selects; so none of them is a NUL, a line feed, a carriage
    return, a space or a quote. *)
Theorem string_frandom_chars n seed :
  0 ≤ n < 2 ^ 64 →
  ∃ buf, string_frandom n seed = Some buf ∧ Z.of_nat (length buf) = n ∧
    Forall (in_class (class_of seed)) buf ∧
    Forall (λ b, b ∉ [0; 10; 13; 32; 39]) buf.
Proof.
  intros Hn. destruct (string_frandom_total n seed Hn) as (buf & Hb & Hl & Hc).
  exists buf. split_and!; [done..|].
  eapply Forall_impl; [exact Hc|]. intros b Hbc. unfold in_class in Hbc.
  pose proof (class_of_range seed).
  repeat (apply not_elem_of_cons; split; [lia|]). apply not_elem_of_nil.
Qed.

(** ** Witnesses *)

Example mix64_reversible_witness :
  unmix64 (mix64 (1, 2, 3)) = (1, 2, 3) ∧ mix64 (unmix64 (1, 2, 3)) = (1, 2, 3).
Proof. apply (mix64_reversible (1, 2, 3)). repeat split; cbn; lia. Defined.

Example string_frandom_chars_witness :
  ∃ buf, string_frandom 300 7 = Some buf ∧ Z.of_nat (length buf) = 300 ∧
    Forall (in_class (class_of 7)) buf ∧ Forall (λ b, b ∉ [0; 10; 13; 32; 39]) buf.
Proof. apply (string_frandom_chars 300 7). lia. Defined.
