(* ===== verification/HashFunc.v ===== *)
(** * HashFunc: [hash_func] and [find_first_prime] of src/src/mylib/hash.c

    A key is an address, of which only the alignment matters, and the bytes
    that start there.  Loads of a whole [uint64_t] are little-endian, as on the
    x86 and ia64 machines the project is built for. *)

From stdpp Require Import base list.
From Stdlib Require Import ZArith Lia Znumtheory.
From S2P Require Import Prelude Mix.
Local Open Scope Z_scope.

(** ** [hash_func] *)

(** [k[i]] as an unsigned char. *)
Definition byte_at (k : list Z) (i : nat) : Z := nth i k 0.

(** [k[i] + (k[i+1] << 8) + ... + (k[i+7] << 56)]. *)
Definition sum8 (k : list Z) (i : nat) : Z :=
  byte_at k i + Z.shiftl (byte_at k (i + 1)) 8 + Z.shiftl (byte_at k (i + 2)) 16
  + Z.shiftl (byte_at k (i + 3)) 24 + Z.shiftl (byte_at k (i + 4)) 32
  + Z.shiftl (byte_at k (i + 5)) 40 + Z.shiftl (byte_at k (i + 6)) 48
  + Z.shiftl (byte_at k (i + 7)) 56.

(** [*(uint64_t * )(k + i)] on a little-endian machine. *)
Definition load64 (k : list Z) (i : nat) : Z :=
  foldr (λ j acc, Z.lor (byte_at k (i + j)) (Z.shiftl acc 8)) 0 (seq 0 8).

(** One round of [while (len >= 24)]. *)
Definition hash_block (word : list Z → nat → Z)
    (s : list Z * Z * (Z * Z * Z)) : list Z * Z * (Z * Z * Z) + list Z * Z * (Z * Z * Z) :=
  let '(k, len, (a, b, c)) := s in
  if 24 <=? len then
    let a := u64 (a + word k 0%nat) in
    let b := u64 (b + word k 8%nat) in
    let c := u64 (c + word k 16%nat) in
    inl (drop 24 k, len - 24, mix64 (a, b, c))
  else inr s.

(** [case i] of the switch, for [i] from 23 down to 1. *)
Definition tail_case (k : list Z) (i : nat) (t : Z * Z * Z) : Z * Z * Z :=
  let '(a, b, c) := t in
  if (17 <=? i)%nat then
    (a, b, u64 (c + Z.shiftl (byte_at k (i - 1)) (8 * Z.of_nat (i - 16))))
  else if (9 <=? i)%nat then
    (a, u64 (b + Z.shiftl (byte_at k (i - 1)) (8 * Z.of_nat (i - 9))), c)
  else
    (u64 (a + Z.shiftl (byte_at k (i - 1)) (8 * Z.of_nat (i - 1))), b, c).

(** The cases fall through. *)
Fixpoint tail_cases (k : list Z) (i : nat) (t : Z * Z * Z) : Z * Z * Z :=
  match i with
  | O => t
  | S i' => tail_cases k i' (tail_case k i t)
  end.

Definition hash_func (addr : Z) (key : list Z) (size level : Z) : Z :=
  let length := size in
  let word := if Z.land addr 7 =? 0 then load64 else sum8 in
  match loop (hash_block word) P64 (key, length, (level, level, GOLDEN)) with
  | inr (k, len, (a, b, c)) =>
      let c := u64 (c + length) in
      let '(a, b, c) := mix64 (tail_cases k (Z.to_nat len) (a, b, c)) in c
  | inl _ => 0
  end.

(** ** [find_first_prime] *)

(** [for (i = 2; i <= m; i++) if (n % i == 0) ...]: the [find_flag]. *)
Definition find_flag (n m : Z) : bool :=
  match loop (λ i, if i <=? m then if n mod i =? 0 then inr false else inl (i + 1)
                   else inr true) P64 2 with
  | inr b => b
  | inl _ => false
  end.

(** One round of [while (n++)].  The [sqrt] of an [int] is exact enough for its
    truncation to be [Z.sqrt]; of a negative number it is a NaN, which has no
    conversion to [int]. *)
Definition find_first_prime_step (n : Z) : Z + res Z :=
  if n =? 0 then inr (Ok (-1))
  else if n =? INT_MAX then inr (Stop (Undefined SignedOverflow))
  else
    let n := n + 1 in
    if n <? 0 then inr (Stop (Undefined BadConversion))
    else
      let m := Z.sqrt n in
      if find_flag n m then inr (Ok n) else inl n.

Definition find_first_prime (n : Z) : res Z :=
  match loop find_first_prime_step P64 n with
  | inr r => r
  | inl _ => Stop Diverges
  end.

(** ** Lemmas: the two ways to read a word *)

Definition is_bytes (k : list Z) : Prop := Forall (λ b, 0 ≤ b < 256) k.

Lemma byte_at_range k i : is_bytes k → 0 ≤ byte_at k i < 256.
Proof.
  unfold is_bytes, byte_at. rewrite Forall_lookup. intros Hk.
  destruct (k !! i) as [b|] eqn:Hb.
  - rewrite (nth_lookup_Some _ _ _ _ Hb). by eapply Hk.
  - rewrite nth_lookup, Hb. cbn. lia.
Qed.

Lemma byte_at_drop k n i : byte_at (drop n k) i = byte_at k (n + i).
Proof. unfold byte_at. by rewrite !nth_lookup, lookup_drop. Qed.

Lemma lor_shift8 b acc : 0 ≤ b < 256 → Z.lor b (Z.shiftl acc 8) = b + acc * 256.
Proof.
  intros Hb.
  assert (Z.land b (Z.shiftl acc 8) = 0) as Hland.
  { rewrite <- (Z.mod_small b 256) by done. change 256 with (2 ^ 8).
    rewrite <- Z.land_ones by lia. apply Z.bits_inj'. intros n Hn.
    rewrite !Z.land_spec, Z.bits_0.
    destruct (Z.lt_ge_cases n 8).
    - by rewrite Z.shiftl_spec_low, andb_false_r by lia.
    - by rewrite Z.ones_spec_high, andb_false_r by lia. }
  rewrite <- Z.lxor_lor by done. rewrite <- Z.add_nocarry_lxor by done.
  by rewrite Z.shiftl_mul_pow2 by lia.
Qed.

Lemma load64_sum8 k i : is_bytes k → load64 k i = sum8 k i.
Proof.
  intros Hk. unfold load64, sum8. cbn [seq foldr].
  pose proof (λ j, byte_at_range k j Hk) as Hb.
  rewrite !lor_shift8 by apply Hb. rewrite !Z.shiftl_mul_pow2 by lia.
  rewrite Nat.add_0_r. lia.
Qed.

(** ** Lemmas: only the first [size] bytes are read *)

Lemma byte_at_take k k' n i :
  take n k = take n k' → (i < n)%nat → byte_at k i = byte_at k' i.
Proof.
  intros Ht Hi. unfold byte_at. rewrite !nth_lookup.
  rewrite <- (lookup_take_lt k n), <- (lookup_take_lt k' n) by done. by rewrite Ht.
Qed.

Lemma tail_cases_take k k' n t :
  take n k = take n k' → tail_cases k n t = tail_cases k' n t.
Proof.
  intros Ht. assert (∀ i t, (i ≤ n)%nat → tail_cases k i t = tail_cases k' i t) as Hi.
  { clear t. intros i. induction i as [|i IH]; intros t Hi; [done|].
    cbn [tail_cases]. rewrite IH by lia. f_equal. destruct t as [[a b] c].
    unfold tail_case. rewrite (byte_at_take k k' n (S i - 1)) by (done || lia). done. }
  by apply Hi.
Qed.

Lemma take_drop_eq {A} (l l' : list A) n m :
  take (n + m) l = take (n + m) l' → take m (drop n l) = take m (drop n l').
Proof. intros H. rewrite !take_drop_commute. by rewrite H. Qed.

Lemma sum8_take k k' n i :
  take n k = take n k' → (i + 8 ≤ n)%nat → sum8 k i = sum8 k' i.
Proof.
  intros Ht Hi. unfold sum8.
  by rewrite !(λ j, byte_at_take k k' n j Ht) by lia.
Qed.

Lemma is_bytes_drop k n : is_bytes k → is_bytes (drop n k).
Proof. apply Forall_drop. Qed.
#[export] Hint Resolve is_bytes_drop : checkq.

(** The two ways to walk the key, over keys with the same [len] bytes. *)
Definition walk_rel (s s' : list Z * Z * (Z * Z * Z)) : Prop :=
  let '(k, len, t) := s in
  let '(k', len', t') := s' in
  is_bytes k ∧ is_bytes k' ∧ len = len' ∧ t = t' ∧ 0 ≤ len ∧
  take (Z.to_nat len) k = take (Z.to_nat len) k'.

Lemma hash_block_rel w w' s s' :
  (∀ k i, is_bytes k → w k i = sum8 k i) → (∀ k i, is_bytes k → w' k i = sum8 k i) →
  walk_rel s s' →
  match hash_block w s, hash_block w' s' with
  | inl s, inl s' => walk_rel s s'
  | inr s, inr s' => walk_rel s s'
  | _, _ => False
  end.
Proof.
  intros Hw Hw'. destruct s as [[k len] [[a b] c]], s' as [[k' len'] [[a' b'] c']].
  intros (Hk & Hk' & <- & [= <- <- <-] & Hlen & Ht). unfold hash_block. zcase.
  - rewrite !Hw, !Hw' by done.
    assert (∀ i, (i ≤ 16)%nat → sum8 k i = sum8 k' i) as Hs.
    { intros i Hi. eapply sum8_take; [done|lia]. }
    rewrite !Hs by lia. split_and!; auto with checkq; try lia.
    apply take_drop_eq. by replace (24 + Z.to_nat (len - 24))%nat with (Z.to_nat len) by lia.
  - split_and!; try done.
Qed.

(** The walk ends with fewer than 24 bytes left. *)
Lemma hash_walk_total w k size t :
  0 ≤ size < 2 ^ 64 →
  ∃ k' len t', loop (hash_block w) P64 (k, size, t) = inr (k', len, t') ∧ 0 ≤ len < 24.
Proof.
  intros Hs.
  destruct (loop_total (hash_block w) (λ '(_, len, _), 0 ≤ len)
    (λ '(_, len, _), Z.to_nat len) (λ '(_, len, _), 0 ≤ len < 24) P64 (k, size, t))
    as ([[k' len] t'] & -> & Hq); [| cbn; lia | unfold P64; lia | by eexists _, _, _].
  intros [[k' len] [[a b] c]] Hlen. unfold hash_block. zcase; split; lia.
Qed.

Lemma word_choice addr k i : is_bytes k →
  (if Z.land addr 7 =? 0 then load64 else sum8) k i = sum8 k i.
Proof. intros. destruct (_ =? 0); [by apply load64_sum8|done]. Qed.

(** C6 (key bytes). The hash of a key is a function of its [size] first bytes
    and of the level: neither the alignment of the key, which selects between
    byte-wise and word-wise loads, nor what follows it in memory matters. *)
Theorem hash_func_key_bytes addr addr' key key' size level :
  is_bytes key → is_bytes key' → 0 ≤ size →
  take (Z.to_nat size) key = take (Z.to_nat size) key' →
  hash_func addr key size level = hash_func addr' key' size level.
Proof.
  intros Hk Hk' Hs Ht. unfold hash_func. cbv zeta.
  pose proof (loop_rel _ _ walk_rel walk_rel P64
    (key, size, (level, level, GOLDEN)) (key', size, (level, level, GOLDEN))
    (λ s s' HR, hash_block_rel _ _ s s' (λ k i, word_choice addr k i)
       (λ k i, word_choice addr' k i) HR)) as Hrel.
  specialize (Hrel ltac:(split_and!; done)).
  destruct (loop _ P64 (key, _, _)) as [?|[[k len] t]],
    (loop _ P64 (key', _, _)) as [?|[[k' len'] t']]; try done.
  destruct Hrel as (_ & _ & <- & <- & _ & Htk). destruct t as [[a b] c].
  by rewrite (tail_cases_take k k').
Qed.

Lemma hash_func_range addr key size level :
  is_u64 level → 0 ≤ size < 2 ^ 64 → is_u64 (hash_func addr key size level).
Proof.
  intros Hl Hs. unfold hash_func. cbv zeta.
  set (w := if _ =? 0 then load64 else sum8).
  destruct (loop_total (hash_block w) (λ '(_, len, t), 0 ≤ len ∧ is_u64_triple t)
    (λ '(_, len, _), Z.to_nat len) (λ '(_, _, t), is_u64_triple t) P64
    (key, size, (level, level, GOLDEN))) as ([[k' len] [[a b] c]] & -> & Ht).
  - intros [[k len] [[a b] c]] [Hlen Ht]. unfold hash_block. zcase; [|done].
    split_and!; [lia| |lia]. apply mix64_range. split_and!; apply u64_is_u64.
  - split; [lia|]. by split_and!.
  - unfold P64. lia.
  - assert (∀ i t, is_u64_triple t → is_u64_triple (tail_cases k' i t)) as Htail.
    { induction i as [|i IH]; intros [[x y] z] (Hx & Hy & Hz); [done|].
      cbn [tail_cases]. apply IH. unfold tail_case.
      destruct (17 <=? S i)%nat, (9 <=? S i)%nat; split_and!; cbn in *; auto with checkq. }
    pose proof (mix64_range _ (Htail (Z.to_nat len) (a, b, u64 (c + size))
      ltac:(destruct Ht as (?&?&?); split_and!; cbn in *; auto with checkq))) as Hm.
    destruct (mix64 _) as [[x y] z]. apply Hm.
Qed.

(** ** Lemmas: primes *)

Lemma find_flag_spec n m :
  0 ≤ n → m < 2 ^ 63 →
  find_flag n m = true ↔ ∀ i, 2 ≤ i ≤ m → n mod i ≠ 0.
Proof.
  intros Hn Hm. unfold find_flag.
  destruct (loop_total (λ i, if i <=? m then if n mod i =? 0 then inr false else inl (i + 1)
                             else inr true)
    (λ i, 2 ≤ i ∧ ∀ j, 2 ≤ j < i → n mod j ≠ 0) (λ i, Z.to_nat (m + 1 - i))
    (λ b, b = true ↔ ∀ i, 2 ≤ i ≤ m → n mod i ≠ 0) P64 2) as (b & -> & Hb); [| | |done].
  - intros i [Hi Hj]. repeat zcase.
    + split; [done|]. intros Hall. exfalso. by apply (Hall i).
    + split; [|lia]. split; [lia|]. intros j Hj'.
      destruct (decide (j = i)) as [->|]; [done|]. apply Hj. lia.
    + split; [|done]. intros _ j Hj'. apply Hj. lia.
  - split; [lia|]. intros. lia.
  - unfold P64. lia.
Qed.

Lemma prime_sqrt n :
  2 ≤ n → prime n ↔ ∀ i, 2 ≤ i ≤ Z.sqrt n → n mod i ≠ 0.
Proof.
  intros Hn. pose proof (Z.sqrt_spec n ltac:(lia)) as Hsq. cbv zeta in Hsq.
  rewrite <- prime_alt. unfold Z.prime. split.
  - intros [_ Hp] i Hi Hmod. apply (Hp i); [nia|]. by apply Z.mod_divide; [lia|].
  - intros Hmod. split; [lia|]. intros i Hi [q Hq].
    destruct (Z.le_gt_cases i (Z.sqrt n)).
    + apply (Hmod i); [lia|]. rewrite Hq. apply Z_mod_mult.
    + assert (2 ≤ q ≤ Z.sqrt n) as Hqr by nia.
      apply (Hmod q Hqr). rewrite Hq, Z.mul_comm. apply Z_mod_mult.
Qed.

Lemma find_flag_prime n : 2 ≤ n ≤ INT_MAX → find_flag n (Z.sqrt n) = true ↔ prime n.
Proof.
  intros Hn. rewrite prime_sqrt by lia. apply find_flag_spec; [lia|].
  pose proof (Z.sqrt_le_lin n). unfold INT_MAX in *. lia.
Qed.

(** The largest [int] is a Mersenne prime, so the search always succeeds. *)
Lemma prime_INT_MAX : prime INT_MAX.
Proof. apply find_flag_prime; [unfold INT_MAX; lia|]. by vm_compute. Qed.

(** C7 (primes). From any positive [int] below the largest,
    [find_first_prime] terminates, without overflow, on the least prime
    strictly above its argument. *)
Theorem find_first_prime_least n :
  1 ≤ n < INT_MAX →
  ∃ p, find_first_prime n = Ok p ∧ prime p ∧ n < p ≤ INT_MAX ∧
    ∀ q, n < q < p → ¬ prime q.
Proof.
  intros Hn. unfold find_first_prime.
  destruct (loop_total find_first_prime_step
    (λ m, n ≤ m < INT_MAX ∧ ∀ q, n < q ≤ m → ¬ prime q) (λ m, Z.to_nat (INT_MAX - m))
    (λ r, ∃ p, r = Ok p ∧ prime p ∧ n < p ≤ INT_MAX ∧ ∀ q, n < q < p → ¬ prime q)
    P64 n) as (r & -> & Hr); [| | |done].
  - intros m [Hm Hq]. unfold find_first_prime_step. zbool. cbv zeta. zbool.
    pose proof (find_flag_prime (m + 1) ltac:(lia)) as Hf.
    destruct (find_flag (m + 1) (Z.sqrt (m + 1))).
    + exists (m + 1). split_and!; [done|by apply Hf|lia..|].
      intros q Hq'. apply Hq. lia.
    + assert (m + 1 ≠ INT_MAX) as Hne.
      { intros Heq. rewrite Heq in Hf. pose proof prime_INT_MAX as HM. by apply Hf in HM. }
      split; [|lia]. split; [lia|]. intros q Hq'.
      destruct (decide (q = m + 1)) as [->|]; [|apply Hq; lia].
      intros Hp. by apply Hf in Hp.
  - split; [lia|]. intros. lia.
  - unfold P64, INT_MAX in *. lia.
Qed.

(** ** Witnesses *)

Example hash_func_key_bytes_witness :
  hash_func 16 [116; 101; 115; 116; 0; 9] 4 1 = hash_func 3 [116; 101; 115; 116; 0] 4 1.
Proof.
  apply (hash_func_key_bytes 16 3); [| |lia|reflexivity].
  all: repeat (apply Forall_cons; split; [lia|]); by apply Forall_nil_2.
Defined.

Example find_first_prime_least_witness :
  ∃ p, find_first_prime 22 = Ok p ∧ prime p ∧ 22 < p ≤ INT_MAX ∧
    ∀ q, 22 < q < p → ¬ prime q.
Proof. apply (find_first_prime_least 22). unfold INT_MAX. lia. Defined.
