(* ===== verification/Hash.v ===== *)
(** * Hash: the open-addressing hash table of src/src/mylib/hash.c

    [hash E] is [struct hash_t].  A key probes the slots
    [hash_func(key, size, level) % hash_size] for level = 0, 1, 2, ...; removed
    slots stay as tombstones until the next rehash.  The contents are the
    finite map [m] of [hrep h m], from key bytes to entries. *)

From stdpp Require Import base gmap list fin_maps.
From Stdlib Require Import ZArith Lia.
From S2P Require Import Prelude Mylib Mix HashFunc.
Local Open Scope Z_scope.

Definition HASH_INIT_SIZE : Z := 10.
Definition REHASH_RATE : Z := 2.

Inductive hash_entry_status_t := HASH_EMPTY | HASH_OCCUPIED | HASH_REMOVED.

#[export] Instance hash_entry_status_eq_dec : EqDecision hash_entry_status_t.
Proof. solve_decision. Defined.

(** A [void *key]: its address and the bytes that can be read from there. *)
Record key_ptr := KeyPtr { key_addr : Z; key_mem : list Z }.

(** The callbacks given to [hash_alloc]: the key of an entry, and its size.
    (The free callback appears as the list of the entries it is called on.) *)
Class HashEntry (E : Type) := {
  hash_entry_key_func : E → key_ptr;
  hash_key_size_func : key_ptr → Z;
}.

Record hash_element_t (E : Type) := Element {
  entry : option E;
  key : option key_ptr;
  key_size : Z;
  status : hash_entry_status_t;
}.
Arguments Element {E}.
Arguments entry {E}.
Arguments key {E}.
Arguments key_size {E}.
Arguments status {E}.

Record hash_t (E : Type) := Hash {
  elements : buffer (hash_element_t E);
  hash_size : Z;
  hash_entry_count : Z;
  hash_entry_removed_count : Z;
  hash_rwlock : my_rwlock_t;
}.
Arguments Hash {E}.
Arguments elements {E}.
Arguments hash_size {E}.
Arguments hash_entry_count {E}.
Arguments hash_entry_removed_count {E}.
Arguments hash_rwlock {E}.

Section hash.
Context `{Allocator} {E : Type} `{HashEntry E}.
Implicit Types (h : hash_t E) (k : key_ptr).

Definition sizeof_hash_element_t : Z := 32.
Definition sizeof_hash_t : Z := 112.

(** [memset(..., 0, ...)] gives this element. *)
Definition zero_element : hash_element_t E := Element None None 0 HASH_EMPTY.

Definition memset_elements (b : buffer (hash_element_t E)) (n : Z)
    : res (buffer (hash_element_t E)) :=
  match b with
  | Dangling => Stop (Undefined UseAfterFree)
  | Live cells =>
      if Z.of_nat (length cells) <? n then Stop (Undefined OutOfBounds)
      else Ok (Live (replicate (Z.to_nat n) (Some zero_element)
                     ++ drop (Z.to_nat n) cells))
  end.

Definition set_elements b h : hash_t E :=
  Hash b (hash_size h) (hash_entry_count h) (hash_entry_removed_count h) (hash_rwlock h).
Definition set_hash_size n h : hash_t E :=
  Hash (elements h) n (hash_entry_count h) (hash_entry_removed_count h) (hash_rwlock h).
Definition set_count n h : hash_t E :=
  Hash (elements h) (hash_size h) n (hash_entry_removed_count h) (hash_rwlock h).
Definition set_removed n h : hash_t E :=
  Hash (elements h) (hash_size h) (hash_entry_count h) n (hash_rwlock h).
Definition set_hash_rwlock l h : hash_t E :=
  Hash (elements h) (hash_size h) (hash_entry_count h) (hash_entry_removed_count h) l.

Definition on_hash_rwlock (f : my_rwlock_t → res my_rwlock_t) : M (hash_t E) unit :=
  l ← mgets hash_rwlock; l' ← mlift (f l); mmodify (set_hash_rwlock l').

(** [memcmp(a, b, n) == 0] *)
Definition memcmp_eq (a b : key_ptr) (n : Z) : res bool :=
  if (Z.of_nat (length (key_mem a)) <? n) || (Z.of_nat (length (key_mem b)) <? n)
  then Stop (Undefined OutOfBounds)
  else Ok (bool_decide (take (Z.to_nat n) (key_mem a) = take (Z.to_nat n) (key_mem b))).

Definition hash_alloc : M unit (hash_t E) :=
  cq_malloc sizeof_hash_t ();;
  init_size ← mlift (find_first_prime HASH_INIT_SIZE);
  elements ← cq_malloc (u64 (init_size * sizeof_hash_element_t)) (fresh_buffer init_size);
  elements ← mlift (memset_elements elements init_size);
  mret (Hash elements init_size 0 0 MY_RWLOCK_INITER).

(** One level of the probe of [hash_find]. *)
Definition hash_find_step h k (size : Z) (level : Z)
    : Z + res (Z * hash_entry_status_t) :=
  let hash_key := hash_func (key_addr k) (key_mem k) size level in
  if hash_size h =? 0 then inr (Stop (Undefined DivByZero)) else
  let index := hash_key mod hash_size h in
  match arr_read (elements h) index with
  | Stop w => inr (Stop w)
  | Ok element =>
      match status element with
      | HASH_EMPTY => inr (Ok (index, HASH_EMPTY))
      | HASH_OCCUPIED =>
          if key_size element =? size then
            match key element with
            | None => inr (Stop (Undefined NullDeref))
            | Some get_key =>
                match memcmp_eq k get_key size with
                | Stop w => inr (Stop w)
                | Ok true => inr (Ok (index, HASH_OCCUPIED))
                | Ok false => inl (u64 (level + 1))
                end
            end
          else inl (u64 (level + 1))
      | HASH_REMOVED => inl (u64 (level + 1))
      end
  end.

(** [level] is a [uint64_t]: a search that has seen all its values without
    success goes on for ever. *)
Definition hash_find h k (size : Z) : res (Z * hash_entry_status_t) :=
  match loop (hash_find_step h k size) P64 0 with
  | inr r => r
  | inl _ => Stop Diverges
  end.

(** The body of the loop of [rehash], [element] being [src_elements[i]]; once
    the result is [RET_FAILED] the function has returned. *)
Definition rehash_element (element : hash_element_t E) (s : hash_t E * ret_t)
    : res (hash_t E * ret_t) :=
  let '(h, ret) := s in
  match ret with
  | RET_FAILED => Ok s
  | RET_SUCCEED =>
      if bool_decide (status element = HASH_OCCUPIED) then
        match key element with
        | None => Stop (Undefined NullDeref)
        | Some k =>
            '(index, st) ← hash_find h k (key_size element);
            if negb (bool_decide (st = HASH_EMPTY)) then Ok (h, RET_FAILED)
            else elements' ← arr_write (elements h) index element;
                 Ok (set_elements elements' h, RET_SUCCEED)
        end
      else Ok s
  end.

Definition rehash (src_elements : buffer (hash_element_t E)) (src_size : Z)
    : M (hash_t E) ret_t :=
  h ← mget;
  zeroed ← mlift (memset_elements (elements h) (hash_size h));
  '(h', ret) ← mlift (for_upto src_size
      (λ i s, element ← arr_read src_elements i; rehash_element element s)
      (set_elements zeroed h, RET_SUCCEED));
  mput h';;
  mret ret.

(** The size chosen for a rehash. *)
Definition rehash_size h : res Z :=
  if hash_entry_count h <? hash_entry_removed_count h then Ok (hash_size h)
  else n ← find_first_prime (i32 (u64 (hash_size h * REHASH_RATE))); Ok (u64 n).

Definition needs_rehash h : bool :=
  hash_size h <? u64 (u64 (hash_entry_count h + hash_entry_removed_count h) * REHASH_RATE).

Definition hash_add (e : E) : M (hash_t E) ret_t :=
  on_hash_rwlock my_wrlock;;
  let k := hash_entry_key_func e in
  let size := hash_key_size_func k in
  h ← mget;
  '(index, st) ← mlift (hash_find h k size);
  if negb (bool_decide (st = HASH_EMPTY)) then
    on_hash_rwlock my_rwunlock;; mret RET_FAILED
  else
    elements' ← mlift (arr_write (elements h) index
                         (Element (Some e) (Some k) size HASH_OCCUPIED));
    mmodify (set_elements elements');;
    mmodify (λ h, set_count (u64 (hash_entry_count h + 1)) h);;
    h ← mget;
    (if needs_rehash h then
       size' ← mlift (rehash_size h);
       rehash_elements ← cq_malloc (u64 (size' * sizeof_hash_element_t)) (fresh_buffer size');
       mmodify (set_elements rehash_elements);;
       mmodify (set_hash_size size');;
       mmodify (set_removed 0);;
       ret ← rehash (elements h) (hash_size h);
       if bool_decide (ret = RET_SUCCEED)
       then on_hash_rwlock my_rwunlock;; mret RET_SUCCEED
       else mret RET_FAILED (* returns with the lock held *)
     else on_hash_rwlock my_rwunlock;; mret RET_SUCCEED).

Definition hash_get k : M (hash_t E) (option E) :=
  on_hash_rwlock my_rdlock;;
  let size := hash_key_size_func k in
  h ← mget;
  '(index, st) ← mlift (hash_find h k size);
  ret ← (if bool_decide (st = HASH_OCCUPIED)
         then element ← mlift (arr_read (elements h) index); mret (entry element)
         else mret None);
  on_hash_rwlock my_rwunlock;;
  mret ret.

(** The entry on which the free callback is called, if any. *)
Definition hash_remove k : M (hash_t E) (ret_t * list (option E)) :=
  on_hash_rwlock my_wrlock;;
  let size := hash_key_size_func k in
  h ← mget;
  '(index, st) ← mlift (hash_find h k size);
  freed ← (if bool_decide (st = HASH_OCCUPIED) then
      element ← mlift (arr_read (elements h) index);
      elements' ← mlift (arr_write (elements h) index
        (Element (entry element) (key element) (key_size element) HASH_REMOVED));
      mmodify (set_elements elements');;
      mmodify (λ h, set_count (u64 (hash_entry_count h - 1)) h);;
      mmodify (λ h, set_removed (u64 (hash_entry_removed_count h + 1)) h);;
      mret [entry element]
    else mret []);
  on_hash_rwlock my_rwunlock;;
  mret (RET_SUCCEED, freed).

(** The loop of [hash_get_entries] and [hash_get_keys]: [ret[ret_ptr++] = f(element)]. *)
Definition collect {A} (f : hash_element_t E → A) h : res (buffer A * Z) :=
  for_upto (hash_size h) (λ i '(ret, ret_ptr),
      element ← arr_read (elements h) i;
      if bool_decide (status element = HASH_OCCUPIED)
      then ret' ← arr_write ret ret_ptr (f element); Ok (ret', u64 (ret_ptr + 1))
      else Ok (ret, ret_ptr))
    (fresh_buffer (hash_entry_count h), 0).

(** The array and [*number]. *)
Definition hash_get_all {A} (f : hash_element_t E → A) : M (hash_t E) (buffer A * Z) :=
  on_hash_rwlock my_rdlock;;
  h ← mget;
  cq_malloc (u64 (hash_entry_count h * 8)) ();;
  '(ret, _) ← mlift (collect f h);
  on_hash_rwlock my_rwunlock;;
  mret (ret, hash_entry_count h).
Definition hash_get_entries : M (hash_t E) (buffer (option E) * Z) := hash_get_all entry.
Definition hash_get_keys : M (hash_t E) (buffer (option key_ptr) * Z) := hash_get_all key.

(** The entries given to the free callback; the table is gone afterwards. *)
Definition hash_destroy : M (hash_t E) (list (option E)) :=
  on_hash_rwlock my_wrlock;;
  h ← mget;
  freed ← mlift (for_upto (hash_size h) (λ i freed,
      element ← arr_read (elements h) i;
      Ok (if bool_decide (status element = HASH_OCCUPIED)
          then freed ++ [entry element] else freed)) []);
  mmodify (set_elements Dangling);;
  mret freed.
End hash.

(** ** The representation of a finite map by a hash table *)

#[local] Opaque hash_func.

Section spec.
Context {E : Type} `{HashEntry E}.
Implicit Types (h : hash_t E) (k : key_ptr) (cs : list (hash_element_t E))
  (el : hash_element_t E) (kbs : list Z) (m : gmap (list Z) E).

(** The bytes that make up a key. *)
Definition kb k : list Z := take (Z.to_nat (hash_key_size_func k)) (key_mem k).

Definition key_ok k : Prop :=
  is_bytes (key_mem k) ∧
  0 ≤ hash_key_size_func k ≤ Z.of_nat (length (key_mem k)) ∧
  hash_key_size_func k < 2 ^ 64.

(** The slot of level [n] in the probe sequence of a key. *)
Definition probe kbs (size : Z) (n : nat) : Z :=
  hash_func 0 kbs (Z.of_nat (length kbs)) (u64 (Z.of_nat n)) mod size.

(** Every slot turns up in the probe sequence. *)
Definition covers kbs (size : Z) : Prop :=
  ∀ i, 0 ≤ i < size → ∃ n, Z.of_nat n < 2 ^ 64 ∧ probe kbs size n = i.

(** The map entry of an element. *)
Definition bind1 el : option (list Z * E) :=
  match status el with
  | HASH_OCCUPIED => e ← entry el; Some (kb (hash_entry_key_func e), e)
  | _ => None
  end.
Definition bindings cs : list (list Z * E) := omap bind1 cs.

Definition elem_ok el : Prop :=
  status el = HASH_OCCUPIED →
  ∃ e, entry el = Some e ∧ key el = Some (hash_entry_key_func e) ∧
    key_size el = hash_key_size_func (hash_entry_key_func e) ∧
    key_ok (hash_entry_key_func e).

(** Slot [i] is on the probe sequence of a key, behind no empty slot. *)
Definition reaches cs (size : Z) kbs (i : nat) : Prop :=
  ∃ n, Z.to_nat (probe kbs size n) = i ∧
    ∀ j, (j < n)%nat → ∃ el, cs !! Z.to_nat (probe kbs size j) = Some el ∧
      status el ≠ HASH_EMPTY.

Record table cs (size : Z) : Prop := {
  tb_length : Z.of_nat (length cs) = size;
  tb_pos : 0 < size;
  tb_elems : Forall elem_ok cs;
  tb_nodup : NoDup (bindings cs).*1;
  tb_reach i el b : cs !! i = Some el → bind1 el = Some b → reaches cs size b.1 i;
}.

Definition is_removed el : bool := match status el with HASH_REMOVED => true | _ => false end.
Definition n_removed cs : nat := length (List.filter is_removed cs).

Definition to_map cs : gmap (list Z) E := list_to_map (bindings cs).

Record hrep_in (l : my_rwlock_t) h m cs : Prop := {
  hr_elements : elements h = Live (Some <$> cs);
  hr_table : table cs (hash_size h);
  hr_map : m = to_map cs;
  hr_count : hash_entry_count h = Z.of_nat (length (bindings cs));
  hr_removed : hash_entry_removed_count h = Z.of_nat (n_removed cs);
  hr_load : 2 * (hash_entry_count h + hash_entry_removed_count h) ≤ hash_size h;
  hr_bound : 32 * hash_size h ≤ PTRDIFF_MAX;
  hr_rwlock : hash_rwlock h = l;
}.

Definition hrep h m : Prop := ∃ cs, hrep_in RwFree h m cs.

(** Where a search for a key ends. *)
Definition final kbs el : bool :=
  match status el with
  | HASH_EMPTY => true
  | HASH_OCCUPIED => bool_decide (fst <$> bind1 el = Some kbs)
  | HASH_REMOVED => false
  end.

(** *** Keys and probes *)

Lemma length_kb k : key_ok k → Z.of_nat (length (kb k)) = hash_key_size_func k.
Proof. intros (_ & Hs & _). unfold kb. rewrite length_take. lia. Qed.

Lemma kb_bytes k : key_ok k → is_bytes (kb k).
Proof. intros (Hb & _). by apply Forall_take. Qed.

Lemma hash_func_kb k level : key_ok k →
  hash_func (key_addr k) (key_mem k) (hash_key_size_func k) level =
    hash_func 0 (kb k) (Z.of_nat (length (kb k))) level.
Proof.
  intros Hk. rewrite length_kb by done.
  apply hash_func_key_bytes; [apply Hk|by apply kb_bytes|apply Hk|].
  unfold kb. by rewrite take_take, Nat.min_id.
Qed.

Lemma probe_range kbs size n : 0 < size → 0 ≤ probe kbs size n < size.
Proof. intros. by apply Z.mod_pos_bound. Qed.

(** Comparing sizes and then bytes is comparing the keys. *)
Lemma memcmp_spec k k' : key_ok k → key_ok k' →
  hash_key_size_func k' = hash_key_size_func k →
  memcmp_eq k k' (hash_key_size_func k) = Ok (bool_decide (kb k' = kb k)).
Proof.
  intros (Hb & Hs & _) (Hb' & Hs' & _) Heq. unfold memcmp_eq. zbool. cbn [orb].
  f_equal. unfold kb. rewrite Heq. apply bool_decide_ext. split; congruence.
Qed.

Lemma kb_size k k' : key_ok k → key_ok k' → kb k' = kb k →
  hash_key_size_func k' = hash_key_size_func k.
Proof. intros Hk Hk' Heq. rewrite <- !length_kb by done. by rewrite Heq. Qed.

(** *** The search *)

Lemma find_step_spec h k cs el (n : nat) :
  elements h = Live (Some <$> cs) → table cs (hash_size h) → key_ok k →
  cs !! Z.to_nat (probe (kb k) (hash_size h) n) = Some el →
  hash_find_step h k (hash_key_size_func k) (u64 (Z.of_nat n)) =
    if final (kb k) el then inr (Ok (probe (kb k) (hash_size h) n, status el))
    else inl (u64 (Z.of_nat (S n))).
Proof.
  intros He Ht Hk Hel. pose proof (tb_pos _ _ Ht).
  assert (hash_func (key_addr k) (key_mem k) (hash_key_size_func k) (u64 (Z.of_nat n))
            mod hash_size h = probe (kb k) (hash_size h) n) as Hp.
  { unfold probe. by rewrite hash_func_kb by done. }
  unfold hash_find_step. cbv zeta. rewrite Hp. clear Hp. zbool.
  pose proof (probe_range (kb k) (hash_size h) n ltac:(done)).
  rewrite He, (arr_read_ok _ _ el); [|lia|by rewrite list_lookup_fmap, Hel].
  replace (u64 (u64 (Z.of_nat n) + 1)) with (u64 (Z.of_nat (S n)))
    by (rewrite u64_add_l; f_equal; lia).
  unfold final, bind1.
  destruct (status el) eqn:Hst; [done| |done].
  destruct (proj1 (Forall_lookup _ _) (tb_elems _ _ Ht) _ _ Hel Hst)
    as (e & Hent & Hkey & Hsz & Hok).
  rewrite Hent, Hkey, Hsz. unfold mbind, option_bind. cbn [fmap option_fmap option_map fst].
  zcase.
  - rewrite memcmp_spec by done.
    rewrite (bool_decide_ext (Some (kb (hash_entry_key_func e)) = Some (kb k))
      (kb (hash_entry_key_func e) = kb k)) by (split; congruence).
    by destruct (bool_decide _).
  - rewrite bool_decide_false; [done|]. intros [= Heq].
    by apply kb_size in Heq.
Qed.

(** Probes that end nothing are followed by the next one. *)
Lemma find_run_misses h k cs (d j : nat) :
  elements h = Live (Some <$> cs) → table cs (hash_size h) → key_ok k →
  (∀ i el, (j ≤ i < j + d)%nat →
     cs !! Z.to_nat (probe (kb k) (hash_size h) i) = Some el → final (kb k) el = false) →
  run (hash_find_step h k (hash_key_size_func k)) d (u64 (Z.of_nat j)) =
    inl (u64 (Z.of_nat (j + d))).
Proof.
  intros He Ht Hk. revert j. induction d as [|d IH]; intros j Hmiss; cbn [run].
  - by rewrite Nat.add_0_r.
  - pose proof (tb_pos _ _ Ht). pose proof (tb_length _ _ Ht).
    pose proof (probe_range (kb k) (hash_size h) j ltac:(done)).
    destruct (lookup_lt_is_Some_2 cs (Z.to_nat (probe (kb k) (hash_size h) j)))
      as [el Hel]; [lia|].
    rewrite (find_step_spec _ _ _ _ _ He Ht Hk Hel), (Hmiss j el) by (lia || done).
    rewrite (IH (S j)); [by replace (S j + d)%nat with (j + S d)%nat by lia|].
    intros i eli Hi. apply Hmiss. lia.
Qed.

(** The search ends at the first slot of the probe that ends it. *)
Lemma find_first h k cs :
  elements h = Live (Some <$> cs) → table cs (hash_size h) → key_ok k →
  (∃ n el, Z.of_nat n < 2 ^ 64 ∧
     cs !! Z.to_nat (probe (kb k) (hash_size h) n) = Some el ∧ final (kb k) el = true) →
  ∃ n el, hash_find h k (hash_key_size_func k) =
            Ok (probe (kb k) (hash_size h) n, status el) ∧
    cs !! Z.to_nat (probe (kb k) (hash_size h) n) = Some el ∧ final (kb k) el = true ∧
    ∀ j, (j < n)%nat → ∃ el, cs !! Z.to_nat (probe (kb k) (hash_size h) j) = Some el ∧
      final (kb k) el = false.
Proof.
  intros He Ht Hk (n & el & Hn & Hel & Hf).
  pose proof (tb_pos _ _ Ht). pose proof (tb_length _ _ Ht).
  set (slot j := Z.to_nat (probe (kb k) (hash_size h) j)).
  change (cs !! slot n = Some el) in Hel.
  assert (∀ j, ∃ el, cs !! slot j = Some el) as Hall.
  { intros j. apply lookup_lt_is_Some. subst slot. cbn.
    pose proof (probe_range (kb k) (hash_size h) j ltac:(done)). lia. }
  destruct (least_nat (λ j, final (kb k) <$> cs !! slot j = Some true) n)
    as (m & Hm & Hfm & Hmin); [rewrite Hel; cbn; by rewrite Hf|].
  destruct (Hall m) as [elm Helm]. rewrite Helm in Hfm. injection Hfm as Hfm.
  assert (∀ j, (j < m)%nat → ∃ el, cs !! slot j = Some el ∧ final (kb k) el = false) as Hlt.
  { intros j Hj. destruct (Hall j) as [elj Helj]. exists elj. split; [done|].
    specialize (Hmin j Hj). rewrite Helj in Hmin. cbn in Hmin.
    by destruct (final (kb k) elj). }
  exists m, elm. split_and!; [|done..]. unfold hash_find.
  assert (run (hash_find_step h k (hash_key_size_func k)) (m + 1) 0 =
      inr (Ok (probe (kb k) (hash_size h) m, status elm))) as Hrun.
  { replace 0 with (u64 (Z.of_nat 0)) by done.
    rewrite run_add, (find_run_misses _ _ cs) by
      (try done; intros i el' Hi Hel'; change (cs !! slot i = Some el') in Hel'; destruct (Hlt i ltac:(lia)) as (? & ? & ?); congruence).
    cbn [run Nat.add]. by rewrite (find_step_spec _ _ _ _ _ He Ht Hk Helm), Hfm. }
  pose proof (loop_of_run _ _ P64 _ _ Hrun (P64_ge (m + 1) ltac:(lia))) as Hloop.
  by rewrite Hloop.
Qed.

(** *** Counting the slots *)

Definition has_empty cs : Prop := ∃ i el, cs !! i = Some el ∧ status el = HASH_EMPTY.

Lemma bind1_occupied el : elem_ok el → status el = HASH_OCCUPIED →
  ∃ e, entry el = Some e ∧ bind1 el = Some (kb (hash_entry_key_func e), e).
Proof.
  intros Hel Hst. destruct (Hel Hst) as (e & He & _). exists e.
  split; [done|]. unfold bind1. by rewrite Hst, He.
Qed.

Lemma bind1_Some el kbs e : bind1 el = Some (kbs, e) →
  status el = HASH_OCCUPIED ∧ entry el = Some e ∧ kbs = kb (hash_entry_key_func e).
Proof.
  unfold bind1. destruct (status el); [done| |done].
  destruct (entry el) as [e'|]; [|done]. by intros [= <- <-].
Qed.

Lemma slots_counted cs : Forall elem_ok cs →
  length cs = (length (List.filter (λ el, bool_decide (status el = HASH_EMPTY)) cs)
               + length (bindings cs) + n_removed cs)%nat.
Proof.
  unfold bindings, n_removed, is_removed. induction 1 as [|el cs Hel Hcs IH]; [done|].
  cbn [length List.filter omap list_omap].
  destruct (status el) eqn:Hst.
  - assert (bind1 el = None) as -> by (unfold bind1; by rewrite Hst).
    repeat case_bool_decide; try done; cbn [length]; lia.
  - destruct (bind1_occupied el Hel Hst) as (e & _ & ->).
    repeat case_bool_decide; try done; cbn [length]; lia.
  - assert (bind1 el = None) as -> by (unfold bind1; by rewrite Hst).
    repeat case_bool_decide; try done; cbn [length]; lia.
Qed.

(** At most half of the slots are used, so some slot is empty. *)
Lemma load_has_empty cs size :
  table cs size → 2 * Z.of_nat (length (bindings cs) + n_removed cs) ≤ size →
  has_empty cs.
Proof.
  intros Ht Hload. pose proof (slots_counted cs (tb_elems _ _ Ht)) as Hc.
  pose proof (tb_length _ _ Ht). pose proof (tb_pos _ _ Ht).
  destruct (List.filter (λ el, bool_decide (status el = HASH_EMPTY)) cs) as [|el l] eqn:Hf.
  - cbn in Hc. lia.
  - assert (In el (List.filter (λ el, bool_decide (status el = HASH_EMPTY)) cs)) as Hin
      by (rewrite Hf; by left).
    apply filter_In in Hin as [Hin Hst].
    apply list_elem_of_In, list_elem_of_lookup in Hin as [i Hi].
    exists i, el. split; [done|]. by apply bool_decide_eq_true in Hst.
Qed.

(** *** What a search finds *)

Lemma to_map_lookup cs kbs e : NoDup (bindings cs).*1 →
  to_map cs !! kbs = Some e ↔ ∃ i el, cs !! i = Some el ∧ bind1 el = Some (kbs, e).
Proof.
  intros Hnd. unfold to_map. rewrite <- elem_of_list_to_map by done.
  unfold bindings. rewrite list_elem_of_omap. split.
  - intros (el & Hel & Hb). apply list_elem_of_lookup in Hel as [i Hi]. eauto.
  - intros (i & el & Hi & Hb). exists el. split; [|done].
    by apply list_elem_of_lookup_2 in Hi.
Qed.

Lemma final_Some cs kbs el : final kbs el = true → status el ≠ HASH_EMPTY →
  ∃ e, bind1 el = Some (kbs, e).
Proof.
  unfold final. destruct (status el); [done| |done].
  intros Hb _. apply bool_decide_eq_true in Hb.
  destruct (bind1 el) as [[kbs' e]|]; [|done]. injection Hb as ->. by exists e.
Qed.

(** A search ends when some probe ends it, and otherwise goes on for ever. *)
Lemma find_ends h k cs :
  elements h = Live (Some <$> cs) → table cs (hash_size h) → key_ok k →
  hash_find h k (hash_key_size_func k) = Stop Diverges ∨
  ∃ n el, Z.of_nat n < 2 ^ 64 ∧
    cs !! Z.to_nat (probe (kb k) (hash_size h) n) = Some el ∧ final (kb k) el = true.
Proof.
  intros He Ht Hk.
  destruct (decide (Exists (λ n,
    final (kb k) <$> cs !! Z.to_nat (probe (kb k) (hash_size h) n) = Some true)
    (seq 0 (Pos.to_nat P64)))) as [Hex|Hno].
  - right. apply Exists_exists in Hex as (n & Hn & Hf). apply elem_of_seq in Hn.
    apply fmap_Some in Hf as (el & Hel & Hf). exists n, el.
    split_and!; [unfold P64 in Hn; lia|done|by symmetry].
  - left. unfold hash_find. rewrite loop_run.
    replace 0 with (u64 (Z.of_nat 0)) by done.
    rewrite (find_run_misses h k cs (Pos.to_nat P64) 0 He Ht Hk); [done|].
    intros j el Hj Hel. destruct (final (kb k) el) eqn:Hf; [|done].
    destruct Hno. apply Exists_exists. exists j.
    split; [apply elem_of_seq; lia|]. by rewrite Hel, <- Hf.
Qed.

(** What a search that ends finds: what the map holds. *)
Definition find_answer h k cs : Prop :=
  match to_map cs !! kb k with
  | Some e => ∃ i el, hash_find h k (hash_key_size_func k) = Ok (i, HASH_OCCUPIED) ∧
      0 ≤ i ∧ cs !! Z.to_nat i = Some el ∧ entry el = Some e ∧ bind1 el = Some (kb k, e)
  | None => ∃ i el, hash_find h k (hash_key_size_func k) = Ok (i, HASH_EMPTY) ∧
      0 ≤ i ∧ cs !! Z.to_nat i = Some el ∧ status el = HASH_EMPTY ∧
      reaches cs (hash_size h) (kb k) (Z.to_nat i)
  end.

Lemma find_reached h k cs :
  elements h = Live (Some <$> cs) → table cs (hash_size h) → key_ok k →
  (∃ n el, Z.of_nat n < 2 ^ 64 ∧
     cs !! Z.to_nat (probe (kb k) (hash_size h) n) = Some el ∧ final (kb k) el = true) →
  find_answer h k cs.
Proof.
  intros He Ht Hk Hex. unfold find_answer. pose proof (tb_pos _ _ Ht).
  destruct (find_first h k cs He Ht Hk Hex) as (n & el & Hf & Hel & Hfin & Hlt).
  pose proof (probe_range (kb k) (hash_size h) n ltac:(done)) as Hr.
  destruct (to_map cs !! kb k) as [e|] eqn:Hm.
  - apply to_map_lookup in Hm as (i & eli & Hi & Hb); [|apply Ht].
    destruct (tb_reach _ _ Ht i eli _ Hi Hb) as (m & Hm & Hne). cbn [fst] in *.
    assert (n ≤ m)%nat as Hnm.
    { destruct (decide (n ≤ m)%nat); [done|].
      destruct (Hlt m ltac:(lia)) as (elm & Helm & Hfm).
      rewrite Hm, Hi in Helm. injection Helm as ->.
      unfold final in Hfm. apply bind1_Some in Hb as Hb'. destruct Hb' as (Hst & _ & _).
      rewrite Hst, Hb in Hfm. cbn in Hfm. by rewrite bool_decide_true in Hfm. }
    assert (status el ≠ HASH_EMPTY) as Hst.
    { destruct (decide (n = m)) as [->|].
      - rewrite Hm, Hi in Hel. injection Hel as <-.
        apply bind1_Some in Hb as (-> & _). done.
      - destruct (Hne n ltac:(lia)) as (el' & Hel' & Hst'). congruence. }
    destruct (final_Some cs _ _ Hfin Hst) as (e' & Hb').
    assert (e' = e) as ->.
    { assert (to_map cs !! kb k = Some e') as Hm1.
      { apply to_map_lookup; [apply Ht|by eauto]. }
      assert (to_map cs !! kb k = Some e) as Hm2.
      { apply to_map_lookup; [apply Ht|by eauto]. }
      congruence. }
    destruct (bind1_Some _ _ _ Hb') as (Hst' & Hent & _).
    exists (probe (kb k) (hash_size h) n), el. rewrite <- Hst' at 1.
    split_and!; [done|lia|done..].
  - exists (probe (kb k) (hash_size h) n), el.
    assert (status el = HASH_EMPTY) as Hst.
    { destruct (decide (status el = HASH_EMPTY)) as [|Hne]; [done|].
      destruct (final_Some cs _ _ Hfin Hne) as (e & Hb).
      assert (to_map cs !! kb k = Some e) as Hm1.
      { apply to_map_lookup; [apply Ht|by eauto]. }
      congruence. }
    rewrite <- Hst at 1. split_and!; [done|lia|done..|].
    exists n. split; [done|]. intros j Hj. destruct (Hlt j Hj) as (elj & Helj & Hfj).
    exists elj. split; [done|]. intros Hs. unfold final in Hfj. by rewrite Hs in Hfj.
Qed.

(** A key that reaches every slot, the empty one included. *)
Lemma covers_ends h k cs :
  table cs (hash_size h) → covers (kb k) (hash_size h) → has_empty cs →
  ∃ n el, Z.of_nat n < 2 ^ 64 ∧
    cs !! Z.to_nat (probe (kb k) (hash_size h) n) = Some el ∧ final (kb k) el = true.
Proof.
  intros Ht Hcov (i0 & el0 & Hi0 & Hst0).
  pose proof (tb_length _ _ Ht). pose proof (lookup_lt_Some _ _ _ Hi0).
  destruct (Hcov (Z.of_nat i0) ltac:(lia)) as (n0 & Hn0 & Hp0).
  exists n0, el0. rewrite Hp0, Nat2Z.id. split_and!; [done..|]. unfold final. by rewrite Hst0.
Qed.

(** A search goes on for ever, or answers. *)
Lemma find_total h k cs :
  elements h = Live (Some <$> cs) → table cs (hash_size h) → key_ok k →
  find_answer h k cs ∨ hash_find h k (hash_key_size_func k) = Stop Diverges.
Proof.
  intros He Ht Hk. destruct (find_ends h k cs He Ht Hk) as [Hd|Hex]; [by right|left].
  by apply find_reached.
Qed.

(** *** Writing a slot *)

Lemma reaches_mono cs cs' size kbs i :
  (∀ j el, cs !! j = Some el → status el ≠ HASH_EMPTY →
     ∃ el', cs' !! j = Some el' ∧ status el' ≠ HASH_EMPTY) →
  reaches cs size kbs i → reaches cs' size kbs i.
Proof.
  intros Hne (n & Hn & Hj). exists n. split; [done|].
  intros j Hlt. destruct (Hj j Hlt) as (el & Hel & Hst). eauto.
Qed.

(** Used slots stay used when slot [i] is given a used element. *)
Lemma used_insert cs i el1 : status el1 ≠ HASH_EMPTY →
  ∀ j el, cs !! j = Some el → status el ≠ HASH_EMPTY →
    ∃ el', <[i := el1]> cs !! j = Some el' ∧ status el' ≠ HASH_EMPTY.
Proof.
  intros Hst1 j el Hj Hst. destruct (decide (i = j)) as [->|Hne].
  - exists el1. split; [|done]. apply list_lookup_insert_eq. by eapply lookup_lt_Some.
  - exists el. by rewrite list_lookup_insert_ne.
Qed.

Lemma n_removed_insert cs i el0 el1 : cs !! i = Some el0 →
  (n_removed (<[i := el1]> cs) + Nat.b2n (is_removed el0) =
   n_removed cs + Nat.b2n (is_removed el1))%nat.
Proof.
  intros Hi. assert (∀ l1 el l2, n_removed (l1 ++ el :: l2) =
    n_removed l1 + Nat.b2n (is_removed el) + n_removed l2)%nat as Happ.
  { intros l1 el l2. unfold n_removed. rewrite List.filter_app, length_app. cbn.
    destruct (is_removed el); cbn; lia. }
  rewrite <- (take_drop_middle cs i el0 Hi) at 2.
  rewrite insert_take_drop by (by eapply lookup_lt_Some).
  rewrite !Happ. lia.
Qed.

Lemma table_insert cs size i el0 el1 b :
  table cs size → cs !! i = Some el0 → status el0 = HASH_EMPTY →
  elem_ok el1 → bind1 el1 = Some b → b.1 ∉ (bindings cs).*1 →
  reaches cs size b.1 i →
  table (<[i := el1]> cs) size ∧ bindings (<[i := el1]> cs) ≡ₚ b :: bindings cs ∧
  n_removed (<[i := el1]> cs) = n_removed cs.
Proof.
  intros Ht Hi Hst Hok Hb Hnew Hreach.
  assert (bind1 el0 = None) as Hb0 by (unfold bind1; by rewrite Hst).
  assert (status el1 = HASH_OCCUPIED) as Hst1.
  { destruct b as [kbs e]. by apply bind1_Some in Hb as (? & _). }
  assert (status el1 ≠ HASH_EMPTY) as Hne1 by (by rewrite Hst1).
  pose proof (omap_insert_add bind1 cs i el0 el1 b Hi Hb0 Hb) as Hperm.
  destruct Ht as [Hlen Hpos Hel Hnd Hr]. split_and!; [split|done|].
  - by rewrite length_insert.
  - done.
  - by apply Forall_insert.
  - unfold bindings. rewrite Hperm. cbn. by constructor.
  - intros j el b' Hj Hb'. apply (reaches_mono cs); [by apply used_insert|].
    apply list_lookup_insert_Some in Hj as [(-> & -> & _) | (_ & Hj)].
    + congruence.
    + by eapply Hr.
  - pose proof (n_removed_insert cs i el0 el1 Hi) as Hn. unfold is_removed in Hn.
    rewrite Hst, Hst1 in Hn. cbn in Hn. lia.
Qed.

Lemma table_remove cs size i el0 el1 b :
  table cs size → cs !! i = Some el0 → bind1 el0 = Some b →
  status el1 = HASH_REMOVED →
  table (<[i := el1]> cs) size ∧ bindings cs ≡ₚ b :: bindings (<[i := el1]> cs) ∧
  n_removed (<[i := el1]> cs) = S (n_removed cs).
Proof.
  intros Ht Hi Hb Hst1.
  assert (bind1 el1 = None) as Hb1 by (unfold bind1; by rewrite Hst1).
  assert (status el0 = HASH_OCCUPIED) as Hst0.
  { destruct b as [kbs e]. by apply bind1_Some in Hb as (? & _). }
  assert (status el1 ≠ HASH_EMPTY) as Hne1 by (by rewrite Hst1).
  pose proof (omap_insert_del bind1 cs i el0 el1 b Hi Hb Hb1) as Hperm.
  destruct Ht as [Hlen Hpos Hel Hnd Hr]. split_and!; [split|done|].
  - by rewrite length_insert.
  - done.
  - apply Forall_insert; [done|]. intros Hst. congruence.
  - unfold bindings in *. rewrite Hperm in Hnd. cbn in Hnd. by apply NoDup_cons in Hnd as [_ ?].
  - intros j el b' Hj Hb'. apply (reaches_mono cs); [by apply used_insert|].
    apply list_lookup_insert_Some in Hj as [(-> & -> & _) | (_ & Hj)].
    + congruence.
    + by eapply Hr.
  - pose proof (n_removed_insert cs i el0 el1 Hi) as Hn. unfold is_removed in Hn.
    rewrite Hst0, Hst1 in Hn. cbn in Hn. lia.
Qed.

Lemma table_zero (size : Z) :
  0 < size → table (replicate (Z.to_nat size) zero_element) size ∧
  bindings (replicate (Z.to_nat size) zero_element) = [] ∧
  n_removed (replicate (Z.to_nat size) zero_element) = 0%nat.
Proof.
  intros Hs.
  assert (∀ n, bindings (replicate n zero_element) = []) as Hb by (by induction n).
  assert (∀ n, n_removed (replicate n zero_element) = 0%nat) as Hr by (by induction n).
  split_and!; [split|done..].
  - rewrite length_replicate. lia.
  - done.
  - apply Forall_replicate. intros Hst. discriminate Hst.
  - rewrite Hb. constructor.
  - intros i el b Hi Hbi. apply lookup_replicate in Hi as [-> _]. discriminate Hbi.
Qed.

(** *** Rehashing *)

Lemma memset_spec (cells : list (option (hash_element_t E))) (n : Z) :
  Z.of_nat (length cells) = n → memset_elements (Live cells) n =
    Ok (Live (Some <$> replicate (Z.to_nat n) zero_element)).
Proof.
  intros Hlen. unfold memset_elements. zbool.
  by rewrite drop_ge, app_nil_r, fmap_replicate by lia.
Qed.

(** What has been moved after [i] source slots. *)
Record moved h0 cs (size' : Z) (i : nat) (s : hash_t E * ret_t) : Prop := {
  mv_ret : s.2 = RET_SUCCEED;
  mv_table : ∃ cs', s.1 = set_elements (Live (Some <$> cs')) h0 ∧ table cs' size' ∧
    bindings cs' ≡ₚ bindings (take i cs) ∧ n_removed cs' = 0%nat;
}.

Lemma bindings_take_S cs i el : cs !! i = Some el →
  bindings (take (S i) cs) = bindings (take i cs) ++ option_list (bind1 el).
Proof.
  intros Hi. rewrite (take_S_r cs i el Hi). unfold bindings. rewrite omap_app. cbn.
  by destruct (bind1 el).
Qed.

Lemma bindings_take_le cs i : (length (bindings (take i cs)) ≤ length (bindings cs))%nat.
Proof.
  rewrite <- (take_drop i cs) at 2. unfold bindings. rewrite omap_app, length_app. lia.
Qed.

(** Every key of the table reaches every slot. *)
Definition covers_all cs (size' : Z) : Prop := ∀ kbs, kbs ∈ (bindings cs).*1 → covers kbs size'.

Lemma rehash_element_moved h0 cs size size' i el s :
  table cs size → hash_size h0 = size' →
  2 * Z.of_nat (length (bindings cs)) ≤ size' →
  cs !! i = Some el → moved h0 cs size' i s →
  (∃ s', rehash_element el s = Ok s' ∧ moved h0 cs size' (S i) s') ∨
  (rehash_element el s = Stop Diverges ∧ ¬ covers_all cs size').
Proof.
  intros Ht Hsz Hload Hi [Hret (cs' & Hs & Ht' & Hperm & Hrem)].
  destruct s as [h ret]. cbn in Hret, Hs. subst ret h. unfold rehash_element.
  pose proof (bindings_take_S cs i el Hi) as Htake.
  case_bool_decide as Hst.
  2: { left. eexists. split; [done|]. split; [done|]. exists cs'. cbn. split_and!; [done..| |done].
       rewrite Htake. replace (bind1 el) with (@None (list Z * E));
         [by rewrite app_nil_r|]. unfold bind1. by destruct (status el). }
  pose proof (proj1 (Forall_lookup _ _) (tb_elems _ _ Ht) _ _ Hi) as Hok.
  destruct (Hok Hst) as (e & Hent & Hkey & Hksz & Hkok).
  set (k := hash_entry_key_func e) in *.
  assert (bind1 el = Some (kb k, e)) as Hb by (unfold bind1; by rewrite Hst, Hent).
  rewrite Hb in Htake. cbn [option_list] in Htake.
  assert (kb k ∉ (bindings cs').*1) as Hnew.
  { rewrite Hperm. pose proof (tb_nodup _ _ Ht) as Hnd.
    rewrite <- (take_drop (S i) cs) in Hnd. unfold bindings in Hnd.
    rewrite omap_app, fmap_app in Hnd. apply NoDup_app in Hnd as [Hnd _].
    change (omap bind1 (take (S i) cs)) with (bindings (take (S i) cs)) in Hnd.
    rewrite Htake, fmap_app in Hnd. apply NoDup_app in Hnd as (_ & Hnd & _).
    intros Hin. apply (Hnd _ Hin). cbn. by left. }
  rewrite Hkey, Hksz.
  set (h1 := set_elements (Live (Some <$> cs')) h0).
  assert (table cs' (hash_size h1)) as Ht1 by (cbn; by rewrite Hsz).
  unfold mbind, res_mbind. destruct (find_ends h1 k cs' eq_refl Ht1 Hkok) as [Hd|Hex].
  { right. rewrite Hd. split; [done|]. intros Hcov.
    destruct (covers_ends h1 k cs' Ht1) as (n & el' & Hn & Hel' & Hf).
    - cbn. rewrite Hsz. apply Hcov, list_elem_of_fmap. exists (kb k, e). split; [done|].
      unfold bindings. apply list_elem_of_omap. exists el. split; [|done].
      by eapply list_elem_of_lookup_2.
    - eapply load_has_empty; [done|]. rewrite Hrem, Hperm.
      pose proof (bindings_take_le cs i). cbn. lia.
    - destruct (find_first h1 k cs' eq_refl Ht1 Hkok) as (m & elm & Hm & _); [by exists n, el'|].
      congruence. }
  left. pose proof (find_reached h1 k cs' eq_refl Ht1 Hkok Hex) as Hfind.
  unfold find_answer in Hfind.
  assert (to_map cs' !! kb k = None) as Hnone by (by apply not_elem_of_list_to_map_1).
  rewrite Hnone in Hfind.
  destruct Hfind as (j & el0 & Hf & Hj & Hel0 & Hst0 & Hreach). cbn in Hreach.
  rewrite Hsz in Hreach.
  subst h1. rewrite Hf.
  rewrite bool_decide_true by done. cbn [negb elements set_elements].
  pose proof (lookup_lt_Some _ _ _ Hel0).
  rewrite arr_write_ok by (rewrite length_fmap; lia).
  destruct (table_insert cs' size' (Z.to_nat j) el0 el (kb k, e)) as (Ht2 & Hp2 & Hr2);
    try done.
  eexists. split; [done|]. split; [done|]. exists (<[Z.to_nat j := el]> cs').
  cbn [fst]. rewrite list_fmap_insert. split_and!; [done|done| |congruence].
  rewrite Hp2, Htake, Hperm. by rewrite Permutation_app_comm.
Qed.

Definition rehashed h0 cs (r : res ret_t * hash_t E) : Prop :=
  ∃ cs', r = (Ok RET_SUCCEED, set_elements (Live (Some <$> cs')) h0) ∧
    table cs' (hash_size h0) ∧ bindings cs' ≡ₚ bindings cs ∧ n_removed cs' = 0%nat.

(** A rehash moves every entry, or searches for ever. *)
Lemma rehash_total h0 (cells : list (option (hash_element_t E))) cs size :
  elements h0 = Live cells → Z.of_nat (length cells) = hash_size h0 → 0 < hash_size h0 →
  table cs size → 2 * Z.of_nat (length (bindings cs)) ≤ hash_size h0 →
  rehashed h0 cs (rehash (Live (Some <$> cs)) size h0) ∨
  ((∃ h', rehash (Live (Some <$> cs)) size h0 = (Stop Diverges, h')) ∧
   ¬ covers_all cs (hash_size h0)).
Proof.
  intros Hel Hlen Hpos Ht Hload. unfold rehash. mstep.
  rewrite Hel, memset_spec by done.
  destruct (table_zero (hash_size h0) Hpos) as (Htz & Hbz & Hrz).
  destruct (for_upto_ends cs
    (λ i s, match arr_read (Live (Some <$> cs)) i with
            | Ok element => rehash_element element s | Stop w => Stop w end)
    (moved h0 cs (hash_size h0)) (λ w, w = Diverges ∧ ¬ covers_all cs (hash_size h0))
    (set_elements (Live (Some <$> replicate (Z.to_nat (hash_size h0)) zero_element)) h0,
     RET_SUCCEED)) as [([h' ret] & Hfor & [Hret (cs' & Hs & Ht' & Hp' & Hr')])
                      |(w & Hfor & -> & Hn)].
  - intros i el s Hi Hmv. rewrite (arr_read_ok _ _ el); [|lia|].
    + destruct (rehash_element_moved h0 cs size (hash_size h0) i el s)
        as [?|[Hd Hn]]; try done; [by left|]. right. by exists Diverges.
    + by rewrite Nat2Z.id, list_lookup_fmap, Hi.
  - split; [done|]. eexists. split_and!; [done|done| |done]. by rewrite Hbz.
  - left. cbn in Hret, Hs. subst ret h'. rewrite take_ge in Hp' by done.
    rewrite (tb_length _ _ Ht) in Hfor. rewrite Hfor. by exists cs'.
  - right. rewrite (tb_length _ _ Ht) in Hfor. rewrite Hfor. split; [by eexists|done].
Qed.

Lemma rehash_spec h0 (cells : list (option (hash_element_t E))) cs size :
  elements h0 = Live cells → Z.of_nat (length cells) = hash_size h0 → 0 < hash_size h0 →
  table cs size → 2 * Z.of_nat (length (bindings cs)) ≤ hash_size h0 →
  covers_all cs (hash_size h0) →
  rehashed h0 cs (rehash (Live (Some <$> cs)) size h0).
Proof. intros ????? Hcov. by edestruct rehash_total as [?|[_ []]]. Qed.

(** *** Locks and representation *)

Lemma hrep_relock l l' h m cs :
  hrep_in l h m cs → hrep_in l' (set_hash_rwlock l' h) m cs.
Proof. intros []. by split. Qed.

Lemma hash_wrlock_free h : hash_rwlock h = RwFree →
  on_hash_rwlock my_wrlock h = (Ok (), set_hash_rwlock RwWrite h).
Proof. intros E1. unfold on_hash_rwlock. mstep. by rewrite E1. Qed.
Lemma hash_rdlock_free h : hash_rwlock h = RwFree →
  on_hash_rwlock my_rdlock h = (Ok (), set_hash_rwlock (RwRead 1) h).
Proof. intros E1. unfold on_hash_rwlock. mstep. by rewrite E1. Qed.
Lemma hash_rwunlock_held h l : hash_rwlock h = l → l = RwWrite ∨ l = RwRead 1 →
  on_hash_rwlock my_rwunlock h = (Ok (), set_hash_rwlock RwFree h).
Proof. intros E1 [-> | ->]; unfold on_hash_rwlock; mstep; by rewrite E1. Qed.

Lemma relock_id l h : hash_rwlock h = RwFree →
  set_hash_rwlock RwFree (set_hash_rwlock l h) = h.
Proof. intros E1. destruct h; cbn in *; by subst. Qed.

Lemma hrep_lookup_cases l h m cs k :
  hrep_in l h m cs → key_ok k → covers (kb k) (hash_size h) →
  match m !! kb k with
  | Some e => ∃ i el, hash_find h k (hash_key_size_func k) = Ok (i, HASH_OCCUPIED) ∧
      0 ≤ i ∧ cs !! Z.to_nat i = Some el ∧ entry el = Some e ∧ bind1 el = Some (kb k, e)
  | None => ∃ i el, hash_find h k (hash_key_size_func k) = Ok (i, HASH_EMPTY) ∧
      0 ≤ i ∧ cs !! Z.to_nat i = Some el ∧ status el = HASH_EMPTY ∧
      reaches cs (hash_size h) (kb k) (Z.to_nat i)
  end.
Proof.
  intros R Hk Hc. rewrite (hr_map _ _ _ _ R).
  apply find_reached; [apply R|apply R|done|]. apply covers_ends; [apply R|done|].
  eapply load_has_empty; [apply R|].
  rewrite Nat2Z.inj_add, <- (hr_count _ _ _ _ R), <- (hr_removed _ _ _ _ R). apply R.
Qed.

Lemma hrep_lookup_none l h m cs k :
  hrep_in l h m cs → key_ok k → covers (kb k) (hash_size h) → m !! kb k = None →
  ∃ i el, hash_find h k (hash_key_size_func k) = Ok (i, HASH_EMPTY) ∧
    0 ≤ i ∧ cs !! Z.to_nat i = Some el ∧ status el = HASH_EMPTY ∧
    reaches cs (hash_size h) (kb k) (Z.to_nat i).
Proof. intros R Hk Hc Hm. pose proof (hrep_lookup_cases _ _ _ _ _ R Hk Hc) as Hx. by rewrite Hm in Hx. Qed.
End spec.

(** ** The operations on a represented map *)

Section operations.
Context `{Allocator} {E : Type} `{HashEntry E}.
Implicit Types (h : hash_t E) (k : key_ptr) (m : gmap (list Z) E).

Lemma hash_get_spec h m k :
  hrep h m → key_ok k → covers (kb k) (hash_size h) →
  hash_get k h = (Ok (m !! kb k), h).
Proof.
  intros [cs R] Hk Hc. pose proof (hr_rwlock _ _ _ _ R) as Hl. unfold hash_get.
  erewrite bind_ok by by apply hash_rdlock_free.
  apply (hrep_relock _ (RwRead 1)) in R.
  pose proof (hrep_lookup_cases _ _ _ _ _ R Hk Hc) as Hcase. mstep.
  destruct (m !! kb k) as [e|].
  - destruct Hcase as (i & el & Hf & Hi & Hel & Hent & _). rewrite Hf.
    rewrite bool_decide_true by done. rewrite (hr_elements _ _ _ _ R).
    rewrite (arr_read_ok _ _ el) by (by rewrite ?list_lookup_fmap, ?Hel). mstep.
    rewrite (hash_rwunlock_held _ (RwRead 1)) by auto. cbn. rewrite Hent.
    by rewrite relock_id.
  - destruct Hcase as (i & el & Hf & _). rewrite Hf. rewrite bool_decide_false by done.
    rewrite (hash_rwunlock_held _ (RwRead 1)) by auto. cbn. by rewrite relock_id.
Qed.

Lemma hash_remove_spec h m k :
  hrep h m → key_ok k → covers (kb k) (hash_size h) →
  ∃ h', hash_remove k h = (Ok (RET_SUCCEED, Some <$> option_list (m !! kb k)), h') ∧
    hrep h' (delete (kb k) m).
Proof.
  intros [cs R] Hk Hc. unfold hash_remove.
  erewrite bind_ok by apply hash_wrlock_free, R.
  apply (hrep_relock _ RwWrite) in R. set (h0 := set_hash_rwlock RwWrite h) in *.
  change (hash_size h) with (hash_size h0) in Hc. clearbody h0.
  pose proof (hrep_lookup_cases _ _ _ _ _ R Hk Hc) as Hcase. mstep.
  pose proof (hr_rwlock _ _ _ _ R) as Hlock.
  destruct (m !! kb k) as [e|] eqn:Hm.
  - destruct Hcase as (i & el & Hf & Hi & Hel & Hent & Hb). rewrite Hf.
    rewrite bool_decide_true by done. rewrite (hr_elements _ _ _ _ R).
    rewrite (arr_read_ok _ _ el) by (by rewrite ?list_lookup_fmap, ?Hel).
    pose proof (lookup_lt_Some _ _ _ Hel).
    rewrite arr_write_ok by (rewrite length_fmap; lia).
    rewrite (hash_rwunlock_held _ RwWrite) by auto. cbn [option_list fmap list_fmap].
    set (el' := Element (entry el) (key el) (key_size el) HASH_REMOVED).
    destruct (table_remove cs (hash_size h0) (Z.to_nat i) el el' (kb k, e)
      (hr_table _ _ _ _ R) Hel Hb eq_refl) as (Ht' & Hp & Hr).
    eexists. split; [by rewrite Hent|].
    exists (<[Z.to_nat i := el']> cs).
    destruct R as [He Ht Hmap Hcnt Hrem Hload Hbound Hrw].
    pose proof (Permutation_length Hp) as Hlp. cbn [length] in Hlp.
    unfold PTRDIFF_MAX in Hbound.
    split; cbn [elements hash_size hash_entry_count hash_entry_removed_count hash_rwlock
                set_hash_rwlock set_removed set_count set_elements].
    + by rewrite list_fmap_insert.
    + done.
    + rewrite Hmap. unfold to_map. pose proof (tb_nodup _ _ Ht) as Hnd.
      rewrite (list_to_map_proper _ _ Hnd Hp). cbn. rewrite delete_insert_id; [done|].
      apply not_elem_of_list_to_map_1. rewrite Hp in Hnd. cbn in Hnd.
      by apply NoDup_cons in Hnd as [? _].
    + rewrite u64_small; lia.
    + rewrite u64_small; lia.
    + rewrite !u64_small by lia. lia.
    + unfold PTRDIFF_MAX. lia.
    + done.
  - destruct Hcase as (i & el & Hf & _). rewrite Hf. rewrite bool_decide_false by done.
    rewrite (hash_rwunlock_held _ RwWrite) by auto.
    eexists. split; [done|]. exists cs. rewrite delete_id by done.
    by eapply hrep_relock.
Qed.

Lemma add_duplicate h m e :
  let k := hash_entry_key_func e in
  hrep h m → key_ok k → covers (kb k) (hash_size h) → is_Some (m !! kb k) →
  hash_add e h = (Ok RET_FAILED, h).
Proof.
  intros k [cs R] Hk Hc [e' Hm]. pose proof (hr_rwlock _ _ _ _ R) as Hl. unfold hash_add.
  erewrite bind_ok by by apply hash_wrlock_free.
  apply (hrep_relock _ RwWrite) in R.
  pose proof (hrep_lookup_cases _ _ _ _ _ R Hk Hc) as Hcase. rewrite Hm in Hcase.
  destruct Hcase as (i & el & Hf & _). fold k. mstep. rewrite Hf.
  rewrite bool_decide_false by done. cbn [negb].
  rewrite (hash_rwunlock_held _ RwWrite) by auto. by rewrite relock_id.
Qed.

(** A key that is taken is refused, if the search for it ends. *)
Lemma add_taken h m e :
  let k := hash_entry_key_func e in
  hrep h m → key_ok k → is_Some (m !! kb k) →
  hash_add e h = (Ok RET_FAILED, h) ∨ ∃ h', hash_add e h = (Stop Diverges, h').
Proof.
  intros k [cs R] Hk [e' Hm]. pose proof (hr_rwlock _ _ _ _ R) as Hl. unfold hash_add.
  erewrite !bind_ok by by apply hash_wrlock_free.
  apply (hrep_relock _ RwWrite) in R. fold k. mstep.
  destruct (find_total _ k cs (hr_elements _ _ _ _ R) (hr_table _ _ _ _ R) Hk) as [Hans|Hd].
  - left. unfold find_answer in Hans. rewrite <- (hr_map _ _ _ _ R), Hm in Hans.
    destruct Hans as (i & el & -> & _). rewrite bool_decide_false by done. cbn [negb].
    rewrite (hash_rwunlock_held _ RwWrite) by auto. by rewrite relock_id.
  - right. rewrite Hd. by eexists.
Qed.

(** The counters after one more entry decide whether to rehash, and to what. *)
Definition one_more h : hash_t E := set_count (hash_entry_count h + 1) h.

(** What a rehash needs: memory, and keys that reach every new slot. *)
Definition can_rehash h m : Prop :=
  needs_rehash (one_more h) = true →
  ∀ size', rehash_size (one_more h) = Ok size' →
    malloc_ok (32 * size') = true ∧ ∀ kbs, is_Some (m !! kbs) → covers kbs size'.

Lemma rehash_size_spec h m cs l :
  hrep_in l h m cs → 2 * hash_size h < INT_MAX →
  ∃ size', rehash_size (one_more h) = Ok size' ∧
    2 * (hash_entry_count h + 1) ≤ size' ∧ 0 < size' < 2 ^ 59.
Proof.
  intros R Hsz. pose proof (tb_pos _ _ (hr_table _ _ _ _ R)).
  pose proof (hr_load _ _ _ _ R). pose proof (hr_bound _ _ _ _ R) as Hb.
  pose proof (hr_count _ _ _ _ R). pose proof (hr_removed _ _ _ _ R).
  unfold PTRDIFF_MAX, INT_MAX in *.
  unfold rehash_size, one_more, REHASH_RATE. cbn [hash_entry_count hash_size
    hash_entry_removed_count set_count]. zcase.
  - exists (hash_size h). split_and!; [done|lia..].
  - rewrite u64_small, i32_small by lia.
    destruct (find_first_prime_least (hash_size h * 2)) as (p & Hp & _ & Hr & _);
      [unfold INT_MAX; lia|].
    rewrite Hp. unfold mbind, res_mbind. exists p. unfold INT_MAX in Hr.
    rewrite u64_small by lia. split_and!; [done|lia..].
Qed.

(** Growing moves every entry, or searches for ever. *)
Lemma add_grow h m cs cs1 e (kbs : list Z) size' :
  hrep_in RwWrite h m cs → 2 * hash_size h < INT_MAX →
  rehash_size (one_more h) = Ok size' → malloc_ok (32 * size') = true →
  table cs1 (hash_size h) → bindings cs1 ≡ₚ (kbs, e) :: bindings cs →
  n_removed cs1 = n_removed cs →
  let h1 := set_count (hash_entry_count h + 1) (set_elements (Live (Some <$> cs1)) h) in
  let r := rehash (elements h1) (hash_size h1)
    (set_removed 0 (set_hash_size size' (set_elements (fresh_buffer size') h1))) in
  (∃ cs2, let h2 := Hash (Live (Some <$> cs2)) size' (hash_entry_count h + 1) 0 RwWrite in
     r = (Ok RET_SUCCEED, h2) ∧ hrep_in RwWrite h2 (<[kbs := e]> m) cs2) ∨
  ((∃ h', r = (Stop Diverges, h')) ∧ ¬ ∀ kbs', is_Some (<[kbs := e]> m !! kbs') → covers kbs' size').
Proof.
  intros R Hsz Hs Hmem Ht1 Hp1 Hr1 h1 r.
  destruct (rehash_size_spec _ _ _ _ R Hsz) as (size'' & Hs'' & Hl & Hpos).
  rewrite Hs in Hs''. injection Hs'' as <-.
  pose proof (Permutation_length Hp1) as Hlen1. cbn [length] in Hlen1.
  pose proof (hr_count _ _ _ _ R) as Hcnt.
  set (h0 := set_removed 0 (set_hash_size size' (set_elements (fresh_buffer size') h1))).
  destruct (rehash_total h0 (replicate (Z.to_nat size') None) cs1 (hash_size h))
    as [(cs2 & Hre & Ht2 & Hp2 & Hr2)|[Hd Hn]];
    [done|rewrite length_replicate; cbn; lia|cbn; lia|done|cbn; lia| |].
  - left. exists cs2. split; [etransitivity; [exact Hre|]; by rewrite <- (hr_rwlock _ _ _ _ R)|].
    cbn [hash_size h0 set_removed set_hash_size] in Ht2.
    pose proof (Permutation_length Hp2) as Hlen2.
    split; cbn [elements hash_size hash_entry_count hash_entry_removed_count hash_rwlock];
      try done; [|rewrite Hlen2; lia|lia|lia|by apply malloc_ok_bound in Hmem].
    unfold to_map. rewrite (hr_map _ _ _ _ R). unfold to_map.
    rewrite (list_to_map_proper (bindings cs2) ((kbs, e) :: bindings cs));
      [done|apply Ht2|by rewrite Hp2].
  - right. split; [exact Hd|]. intros Hcov. apply Hn. intros kbs' Hin. apply Hcov.
    rewrite Hp1 in Hin. cbn in Hin.
    destruct (decide (kbs' = kbs)) as [->|Hne]; [by rewrite lookup_insert_eq|].
    rewrite lookup_insert_ne by done. apply elem_of_cons in Hin as [Hin|Hin]; [done|].
    rewrite (hr_map _ _ _ _ R). unfold to_map.
    destruct (list_to_map (bindings cs) !! kbs') eqn:Hlook; [by eexists|].
    by apply not_elem_of_list_to_map_2 in Hlook.
Qed.

Lemma add_stay h m cs cs1 e (kbs : list Z) :
  hrep_in RwWrite h m cs → table cs1 (hash_size h) →
  bindings cs1 ≡ₚ (kbs, e) :: bindings cs → n_removed cs1 = n_removed cs →
  needs_rehash (one_more h) = false →
  hrep_in RwWrite (set_count (hash_entry_count h + 1) (set_elements (Live (Some <$> cs1)) h))
    (<[kbs := e]> m) cs1.
Proof.
  intros R Ht1 Hp1 Hr1 Hneed.
  pose proof (Permutation_length Hp1) as Hlen1. cbn [length] in Hlen1.
  pose proof (hr_count _ _ _ _ R). pose proof (hr_bound _ _ _ _ R) as Hbound.
  pose proof (hr_load _ _ _ _ R). pose proof (hr_removed _ _ _ _ R).
  unfold PTRDIFF_MAX in Hbound. unfold needs_rehash, one_more, REHASH_RATE in Hneed.
  cbn [hash_size hash_entry_count hash_entry_removed_count set_count] in Hneed.
  apply Z.ltb_ge in Hneed.
  rewrite (u64_small (_ + _)) in Hneed by lia. rewrite u64_small in Hneed by lia.
  split; cbn [elements hash_size hash_entry_count hash_entry_removed_count hash_rwlock
              set_count set_elements]; try done; try lia; [|apply R].
  unfold to_map. rewrite (hr_map _ _ _ _ R). unfold to_map.
  by rewrite (list_to_map_proper (bindings cs1) ((kbs, e) :: bindings cs))
    by (apply Ht1 || done).
Qed.

(** The size after an add: the same, or that of a rehash. *)
Definition grown h h' : Prop :=
  (hash_size h' = hash_size h ∧ hash_entry_removed_count h' = hash_entry_removed_count h) ∨
  (needs_rehash (one_more h) = true ∧ rehash_size (one_more h) = Ok (hash_size h') ∧
   hash_entry_removed_count h' = 0).

(** Adding an entry with a new key: it joins the map, unless a rehash gets no
    memory or a search for a slot never ends. *)
Lemma add_total h m e :
  let k := hash_entry_key_func e in
  hrep h m → key_ok k → m !! kb k = None → 2 * hash_size h < INT_MAX →
  (∃ h', hash_add e h = (Ok RET_SUCCEED, h') ∧ hrep h' (<[kb k := e]> m) ∧ grown h h') ∨
  (∃ h', hash_add e h = (Stop Aborted, h') ∧ ¬ can_rehash h (<[kb k := e]> m)) ∨
  (∃ h', hash_add e h = (Stop Diverges, h') ∧
     ¬ (covers (kb k) (hash_size h) ∧ can_rehash h (<[kb k := e]> m))).
Proof.
  intros k [cs R] Hk Hm Hsz. unfold hash_add.
  erewrite !bind_ok by apply hash_wrlock_free, R.
  apply (hrep_relock _ RwWrite) in R.
  set (h0 := set_hash_rwlock RwWrite h) in *.
  change (can_rehash h (<[kb k := e]> m)) with (can_rehash h0 (<[kb k := e]> m)).
  change (hash_size h) with (hash_size h0) in *.
  assert (∀ h', grown h0 h' → grown h h') as Hgr by done. clearbody h0.
  fold k. mstep.
  destruct (find_total h0 k cs (hr_elements _ _ _ _ R) (hr_table _ _ _ _ R) Hk) as [Hans|Hd].
  2: { right; right. rewrite Hd. eexists. split; [done|]. intros [Hcov _].
       destruct (hrep_lookup_none _ _ _ _ _ R Hk Hcov Hm) as (i & el & Hf & _). congruence. }
  unfold find_answer in Hans. rewrite <- (hr_map _ _ _ _ R), Hm in Hans.
  destruct Hans as (i & el & Hf & Hi & Hel & Hst & Hreach). rewrite Hf.
  rewrite bool_decide_true by done. cbn [negb].
  pose proof (lookup_lt_Some _ _ _ Hel).
  rewrite (hr_elements _ _ _ _ R), arr_write_ok by (rewrite length_fmap; lia).
  set (el1 := Element (Some e) (Some k) (hash_key_size_func k) HASH_OCCUPIED).
  rewrite <- list_fmap_insert.
  destruct (table_insert cs (hash_size h0) (Z.to_nat i) el el1 (kb k, e)
    (hr_table _ _ _ _ R) Hel Hst) as (Ht1 & Hp1 & Hr1); [|done| |done|].
  { intros _. exists e. done. }
  { cbn. rewrite (hr_map _ _ _ _ R) in Hm. by apply not_elem_of_list_to_map_2 in Hm. }
  set (cs1 := <[Z.to_nat i := el1]> cs) in *.
  assert (u64 (hash_entry_count h0 + 1) = hash_entry_count h0 + 1) as Hu.
  { pose proof (hr_count _ _ _ _ R). pose proof (hr_bound _ _ _ _ R) as Hb.
    pose proof (hr_load _ _ _ _ R). pose proof (hr_removed _ _ _ _ R).
    unfold PTRDIFF_MAX in Hb. apply u64_small. lia. }
  change (hash_entry_count (set_elements (Live (Some <$> cs1)) h0)) with (hash_entry_count h0).
  rewrite Hu.
  set (h1 := set_count (hash_entry_count h0 + 1) (set_elements (Live (Some <$> cs1)) h0)).
  change (needs_rehash h1) with (needs_rehash (one_more h0)).
  destruct (needs_rehash (one_more h0)) eqn:Hneed.
  - destruct (rehash_size_spec _ _ _ _ R Hsz) as (size' & Hs & _ & Hpos).
    change (rehash_size h1) with (rehash_size (one_more h0)). rewrite Hs.
    unfold sizeof_hash_element_t.
    assert (u64 (u64 (size' * 32)) = 32 * size') as Hw
      by (rewrite u64_idemp, u64_small by lia; lia).
    unfold cq_malloc. rewrite Hw. destruct (malloc_ok (32 * size')) eqn:Hmem.
    2: { right; left. eexists. split; [done|]. intros Hcan.
         destruct (Hcan Hneed size' Hs) as [Hmem' _]. congruence. }
    mstep. destruct (add_grow _ _ _ cs1 e (kb k) size' R Hsz Hs Hmem Ht1 Hp1 Hr1)
      as [(cs2 & Hre & R2)|[[h' Hre] Hn]]; fold h1 in Hre; rewrite Hre.
    + left. rewrite bool_decide_true by done.
      rewrite (hash_rwunlock_held _ RwWrite) by auto.
      eexists. split; [done|]. split; [exists cs2; by apply (hrep_relock _ RwFree) in R2|].
      apply Hgr. by right.
    + right; right. eexists. split; [done|]. intros [_ Hcan]. apply Hn.
      by apply (Hcan Hneed size' Hs).
  - left. rewrite (hash_rwunlock_held _ RwWrite) by (auto; apply R).
    eexists. split; [done|]. split; [|apply Hgr; by left]. exists cs1.
    apply (hrep_relock RwWrite RwFree h1). by apply (add_stay h0 m cs).
Qed.

Lemma add_fresh h m e :
  let k := hash_entry_key_func e in
  hrep h m → key_ok k → covers (kb k) (hash_size h) → m !! kb k = None →
  2 * hash_size h < INT_MAX → can_rehash h (<[kb k := e]> m) →
  ∃ h', hash_add e h = (Ok RET_SUCCEED, h') ∧ hrep h' (<[kb k := e]> m).
Proof.
  intros k R Hk Hc Hm Hsz Hcan.
  destruct (add_total h m e R Hk Hm Hsz) as [(h' & Ha & R' & _)|[(_ & _ & [])|(_ & _ & [])]];
    [by exists h'|done..].
Qed.

(** *** Visiting every entry *)

Definition occupied (el : hash_element_t E) : bool :=
  bool_decide (status el = HASH_OCCUPIED).

Lemma occ_take_S (cs : list (hash_element_t E)) i el : cs !! i = Some el →
  List.filter occupied (take (S i) cs) =
    List.filter occupied (take i cs) ++ (if occupied el then [el] else []).
Proof. intros Hi. rewrite (take_S_r _ _ _ Hi), List.filter_app. cbn. by destruct (occupied el). Qed.

Lemma occ_take_le (cs : list (hash_element_t E)) i :
  (length (List.filter occupied (take i cs)) ≤ length (List.filter occupied cs))%nat.
Proof. rewrite <- (take_drop i cs) at 2. rewrite List.filter_app, length_app. lia. Qed.

Lemma occ_bindings (cs : list (hash_element_t E)) : Forall elem_ok cs →
  entry <$> List.filter occupied cs = Some <$> (bindings cs).*2.
Proof.
  unfold occupied, bindings. induction 1 as [|el cs Hel Hcs IH]; [done|].
  cbn [List.filter omap list_omap]. case_bool_decide as Hst.
  - destruct (bind1_occupied el Hel Hst) as (e & He & Hb). rewrite Hb.
    cbn [fmap list_fmap]. rewrite He. cbn [snd]. f_equal. exact IH.
  - replace (bind1 el) with (@None (list Z * E)); [done|].
    unfold bind1. by destruct (status el).
Qed.

Lemma occ_length h m cs l : hrep_in l h m cs →
  Z.of_nat (length (List.filter occupied cs)) = hash_entry_count h.
Proof.
  intros R. rewrite (hr_count _ _ _ _ R).
  pose proof (occ_bindings cs (tb_elems _ _ (hr_table _ _ _ _ R))) as Hb.
  apply (f_equal length) in Hb. rewrite !length_fmap in Hb. lia.
Qed.

Lemma map_bindings h m cs l : hrep_in l h m cs → map_to_list m ≡ₚ bindings cs.
Proof.
  intros R. rewrite (hr_map _ _ _ _ R). unfold to_map.
  apply map_to_list_to_map, (hr_table _ _ _ _ R).
Qed.

Lemma collect_spec {A} (f : hash_element_t E → A) l h m cs :
  hrep_in l h m cs →
  collect f h = Ok (Live (Some <$> (f <$> List.filter occupied cs)), hash_entry_count h).
Proof.
  intros R. pose proof (occ_length _ _ _ _ R) as Hlen. unfold collect.
  rewrite <- (tb_length _ _ (hr_table _ _ _ _ R)), (hr_elements _ _ _ _ R).
  pose proof (hr_load _ _ _ _ R). pose proof (hr_removed _ _ _ _ R).
  pose proof (hr_bound _ _ _ _ R) as Hb. unfold PTRDIFF_MAX in Hb.
  set (body := λ (i : Z) '(ret, ret_ptr), _).
  destruct (for_upto_inv cs body (λ i '(ret, ret_ptr),
      let os := List.filter occupied (take i cs) in
      ret_ptr = Z.of_nat (length os) ∧
      ret = Live ((Some <$> (f <$> os)) ++
                  replicate (Z.to_nat (hash_entry_count h) - length os) None))
    (fresh_buffer (hash_entry_count h), 0)) as ([ret ret_ptr] & Hfor & Hptr & Hret).
  - intros i el [ret ptr] Hi [Hp Hr]. subst body. cbn beta iota.
    rewrite (arr_read_ok _ _ el); [|lia|by rewrite Nat2Z.id, list_lookup_fmap, Hi].
    cbv zeta. rewrite (occ_take_S _ _ _ Hi). pose proof (occ_take_le cs (S i)) as Hle.
    rewrite (occ_take_S _ _ _ Hi), length_app in Hle. unfold mbind, res_mbind.
    fold (occupied el). destruct (occupied el).
    + set (os := List.filter occupied (take i cs)) in *. cbn in Hle. subst ptr ret.
      rewrite arr_write_ok
        by (rewrite length_app, !length_fmap, length_replicate; lia).
      eexists. split; [done|]. split.
      * rewrite length_app. cbn. rewrite u64_small; lia.
      * f_equal. rewrite Nat2Z.id, insert_app_r_alt by (by rewrite !length_fmap).
        rewrite !length_fmap, Nat.sub_diag, length_app, !fmap_app, <- app_assoc. cbn.
        replace (Z.to_nat (hash_entry_count h) - length os)%nat
          with (S (Z.to_nat (hash_entry_count h) - (length os + 1))) by lia.
        done.
    + rewrite app_nil_r. by eexists.
  - split; [done|]. cbn. by rewrite Nat.sub_0_r.
  - cbn zeta in Hptr, Hret. rewrite firstn_all in Hptr, Hret.
    rewrite Hfor, Hptr, Hret, Hlen, <- Hlen, Nat2Z.id, Nat.sub_diag. cbn. by rewrite app_nil_r.
Qed.

Lemma hash_destroy_spec h m cs :
  hrep_in RwFree h m cs →
  ∃ h', hash_destroy h = (Ok (Some <$> (bindings cs).*2), h') ∧ elements h' = Dangling.
Proof.
  intros R. unfold hash_destroy.
  erewrite bind_ok by apply hash_wrlock_free, R.
  apply (hrep_relock _ RwWrite) in R. set (h0 := set_hash_rwlock RwWrite h) in *.
  clearbody h0. mstep. rewrite (hr_elements _ _ _ _ R).
  rewrite <- (tb_length _ _ (hr_table _ _ _ _ R)).
  match goal with |- context [for_upto _ ?b _] => set (body := b) end.
  destruct (for_upto_inv cs body
    (λ i freed, freed = entry <$> List.filter occupied (take i cs)) [])
    as (freed & Hfor & Hfr); [|done|].
  - intros i el acc Hi ->. subst body. cbn beta.
    rewrite (arr_read_ok _ _ el); [|lia|by rewrite Nat2Z.id, list_lookup_fmap, Hi].
    eexists. split; [done|]. rewrite (occ_take_S _ _ _ Hi), fmap_app.
    fold (occupied el). destruct (occupied el); cbn; [done|by rewrite app_nil_r].
  - rewrite Hfor, Hfr, firstn_all, occ_bindings by apply (hr_table _ _ _ _ R).
    by eexists.
Qed.

Lemma hash_alloc_spec : malloc_ok 112 = true → malloc_ok 352 = true →
  ∃ h, hash_alloc () = (Ok h, ()) ∧ hrep h (∅ : gmap (list Z) E) ∧ hash_size h = 11 ∧
    hash_entry_removed_count h = 0.
Proof.
  intros H112 H352. unfold hash_alloc.
  erewrite bind_ok by by apply cq_malloc_ok.
  assert (find_first_prime HASH_INIT_SIZE = Ok 11) as Hp by (vm_compute; reflexivity).
  erewrite bind_ok by (unfold mlift; rewrite Hp; reflexivity).
  erewrite bind_ok by by apply cq_malloc_ok.
  erewrite bind_ok by (unfold mlift, fresh_buffer; rewrite memset_spec by done; reflexivity).
  eexists. split; [done|]. split; [|by split]. exists (replicate 11 zero_element).
  destruct (table_zero 11 ltac:(done)) as (Ht & Hb & Hr).
  change (Z.to_nat 11) with 11%nat in *.
  split; cbn [elements hash_size hash_entry_count hash_entry_removed_count hash_rwlock];
    rewrite ?Hb, ?Hr; try done.
Qed.
End operations.

(** ** The abstract map *)

Inductive hop (E : Type) :=
  | HAdd (e : E)
  | HGet (k : key_ptr)
  | HRemove (k : key_ptr).
Arguments HAdd {E}.
Arguments HGet {E}.
Arguments HRemove {E}.

Inductive hout (E : Type) :=
  | HRet (r : ret_t)
  | HEntryOf (e : option E)
  | HFreed (r : ret_t) (freed : list (option E)).
Arguments HRet {E}.
Arguments HEntryOf {E}.
Arguments HFreed {E}.

Section refinement.
Context `{Allocator} {E : Type} `{HashEntry E}.
Implicit Types (h : hash_t E) (m : gmap (list Z) E).

Definition hash_exec (o : hop E) : M (hash_t E) (hout E) :=
  match o with
  | HAdd e => r ← hash_add e; mret (HRet r)
  | HGet k => e ← hash_get k; mret (HEntryOf e)
  | HRemove k => '(r, freed) ← hash_remove k; mret (HFreed r freed)
  end.

Fixpoint hash_run (ops : list (hop E)) : M (hash_t E) (list (hout E)) :=
  match ops with
  | [] => mret []
  | o :: ops => out ← hash_exec o; outs ← hash_run ops; mret (out :: outs)
  end.

Definition map_exec (o : hop E) m : hout E * gmap (list Z) E :=
  match o with
  | HAdd e =>
      let kbs := kb (hash_entry_key_func e) in
      match m !! kbs with
      | Some _ => (HRet RET_FAILED, m)
      | None => (HRet RET_SUCCEED, <[kbs := e]> m)
      end
  | HGet k => (HEntryOf (m !! kb k), m)
  | HRemove k =>
      (HFreed RET_SUCCEED (Some <$> option_list (m !! kb k)), delete (kb k) m)
  end.

Fixpoint map_run (ops : list (hop E)) m : list (hout E) * gmap (list Z) E :=
  match ops with
  | [] => ([], m)
  | o :: ops => let '(out, m') := map_exec o m in
                let '(outs, m'') := map_run ops m' in (out :: outs, m'')
  end.

Definition op_key (o : hop E) : key_ptr :=
  match o with HAdd e => hash_entry_key_func e | HGet k | HRemove k => k end.

(** A readable key whose probe sequence reaches every slot and, for an [add]
    of a new key, the means to rehash. *)
Definition op_legal h m (o : hop E) : Prop :=
  key_ok (op_key o) ∧ covers (kb (op_key o)) (hash_size h) ∧
  match o with
  | HAdd e => m !! kb (op_key o) = None →
      2 * hash_size h < INT_MAX ∧ can_rehash h (<[kb (op_key o) := e]> m)
  | _ => True
  end.

Fixpoint run_legal h m (ops : list (hop E)) : Prop :=
  match ops with
  | [] => True
  | o :: ops => op_legal h m o ∧ run_legal (hash_exec o h).2 (map_exec o m).2 ops
  end.

Lemma exec_refines_map (o : hop E) h m :
  hrep h m → op_legal h m o →
  ∃ h', hash_exec o h = (Ok (map_exec o m).1, h') ∧ hrep h' (map_exec o m).2.
Proof.
  intros R (Hk & Hc & Ho). destruct o as [e|k|k]; cbn [op_key hash_exec map_exec] in *.
  - destruct (m !! kb (hash_entry_key_func e)) as [e'|] eqn:Hm.
    + erewrite bind_ok by (apply (add_duplicate h m e); eauto). by eexists.
    + destruct (Ho eq_refl) as [Hsz Hcan].
      destruct (add_fresh h m e R Hk Hc Hm Hsz Hcan) as (h' & Ha & R').
      erewrite bind_ok by exact Ha. by eexists.
  - erewrite bind_ok by by apply hash_get_spec. by eexists.
  - destruct (hash_remove_spec h m k R Hk Hc) as (h' & Hr & R').
    erewrite bind_ok by exact Hr. by eexists.
Qed.

Lemma run_refines_map (ops : list (hop E)) h m :
  hrep h m → run_legal h m ops →
  ∃ h', hash_run ops h = (Ok (map_run ops m).1, h') ∧ hrep h' (map_run ops m).2.
Proof.
  revert h m. induction ops as [|o ops IH]; intros h m R Hl; cbn in *.
  - by eexists.
  - destruct Hl as [Ho Hops]. destruct (exec_refines_map o h m R Ho) as (h1 & H1 & R1).
    rewrite H1 in Hops. destruct (IH h1 _ R1 Hops) as (h2 & H2 & R2).
    erewrite bind_ok by done. erewrite bind_ok by done. exists h2.
    destruct (map_exec o m) as [r m1]. cbn in *. by destruct (map_run ops m1).
Qed.

(** C1 (refinement). Whatever the operations, a hash table answers what a
    finite map from key bytes to entries answers, and represents it
    afterwards: an [add] inserts once and refuses a second entry of the same
    key, a [get] looks up, a [remove] deletes and frees exactly the entry of
    the key; growing, tombstones and probing never show. *)
Theorem hash_refines_map (ops : list (hop E)) h m :
  hrep h m → run_legal h m ops →
  ∃ h', hash_run ops h = (Ok (map_run ops m).1, h') ∧ hrep h' (map_run ops m).2.
Proof. apply run_refines_map. Qed.

(** C5 (termination). A search returns exactly when some probe of the key hits
    an empty slot or the key's own slot; when the 2^64 levels hit none, it
    probes for ever. *)
Theorem hash_find_returns_iff h k cs :
  elements h = Live (Some <$> cs) → table cs (hash_size h) → key_ok k →
  (hash_find h k (hash_key_size_func k) ≠ Stop Diverges) ↔
  ∃ n el, Z.of_nat n < 2 ^ 64 ∧
    cs !! Z.to_nat (probe (kb k) (hash_size h) n) = Some el ∧ final (kb k) el = true.
Proof.
  intros He Ht Hk. split.
  - intros Hret. by destruct (find_ends h k cs He Ht Hk).
  - intros Hex. destruct (find_first h k cs He Ht Hk Hex) as (n & el & -> & _). done.
Qed.

(** Without memory for the array, the program aborts. *)
Lemma hash_get_all_aborts {A} (f : hash_element_t E → A) h m :
  hrep h m → malloc_ok (8 * hash_entry_count h) = false →
  ∃ h', hash_get_all f h = (Stop Aborted, h').
Proof.
  intros [cs R] Hmem. pose proof (hr_count _ _ _ _ R). pose proof (hr_bound _ _ _ _ R) as Hb.
  pose proof (hr_load _ _ _ _ R). pose proof (hr_removed _ _ _ _ R).
  unfold PTRDIFF_MAX in Hb. unfold hash_get_all.
  erewrite !bind_ok by (apply hash_rdlock_free, R). unfold mget.
  erewrite bind_ok by done. cbn [hash_entry_count set_hash_rwlock].
  eexists. erewrite bind_stop; [reflexivity|]. unfold cq_malloc.
  replace (u64 (u64 (hash_entry_count h * 8))) with (8 * hash_entry_count h)
    by (rewrite u64_idemp, u64_small; lia).
  by rewrite Hmem.
Qed.

Lemma hash_get_all_entries h m :
  hrep h m → malloc_ok (8 * hash_entry_count h) = true →
  ∃ es, hash_get_entries h = (Ok (Live (Some <$> (Some <$> es)), Z.of_nat (size m)), h) ∧
    es ≡ₚ (map_to_list m).*2.
Proof.
  intros [cs R] Hmem. pose proof (malloc_ok_bound _ Hmem) as Hb. unfold PTRDIFF_MAX in Hb.
  pose proof (hr_rwlock _ _ _ _ R) as Hl. exists ((bindings cs).*2).
  split; [|by rewrite (map_bindings _ _ _ _ R)].
  unfold hash_get_entries, hash_get_all.
  erewrite bind_ok by by apply hash_rdlock_free.
  apply (hrep_relock _ (RwRead 1)) in R. unfold mget.
  pose proof (collect_spec entry _ _ _ _ R) as Hc.
  pose proof (hr_count _ _ _ _ R) as Hcnt. cbn [hash_entry_count set_hash_rwlock] in Hcnt.
  erewrite bind_ok by done. cbn [hash_entry_count set_hash_rwlock] in *.
  erewrite bind_ok
    by (apply cq_malloc_ok; rewrite u64_idemp, u64_small by lia; rewrite <- Hmem;
        f_equal; lia).
  erewrite bind_ok by (unfold mlift; rewrite Hc; reflexivity). cbn beta iota.
  erewrite bind_ok by (apply (hash_rwunlock_held _ (RwRead 1)); auto).
  unfold mret, M_mret. rewrite relock_id by done. do 3 f_equal.
  - rewrite occ_bindings by apply (hr_table _ _ _ _ R). done.
  - rewrite Hcnt, <- (Permutation_length (map_bindings _ _ _ _ R)).
    by rewrite length_map_to_list.
Qed.

(** [hash_get_entries] returns every entry of the map, each
    once, in a fully initialised array of [*number] cells, [*number] being
    the size of the map, and leaves the table as it was. *)
Theorem hash_get_entries_enumerates h m :
  hrep h m → malloc_ok (8 * hash_entry_count h) = true →
  ∃ es, hash_get_entries h = (Ok (Live (Some <$> (Some <$> es)), Z.of_nat (size m)), h) ∧
    es ≡ₚ (map_to_list m).*2.
Proof. apply hash_get_all_entries. Qed.

(** [hash_destroy] hands every live entry to the free function
    exactly once, and no removed one a second time. *)
Theorem hash_destroy_frees_each_once h m :
  hrep h m →
  ∃ es h', hash_destroy h = (Ok (Some <$> es), h') ∧ es ≡ₚ (map_to_list m).*2.
Proof.
  intros [cs R]. destruct (hash_destroy_spec h m cs R) as (h' & Hd & _).
  eexists _, h'. split; [exact Hd|]. by rewrite (map_bindings _ _ _ _ R).
Qed.
End refinement.

(** ** Deciding legality on concrete runs *)

#[local] Transparent hash_func.

Definition covers_check (kbs : list Z) (size : Z) (levels : nat) : bool :=
  let slots := map (probe kbs size) (seq 0 levels) in
  forallb (λ i, existsb (Z.eqb (Z.of_nat i)) slots) (seq 0 (Z.to_nat size)).

Lemma covers_check_sound kbs size levels :
  Z.of_nat levels ≤ 2 ^ 64 → covers_check kbs size levels = true → covers kbs size.
Proof.
  intros Hl Hc i Hi. unfold covers_check in Hc. rewrite forallb_forall in Hc.
  specialize (Hc (Z.to_nat i)). rewrite existsb_exists in Hc.
  destruct Hc as (j & Hj & Heq); [apply list_elem_of_In, elem_of_seq; lia|].
  apply in_map_iff in Hj as (n & <- & Hn). apply list_elem_of_In, elem_of_seq in Hn.
  exists n. apply Z.eqb_eq in Heq. lia.
Qed.

Section checks.
Context `{Allocator} {E : Type} `{HashEntry E}.
Implicit Types (h : hash_t E) (m : gmap (list Z) E).

#[export] Instance key_ok_dec k : Decision (key_ok k).
Proof. unfold key_ok, is_bytes. apply _. Defined.

Definition rehash_check (levels : nat) h m : bool :=
  if needs_rehash (one_more h) then
    match rehash_size (one_more h) with
    | Ok size' => malloc_ok (32 * size')
        && forallb (λ '(kbs, _), covers_check kbs size' levels) (map_to_list m)
    | Stop _ => true
    end
  else true.

Definition op_check (levels : nat) h m (o : hop E) : bool :=
  bool_decide (key_ok (op_key o))
  && covers_check (kb (op_key o)) (hash_size h) levels
  && match o with
     | HAdd e =>
         match m !! kb (op_key o) with
         | Some _ => true
         | None => (2 * hash_size h <? INT_MAX)
                   && rehash_check levels h (<[kb (op_key o) := e]> m)
         end
     | _ => true
     end.

Fixpoint run_check (levels : nat) h m (ops : list (hop E)) : bool :=
  match ops with
  | [] => true
  | o :: ops => op_check levels h m o
                && run_check levels (hash_exec o h).2 (map_exec o m).2 ops
  end.

Lemma rehash_check_sound levels h m : Z.of_nat levels ≤ 2 ^ 64 →
  rehash_check levels h m = true → can_rehash h m.
Proof.
  intros Hl Hc Hneed size' Hs. unfold rehash_check in Hc. rewrite Hneed, Hs in Hc.
  apply andb_true_iff in Hc as [Hmem Hall]. split; [done|].
  intros kbs [e He]. rewrite forallb_forall in Hall.
  apply (covers_check_sound _ _ levels Hl), (Hall (kbs, e)).
  by apply list_elem_of_In, elem_of_map_to_list.
Qed.

Lemma run_check_sound levels (ops : list (hop E)) h m : Z.of_nat levels ≤ 2 ^ 64 →
  run_check levels h m ops = true → run_legal h m ops.
Proof.
  intros Hl. revert h m. induction ops as [|o ops IH]; intros h m Hc; [done|].
  cbn [run_check] in Hc. apply andb_true_iff in Hc as [Ho Hc].
  apply andb_true_iff in Ho as [Ho Hadd]. apply andb_true_iff in Ho as [Hk Hcov].
  apply bool_decide_eq_true in Hk.
  split; [split_and!; [done|by eapply covers_check_sound|]|by apply IH].
  destruct o; [|done..]. intros Hm. rewrite Hm in Hadd.
  apply andb_true_iff in Hadd as [Hsz Hre].
  split; [by apply Z.ltb_lt|by eapply rehash_check_sound].
Qed.
End checks.

(** ** Witnesses *)

Local Existing Instance roomy_allocator.

(** Entries that are numbers, under a four-byte key. *)
Local Instance number_entry : HashEntry Z := {|
  hash_entry_key_func n := KeyPtr 4096 [n mod 256; n / 256 mod 256; 0; 0];
  hash_key_size_func _ := 4;
|}.

Definition number_key (n : Z) : key_ptr := hash_entry_key_func n.

(** What [hash_alloc] gives. *)
Definition new_table : hash_t Z :=
  Hash (Live (Some <$> replicate 11 zero_element)) 11 0 0 RwFree.

Lemma new_table_rep : hrep new_table ∅.
Proof.
  destruct hash_alloc_spec as (h & Ha & R & _); [done|done|].
  assert (hash_alloc () = (Ok new_table, ())) as Ha' by (vm_compute; reflexivity).
  rewrite Ha' in Ha. by injection Ha as <-.
Qed.

(** Six additions: the last one makes the table grow from 11 to 23 slots. *)
Definition sample_ops : list (hop Z) :=
  [HAdd 1; HAdd 2; HAdd 3; HAdd 2; HAdd 300; HRemove (number_key 3); HAdd 5; HAdd 3; HAdd 7;
   HGet (number_key 300); HGet (number_key 8)].

Definition sample_outs : list (hout Z) :=
  [HRet RET_SUCCEED; HRet RET_SUCCEED; HRet RET_SUCCEED; HRet RET_FAILED; HRet RET_SUCCEED;
   HFreed RET_SUCCEED [Some 3]; HRet RET_SUCCEED; HRet RET_SUCCEED; HRet RET_SUCCEED;
   HEntryOf (Some 300); HEntryOf None].

Example hash_refines_map_witness :
  run_check 200 new_table ∅ sample_ops = true ∧
  ∃ h', hash_run sample_ops new_table = (Ok sample_outs, h') ∧
    hrep h' (map_run sample_ops ∅).2.
Proof.
  assert (run_check 200 new_table ∅ sample_ops = true) as Hc by (vm_compute; reflexivity).
  split; [exact Hc|].
  assert ((map_run sample_ops (∅ : gmap (list Z) Z)).1 = sample_outs) as <-
    by (vm_compute; reflexivity).
  apply (hash_refines_map sample_ops new_table ∅ new_table_rep).
  by apply (run_check_sound 200).
Defined.

(** The table after the first additions. *)
Definition small_table : hash_t Z := (hash_run (take 3 sample_ops) new_table).2.

Lemma small_table_rep :
  hrep small_table (map_run (take 3 sample_ops) ∅).2.
Proof.
  destruct (exec_refines_map (HAdd 1) new_table ∅ new_table_rep) as (h1 & H1 & R1).
  { apply (run_check_sound 100 [HAdd 1]); [lia|vm_compute; reflexivity]. }
  destruct (exec_refines_map (HAdd 2) h1 _ R1) as (h2 & H2 & R2).
  { replace h1 with (hash_exec (HAdd 1) new_table).2 by (by rewrite H1).
    apply (run_check_sound 100 [HAdd 2]); [lia|vm_compute; reflexivity]. }
  destruct (exec_refines_map (HAdd 3) h2 _ R2) as (h3 & H3 & R3).
  { replace h2 with (hash_exec (HAdd 2) (hash_exec (HAdd 1) new_table).2).2
      by (rewrite H1; cbn [snd]; by rewrite H2).
    apply (run_check_sound 100 [HAdd 3]); [lia|vm_compute; reflexivity]. }
  replace small_table with h3; [exact R3|].
  unfold small_table. cbn [sample_ops take hash_run].
  erewrite bind_ok by exact H1. erewrite bind_ok; [|erewrite bind_ok by exact H2].
  2: { erewrite bind_ok; [reflexivity|]. erewrite bind_ok by exact H3. reflexivity. }
  done.
Qed.

Example hash_find_returns_iff_witness :
  (hash_find new_table (number_key 1) (hash_key_size_func (number_key 1)) ≠ Stop Diverges) ↔
  ∃ n el, Z.of_nat n < 2 ^ 64 ∧
    replicate 11 (zero_element (E := Z))
      !! Z.to_nat (probe (kb (number_key 1)) (hash_size new_table) n) = Some el ∧
    final (kb (number_key 1)) el = true.
Proof.
  apply (hash_find_returns_iff new_table (number_key 1) (replicate 11 zero_element)).
  - reflexivity.
  - apply (table_zero 11). lia.
  - apply (bool_decide_eq_true (key_ok (number_key 1))). vm_compute. reflexivity.
Defined.

Example hash_get_entries_enumerates_witness :
  ∃ es, hash_get_entries small_table =
    (Ok (Live (Some <$> (Some <$> es)),
         Z.of_nat (size (map_run (take 3 sample_ops) ∅).2)), small_table) ∧
    es ≡ₚ (map_to_list (map_run (take 3 sample_ops) ∅).2).*2.
Proof.
  apply (hash_get_entries_enumerates small_table _ small_table_rep).
  vm_compute. reflexivity.
Defined.

Example hash_destroy_frees_each_once_witness :
  ∃ es h', hash_destroy small_table = (Ok (Some <$> es), h') ∧
    es ≡ₚ (map_to_list (map_run (take 3 sample_ops) ∅).2).*2.
Proof. exact (hash_destroy_frees_each_once small_table _ small_table_rep). Defined.
