(* ===== verification/Sharing.v ===== *)
(** * Sharing: objects behind a reader/writer lock (src/src/mylib/hash.c, my_mutex.h)

    The functions of [Hash] run alone.  The program's threads call them on shared
    tables, and each takes the lock of its table first.  Here an operation is cut in pieces, the pieces of any number of threads
    are interleaved, and what comes out is what the operations do one after the
    other, in the order in which they let go of the lock. *)

From stdpp Require Import base gmap list relations.
From Stdlib Require Import ZArith Lia.
From S2P Require Import Prelude Mylib HashFunc Hash.
Local Open Scope Z_scope.

(** How a piece ends: there is another, or the lock is given back, or the
    function returns with the lock still held. *)
Inductive next (P R : Type) := Goes (p : P) | Returns (r : R) | Keeps (r : R).
Arguments Goes {P R}.
Arguments Returns {P R}.
Arguments Keeps {P R}.

(** An object with a lock, and its operations: which of them only read, where
    each begins, and its pieces, that run between the lock and the unlock. *)
Class Guarded (S O P R : Type) := {
  lock_of : S → my_rwlock_t;
  set_lock : my_rwlock_t → S → S;
  reads : O → bool;
  first : O → P;
  piece : O → P → M S (next P R);
}.

Class GuardedLaws (S O P R : Type) `{!Guarded S O P R} : Prop := {
  lock_set l (s : S) : lock_of (set_lock l s) = l;
  set_set l l' (s : S) : set_lock l (set_lock l' s) = set_lock l s;
  set_id (s : S) : set_lock (lock_of s) s = s;
  (** The pieces do not look at the lock, nor touch it. *)
  piece_lock (o : O) p l (s : S) :
    piece o p (set_lock l s) = ((piece o p s).1, set_lock l (piece o p s).2);
  piece_reads (o : O) p (s : S) : reads o = true → (piece o p s).2 = s;
  keeps_writes (o : O) p (s s' : S) r : piece o p s = (Ok (Keeps r), s') → reads o = false;
}.

Section sharing.
Context {S O P R : Type} `{!Guarded S O P R}.
Implicit Types (s a : S) (o : O) (p : P) (r : R) (i : nat).

(** ** One after the other *)

Definition goes o (x y : P * S) : Prop := piece o x.1 x.2 = (Ok (Goes y.1), y.2).

(** The operation [o], run on an object that nobody has locked. *)
Definition does o s r s' : Prop :=
  ∃ p s1 s2, rtc (goes o) (first o, s) (p, s1) ∧
    (piece o p s1 = (Ok (Returns r), s2) ∧ s' = s2 ∨
     piece o p s1 = (Ok (Keeps r), s2) ∧ s' = set_lock RwWrite s2).
Definition faults o s w : Prop :=
  ∃ p s1 s2, rtc (goes o) (first o, s) (p, s1) ∧ piece o p s1 = (Stop w, s2).

(** Operations in a row, with their answers. *)
Inductive does_all : S → list (nat * O * R) → S → Prop :=
  | does_none s : does_all s [] s
  | does_more s h s1 i o r s2 :
      does_all s h s1 → lock_of s1 = RwFree → does o s1 r s2 → does_all s (h ++ [(i, o, r)]) s2.

(** ** Together *)

(** A thread is outside of the lock with operations to do, or in a piece of one,
    or about to give the lock back. *)
Inductive visitor :=
  | Outside (todo : list O)
  | Inside (o : O) (p : P) (todo : list O)
  | Leaving (o : O) (r : R) (todo : list O).

(** The operations that have returned are kept in order. *)
Record visits := Visits { v_object : S; v_threads : list visitor; v_done : list (nat * O * R) }.

Definition takes o : my_rwlock_t → res my_rwlock_t := if reads o then my_rdlock else my_wrlock.

Inductive visit_step : visits → visits + stop → Prop :=
  | visit_enters s l ts h i o todo :
      ts !! i = Some (Outside (o :: todo)) → takes o (lock_of s) = Ok l →
      visit_step (Visits s ts h)
        (inl (Visits (set_lock l s) (<[i := Inside o (first o) todo]> ts) h))
  | visit_works s ts h i o p todo x s' :
      ts !! i = Some (Inside o p todo) → piece o p s = (x, s') →
      visit_step (Visits s ts h)
        (match x with
         | Ok (Goes p') => inl (Visits s' (<[i := Inside o p' todo]> ts) h)
         | Ok (Returns r) => inl (Visits s' (<[i := Leaving o r todo]> ts) h)
         | Ok (Keeps r) => inl (Visits s' (<[i := Outside todo]> ts) (h ++ [(i, o, r)]))
         | Stop w => inr w
         end)
  | visit_leaves s l ts h i o r todo :
      ts !! i = Some (Leaving o r todo) → my_rwunlock (lock_of s) = Ok l →
      visit_step (Visits s ts h)
        (inl (Visits (set_lock l s) (<[i := Outside todo]> ts) (h ++ [(i, o, r)]))).

Definition visit (v v' : visits) : Prop := visit_step v (inl v').

(** The step of a given thread. *)
Definition visit_next (v : visits) i : option visits :=
  let '(Visits s ts h) := v in
  t ← ts !! i;
  match t with
  | Outside [] => None
  | Outside (o :: todo) =>
      match takes o (lock_of s) with
      | Ok l => Some (Visits (set_lock l s) (<[i := Inside o (first o) todo]> ts) h)
      | Stop _ => None
      end
  | Inside o p todo =>
      match piece o p s with
      | (Ok (Goes p'), s') => Some (Visits s' (<[i := Inside o p' todo]> ts) h)
      | (Ok (Returns r), s') => Some (Visits s' (<[i := Leaving o r todo]> ts) h)
      | (Ok (Keeps r), s') => Some (Visits s' (<[i := Outside todo]> ts) (h ++ [(i, o, r)]))
      | (Stop _, _) => None
      end
  | Leaving o r todo =>
      match my_rwunlock (lock_of s) with
      | Ok l => Some (Visits (set_lock l s) (<[i := Outside todo]> ts) (h ++ [(i, o, r)]))
      | Stop _ => None
      end
  end.

(** Threads in turn; a thread that has to wait misses its turn. *)
Fixpoint visit_turns (v : visits) (turns : list nat) : visits :=
  match turns with
  | [] => v
  | i :: turns => visit_turns (default v (visit_next v i)) turns
  end.

Lemma visit_next_step v i v' : visit_next v i = Some v' → visit v v'.
Proof.
  destruct v as [s ts h]. cbn. destruct (ts !! i) as [[[|o todo]|o p todo|o r todo]|] eqn:Hi; cbn; try done.
  - destruct (takes o (lock_of s)) as [l|] eqn:Hl; [|done]. intros [= <-]. by apply visit_enters.
  - destruct (piece o p s) as [x s'] eqn:Hp. pose proof (visit_works s ts h i o p todo x s' Hi Hp) as Hv.
    by destruct x as [[p'|r|r]|w]; [intros [= <-]; apply Hv..|].
  - destruct (my_rwunlock (lock_of s)) as [l|] eqn:Hl; [|done]. intros [= <-]. by apply visit_leaves.
Qed.

Lemma visit_turns_run v turns : rtc visit v (visit_turns v turns).
Proof.
  revert v. induction turns as [|i turns IH]; intros v; cbn; [done|].
  destruct (visit_next v i) as [v1|] eqn:Hv; [|apply IH].
  eapply rtc_l; [by eapply visit_next_step|apply IH].
Qed.

(** Who holds the lock. *)
Definition inside (t : visitor) : nat := match t with Outside _ => 0 | _ => 1 end.
Definition crowd (ts : list visitor) : nat := sum_list (map inside ts).

Lemma crowd_insert ts i t t' : ts !! i = Some t →
  (crowd (<[i := t']> ts) + inside t = crowd ts + inside t')%nat.
Proof.
  unfold crowd. revert i. induction ts as [|t0 ts IH]; intros [|i] Hi; simplify_eq/=; [lia|].
  specialize (IH i Hi). lia.
Qed.

Lemma crowd_lookup ts i t : ts !! i = Some t → (inside t ≤ crowd ts)%nat.
Proof.
  unfold crowd. revert i. induction ts as [|t0 ts IH]; intros [|i] Hi; simplify_eq/=; [lia|].
  specialize (IH i Hi). lia.
Qed.

Lemma crowd_two ts i j t t' : i ≠ j → ts !! i = Some t → ts !! j = Some t' →
  (inside t + inside t' ≤ crowd ts)%nat.
Proof.
  unfold crowd. revert i j. induction ts as [|t0 ts IH]; intros [|i] [|j] Hne Hi Hj; simplify_eq/=.
  - pose proof (crowd_lookup ts j t' Hj). unfold crowd in *. lia.
  - pose proof (crowd_lookup ts i t Hi). unfold crowd in *. lia.
  - assert (i ≠ j) as Hij by congruence. specialize (IH i j Hij Hi Hj). lia.
Qed.
End sharing.

Section lawful.
#[local] Set Default Proof Using "All".
Context {S O P R : Type} `{HG : !Guarded S O P R} `{HL : !GuardedLaws S O P R}.
Implicit Types (s a : S) (o : O) (p : P) (r : R) (i : nat).

Definition unlocked s : S := set_lock RwFree s.

Lemma unlocked_free s : lock_of (unlocked s) = RwFree.
Proof. apply lock_set. Qed.
Lemma unlocked_id s : lock_of s = RwFree → unlocked s = s.
Proof. intros Hs. unfold unlocked. rewrite <- Hs. apply set_id. Qed.
Lemma unlocked_set l s : unlocked (set_lock l s) = unlocked s.
Proof. apply set_set. Qed.

(** A piece does the same whoever holds the lock. *)
Lemma piece_unlocked o p s x s' : piece o p s = (x, s') →
  piece o p (unlocked s) = (x, unlocked s') ∧ lock_of s' = lock_of s.
Proof.
  intros Hp. split; [unfold unlocked; by rewrite piece_lock, Hp|].
  pose proof (piece_lock o p (lock_of s) s) as Hl. rewrite set_id, Hp in Hl. cbn in Hl.
  injection Hl as Hl. rewrite Hl. apply lock_set.
Qed.

Definition mode_fits o (l : my_rwlock_t) : Prop :=
  if reads o then ∃ n, l = RwRead n else l = RwWrite.

(** Where a thread is with its operation; [a] is the object when it took the lock. *)
Definition visitor_fits a s (t : visitor (O := O) (P := P) (R := R)) : Prop :=
  match t with
  | Outside _ => True
  | Inside o p _ => mode_fits o (lock_of s) ∧ rtc (goes o) (first o, a) (p, unlocked s)
  | Leaving o r _ => mode_fits o (lock_of s) ∧ ∃ p s1,
      rtc (goes o) (first o, a) (p, s1) ∧ piece o p s1 = (Ok (Returns r), unlocked s)
  end.

(** [n] threads have the lock [l]. *)
Definition holders (l : my_rwlock_t) (n : nat) : Prop :=
  match l with
  | RwFree => n = 0
  | RwRead k => n = Pos.to_nat k
  | RwWrite => n = 0 ∨ n = 1
  end%nat.

(** [a] is what the operations that have returned make of [s0]. *)
Record visits_fit (s0 : S) (v : visits) (a : S) : Prop := {
  vf_done : does_all s0 (v_done v) a;
  vf_lock : holders (lock_of (v_object v)) (crowd (v_threads v));
  vf_same : lock_of (v_object v) ≠ RwWrite ∨ crowd (v_threads v) = 0%nat →
    v_object v = set_lock (lock_of (v_object v)) a;
  vf_free : crowd (v_threads v) ≠ 0%nat ∨ lock_of (v_object v) = RwFree → lock_of a = RwFree;
  vf_threads : Forall (visitor_fits a (v_object v)) (v_threads v);
}.

(** All but one are outside. *)
Lemma others_outside (ts : list (visitor (O := O) (P := P) (R := R))) i t t' a s :
  ts !! i = Some t → inside t = 1%nat → crowd ts = 1%nat → visitor_fits a s t' →
  Forall (visitor_fits a s) (<[i := t']> ts).
Proof.
  intros Hi Ht Hc Ht'. apply Forall_lookup. intros j u Hj. destruct (decide (j = i)) as [->|Hne].
  - rewrite list_lookup_insert_eq in Hj by (by eapply lookup_lt_Some). by injection Hj as <-.
  - rewrite list_lookup_insert_ne in Hj by done.
    pose proof (crowd_two ts i j t u ltac:(congruence) Hi Hj). by destruct u; cbn in *; [|lia..].
Qed.

(** Nobody is inside. *)
Lemma outside_fits (ts : list (visitor (O := O) (P := P) (R := R))) a s :
  crowd ts = 0%nat → Forall (visitor_fits a s) ts.
Proof.
  intros Hc. apply Forall_lookup. intros j u Hj.
  pose proof (crowd_lookup ts j u Hj). by destruct u; cbn in *; [|lia..].
Qed.

(** Another object, the same but for its readers. *)
Lemma readers_fit (ts : list (visitor (O := O) (P := P) (R := R))) a s l :
  (∀ o, mode_fits o (lock_of s) → mode_fits o l) →
  Forall (visitor_fits a s) ts → Forall (visitor_fits a (set_lock l s)) ts.
Proof.
  intros Hl Ht. eapply Forall_impl; [exact Ht|].
  intros [todo|o p todo|o r todo]; cbn; [done|..];
    rewrite lock_set, unlocked_set; intros [Hm Hp]; (split; [by apply Hl|done]).
Qed.

Lemma enters_fits s0 s l ts h i o todo a :
  visits_fit s0 (Visits s ts h) a → ts !! i = Some (Outside (o :: todo)) →
  takes o (lock_of s) = Ok l →
  visits_fit s0 (Visits (set_lock l s) (<[i := Inside o (first o) todo]> ts) h) a.
Proof.
  intros [Hd Hk Hs Hf Ht] Hi Hl. cbn [v_object v_threads v_done] in *.
  pose proof (crowd_insert ts i _ (Inside o (first o) todo) Hi) as Hc. cbn [inside] in Hc.
  assert (lock_of a = RwFree ∧ unlocked s = a ∧ lock_of s ≠ RwWrite) as (Ha & Hsa & Hw).
  { assert (lock_of s ≠ RwWrite) as Hw by (unfold takes in Hl; intros Hw; rewrite Hw in Hl; by destruct (reads o)).
    assert (lock_of a = RwFree) as Ha.
    { apply Hf. destruct (lock_of s) as [|n|]; cbn in Hk; [by right|left; lia|done]. }
    split_and!; [done| |done]. rewrite (Hs (or_introl Hw)), unlocked_set. by apply unlocked_id. }
  assert (mode_fits o l) as Hm.
  { unfold takes, mode_fits in *. destruct (reads o), (lock_of s) as [|n|]; try done;
      injection Hl as <-; by eexists || done. }
  assert (visitor_fits a (set_lock l s) (Inside o (first o) todo)) as Hnew.
  { cbn. rewrite lock_set, unlocked_set, Hsa. by split. }
  split; cbn [v_object v_threads v_done]; rewrite ?lock_set.
  - done.
  - unfold takes in Hl. destruct (reads o), (lock_of s) as [|n|]; try done; injection Hl as <-;
      cbn in *; lia.
  - intros _. rewrite (Hs (or_introl Hw)), !set_set. done.
  - done.
  - destruct (reads o) eqn:Hr.
    + apply Forall_insert; [|done]. eapply readers_fit; [|exact Ht].
      intros o' Hm'. unfold mode_fits in *. rewrite Hr in Hm. destruct (reads o'); [done|congruence].
    + apply Forall_insert; [|done]. apply outside_fits. unfold takes in Hl. rewrite Hr in Hl.
      destruct (lock_of s); [exact Hk|done..].
Qed.

(** A thread with the lock. *)
Lemma held s o n : mode_fits o (lock_of s) → holders (lock_of s) n → n ≠ 0%nat →
  if reads o then lock_of s ≠ RwWrite else lock_of s = RwWrite ∧ n = 1%nat.
Proof.
  unfold mode_fits. destruct (reads o); [by intros [k ->]|]. intros ->. cbn. intros [|]; by split.
Qed.

(** It goes on behind the lock. *)
Lemma stays_fit s0 s s' ts h i t t' o a :
  visits_fit s0 (Visits s ts h) a → ts !! i = Some t → inside t = 1%nat → inside t' = 1%nat →
  mode_fits o (lock_of s) → lock_of s' = lock_of s → (reads o = true → s' = s) →
  visitor_fits a s' t' → visits_fit s0 (Visits s' (<[i := t']> ts) h) a.
Proof.
  intros [Hd Hk Hs Hf Ht] Hi Hin Hin' Hm Hl Hsame Ht'. cbn [v_object v_threads v_done] in *.
  pose proof (crowd_insert ts i t t' Hi) as Hc. pose proof (crowd_lookup ts i t Hi) as Hpos.
  assert (crowd (<[i := t']> ts) = crowd ts) as Hcr by lia.
  pose proof (held s o (crowd ts) Hm Hk ltac:(lia)) as Hh.
  split; cbn [v_object v_threads v_done]; rewrite ?Hcr, ?Hl; try done.
  - destruct (reads o); [by rewrite Hsame|]. destruct Hh as [Hw Hone]. intros [|]; [done|lia].
  - destruct (reads o) eqn:Hr.
    + pose proof (Hsame eq_refl) as ->. by apply Forall_insert.
    + destruct Hh as [_ Hone]. by apply (others_outside ts i t).
Qed.

Lemma works_fits s0 s ts h i o p todo x s' a :
  visits_fit s0 (Visits s ts h) a → ts !! i = Some (Inside o p todo) → piece o p s = (x, s') →
  match x with
  | Ok (Goes p') => visits_fit s0 (Visits s' (<[i := Inside o p' todo]> ts) h) a
  | Ok (Returns r) => visits_fit s0 (Visits s' (<[i := Leaving o r todo]> ts) h) a
  | Ok (Keeps r) => visits_fit s0 (Visits s' (<[i := Outside todo]> ts) (h ++ [(i, o, r)])) s'
  | Stop w => lock_of a = RwFree ∧ faults o a w
  end.
Proof.
  intros V Hi Hp. pose proof V as [Hd Hk Hs Hf Ht]. cbn [v_object v_threads v_done] in *.
  pose proof (Forall_lookup_1 _ _ _ _ Ht Hi) as [Hm Hpath].
  destruct (piece_unlocked o p s x s' Hp) as [Hpu Hl].
  pose proof (crowd_lookup ts i _ Hi) as Hpos. cbn [inside] in Hpos.
  assert (reads o = true → s' = s) as Hsame.
  { intros Hr. pose proof (piece_reads o p s Hr) as Hps. by rewrite Hp in Hps. }
  destruct x as [[p'|r|r]|w].
  - eapply stays_fit; try done. cbn. rewrite Hl. split; [done|]. eapply rtc_r; [exact Hpath|exact Hpu].
  - eapply stays_fit; try done. cbn. rewrite Hl. split; [done|]. by exists p, (unlocked s).
  - pose proof (keeps_writes o p s s' r Hp) as Hr.
    pose proof (held s o (crowd ts) Hm Hk ltac:(lia)) as Hh. rewrite Hr in Hh. destruct Hh as [Hw Hone].
    pose proof (crowd_insert ts i _ (Outside todo) Hi) as Hc. cbn [inside] in Hc.
    assert (crowd (<[i := Outside todo]> ts) = 0%nat) as Hcr by lia.
    split; cbn [v_object v_threads v_done]; rewrite ?Hcr, ?Hl, ?Hw.
    + apply (does_more _ _ a); [done|apply Hf; left; lia|]. exists p, (unlocked s), (unlocked s').
      split; [done|]. right. split; [done|]. unfold unlocked. rewrite set_set, <- Hw, <- Hl.
      by rewrite set_id.
    + by left.
    + intros _. rewrite <- Hw, <- Hl. by rewrite set_id.
    + by intros [|].
    + by apply (others_outside ts i (Inside o p todo)); [| |lia|].
  - split; [apply Hf; left; lia|]. by exists p, (unlocked s), (unlocked s').
Qed.

Lemma leaves_fits s0 s l ts h i o r todo a :
  visits_fit s0 (Visits s ts h) a → ts !! i = Some (Leaving o r todo) →
  my_rwunlock (lock_of s) = Ok l →
  visits_fit s0 (Visits (set_lock l s) (<[i := Outside todo]> ts) (h ++ [(i, o, r)])) (unlocked s).
Proof.
  intros [Hd Hk Hs Hf Ht] Hi Hl. cbn [v_object v_threads v_done] in *.
  pose proof (Forall_lookup_1 _ _ _ _ Ht Hi) as [Hm (p & s1 & Hpath & Hp)].
  pose proof (crowd_lookup ts i _ Hi) as Hpos. cbn [inside] in Hpos.
  pose proof (held s o (crowd ts) Hm Hk ltac:(lia)) as Hh.
  pose proof (crowd_insert ts i _ (Outside todo) Hi) as Hc. cbn [inside] in Hc.
  assert (lock_of a = RwFree) as Ha by (apply Hf; left; lia).
  assert (does_all s0 (h ++ [(i, o, r)]) (unlocked s)) as Hdone.
  { apply (does_more _ _ a); [done..|]. exists p, s1, (unlocked s). split; [done|]. by left. }
  assert (lock_of s ≠ RwWrite → unlocked s = a) as Hsa.
  { intros Hw. rewrite (Hs (or_introl Hw)), unlocked_set. by apply unlocked_id. }
  split; cbn [v_object v_threads v_done]; rewrite ?lock_set.
  - done.
  - destruct (lock_of s) as [|k|] eqn:Hk'; cbn in *; [done| |].
    + destruct (decide (k = 1%positive)) as [->|Hne]; [injection Hl as <-; cbn; lia|].
      assert (l = RwRead (Pos.pred k)) as -> by (destruct k; congruence). cbn. lia.
    + injection Hl as <-. cbn. lia.
  - intros _. unfold unlocked. by rewrite set_set.
  - intros _. apply unlocked_free.
  - destruct (decide (crowd (<[i := Outside todo]> ts) = 0%nat)) as [H0|H0]; [by apply outside_fits|].
    destruct (reads o) eqn:Hr; [|lia]. rewrite Hsa by done. apply Forall_insert; [|done].
    eapply readers_fit; [|exact Ht]. unfold mode_fits in *. rewrite Hr in Hm.
    destruct Hm as [k Hk']. rewrite Hk' in *. cbn in Hk.
    assert (l = RwRead (Pos.pred k)) as -> by (destruct k; cbn in *; congruence || lia).
    intros o' Hm'. destruct (reads o'); [by eexists|done].
Qed.

(** ** Every interleaving *)

Definition fits s0 (v : visits (S := S) (O := O) (P := P) (R := R)) : Prop := ∃ a, visits_fit s0 v a.

Lemma visit_step_fits s0 v x a : visits_fit s0 v a → visit_step v x →
  match x with inl v' => fits s0 v' | inr w => lock_of a = RwFree ∧ ∃ o, faults o a w end.
Proof.
  intros V. destruct 1 as [s l ts h i o todo Hi Hl|s ts h i o p todo y s' Hi Hp|s l ts h i o r todo Hi Hl].
  - exists a. by apply enters_fits.
  - pose proof (works_fits _ _ _ _ _ _ _ _ _ _ _ V Hi Hp) as Hx.
    destruct y as [[p'|r|r]|w]; [by eexists..|]. destruct Hx as [Ha Hf]. split; [done|by exists o].
  - exists (unlocked s). by eapply leaves_fits.
Qed.

Lemma visits_fit_start s0 (todos : list (list O)) : lock_of s0 = RwFree →
  visits_fit s0 (Visits s0 (Outside <$> todos) []) s0.
Proof.
  intros Hl. assert (crowd (P := P) (R := R) (Outside <$> todos) = 0%nat) as Hc.
  { unfold crowd. induction todos; [done|]. cbn. done. }
  split; cbn; rewrite ?Hc, ?Hl; try done.
  - constructor.
  - intros _. rewrite <- Hl. by rewrite set_id.
  - by apply outside_fits.
Qed.

Lemma visits_run s0 v v' : fits s0 v → rtc visit v v' → fits s0 v'.
Proof.
  intros Hf Hr. apply (rtc_invariant visit (fits s0) v v'); [|done..].
  intros v1 v2 Hs [a Ha]. apply (visit_step_fits _ _ _ _ Ha Hs).
Qed.

(** Two threads have the lock only if both read. *)
Lemma visitors_read s0 v a i j oi pi ti oj pj tj : visits_fit s0 v a → i ≠ j →
  v_threads v !! i = Some (Inside oi pi ti) → v_threads v !! j = Some (Inside oj pj tj) →
  reads oi = true ∧ reads oj = true.
Proof.
  intros [_ Hk _ _ Ht] Hne Hi Hj. pose proof (crowd_two _ _ _ _ _ Hne Hi Hj) as Hc. cbn in Hc.
  pose proof (Forall_lookup_1 _ _ _ _ Ht Hi) as [Hmi _].
  pose proof (Forall_lookup_1 _ _ _ _ Ht Hj) as [Hmj _]. unfold mode_fits in *.
  destruct (reads oi), (reads oj); try done; [rewrite Hmj in Hk|rewrite Hmi in Hk..]; cbn in Hk; lia.
Qed.

(** *** Each thread in its own order *)

Definition left_to_do (t : visitor (O := O) (P := P) (R := R)) : list O :=
  match t with Outside todo => todo | Inside o _ todo | Leaving o _ todo => o :: todo end.
Definition done_by i (h : list (nat * O * R)) : list O :=
  (λ x, x.1.2) <$> filter (λ x, x.1.1 = i) h.

Definition in_order (todos : list (list O)) (v : visits (S := S) (O := O) (P := P) (R := R)) : Prop :=
  length (v_threads v) = length todos ∧
  ∀ i t, v_threads v !! i = Some t → todos !! i = Some (done_by i (v_done v) ++ left_to_do t).

Lemma done_by_more i j o r h :
  done_by i (h ++ [(j, o, r)]) = done_by i h ++ (if decide (j = i) then [o] else []).
Proof.
  unfold done_by. rewrite filter_app, fmap_app. f_equal. rewrite filter_cons. cbn.
  by destruct (decide (j = i)).
Qed.

Lemma in_order_same todos s s' ts h i t t' :
  in_order todos (Visits s ts h) → ts !! i = Some t → left_to_do t' = left_to_do t →
  in_order todos (Visits s' (<[i := t']> ts) h).
Proof.
  intros [Hl Ho] Hi Ht. split; [cbn; by rewrite length_insert|]. cbn [v_threads v_done] in *. intros j u Hj.
  destruct (decide (j = i)) as [->|Hne].
  - rewrite list_lookup_insert_eq in Hj by (by eapply lookup_lt_Some). injection Hj as <-.
    rewrite Ht. by apply Ho.
  - rewrite list_lookup_insert_ne in Hj by done. by apply Ho.
Qed.

Lemma in_order_done todos s s' ts h i t o r todo :
  in_order todos (Visits s ts h) → ts !! i = Some t → left_to_do t = o :: todo →
  in_order todos (Visits s' (<[i := Outside todo]> ts) (h ++ [(i, o, r)])).
Proof.
  intros [Hl Ho] Hi Ht. split; [cbn; by rewrite length_insert|]. cbn [v_threads v_done] in *. intros j u Hj.
  rewrite done_by_more. destruct (decide (i = j)) as [<-|Hne].
  - rewrite list_lookup_insert_eq in Hj by (by eapply lookup_lt_Some). injection Hj as <-.
    rewrite <- app_assoc. cbn. rewrite <- Ht. by apply Ho.
  - rewrite list_lookup_insert_ne in Hj by done. rewrite app_nil_r. by apply Ho.
Qed.

Lemma in_order_run todos v v' : in_order todos v → rtc visit v v' → in_order todos v'.
Proof.
  intros Hf Hr. apply (rtc_invariant visit (in_order todos) v v'); [|done..].
  intros v1 v2 Hs Ho. unfold visit in Hs. remember (inl v2) as x eqn:Hx.
  destruct Hs as [s l ts h i o todo Hi Hl|s ts h i o p todo y s' Hi Hp|s l ts h i o r todo Hi Hl].
  - injection Hx as <-. by eapply in_order_same.
  - destruct y as [[p'|r|r]|w]; [| | |done]; injection Hx as <-;
      [by eapply in_order_same..|by eapply in_order_done].
  - injection Hx as <-. by eapply in_order_done.
Qed.

Lemma in_order_start s0 (todos : list (list O)) :
  in_order todos (Visits s0 (Outside <$> todos) []).
Proof.
  split; [apply length_fmap|]. cbn. intros i t. rewrite list_lookup_fmap.
  destruct (todos !! i) as [todo|]; [|done]. by intros [= <-].
Qed.
End lawful.

(** ** Hash tables *)

Section tables.
Context `{Allocator} {E : Type} `{HashEntry E}.
Implicit Types (h : hash_t E) (o : hop E).

(** Where a thread is in [hash_add], [hash_get] or [hash_remove]: at a level of
    [hash_find], at what follows it, or, in [hash_add], at the rehash. *)
Inductive hash_at := Look (level : Z) | Act (index : Z) (st : hash_entry_status_t) | Grow.

Definition look (k : key_ptr) (level : Z) : M (hash_t E) (next hash_at (hout E)) :=
  h ← mget;
  match hash_find_step h k (hash_key_size_func k) level with
  | inl level' => mret (Goes (Look level'))
  | inr r => '(index, st) ← mlift r; mret (Goes (Act index st))
  end.

Definition act (o : hop E) (index : Z) (st : hash_entry_status_t)
    : M (hash_t E) (next hash_at (hout E)) :=
  h ← mget;
  match o with
  | HAdd e =>
      let k := hash_entry_key_func e in
      if negb (bool_decide (st = HASH_EMPTY)) then mret (Returns (HRet RET_FAILED)) else
        elements' ← mlift (arr_write (elements h) index
                             (Element (Some e) (Some k) (hash_key_size_func k) HASH_OCCUPIED));
        mmodify (set_elements elements');;
        mmodify (λ h, set_count (u64 (hash_entry_count h + 1)) h);;
        mret (Goes Grow)
  | HGet k =>
      ret ← (if bool_decide (st = HASH_OCCUPIED)
             then element ← mlift (arr_read (elements h) index); mret (entry element)
             else mret None);
      mret (Returns (HEntryOf ret))
  | HRemove k =>
      freed ← (if bool_decide (st = HASH_OCCUPIED) then
          element ← mlift (arr_read (elements h) index);
          elements' ← mlift (arr_write (elements h) index
            (Element (entry element) (key element) (key_size element) HASH_REMOVED));
          mmodify (set_elements elements');;
          mmodify (λ h, set_count (u64 (hash_entry_count h - 1)) h);;
          mmodify (λ h, set_removed (u64 (hash_entry_removed_count h + 1)) h);;
          mret [entry element]
        else mret []);
      mret (Returns (HFreed RET_SUCCEED freed))
  end.

Definition grow : M (hash_t E) (next hash_at (hout E)) :=
  h ← mget;
  if needs_rehash h then
    size' ← mlift (rehash_size h);
    rehash_elements ← cq_malloc (u64 (size' * sizeof_hash_element_t)) (fresh_buffer size');
    mmodify (set_elements rehash_elements);;
    mmodify (set_hash_size size');;
    mmodify (set_removed 0);;
    ret ← rehash (elements h) (hash_size h);
    mret (if bool_decide (ret = RET_SUCCEED) then Returns (HRet RET_SUCCEED)
          else Keeps (HRet RET_FAILED))
  else mret (Returns (HRet RET_SUCCEED)).

(** Only [hash_add] comes to [Grow]. *)
Definition hash_piece (o : hop E) (p : hash_at) : M (hash_t E) (next hash_at (hout E)) :=
  match p, o with
  | Look level, _ => look (op_key o) level
  | Act index st, _ => act o index st
  | Grow, HAdd _ => grow
  | Grow, _ => mret (Goes Grow)
  end.

#[export] Instance hash_guarded : Guarded (hash_t E) (hop E) hash_at (hout E) := {
  lock_of := hash_rwlock;
  set_lock := set_hash_rwlock;
  reads o := match o with HGet _ => true | _ => false end;
  first _ := Look 0;
  piece := hash_piece;
}.

(** *** The pieces do not look at the lock *)

Definition blind {A} (m : M (hash_t E) A) : Prop :=
  ∀ l h, m (set_hash_rwlock l h) = ((m h).1, set_hash_rwlock l (m h).2).

Lemma blind_ret {A} (a : A) : blind (mret a).
Proof. done. Qed.
Lemma blind_lift {A} (r : res A) : blind (mlift r).
Proof. done. Qed.
Lemma blind_malloc {A} size (a : A) : blind (cq_malloc size a).
Proof. intros l h. unfold cq_malloc. by destruct (malloc_ok _). Qed.
Lemma blind_modify (g : hash_t E → hash_t E) :
  (∀ l h, g (set_hash_rwlock l h) = set_hash_rwlock l (g h)) → blind (mmodify g).
Proof. intros Hg l h. unfold mmodify. by rewrite Hg. Qed.
Lemma blind_bind {A B} (m : M (hash_t E) A) (f : A → M (hash_t E) B) :
  blind m → (∀ a, blind (f a)) → blind (m ≫= f).
Proof.
  intros Hm Hf l h. unfold mbind, M_mbind. rewrite Hm.
  destruct (m h) as [[a|w] h']; cbn; [apply Hf|done].
Qed.
Lemma blind_get {A} (f : hash_t E → M (hash_t E) A) :
  (∀ l h, f (set_hash_rwlock l h) = f h) → (∀ h, blind (f h)) → blind (mget ≫= f).
Proof. intros Hl Hf l h. unfold mbind, M_mbind. cbn. rewrite Hl. apply Hf. Qed.

Hint Resolve blind_ret blind_lift blind_malloc : core.

Lemma step_blind l h k size : hash_find_step (set_hash_rwlock l h) k size = hash_find_step h k size.
Proof. reflexivity. Qed.
Lemma find_blind l h k size : hash_find (set_hash_rwlock l h) k size = hash_find h k size.
Proof. unfold hash_find. by rewrite step_blind. Qed.

Lemma rehash_element_blind element l h ret :
  rehash_element element (set_hash_rwlock l h, ret) =
    match rehash_element element (h, ret) with
    | Ok (h', ret') => Ok (set_hash_rwlock l h', ret')
    | Stop w => Stop w
    end.
Proof.
  unfold rehash_element. destruct ret; [|done]. destruct (bool_decide _); [|done].
  destruct (key element) as [k|]; [|done].
  rewrite find_blind.
  destruct (hash_find h k (key_size element)) as [[index st]|w]; [|done]. cbn [mbind res_mbind].
  destruct (negb _); [done|]. cbn [set_hash_rwlock elements].
  by destruct (arr_write (elements h) index element).
Qed.

Lemma rehash_blind src n : blind (rehash src n).
Proof.
  intros l h. unfold rehash, mbind, M_mbind, mlift. cbn [mget].
  change (memset_elements (elements (set_hash_rwlock l h)) (hash_size (set_hash_rwlock l h)))
    with (memset_elements (elements h) (hash_size h)).
  destruct (memset_elements (elements h) (hash_size h)) as [zeroed|w]; [|done].
  change (set_elements zeroed (set_hash_rwlock l h)) with (set_hash_rwlock l (set_elements zeroed h)).
  set (body := λ i s, _). unfold for_upto.
  assert (∀ m i h ret, for_from m i body (set_hash_rwlock l h, ret) =
    match for_from m i body (h, ret) with
    | Ok (h', ret') => Ok (set_hash_rwlock l h', ret')
    | Stop w => Stop w
    end) as Hloop.
  { induction m as [|m IH]; intros i h0 ret; [done|]. cbn [for_from].
    unfold body at 1 3, mbind, res_mbind. destruct (arr_read src i) as [el|w]; [|done].
    rewrite rehash_element_blind. destruct (rehash_element el (h0, ret)) as [[h1 ret1]|w]; [|done].
    apply IH. }
  rewrite Hloop. by destruct (for_from _ _ _ _) as [[h1 ret1]|w].
Qed.

Lemma blind_grow : blind grow.
Proof.
  apply blind_get; [done|]. intros h.
  destruct (needs_rehash h); [|done]. apply blind_bind; [done|]. intros n.
  apply blind_bind; [done|]. intros b.
  apply blind_bind; [by apply blind_modify|]. intros _.
  apply blind_bind; [by apply blind_modify|]. intros _.
  apply blind_bind; [by apply blind_modify|]. intros _.
  apply blind_bind; [apply rehash_blind|]. by intros ret.
Qed.

Lemma piece_blind o p : blind (hash_piece o p).
Proof.
  destruct p as [level|index st|]; cbn [hash_piece].
  - apply blind_get; [done|]. intros h. destruct (hash_find_step _ _ _ _); [done|].
    apply blind_bind; [done|]. by intros [].
  - apply blind_get; [done|]. intros h. destruct o as [e|k|k]; cbv zeta.
    + destruct (negb _); [done|]. apply blind_bind; [done|]. intros b.
      apply blind_bind; [by apply blind_modify|]. intros _.
      apply blind_bind; [by apply blind_modify|]. by intros _.
    + apply blind_bind; [|done]. destruct (bool_decide _); [|done].
      by apply blind_bind.
    + apply blind_bind; [|done]. destruct (bool_decide _); [|done].
      apply blind_bind; [done|]. intros el. apply blind_bind; [done|]. intros b.
      apply blind_bind; [by apply blind_modify|]. intros _.
      apply blind_bind; [by apply blind_modify|]. intros _.
      apply blind_bind; [by apply blind_modify|]. by intros _.
  - destruct o as [e|k|k]; [|done..]. apply blind_grow.
Qed.

(** [hash_get] only reads. *)
Lemma get_reads k p h : (hash_piece (HGet k) p h).2 = h.
Proof.
  destruct p as [level|index st|]; cbn [hash_piece]; [| |done].
  - unfold look, mbind, M_mbind, mlift. cbn [mget]. destruct (hash_find_step _ _ _ _) as [|[[]|]]; done.
  - unfold act, mbind, M_mbind, mlift. cbn [mget]. destruct (bool_decide _); [|done].
    by destruct (arr_read _ _).
Qed.

#[export] Instance hash_guarded_laws : GuardedLaws (hash_t E) (hop E) hash_at (hout E).
Proof.
  split; try done.
  - by intros [].
  - intros o p l h. apply piece_blind.
  - intros [e|k|k] p h; try done. intros _. apply get_reads.
  - intros o p h h' r Hp. destruct o as [e|k|k]; [done| |done].
    exfalso. destruct p as [level|index st|]; cbn in Hp; [| |done].
    + unfold look, mbind, M_mbind, mlift in Hp. cbn [mget] in Hp.
      by destruct (hash_find_step _ _ _ _) as [|[[]|]].
    + unfold act, mbind, M_mbind, mlift in Hp. cbn [mget] in Hp.
      destruct (bool_decide _); [|done]. by destruct (arr_read _ _).
Qed.

(** *** The pieces, one after the other, are the functions of [Hash] *)

Lemma step_next h k size level level' :
  hash_find_step h k size level = inl level' → level' = u64 (level + 1).
Proof.
  unfold hash_find_step. destruct (_ =? 0); [done|]. destruct (arr_read _ _) as [el|w]; [|done].
  destruct (status el); [done| |by intros [= <-]]. destruct (_ =? _); [|by intros [= <-]].
  destruct (key el); [|done]. destruct (memcmp_eq _ _ _) as [[]|]; [done| |done]. by intros [= <-].
Qed.

Lemma run_prefix h k size n level :
  run (hash_find_step h k size) n 0 = inl level →
  ∀ m, (m ≤ n)%nat → run (hash_find_step h k size) m 0 = inl (u64 (Z.of_nat m)).
Proof.
  intros Hn m. induction m as [|m IH]; intros Hm; [done|]. specialize (IH ltac:(lia)).
  replace (S m) with (m + 1)%nat by lia. rewrite run_add, IH. cbn [run].
  destruct (hash_find_step h k size (u64 (Z.of_nat m))) as [l|r] eqn:Hs.
  - apply step_next in Hs as ->. f_equal. unfold u64. rewrite Zplus_mod_idemp_l. f_equal. lia.
  - exfalso. assert (run (hash_find_step h k size) (S m) 0 = inr r) as Hr.
    { replace (S m) with (m + 1)%nat by lia. rewrite run_add, IH. cbn [run]. by rewrite Hs. }
    rewrite (run_le _ _ n _ _ Hr) in Hn by lia. done.
Qed.

(** The levels come again after 2^64 of them. *)
Lemma find_of_run h k size n level r :
  run (hash_find_step h k size) n 0 = inl level → hash_find_step h k size level = inr r →
  hash_find h k size = r.
Proof.
  intros Hn Hs. pose proof (run_prefix _ _ _ _ _ Hn n ltac:(lia)) as Hl. rewrite Hn in Hl.
  injection Hl as Hl. set (m := Z.to_nat (Z.of_nat n mod 2 ^ 64)).
  pose proof (Z.mod_pos_bound (Z.of_nat n) (2 ^ 64) ltac:(lia)) as Hb.
  pose proof (Z.mod_le (Z.of_nat n) (2 ^ 64) ltac:(lia) ltac:(lia)) as Hle.
  assert (run (hash_find_step h k size) (m + 1) 0 = inr r) as Hr.
  { rewrite run_add, (run_prefix _ _ _ _ _ Hn m) by (unfold m; lia). cbn [run].
    assert (u64 (Z.of_nat m) = level) as ->; [|by rewrite Hs].
    rewrite Hl. unfold u64, m. rewrite Z2Nat.id by lia. by rewrite Z.mod_mod by lia. }
  unfold hash_find. rewrite (loop_of_run _ _ _ _ _ Hr); [done|]. apply P64_ge. unfold m. lia.
Qed.

(** The end of [hash_add]: the rehash, and the unlock. *)
Definition finish (x : next hash_at (hout E)) : M (hash_t E) ret_t :=
  match x with
  | Returns (HRet r) => on_hash_rwlock my_rwunlock;; mret r
  | Keeps (HRet r) => mret r
  | _ => mret RET_FAILED
  end.

Lemma grow_finishes s :
  (h ← mget;
   if needs_rehash h then
     size' ← mlift (rehash_size h);
     rehash_elements ← cq_malloc (u64 (size' * sizeof_hash_element_t)) (fresh_buffer size');
     mmodify (set_elements rehash_elements);;
     mmodify (set_hash_size size');;
     mmodify (set_removed 0);;
     ret ← rehash (elements h) (hash_size h);
     if bool_decide (ret = RET_SUCCEED)
     then on_hash_rwlock my_rwunlock;; mret RET_SUCCEED
     else mret RET_FAILED
   else on_hash_rwlock my_rwunlock;; mret RET_SUCCEED) s = (grow ≫= finish) s.
Proof.
  unfold grow. rewrite bind_assoc. apply bind_ext. intros h s1 _.
  destruct (needs_rehash h); [|done].
  do 6 (rewrite bind_assoc; apply bind_ext; intros ???).
  by destruct a4.
Qed.

Lemma add_writes e h index els : hash_rwlock h = RwFree →
  hash_find h (hash_entry_key_func e) (hash_key_size_func (hash_entry_key_func e)) =
    Ok (index, HASH_EMPTY) →
  arr_write (elements h) index (Element (Some e) (Some (hash_entry_key_func e))
    (hash_key_size_func (hash_entry_key_func e)) HASH_OCCUPIED) = Ok els →
  hash_add e h = (grow ≫= finish) (set_hash_rwlock RwWrite
    (set_count (u64 (hash_entry_count h + 1)) (set_elements els h))).
Proof.
  intros Hf Hfind Hw. unfold hash_add. erewrite bind_ok by by apply hash_wrlock_free.
  cbv zeta. erewrite bind_ok by reflexivity.
  erewrite bind_ok by (unfold mlift; rewrite find_blind, Hfind; reflexivity).
  cbn beta iota. rewrite bool_decide_true by done. cbn [negb].
  erewrite bind_ok by (unfold mlift; cbn [elements set_hash_rwlock]; rewrite Hw; reflexivity).
  erewrite bind_ok by reflexivity. erewrite bind_ok by reflexivity. apply grow_finishes.
Qed.

Lemma add_grows e h index els x h' : hash_rwlock h = RwFree →
  hash_find h (hash_entry_key_func e) (hash_key_size_func (hash_entry_key_func e)) =
    Ok (index, HASH_EMPTY) →
  arr_write (elements h) index (Element (Some e) (Some (hash_entry_key_func e))
    (hash_key_size_func (hash_entry_key_func e)) HASH_OCCUPIED) = Ok els →
  grow (set_count (u64 (hash_entry_count h + 1)) (set_elements els h)) = (x, h') →
  hash_add e h = match x with
                 | Ok y => finish y (set_hash_rwlock RwWrite h')
                 | Stop w => (Stop w, set_hash_rwlock RwWrite h')
                 end.
Proof.
  intros Hf Hfind Hw Hg. rewrite (add_writes e h index els) by done.
  unfold mbind, M_mbind. rewrite blind_grow, Hg. by destruct x.
Qed.

(** What an operation has done when it comes to a piece. *)
Definition has_come o h (x : hash_at * hash_t E) : Prop :=
  let size := hash_key_size_func (op_key o) in
  match x.1, o with
  | Look level, _ => x.2 = h ∧ ∃ n, run (hash_find_step h (op_key o) size) n 0 = inl level
  | Act index st, _ => x.2 = h ∧ hash_find h (op_key o) size = Ok (index, st)
  | Grow, HAdd e => ∃ index els, hash_find h (op_key o) size = Ok (index, HASH_EMPTY) ∧
      arr_write (elements h) index (Element (Some e) (Some (hash_entry_key_func e))
        (hash_key_size_func (hash_entry_key_func e)) HASH_OCCUPIED) = Ok els ∧
      x.2 = set_count (u64 (hash_entry_count h + 1)) (set_elements els h)
  | Grow, _ => False
  end.

Lemma look_cases k level h x h' : look k level h = (x, h') → h' = h ∧
  match hash_find_step h k (hash_key_size_func k) level with
  | inl l => x = Ok (Goes (Look l))
  | inr (Ok (index, st)) => x = Ok (Goes (Act index st))
  | inr (Stop w) => x = Stop w
  end.
Proof.
  unfold look, mbind, M_mbind, mlift. cbn [mget].
  destruct (hash_find_step _ _ _ _) as [l|[[index st]|w]]; by intros [= <- <-].
Qed.

Lemma comes_next o h x y : has_come o h x → goes o x y → has_come o h y.
Proof.
  destruct x as [p s1], y as [p' s2]. unfold goes, has_come. cbn [fst snd]. cbv zeta. intros Hx Hp.
  destruct p as [level|index st|]; cbn [piece hash_guarded hash_piece] in Hp.
  - destruct Hx as [-> [n Hn]]. apply look_cases in Hp as [-> Hp].
    destruct (hash_find_step _ _ _ level) as [l|[[index st]|w]] eqn:Hs; [..|done];
      injection Hp as ->; (split; [done|]).
    + exists (n + 1)%nat. rewrite run_add, Hn. cbn [run]. by rewrite Hs.
    + by eapply find_of_run.
  - destruct Hx as [-> Hf]. unfold act, mbind, M_mbind, mlift in Hp. cbn [mget] in Hp.
    destruct o as [e|k|k].
    + destruct (bool_decide (st = HASH_EMPTY)) eqn:Hst; [|done]. cbn [negb] in Hp.
      apply bool_decide_eq_true in Hst as ->.
      destruct (arr_write _ _ _) as [els|w] eqn:Hw; [|done]. injection Hp as <- <-.
      by exists index, els.
    + destruct (bool_decide _); [|done]. by destruct (arr_read _ _).
    + destruct (bool_decide _); [|done]. destruct (arr_read _ _); [|done].
      by destruct (arr_write _ _ _).
  - destruct o as [e|k|k]; [|done..]. unfold grow in Hp.
    exfalso. revert Hp. unfold mbind, M_mbind, mlift. cbn [mget].
    destruct (needs_rehash s1); [|done]. destruct (rehash_size s1); [|done].
    destruct (cq_malloc _ _ _) as [[b|w] s3]; [|done]. cbn [mmodify].
    destruct (rehash _ _ _) as [[[]|w] s4]; done.
Qed.

Lemma has_come_to o h p s1 : rtc (goes o) (first o, h) (p, s1) → has_come o h (p, s1).
Proof.
  intros Hr. apply (rtc_invariant (goes o) (has_come o h) (first o, h) (p, s1)); [|done|].
  - intros x y Hxy Hx. by eapply comes_next.
  - split; [done|]. by exists 0%nat.
Qed.

(** *** From the lock to the unlock *)

Lemma add_refuses e h index st : hash_rwlock h = RwFree →
  hash_find h (hash_entry_key_func e) (hash_key_size_func (hash_entry_key_func e)) =
    Ok (index, st) → st ≠ HASH_EMPTY → hash_add e h = (Ok RET_FAILED, h).
Proof.
  intros Hf Hfind Hst. unfold hash_add. erewrite bind_ok by by apply hash_wrlock_free. cbv zeta.
  erewrite bind_ok by reflexivity.
  erewrite bind_ok by (unfold mlift; rewrite find_blind, Hfind; reflexivity).
  cbn beta iota. rewrite bool_decide_false by done. cbn [negb].
  erewrite bind_ok by (by apply (hash_rwunlock_held _ RwWrite); auto). by rewrite relock_id.
Qed.

Lemma get_ends k h index st r h' : hash_rwlock h = RwFree →
  hash_find h k (hash_key_size_func k) = Ok (index, st) →
  act (HGet k) index st h = (Ok (Returns r), h') → hash_exec (HGet k) h = (Ok r, h').
Proof.
  intros Hf Hfind. unfold act, hash_exec, hash_get, on_hash_rwlock. mstep. rewrite Hf. cbn.
  rewrite find_blind, Hfind. cbn. destruct (bool_decide _); cbn.
  - destruct (arr_read (elements h) index) as [el|w]; [|done]. cbn. rewrite relock_id by done.
    by intros [= <- <-].
  - rewrite relock_id by done. by intros [= <- <-].
Qed.

Lemma remove_ends k h index st r h' : hash_rwlock h = RwFree →
  hash_find h k (hash_key_size_func k) = Ok (index, st) →
  act (HRemove k) index st h = (Ok (Returns r), h') → hash_exec (HRemove k) h = (Ok r, h').
Proof.
  intros Hf Hfind. unfold act, hash_exec, hash_remove, on_hash_rwlock. mstep. rewrite Hf. cbn.
  rewrite find_blind, Hfind. cbn. destruct (bool_decide _); cbn.
  - destruct (arr_read (elements h) index) as [el|w]; [|done]. cbn.
    destruct (arr_write (elements h) index _) as [els|w]; [|done]. cbn.
    intros [= <- <-]. by rewrite <- Hf.
  - rewrite relock_id by done. by intros [= <- <-].
Qed.

Lemma act_ends o h index st x h' : hash_rwlock h = RwFree →
  hash_find h (op_key o) (hash_key_size_func (op_key o)) = Ok (index, st) →
  act o index st h = (Ok x, h') →
  match x with
  | Returns r => hash_exec o h = (Ok r, h')
  | Keeps _ => False
  | Goes _ => True
  end.
Proof.
  intros Hf Hfind Ha. destruct o as [e|k|k].
  - revert Ha. unfold act. mstep. destruct (decide (st = HASH_EMPTY)) as [Hst|Hst].
    + rewrite bool_decide_true by done. cbn. by destruct (arr_write _ _ _); [intros [= <- <-]|].
    + rewrite bool_decide_false by done. cbn. intros [= <- <-]. unfold hash_exec.
      by erewrite bind_ok by by eapply add_refuses.
  - destruct x as [p|r|r]; [done|by eapply get_ends|].
    revert Ha. unfold act. mstep. destruct (bool_decide _); [|done]. by destruct (arr_read _ _).
  - destruct x as [p|r|r]; [done|by eapply remove_ends|].
    revert Ha. unfold act. mstep. destruct (bool_decide _); [|done]. cbn.
    destruct (arr_read _ _); [|done]. cbn. by destruct (arr_write _ _ _).
Qed.

Lemma grow_cases s x s' : grow s = (Ok x, s') →
  hash_rwlock s' = hash_rwlock s ∧ ∃ r, x = Returns (HRet r) ∨ x = Keeps (HRet r).
Proof.
  intros Hg. split.
  - pose proof (blind_grow (hash_rwlock s) s) as Hl. rewrite Hg in Hl.
    replace (set_hash_rwlock (hash_rwlock s) s) with s in Hl by by destruct s.
    rewrite Hg in Hl. injection Hl as ->. done.
  - revert Hg. unfold grow. mstep. destruct (needs_rehash s); [|intros [= <- _]; eauto].
    destruct (rehash_size s); [|done]. destruct (cq_malloc _ _ _) as [[b|w] s3]; [|done].
    destruct (rehash _ _ _) as [[[]|w] s4]; [| |done]; intros [= <- _]; eauto.
Qed.

(** The pieces of an operation do what its function in [Hash] does. *)
Lemma hash_does o h r h' : hash_rwlock h = RwFree → does o h r h' → hash_exec o h = (Ok r, h').
Proof.
  intros Hf (p & s1 & s2 & Hpath & Hend). pose proof (has_come_to _ _ _ _ Hpath) as Hx.
  assert (∃ x, piece o p s1 = (Ok x, s2) ∧
    (x = Returns r ∧ h' = s2 ∨ x = Keeps r ∧ h' = set_lock RwWrite s2)) as (x & Hp & Hr)
    by (destruct Hend as [[? ?]|[? ?]]; eauto).
  destruct p as [level|index st|]; cbn [piece hash_guarded hash_piece] in Hp.
  - apply look_cases in Hp as [_ Hp]. exfalso.
    destruct (hash_find_step _ _ _ _) as [|[[]|]]; [..|done]; injection Hp as ->; by destruct Hr as [[]|[]].
  - destruct Hx as [Hs Hfind]. cbn [snd] in Hs. rewrite Hs in Hp.
    pose proof (act_ends _ _ _ _ _ _ Hf Hfind Hp) as Ha. by destruct Hr as [[-> ->]|[-> _]].
  - destruct o as [e|k|k]; [|done..]. destruct Hx as (index & els & Hfind & Hw & Hs).
    cbn [snd] in Hs. rewrite Hs in Hp. destruct (grow_cases _ _ _ Hp) as [Hl (r' & Hx)].
    cbn [op_key] in Hfind, Hw. cbn [hash_rwlock set_count set_elements] in Hl. rewrite Hf in Hl.
    unfold hash_exec. pose proof (add_grows e h index els _ _ Hf Hfind Hw Hp) as Ha.
    destruct Hr as [[-> ->]|[-> ->]], Hx as [[= ->]|[= ->]];
      (erewrite bind_ok by (rewrite Ha; cbn [finish]; mstep; reflexivity)); [|done].
    unfold mret, M_mret. f_equal. by destruct s2; cbn in *; subst.
Qed.

(** And a piece that goes wrong goes wrong in that function. *)
Lemma look_faults o h w : hash_rwlock h = RwFree →
  hash_find h (op_key o) (hash_key_size_func (op_key o)) = Stop w →
  ∃ h', hash_exec o h = (Stop w, h').
Proof.
  intros Hf Hfind. destruct o as [e|k|k]; cbn [op_key] in Hfind;
    unfold hash_exec, hash_add, hash_get, hash_remove, on_hash_rwlock; mstep; rewrite Hf; cbn;
    rewrite find_blind, Hfind; cbn; by eexists.
Qed.

Lemma act_faults o h index st w h1 : hash_rwlock h = RwFree →
  hash_find h (op_key o) (hash_key_size_func (op_key o)) = Ok (index, st) →
  act o index st h = (Stop w, h1) → ∃ h', hash_exec o h = (Stop w, h').
Proof.
  intros Hf Hfind. destruct o as [e|k|k]; cbn [op_key] in Hfind;
    unfold act, hash_exec, hash_add, hash_get, hash_remove, on_hash_rwlock; mstep; rewrite Hf; cbn;
    rewrite find_blind, Hfind; cbn.
  - destruct (bool_decide _); cbn; [|done]. destruct (arr_write _ _ _); [done|].
    intros [= -> _]. by eexists.
  - destruct (bool_decide _); cbn; [|done]. destruct (arr_read _ _); [done|].
    intros [= -> _]. by eexists.
  - destruct (bool_decide _); cbn; [|done]. destruct (arr_read _ _); cbn;
      [destruct (arr_write _ _ _); [done|]|]; intros [= -> _]; by eexists.
Qed.

Lemma hash_faults o h w : hash_rwlock h = RwFree → faults o h w → ∃ h', hash_exec o h = (Stop w, h').
Proof.
  intros Hf (p & s1 & s2 & Hpath & Hp). pose proof (has_come_to _ _ _ _ Hpath) as Hx.
  destruct p as [level|index st|]; cbn [piece hash_guarded hash_piece] in Hp.
  - destruct Hx as [Hs [n Hn]]. cbn [snd] in Hs. rewrite Hs in Hp. apply look_cases in Hp as [_ Hp].
    destruct (hash_find_step _ _ _ _) as [|[[]|w']] eqn:Hstep; [done..|]. injection Hp as <-.
    apply look_faults; [done|]. by eapply find_of_run.
  - destruct Hx as [Hs Hfind]. cbn [snd] in Hs. rewrite Hs in Hp. by eapply act_faults.
  - destruct o as [e|k|k]; [|done..]. destruct Hx as (index & els & Hfind & Hw & Hs).
    cbn [snd] in Hs. rewrite Hs in Hp. unfold hash_exec.
    eexists. erewrite bind_stop; [reflexivity|]. by rewrite (add_grows e h index els _ _ Hf Hfind Hw Hp).
Qed.

(** Operations in a row. *)
Lemma hash_run_snoc (os : list (hop E)) o h rs r h1 h2 :
  hash_run os h = (Ok rs, h1) → hash_exec o h1 = (Ok r, h2) →
  hash_run (os ++ [o]) h = (Ok (rs ++ [r]), h2).
Proof.
  revert h rs. induction os as [|o' os IH]; intros h rs Hr Ho; cbn [hash_run app] in *.
  - injection Hr as <- <-. erewrite bind_ok by exact Ho. done.
  - revert Hr. unfold mbind, M_mbind. destruct (hash_exec o' h) as [[r'|w] h'] eqn:H'; [|done].
    destruct (hash_run os h') as [[rs'|w] h''] eqn:Hos; [|done]. intros [= <- <-].
    by rewrite (IH _ _ Hos Ho).
Qed.

Lemma hash_does_all h log h' : does_all h log h' →
  hash_run ((λ x, x.1.2) <$> log) h = (Ok (snd <$> log), h').
Proof.
  induction 1 as [|h log h1 i o r h2 _ IH Hf Hd]; [done|].
  rewrite !fmap_app. eapply hash_run_snoc; [exact IH|by apply hash_does].
Qed.

(** The functions that have returned, in the order in which they gave the lock
    back, and what they returned. *)
Definition history (v : visits (S := hash_t E) (O := hop E) (P := hash_at) (R := hout E)) : list (hop E) :=
  (λ x, x.1.2) <$> v_done v.
Definition answers (v : visits (S := hash_t E) (O := hop E) (P := hash_at) (R := hout E)) : list (hout E) :=
  snd <$> v_done v.

(** C9 (refinement). However many threads call [hash_add], [hash_get] and
    [hash_remove] on one table, and however the levels of their searches, their
    updates and their rehashes interleave, threads are in the table together only
    to read, and the calls that have returned are the calls of some single thread: in the order in which they let go of the lock,
    which is each thread's own order, they return what the functions return when
    they are called one after the other, a table that is not locked is the table those
    calls leave, a call that would go wrong would have gone wrong there, and, as
    long as the keys are in order, the answers are those of a finite map. *)
Theorem hash_linearizable h0 (todos : list (list (hop E))) v :
  hash_rwlock h0 = RwFree → rtc visit (Visits h0 (Outside <$> todos) []) v →
  in_order todos v ∧
  (∀ i j oi pi ti oj pj tj, i ≠ j → v_threads v !! i = Some (Inside oi pi ti) →
    v_threads v !! j = Some (Inside oj pj tj) → reads oi = true ∧ reads oj = true) ∧
  (∃ h, hash_run (history v) h0 = (Ok (answers v), h) ∧
    (hash_rwlock (v_object v) = RwFree → v_object v = h) ∧
    (∀ w, visit_step v (inr w) → ∃ o h', hash_exec o h = (Stop w, h'))) ∧
  ∀ m, hrep h0 m → run_legal h0 m (history v) → answers v = (map_run (history v) m).1.
Proof.
  intros Hl Hr. split; [by eapply in_order_run; [apply in_order_start|]|].
  assert (fits h0 v) as [h Hv]
    by (eapply visits_run; [|exact Hr]; exists h0; by apply visits_fit_start).
  pose proof (hash_does_all _ _ _ (vf_done _ _ _ Hv)) as Hrun.
  split_and!; [intros i j ????????; by eapply (visitors_read h0)| |].
  - exists h. split_and!; [exact Hrun| |].
    + intros Hfree. pose proof (vf_free _ _ _ Hv (or_intror Hfree)) as Hh.
      pose proof (vf_same _ _ _ Hv) as Hs. cbn [lock_of hash_guarded] in Hs. rewrite Hfree in Hs.
      rewrite Hs by by left. by apply unlocked_id.
    + intros w Hs. destruct (visit_step_fits _ _ _ _ Hv Hs) as (Hf & o & Ho). exists o. by apply hash_faults.
  - intros m R Hleg. destruct (run_refines_map _ _ _ R Hleg) as (h' & Hm & _).
    unfold history in Hm. rewrite Hrun in Hm. by injection Hm.
Qed.
End tables.

(** ** Witnesses *)

Local Existing Instances roomy_allocator number_entry.

(** Six threads; the second and the third look for the same key together, behind
    the first one's addition, and the table grows in the hands of the fifth. *)
Definition sample_todos : list (list (hop Z)) :=
  [[HAdd 1; HAdd 2]; [HGet (number_key 1)]; [HGet (number_key 1)]; [HAdd 3; HRemove (number_key 2)];
   [HAdd 300; HAdd 5; HAdd 7]; [HAdd 1]].
Definition sample_start : visits (S := hash_t Z) (O := hop Z) (P := hash_at) (R := hout Z) :=
  Visits new_table (Outside <$> sample_todos) [].
Definition sample_turns : list nat :=
  ([0; 0; 0; 0; 0; 1; 2; 1; 2; 2; 1; 2; 1] ++ replicate 10 0 ++ replicate 10 3 ++ replicate 20 4 ++
   replicate 2 5)%nat.
Definition sample_visits := visit_turns sample_start sample_turns.

Definition sample_answers : list (hout Z) :=
  [HRet RET_SUCCEED; HEntryOf (Some 1); HEntryOf (Some 1); HRet RET_SUCCEED; HRet RET_SUCCEED;
   HFreed RET_SUCCEED [Some 2]; HRet RET_SUCCEED; HRet RET_SUCCEED; HRet RET_SUCCEED].

Example hash_linearizable_witness :
  answers sample_visits = sample_answers ∧ hash_size (v_object sample_visits) = 23 ∧
  run_check 200 new_table ∅ (history sample_visits) = true ∧
  in_order sample_todos sample_visits ∧
  (map_run (history sample_visits) (∅ : gmap (list Z) Z)).1 = sample_answers.
Proof.
  assert (answers sample_visits = sample_answers) as Ha by (vm_compute; reflexivity).
  assert (run_check 200 new_table ∅ (history sample_visits) = true) as Hc by (vm_compute; reflexivity).
  destruct (hash_linearizable new_table sample_todos sample_visits) as (Ho & _ & _ & Hm).
  - reflexivity.
  - apply visit_turns_run.
  - split_and!; [done|vm_compute; reflexivity|done|done|].
    rewrite <- Ha. symmetry. apply Hm; [apply new_table_rep|]. by apply (run_check_sound 200).
Defined.
