(* ===== verification/Heap.v ===== *)
(** * Heap: typed memory, and the C library's [rand]

    A [heap A] is the part of the memory that holds the objects of one C type,
    obtained from [my_malloc] and released by [my_free]; a pointer is an
    [option loc], [None] being [NULL]. *)

From stdpp Require Import base gmap list.
From Stdlib Require Import ZArith Lia.
From S2P Require Import Prelude Mylib.
Local Open Scope Z_scope.

Definition loc := positive.

Record heap (A : Type) := Heap { cells : gmap loc A; next_loc : loc }.
Arguments Heap {A}.
Arguments cells {A}.
Arguments next_loc {A}.

Definition empty_heap {A} : heap A := Heap ∅ 1%positive.

Section heap.
Context {A : Type}.
Implicit Types (h : heap A) (p : option loc) (l : loc) (a : A).

Definition heap_set_at l a h : heap A := Heap (<[l := a]> (cells h)) (next_loc h).

(** [my_malloc(size)], the block being given the value [a] (whose fields may
    be uninitialised). *)
Definition heap_new `{Allocator} (size : Z) a : M (heap A) (option loc) :=
  l ← mgets next_loc;
  cq_malloc size ();;
  mmodify (λ h, Heap (<[l := a]> (cells h)) (Pos.succ (next_loc h)));;
  mret (Some l).

(** [*p] *)
Definition heap_get p : M (heap A) A := λ h,
  match p with
  | None => (Stop (Undefined NullDeref), h)
  | Some l => match cells h !! l with
              | None => (Stop (Undefined UseAfterFree), h)
              | Some a => (Ok a, h)
              end
  end.

(** [*p = f( *p )] *)
Definition heap_update p (f : A → A) : M (heap A) () :=
  a ← heap_get p;
  match p with None => mret () | Some l => mmodify (heap_set_at l (f a)) end.

(** [my_free(p)]: of [NULL] nothing, twice a fault. *)
Definition heap_free p : M (heap A) () := λ h,
  match p with
  | None => (Ok (), h)
  | Some l => match cells h !! l with
              | None => (Stop (Undefined UseAfterFree), h)
              | Some _ => (Ok (), Heap (delete l (cells h)) (next_loc h))
              end
  end.

(** Every allocated block is below the next one. *)
Definition heap_wf h : Prop := ∀ l, is_Some (cells h !! l) → (l < next_loc h)%positive.

Lemma heap_fresh h : heap_wf h → cells h !! next_loc h = None.
Proof.
  intros Hwf. destruct (cells h !! next_loc h) eqn:Hl; [|done].
  pose proof (Hwf (next_loc h) ltac:(by eexists)). lia.
Qed.

Lemma heap_new_ok `{Allocator} size a h :
  malloc_ok (u64 size) = true →
  heap_new size a h =
    (Ok (Some (next_loc h)), Heap (<[next_loc h := a]> (cells h)) (Pos.succ (next_loc h))).
Proof. intros Hok. unfold heap_new, cq_malloc. rewrite Hok. done. Qed.

Lemma heap_new_wf h a :
  heap_wf h → heap_wf (Heap (<[next_loc h := a]> (cells h)) (Pos.succ (next_loc h))).
Proof.
  intros Hwf l Hl. cbn in *. destruct (decide (l = next_loc h)) as [->|Hne]; [lia|].
  rewrite lookup_insert_ne in Hl by done. specialize (Hwf l Hl). lia.
Qed.

Lemma heap_get_ok l a h : cells h !! l = Some a → heap_get (Some l) h = (Ok a, h).
Proof. intros Hl. unfold heap_get. by rewrite Hl. Qed.

Lemma heap_update_ok l a f h :
  cells h !! l = Some a → heap_update (Some l) f h = (Ok (), heap_set_at l (f a) h).
Proof. intros Hl. unfold heap_update. by erewrite bind_ok by by apply heap_get_ok. Qed.

Lemma heap_set_at_wf l a h : is_Some (cells h !! l) → heap_wf h → heap_wf (heap_set_at l a h).
Proof.
  intros Hl Hwf l' Hl'. cbn in *. destruct (decide (l' = l)) as [->|Hne]; [by apply Hwf|].
  rewrite lookup_insert_ne in Hl' by done. by apply Hwf.
Qed.

Lemma heap_free_ok l h : is_Some (cells h !! l) →
  heap_free (Some l) h = (Ok (), Heap (delete l (cells h)) (next_loc h)).
Proof. intros [a Hl]. unfold heap_free. by rewrite Hl. Qed.

Lemma heap_free_wf l h : heap_wf h → heap_wf (Heap (delete l (cells h)) (next_loc h)).
Proof.
  intros Hwf l' Hl'. cbn in *. destruct (decide (l' = l)) as [->|Hne].
  - rewrite lookup_delete_eq in Hl'. by destruct Hl'.
  - rewrite lookup_delete_ne in Hl' by done. by apply Hwf.
Qed.

Lemma empty_heap_wf : heap_wf (empty_heap (A := A)).
Proof. intros l [a Hl]. done. Qed.
End heap.

#[export] Hint Resolve heap_new_wf heap_set_at_wf heap_free_wf empty_heap_wf : checkq.

(** Read a field that may not have been initialised. *)
Definition initialised {S A} (v : option A) : M S A :=
  match v with Some a => mret a | None => mstop (Undefined Uninitialized) end.

(** ** Static pointers to an object of the module's own *)

Inductive static_ptr (A : Type) := SNull | SPtr (a : A) | SFreed.
Arguments SNull {A}.
Arguments SPtr {A} a.
Arguments SFreed {A}.

Definition static_get {S A} (p : static_ptr A) : M S A :=
  match p with
  | SNull => mstop (Undefined NullDeref)
  | SPtr a => mret a
  | SFreed => mstop (Undefined UseAfterFree)
  end.

(** ** [rand()]

    The numbers come from a source that the program does not choose; the state
    is how many have been drawn. *)

Definition RAND_MAX : Z := INT_MAX.

Class RandSource := {
  rand_at : nat → Z;
  rand_range n : 0 ≤ rand_at n ≤ RAND_MAX;
}.

Definition rand `{RandSource} : M nat Z := λ n, (Ok (rand_at n), S n).

(** [rand() % n] for a [size_t n] *)
Definition rand_mod `{RandSource} (n : Z) : M nat Z :=
  r ← rand; if n =? 0 then mstop (Undefined DivByZero) else mret (r mod n).

Lemma rand_mod_ok `{RandSource} n k : 0 < n →
  rand_mod n k = (Ok (rand_at k mod n), S k).
Proof.
  intros Hn. unfold rand_mod. erewrite bind_ok by done.
  by rewrite (proj2 (Z.eqb_neq n 0)) by lia.
Qed.

(** A source that counts. *)
Program Definition counting_rand : RandSource := {|
  rand_at n := Z.of_nat n mod 1000;
|}.
Next Obligation. intros n. unfold RAND_MAX, INT_MAX. Z.div_mod_to_equations. lia. Qed.
