(* ===== verification/Command.v ===== *)
(** * Command: the command lists and the command bucket of src/src/command

    [cq_command.c]: a doubly linked list of commands between two sentinel
    nodes, and the bucket of command lists the engine threads draw from.  The
    nodes live on a heap, so that links, aliasing between lists and releases are
    the code's; [dlist] relates a list object to the commands it holds. *)

From stdpp Require Import base gmap list strings.
From Stdlib Require Import ZArith Lia.
From S2P Require Import Prelude Mylib Vector Heap.
Local Open Scope Z_scope.

Inductive cmd_type_t :=
  | INSERT | DELETE | UPDATE | SELECT | CREATE | ALTER_ADD | ALTER_DROP | DROP.

#[export] Instance cmd_type_eq_dec : EqDecision cmd_type_t.
Proof. solve_decision. Defined.

(** [struct cmd], a field being [None] until it is written. *)
Record cmd_t := Cmd {
  type : option cmd_type_t;
  next : option (option loc);
  prev : option (option loc);
}.

Record cmd_list_t := CmdList { head : option loc; tail : option loc; ncmd : Z }.

(** The heap of the module, and its static pointer [cq_cmd_bucket]. *)
Record cmd_state := CmdState {
  cmds : heap cmd_t;
  cmd_lists : heap cmd_list_t;
  cq_cmd_bucket : static_ptr (vector (option loc));
}.

Section command.
Context `{Allocator} `{RandSource}.
Implicit Types (pcmd pcmd_list : option loc).

Definition set_type t (c : cmd_t) : cmd_t := Cmd (Some t) (next c) (prev c).
Definition set_next p (c : cmd_t) : cmd_t := Cmd (type c) (Some p) (prev c).
Definition set_prev p (c : cmd_t) : cmd_t := Cmd (type c) (next c) (Some p).
Definition incr_ncmd (l : cmd_list_t) : cmd_list_t :=
  CmdList (head l) (tail l) (ncmd l + 1).

Definition on_cmds {A} : M (heap cmd_t) A → M cmd_state A :=
  zoom cmds (λ h s, CmdState h (cmd_lists s) (cq_cmd_bucket s)).
Definition on_cmd_lists {A} : M (heap cmd_list_t) A → M cmd_state A :=
  zoom cmd_lists (λ h s, CmdState (cmds s) h (cq_cmd_bucket s)).
(** [cq_cmd_bucket->cmd_lists] *)
Definition on_bucket {A} (m : M (vector (option loc)) A) : M cmd_state A :=
  s ← mget;
  v ← static_get (cq_cmd_bucket s);
  let '(r, v') := m v in
  mput (CmdState (cmds s) (cmd_lists s) (SPtr v'));;
  mlift r.

Definition sizeof_cmd_t : Z := 24.
Definition sizeof_cmd_list_t : Z := 24.

Definition uninit_cmd : cmd_t := Cmd None None None.

(** [p->next] and [p->prev] *)
Definition get_next pcmd : M (heap cmd_t) (option loc) :=
  c ← heap_get pcmd; initialised (next c).
Definition get_prev pcmd : M (heap cmd_t) (option loc) :=
  c ← heap_get pcmd; initialised (prev c).

Definition cmd_init (t : cmd_type_t) : M (heap cmd_t) (option loc) :=
  pcmd ← heap_new sizeof_cmd_t uninit_cmd;
  heap_update pcmd (set_type t);;
  mret pcmd.

Definition cmd_destroy pcmd : M (heap cmd_t) () := heap_free pcmd.

Definition set_head p (l : cmd_list_t) : cmd_list_t := CmdList p (tail l) (ncmd l).
Definition set_tail p (l : cmd_list_t) : cmd_list_t := CmdList (head l) p (ncmd l).
Definition set_ncmd n (l : cmd_list_t) : cmd_list_t := CmdList (head l) (tail l) n.

Definition cmd_list_init : M cmd_state (option loc) :=
  pcmd_list ← on_cmd_lists (heap_new sizeof_cmd_list_t (CmdList None None 0));
  h ← on_cmds (heap_new sizeof_cmd_t uninit_cmd);
  on_cmd_lists (heap_update pcmd_list (set_head h));;
  t ← on_cmds (heap_new sizeof_cmd_t uninit_cmd);
  on_cmd_lists (heap_update pcmd_list (set_tail t));;
  on_cmd_lists (heap_update pcmd_list (set_ncmd 0));;
  on_cmds (heap_update h (set_prev None));;
  on_cmds (heap_update h (set_next t));;
  on_cmds (heap_update t (set_prev h));;
  on_cmds (heap_update t (set_next None));;
  mret pcmd_list.

(** The loop of [cmd_list_destroy], which leaves with the last node. *)
Definition cmd_list_destroy_step pcmd : M (heap cmd_t) (option loc + option loc) :=
  n ← get_next pcmd;
  match n with
  | None => mret (inr pcmd)
  | Some _ => cmd_destroy pcmd;; mret (inl n)
  end.

Definition cmd_list_destroy pcmd_list : M cmd_state () :=
  l ← on_cmd_lists (heap_get pcmd_list);
  pcmd ← on_cmds (mloop P64 cmd_list_destroy_step (head l));
  on_cmds (cmd_destroy pcmd);;
  on_cmd_lists (heap_free pcmd_list).

(** [pcmd_list->ncmd++] *)
Definition ncmd_incr pcmd_list : M (heap cmd_list_t) () :=
  l ← heap_get pcmd_list;
  if INT_MAX <=? ncmd l then mstop (Undefined SignedOverflow)
  else heap_update pcmd_list incr_ncmd.

Definition cmd_list_add pcmd_list pcmd : M cmd_state ret_t :=
  l ← on_cmd_lists (heap_get pcmd_list);
  let ptail := tail l in
  p ← on_cmds (get_prev ptail);
  on_cmds (heap_update pcmd (set_prev p));;
  on_cmds (heap_update pcmd (set_next ptail));;
  p ← on_cmds (get_prev ptail);
  on_cmds (heap_update p (set_next pcmd));;
  on_cmds (heap_update ptail (set_prev pcmd));;
  on_cmd_lists (ncmd_incr pcmd_list);;
  mret RET_SUCCEED.

Definition cmd_list_add_head pcmd_list pcmd : M cmd_state ret_t :=
  l ← on_cmd_lists (heap_get pcmd_list);
  let phead := head l in
  on_cmds (heap_update pcmd (set_prev phead));;
  n ← on_cmds (get_next phead);
  on_cmds (heap_update pcmd (set_next n));;
  n ← on_cmds (get_next phead);
  on_cmds (heap_update n (set_prev pcmd));;
  on_cmds (heap_update phead (set_next pcmd));;
  on_cmd_lists (ncmd_incr pcmd_list);;
  mret RET_SUCCEED.

Definition get_first_cmd pcmd_list : M cmd_state (option loc) :=
  l ← on_cmd_lists (heap_get pcmd_list);
  on_cmds (get_next (head l)).

Definition cmdtype_toString (t : cmd_type_t) : string :=
  match t with
  | INSERT => "INSERT"
  | DELETE => "DELETE"
  | UPDATE => "UPDATE"
  | SELECT => "SELECT"
  | ALTER_ADD => "ALTER_ADD"
  | ALTER_DROP => "ALTER_DROP"
  | CREATE | DROP => "command not defined!"
  end.

Definition cmd_toString pcmd : M (heap cmd_t) string :=
  c ← heap_get pcmd;
  t ← initialised (type c);
  mret (cmdtype_toString t).

Definition sizeof_cmd_bucket_t : Z := 8.

Definition set_bucket p : M cmd_state () :=
  mmodify (λ s, CmdState (cmds s) (cmd_lists s) p).

Definition cmd_bucket_init : M cmd_state () :=
  pure_state (cq_malloc sizeof_cmd_bucket_t ());;
  v ← pure_state vector_alloc;
  set_bucket (SPtr v).

(** The free callback of the bucket's vector is [cmd_list_destroy]. *)
Definition cmd_bucket_destroy : M cmd_state () :=
  freed ← on_bucket vector_destroy;
  foldr (λ l k, cmd_list_destroy l;; k) (mret ()) freed;;
  set_bucket SFreed.

Definition cmd_bucket_add pcmd_list : M cmd_state ret_t :=
  on_bucket (vector_push_back pcmd_list).

Definition get_random_cmd_list : M (cmd_state * nat) (option loc) :=
  empty ← on_fst (on_bucket vector_isempty);
  if (empty : bool) then mret None else
    size ← on_fst (on_bucket vector_size);
    r ← on_snd (rand_mod size);
    let cmd_index := i32 r in
    p ← on_fst (on_bucket (vector_get (u64 cmd_index)));
    mret (mjoin p).
End command.

(** ** Linked segments *)

Definition first_or (L : list loc) (q : option loc) : option loc :=
  match L with [] => q | a :: _ => Some a end.
Definition last_or (p : option loc) (L : list loc) : option loc :=
  match list.last L with None => p | Some a => Some a end.

(** The nodes [L] linked both ways, [p] before them and [q] behind. *)
Fixpoint seg (h : heap cmd_t) (p : option loc) (L : list loc) (q : option loc) : Prop :=
  match L with
  | [] => True
  | a :: L' => ∃ c, cells h !! a = Some c ∧ prev c = Some p ∧ next c = Some (first_or L' q) ∧
                    seg h (Some a) L' q
  end.

Section seg.
Implicit Types (h : heap cmd_t) (L : list loc) (p q : option loc) (a b n : loc).

Lemma last_or_cons p a L : last_or p (a :: L) = last_or (Some a) L.
Proof. unfold last_or. rewrite last_cons. by destruct (list.last L). Qed.

Lemma seg_app h p L1 L2 q :
  seg h p (L1 ++ L2) q ↔ seg h p L1 (first_or L2 q) ∧ seg h (last_or p L1) L2 q.
Proof.
  revert p. induction L1 as [|a L1 IH]; intros p; [by split; [|intros [_ ?]]|].
  rewrite last_or_cons. cbn [app seg].
  assert (first_or (L1 ++ L2) q = first_or L1 (first_or L2 q)) as -> by (by destruct L1).
  setoid_rewrite IH. split.
  - intros (c & Hc & Hp & Hn & Hs1 & Hs2). split; [by exists c|done].
  - intros [(c & Hc & Hp & Hn & Hs1) Hs2]. by exists c.
Qed.

Lemma seg_frame h h' p L q :
  (∀ a, a ∈ L → cells h' !! a = cells h !! a) → seg h p L q → seg h' p L q.
Proof.
  revert p. induction L as [|a L IH]; intros p Hag; [done|].
  intros (c & Hc & Hp & Hn & Hseg). exists c.
  rewrite Hag by (by left). split_and!; [done..|].
  apply IH; [|done]. intros b Hb. apply Hag. by right.
Qed.

Lemma seg_lookup h p L q a : a ∈ L → seg h p L q → is_Some (cells h !! a).
Proof.
  revert p. induction L as [|b L IH]; intros p; [by intros ?%not_elem_of_nil|].
  intros [->|Hin]%elem_of_cons (c & Hc & _ & _ & Hseg); [by exists c|by eapply IH].
Qed.

(** Only the last [next] depends on what follows. *)
Lemma seg_last h p L a q : seg h p (L ++ [a]) q →
  ∃ c, cells h !! a = Some c ∧ next c = Some q ∧ prev c = Some (last_or p L).
Proof. intros (_ & c & Hc & Hp & Hn & _)%seg_app. by exists c. Qed.

Lemma seg_relink h h' p L a c q q' :
  NoDup (L ++ [a]) → seg h p (L ++ [a]) q →
  (∀ b, b ∈ L → cells h' !! b = cells h !! b) →
  cells h !! a = Some c → cells h' !! a = Some (set_next q' c) →
  seg h' p (L ++ [a]) q'.
Proof.
  intros Hnd (Hs1 & c1 & Hc1 & Hp & Hn & _)%seg_app Hag Hc Hc'.
  rewrite Hc in Hc1. injection Hc1 as <-.
  apply seg_app. split; [by eapply seg_frame|].
  eexists. split; [exact Hc'|]. done.
Qed.

(** The node [n] put between two neighbours [a] and [b]. *)
Lemma seg_insert h h' A a b B n (cn ca cb : cmd_t) :
  NoDup (A ++ [a] ++ b :: B) → seg h None (A ++ [a] ++ b :: B) None →
  cells h !! a = Some ca → cells h !! b = Some cb →
  cells h' !! a = Some (set_next (Some n) ca) →
  cells h' !! b = Some (set_prev (Some n) cb) →
  cells h' !! n = Some cn → prev cn = Some (Some a) → next cn = Some (Some b) →
  (∀ x, x ∈ A ++ B → cells h' !! x = cells h !! x) →
  seg h' None (A ++ [a] ++ n :: b :: B) None.
Proof.
  intros Hnd Hseg Ha Hb Ha' Hb' Hn' Hpn Hnn Hag.
  rewrite app_assoc in Hseg, Hnd |- *. apply seg_app in Hseg as [Hs1 Hs2].
  apply seg_app. cbn [first_or] in *. split.
  - eapply (seg_relink h h' None A a ca (Some b)); try done.
    + by apply NoDup_app in Hnd as (? & _).
    + intros x Hx. apply Hag. apply elem_of_app. by left.
  - assert (last_or None (A ++ [a]) = Some a) as Hl by (unfold last_or; by rewrite last_snoc).
    rewrite Hl in *. cbn [seg first_or] in *. exists cn. split_and!; [done..|].
    destruct Hs2 as (c & Hc & Hp & Hn & Hs2). rewrite Hb in Hc. injection Hc as <-.
    eexists. split; [exact Hb'|]. split_and!; [done|done|].
    eapply seg_frame; [|done]. intros x Hx. apply Hag. apply elem_of_app. by right.
Qed.
End seg.

(** ** The representation of all the lists of the program *)

(** The list object [l] holds the nodes [ns], of types [ts], between sentinels. *)
Record clist (s : cmd_state) (l hd tl : loc) (ns : list loc) (ts : list cmd_type_t) : Prop := {
  cl_object : cells (cmd_lists s) !! l =
    Some (CmdList (Some hd) (Some tl) (Z.of_nat (length ns)));
  cl_nodup : NoDup (hd :: ns ++ [tl]);
  cl_seg : seg (cmds s) None (hd :: ns ++ [tl]) None;
  cl_types : Forall2 (λ a t, type <$> cells (cmds s) !! a = Some (Some t)) ns ts;
  cl_count : Z.of_nat (length ns) ≤ INT_MAX;
}.

(** [own] gives the nodes of each list, sentinels included. *)
Record crep_in (own : gmap loc (list loc)) (s : cmd_state)
    (lists : gmap loc (list cmd_type_t)) (detached : gmap loc cmd_type_t) : Prop := {
  cr_lists l : is_Some (cells (cmd_lists s) !! l) → is_Some (lists !! l);
  cr_list l ts : lists !! l = Some ts →
    ∃ hd ns tl, own !! l = Some (hd :: ns ++ [tl]) ∧ clist s l hd tl ns ts;
  cr_disjoint l1 l2 L1 L2 : own !! l1 = Some L1 → own !! l2 = Some L2 → l1 ≠ l2 → L1 ## L2;
  cr_detached n t : detached !! n = Some t →
    type <$> cells (cmds s) !! n = Some (Some t) ∧
    ∀ l L, own !! l = Some L → n ∉ L;
  cr_nodes a : is_Some (cells (cmds s) !! a) →
    is_Some (detached !! a) ∨ ∃ l L, own !! l = Some L ∧ a ∈ L;
  cr_own l : is_Some (own !! l) → is_Some (lists !! l);
  cr_wf_cmds : heap_wf (cmds s);
  cr_wf_lists : heap_wf (cmd_lists s);
}.

Definition crep s lists detached : Prop := ∃ own, crep_in own s lists detached.

Section operations.
Context `{Allocator} `{RandSource}.
Implicit Types (s : cmd_state) (l n : loc) (ns : list loc) (ts : list cmd_type_t).

Lemma on_cmds_ok {A} (m : M (heap cmd_t) A) s a h :
  m (cmds s) = (Ok a, h) → on_cmds m s = (Ok a, CmdState h (cmd_lists s) (cq_cmd_bucket s)).
Proof. intros Hm. unfold on_cmds, on_cmd_lists. by erewrite zoom_ok by exact Hm. Qed.
Lemma on_cmd_lists_ok {A} (m : M (heap cmd_list_t) A) s a h :
  m (cmd_lists s) = (Ok a, h) →
  on_cmd_lists m s = (Ok a, CmdState (cmds s) h (cq_cmd_bucket s)).
Proof. intros Hm. unfold on_cmds, on_cmd_lists. by erewrite zoom_ok by exact Hm. Qed.

Lemma get_next_ok (h : heap cmd_t) l c p :
  cells h !! l = Some c → next c = Some p → get_next (Some l) h = (Ok p, h).
Proof.
  intros Hl Hn. unfold get_next. erewrite bind_ok by by apply heap_get_ok. by rewrite Hn.
Qed.
Lemma get_prev_ok (h : heap cmd_t) l c p :
  cells h !! l = Some c → prev c = Some p → get_prev (Some l) h = (Ok p, h).
Proof.
  intros Hl Hn. unfold get_prev. erewrite bind_ok by by apply heap_get_ok. by rewrite Hn.
Qed.

Lemma ncmd_incr_ok (h : heap cmd_list_t) l o :
  cells h !! l = Some o → ncmd o < INT_MAX →
  ncmd_incr (Some l) h = (Ok (), heap_set_at l (incr_ncmd o) h).
Proof.
  intros Hl Ho. unfold ncmd_incr. erewrite bind_ok by by apply heap_get_ok.
  zbool. by apply heap_update_ok.
Qed.

(** [s'] is [s] with the node [n] linked in between [a] and [b] of the list [l]. *)
Record spliced (a b n l : loc) s s' : Prop := {
  sp_a c : cells (cmds s) !! a = Some c → cells (cmds s') !! a = Some (set_next (Some n) c);
  sp_b c : cells (cmds s) !! b = Some c → cells (cmds s') !! b = Some (set_prev (Some n) c);
  sp_n c : cells (cmds s) !! n = Some c →
    cells (cmds s') !! n = Some (set_next (Some b) (set_prev (Some a) c));
  sp_frame x : x ≠ a → x ≠ b → x ≠ n → cells (cmds s') !! x = cells (cmds s) !! x;
  sp_next : next_loc (cmds s') = next_loc (cmds s);
  sp_list o : cells (cmd_lists s) !! l = Some o →
    cmd_lists s' = heap_set_at l (incr_ncmd o) (cmd_lists s);
  sp_bucket : cq_cmd_bucket s' = cq_cmd_bucket s;
}.

Lemma add_splices s l hd tl ns ts A a n cn :
  clist s l hd tl ns ts → hd :: ns = A ++ [a] →
  cells (cmds s) !! n = Some cn → n ∉ hd :: ns ++ [tl] →
  Z.of_nat (length ns) < INT_MAX →
  ∃ s', cmd_list_add (Some l) (Some n) s = (Ok RET_SUCCEED, s') ∧ spliced a tl n l s s'.
Proof.
  intros [Ho Hnd Hseg _ _] HA Hn Hni Hlen.
  change (hd :: ns ++ [tl]) with ((hd :: ns) ++ [tl]) in *. rewrite HA in *.
  destruct (seg_last _ _ _ _ _ Hseg) as (ct & Ht & Htn & Htp).
  replace (last_or None (A ++ [a])) with (Some a) in Htp
    by (unfold last_or; by rewrite last_snoc).
  assert (a ∈ (A ++ [a]) ++ [tl]) as Hain by set_solver.
  destruct (seg_lookup _ _ _ _ _ Hain Hseg) as [ca Ha].
  assert (a ≠ tl ∧ n ≠ a ∧ n ≠ tl) as (Hat & Hna & Hnt).
  { apply NoDup_app in Hnd as (_ & Hnd & _). set_solver. }
  eexists. split.
  - unfold cmd_list_add.
    erewrite bind_ok by (by apply on_cmd_lists_ok, heap_get_ok). cbn [tail].
    erewrite bind_ok by (apply on_cmds_ok; by eapply get_prev_ok).
    erewrite bind_ok by (apply on_cmds_ok; by eapply heap_update_ok).
    erewrite bind_ok by (apply on_cmds_ok, heap_update_ok; cbn; by simplify_map_eq).
    erewrite bind_ok by (apply on_cmds_ok; eapply get_prev_ok; [cbn; by simplify_map_eq|done]).
    erewrite bind_ok by (apply on_cmds_ok, heap_update_ok; cbn; by simplify_map_eq).
    erewrite bind_ok by (apply on_cmds_ok, heap_update_ok; cbn; by simplify_map_eq).
    erewrite bind_ok by (by eapply on_cmd_lists_ok, ncmd_incr_ok). done.
  - split; cbn; try done.
    + intros c. rewrite Ha. intros [= <-]. by simplify_map_eq.
    + intros c. rewrite Ht. intros [= <-]. by simplify_map_eq.
    + intros c. rewrite Hn. intros [= <-]. by simplify_map_eq.
    + intros x Hx1 Hx2 Hx3. by simplify_map_eq.
    + intros o. rewrite Ho. by intros [= <-].
Qed.

Lemma add_head_splices s l hd tl ns ts b B n cn :
  clist s l hd tl ns ts → ns ++ [tl] = b :: B →
  cells (cmds s) !! n = Some cn → n ∉ hd :: ns ++ [tl] →
  Z.of_nat (length ns) < INT_MAX →
  ∃ s', cmd_list_add_head (Some l) (Some n) s = (Ok RET_SUCCEED, s') ∧
    spliced hd b n l s s'.
Proof.
  intros [Ho Hnd Hseg _ _] HB Hn Hni Hlen. rewrite HB in *.
  destruct Hseg as (ch & Hh & _ & Hhn & cb & Hb & Hbp & _).
  assert (hd ≠ b ∧ n ≠ hd ∧ n ≠ b) as (Hhb & Hnh & Hnb).
  { apply NoDup_cons in Hnd as (Hnd & _). set_solver. }
  eexists. split.
  - unfold cmd_list_add_head.
    erewrite bind_ok by (by apply on_cmd_lists_ok, heap_get_ok). cbn [head].
    erewrite bind_ok by (apply on_cmds_ok; by eapply heap_update_ok).
    erewrite bind_ok by (apply on_cmds_ok; eapply get_next_ok; [cbn; by simplify_map_eq|done]).
    erewrite bind_ok by (apply on_cmds_ok, heap_update_ok; cbn; by simplify_map_eq).
    erewrite bind_ok by (apply on_cmds_ok; eapply get_next_ok; [cbn; by simplify_map_eq|done]).
    cbn [first_or].
    erewrite bind_ok by (apply on_cmds_ok, heap_update_ok; cbn; by simplify_map_eq).
    erewrite bind_ok by (apply on_cmds_ok, heap_update_ok; cbn; by simplify_map_eq).
    erewrite bind_ok by (by eapply on_cmd_lists_ok, ncmd_incr_ok). done.
  - split; cbn; try done.
    + intros c. rewrite Hh. intros [= <-]. by simplify_map_eq.
    + intros c. rewrite Hb. intros [= <-]. by simplify_map_eq.
    + intros c. rewrite Hn. intros [= <-]. by simplify_map_eq.
    + intros x Hx1 Hx2 Hx3. by simplify_map_eq.
    + intros o. rewrite Ho. by intros [= <-].
Qed.

(** Every command keeps its type. *)
Lemma spliced_type a b n l s s' x t : spliced a b n l s s' →
  type <$> cells (cmds s) !! x = Some t → type <$> cells (cmds s') !! x = Some t.
Proof.
  intros Hsp. destruct (cells (cmds s) !! x) as [c|] eqn:Hx; [|done].
  destruct (decide (x = a)) as [->|Ha]; [by rewrite (sp_a _ _ _ _ _ _ Hsp _ Hx)|].
  destruct (decide (x = b)) as [->|Hb]; [by rewrite (sp_b _ _ _ _ _ _ Hsp _ Hx)|].
  destruct (decide (x = n)) as [->|Hn]; [by rewrite (sp_n _ _ _ _ _ _ Hsp _ Hx)|].
  by rewrite (sp_frame _ _ _ _ _ _ Hsp), Hx.
Qed.

Lemma clist_frame s s' l hd tl ns ts :
  clist s l hd tl ns ts →
  (∀ x, x ∈ hd :: ns ++ [tl] → cells (cmds s') !! x = cells (cmds s) !! x) →
  cells (cmd_lists s') !! l = cells (cmd_lists s) !! l →
  clist s' l hd tl ns ts.
Proof.
  intros [Ho Hnd Hseg Hty Hcnt] Hag Hl. split; [by rewrite Hl|done| | |done].
  - by eapply seg_frame.
  - apply Forall2_same_length_lookup in Hty as [Hlen Hty].
    apply Forall2_same_length_lookup. split; [done|]. intros i x t Hx Ht.
    rewrite Hag; [by eapply Hty|]. apply list_elem_of_lookup_2 in Hx. set_solver.
Qed.

Lemma splice_clist s s' l hd tl ns ts A a b B n cn ns' ts' :
  clist s l hd tl ns ts → Z.of_nat (length ns) < INT_MAX →
  hd :: ns ++ [tl] = A ++ [a] ++ b :: B →
  cells (cmds s) !! n = Some cn → n ∉ hd :: ns ++ [tl] → spliced a b n l s s' →
  hd :: ns' ++ [tl] = A ++ [a] ++ n :: b :: B → length ns' = S (length ns) →
  Forall2 (λ x t, type <$> cells (cmds s) !! x = Some (Some t)) ns' ts' →
  clist s' l hd tl ns' ts'.
Proof.
  intros [Ho Hnd Hseg _ _] Hcnt HL Hn Hni Hsp HL' Hlen Hty. rewrite HL in *.
  assert (a ∈ A ++ [a] ++ b :: B) as Ha by set_solver.
  assert (b ∈ A ++ [a] ++ b :: B) as Hb by set_solver.
  apply (seg_lookup _ _ _ _ _ Ha) in Hseg as Hca. destruct Hca as [ca Hca].
  apply (seg_lookup _ _ _ _ _ Hb) in Hseg as Hcb. destruct Hcb as [cb Hcb].
  split.
  - rewrite (sp_list _ _ _ _ _ _ Hsp _ Ho). cbn. rewrite lookup_insert_eq.
    unfold incr_ncmd. cbn. do 2 f_equal. lia.
  - rewrite HL'. rewrite app_assoc, <- Permutation_middle, <- app_assoc. by constructor.
  - rewrite HL'. eapply (seg_insert (cmds s)); try done.
    + by apply (sp_a _ _ _ _ _ _ Hsp).
    + by apply (sp_b _ _ _ _ _ _ Hsp).
    + by apply (sp_n _ _ _ _ _ _ Hsp).
    + done.
    + done.
    + intros x Hx. apply (sp_frame _ _ _ _ _ _ Hsp).
      * apply NoDup_app in Hnd as (_ & Hnd & Hnd2). cbn in Hnd2.
        apply NoDup_cons in Hnd2 as [Hnd2 _]. intros ->. set_solver.
      * apply NoDup_app in Hnd as (_ & Hnd & Hnd2). cbn in Hnd2.
        apply NoDup_cons in Hnd2 as [_ Hnd2]. apply NoDup_cons in Hnd2 as [Hnd2 _].
        intros ->. set_solver.
      * intros ->. set_solver.
  - eapply Forall2_impl; [exact Hty|]. intros x t. by eapply spliced_type.
  - lia.
Qed.

Lemma detached_node own s lists detached n t :
  crep_in own s lists detached → detached !! n = Some t →
  ∃ cn, cells (cmds s) !! n = Some cn ∧ type cn = Some t.
Proof.
  intros R Hn. destruct (cr_detached _ _ _ _ R n t Hn) as [Hty _].
  apply fmap_Some in Hty as (cn & Hcn & Hty). by exists cn.
Qed.

(** The representation after a splice: the other lists, and the other detached
    commands, are left alone. *)
Section splice.
Context (own : gmap loc (list loc)) (s s' : cmd_state)
  (lists : gmap loc (list cmd_type_t)) (detached : gmap loc cmd_type_t)
  (l hd tl : loc) (ns : list loc) (ts : list cmd_type_t)
  (a b n : loc) (t : cmd_type_t) (ns' : list loc) (ts' : list cmd_type_t).
Let L := hd :: ns ++ [tl].
Let L' := hd :: ns' ++ [tl].
Hypotheses (R : crep_in own s lists detached) (Hown : own !! l = Some L)
  (Hl : lists !! l = Some ts) (Hn : detached !! n = Some t) (Ha : a ∈ L) (Hb : b ∈ L)
  (Hsp : spliced a b n l s s') (HL : L' ≡ₚ n :: L) (Hcl : clist s' l hd tl ns' ts').

Lemma splice_clist_l : clist s l hd tl ns ts.
Proof using Type*.
  destruct (cr_list _ _ _ _ R l ts Hl) as (hd0 & ns0 & tl0 & Hown0 & Hc).
  rewrite Hown in Hown0. injection Hown0 as <- Happ. by apply app_inj_tail in Happ as [<- <-].
Qed.

Lemma splice_new_node l1 L1 : own !! l1 = Some L1 → n ∉ L1.
Proof using Type*. apply (cr_detached _ _ _ _ R n t Hn). Qed.

Lemma splice_other_nodes l1 L1 : l1 ≠ l → own !! l1 = Some L1 →
  ∀ x, x ∈ L1 → cells (cmds s') !! x = cells (cmds s) !! x.
Proof using Type*.
  intros Hne H1 x Hx. pose proof (cr_disjoint _ _ _ _ R _ _ _ _ H1 Hown Hne).
  pose proof (splice_new_node _ _ H1). apply (sp_frame _ _ _ _ _ _ Hsp); set_solver.
Qed.

Lemma splice_other_objects l1 : l1 ≠ l →
  cells (cmd_lists s') !! l1 = cells (cmd_lists s) !! l1.
Proof using Type*.
  intros Hne. destruct splice_clist_l as [Ho _ _ _ _].
  rewrite (sp_list _ _ _ _ _ _ Hsp _ Ho). cbn. by simplify_map_eq.
Qed.

Lemma splice_allocated x :
  is_Some (cells (cmds s') !! x) → x = n ∨ is_Some (cells (cmds s) !! x).
Proof using Type*.
  intros Hx. destruct (decide (x = n)) as [->|Hxn]; [by left|right].
  destruct splice_clist_l as [_ _ Hseg _ _].
  destruct (decide (x ∈ L)) as [Hin|Hnin]; [by eapply seg_lookup|].
  by rewrite (sp_frame _ _ _ _ _ _ Hsp) in Hx by set_solver.
Qed.

Lemma splice_cr_list l1 ts1 : <[l := ts']> lists !! l1 = Some ts1 →
  ∃ hd ns tl, <[l := L']> own !! l1 = Some (hd :: ns ++ [tl]) ∧ clist s' l1 hd tl ns ts1.
Proof using Type*.
  intros Hl1. destruct (decide (l1 = l)) as [->|Hne]; simplify_map_eq.
  { by eexists _, _, _. }
  destruct (cr_list _ _ _ _ R l1 ts1 Hl1) as (hd1 & ns1 & tl1 & Hown1 & Hc1).
  exists hd1, ns1, tl1. split; [by simplify_map_eq|].
  eapply clist_frame; [exact Hc1| |by apply splice_other_objects].
  by apply (splice_other_nodes l1).
Qed.

Lemma splice_cr_disjoint l1 l2 L1 L2 :
  <[l := L']> own !! l1 = Some L1 → <[l := L']> own !! l2 = Some L2 → l1 ≠ l2 → L1 ## L2.
Proof using Type*.
  assert (∀ l2 L2, own !! l2 = Some L2 → l2 ≠ l → L' ## L2) as Hd.
  { intros l3 L3 H3 Hne x. rewrite HL.
    pose proof (cr_disjoint _ _ _ _ R _ _ _ _ H3 Hown Hne).
    pose proof (splice_new_node _ _ H3). set_solver. }
  intros H1 H2 Hne.
  destruct (decide (l1 = l)) as [->|H1l], (decide (l2 = l)) as [->|H2l]; simplify_map_eq.
  - by eapply Hd.
  - intros x Hx1 Hx2. by eapply Hd.
  - by eapply (cr_disjoint _ _ _ _ R l1 l2).
Qed.

Lemma splice_cr_detached n1 t1 : delete n detached !! n1 = Some t1 →
  type <$> cells (cmds s') !! n1 = Some (Some t1) ∧
  ∀ l1 L1, <[l := L']> own !! l1 = Some L1 → n1 ∉ L1.
Proof using Type*.
  intros [Hne Hn1]%lookup_delete_Some. destruct (cr_detached _ _ _ _ R n1 t1 Hn1) as [Hty Hnl].
  split; [by eapply spliced_type|]. intros l1 L1.
  destruct (decide (l1 = l)) as [->|Hne1]; intros Hl1; simplify_map_eq; [|by eapply Hnl].
  rewrite HL. pose proof (Hnl _ _ Hown). set_solver.
Qed.

Lemma splice_cr_nodes x : is_Some (cells (cmds s') !! x) →
  is_Some (delete n detached !! x) ∨ ∃ l1 L1, <[l := L']> own !! l1 = Some L1 ∧ x ∈ L1.
Proof using Type*.
  intros Hx. destruct (decide (x = n)) as [->|Hxn].
  { right. exists l, L'. split; [by simplify_map_eq|]. rewrite HL. by left. }
  destruct (splice_allocated x Hx) as [->|Hx']; [done|].
  destruct (cr_nodes _ _ _ _ R x Hx') as [Hd | (l1 & L1 & Hl1 & Hin)].
  - left. by simplify_map_eq.
  - right. destruct (decide (l1 = l)) as [->|Hne]; simplify_map_eq.
    + exists l, L'. split; [by simplify_map_eq|]. rewrite HL. by right.
    + exists l1, L1. by simplify_map_eq.
Qed.

Lemma splice_crep : crep_in (<[l := L']> own) s' (<[l := ts']> lists) (delete n detached).
Proof using Type*.
  split; [|apply splice_cr_list|apply splice_cr_disjoint|apply splice_cr_detached
          |apply splice_cr_nodes| | |].
  - intros l1 Hl1. destruct (decide (l1 = l)) as [->|Hne]; [by simplify_map_eq|].
    rewrite splice_other_objects in Hl1 by done. simplify_map_eq. by eapply cr_lists.
  - intros l1 Hl1. destruct (decide (l1 = l)) as [->|Hne]; simplify_map_eq; [done|].
    by eapply cr_own.
  - intros x Hx. rewrite (sp_next _ _ _ _ _ _ Hsp). apply (cr_wf_cmds _ _ _ _ R).
    destruct (splice_allocated x Hx) as [->|Hx']; [|done].
    destruct (detached_node _ _ _ _ _ _ R Hn) as (cn & Hcn & _). by exists cn.
  - destruct splice_clist_l as [Ho _ _ _ _]. rewrite (sp_list _ _ _ _ _ _ Hsp _ Ho).
    apply heap_set_at_wf; [by eexists|apply (cr_wf_lists _ _ _ _ R)].
Qed.
End splice.

Lemma cmd_list_add_spec s lists detached l ts n t :
  crep s lists detached → lists !! l = Some ts → detached !! n = Some t →
  Z.of_nat (length ts) < INT_MAX →
  ∃ s', cmd_list_add (Some l) (Some n) s = (Ok RET_SUCCEED, s') ∧
    crep s' (<[l := ts ++ [t]]> lists) (delete n detached).
Proof.
  intros [own R] Hl Hn Hlen.
  destruct (cr_list _ _ _ _ R l ts Hl) as (hd & ns & tl & Hown & Hc).
  destruct (cr_detached _ _ _ _ R n t Hn) as [Hty Hnl]. specialize (Hnl _ _ Hown).
  destruct (detached_node _ _ _ _ _ _ R Hn) as (cn & Hcn & _).
  rewrite <- (Forall2_length _ _ _ (cl_types _ _ _ _ _ _ Hc)) in Hlen.
  destruct (list_snoc_inv (hd :: ns)) as (A & a & HA); [done|].
  destruct (add_splices _ _ _ _ _ _ _ _ _ _ Hc HA Hcn Hnl Hlen) as (s' & Hadd & Hsp).
  exists s'. split; [exact Hadd|].
  assert (hd :: ns ++ [tl] = A ++ [a] ++ [tl]) as HL.
  { change ((hd :: ns) ++ [tl] = A ++ [a] ++ [tl]). by rewrite HA, app_assoc. }
  assert (hd :: (ns ++ [n]) ++ [tl] = A ++ [a] ++ [n; tl]) as HL'.
  { change (((hd :: ns) ++ [n]) ++ [tl] = A ++ [a] ++ [n; tl]).
    by rewrite HA, <- !app_assoc. }
  eexists. eapply (splice_crep own s s' _ _ l hd tl ns ts a tl n t (ns ++ [n])); try done.
  - rewrite HL. set_solver.
  - rewrite HL. set_solver.
  - rewrite <- app_assoc. cbn [app]. rewrite <- Permutation_middle. apply Permutation_swap.
  - eapply splice_clist; try done.
    + by rewrite length_app, Nat.add_comm.
    + apply Forall2_app; [apply Hc|]. by repeat constructor.
Qed.

Lemma cmd_list_add_head_spec s lists detached l ts n t :
  crep s lists detached → lists !! l = Some ts → detached !! n = Some t →
  Z.of_nat (length ts) < INT_MAX →
  ∃ s', cmd_list_add_head (Some l) (Some n) s = (Ok RET_SUCCEED, s') ∧
    crep s' (<[l := t :: ts]> lists) (delete n detached).
Proof.
  intros [own R] Hl Hn Hlen.
  destruct (cr_list _ _ _ _ R l ts Hl) as (hd & ns & tl & Hown & Hc).
  destruct (cr_detached _ _ _ _ R n t Hn) as [Hty Hnl]. specialize (Hnl _ _ Hown).
  destruct (detached_node _ _ _ _ _ _ R Hn) as (cn & Hcn & _).
  rewrite <- (Forall2_length _ _ _ (cl_types _ _ _ _ _ _ Hc)) in Hlen.
  destruct (ns ++ [tl]) as [|b B] eqn:HB; [by destruct ns|].
  rewrite <- HB in Hown, Hnl.
  destruct (add_head_splices _ _ _ _ _ _ _ _ _ _ Hc HB Hcn Hnl Hlen) as (s' & Hadd & Hsp).
  exists s'. split; [exact Hadd|].
  eexists. eapply (splice_crep own s s' _ _ l hd tl ns ts hd b n t (n :: ns)); try done.
  - by left.
  - rewrite HB. set_solver.
  - apply Permutation_swap.
  - eapply (splice_clist s s' l hd tl ns ts []); try done.
    + cbn. by rewrite HB.
    + cbn. by rewrite HB.
    + by constructor; [|apply Hc].
Qed.

Lemma cmd_init_spec s lists detached t :
  crep s lists detached → malloc_ok 24 = true →
  ∃ n s', on_cmds (cmd_init t) s = (Ok (Some n), s') ∧ detached !! n = None ∧
    crep s' lists (<[n := t]> detached).
Proof.
  intros [own R] Hmem. set (n := next_loc (cmds s)).
  pose proof (heap_fresh _ (cr_wf_cmds _ _ _ _ R)) as Hfresh.
  assert (∀ l L, own !! l = Some L → n ∉ L) as Hnl.
  { intros l L Hl Hin. destruct (cr_own _ _ _ _ R l ltac:(by eexists)) as [ts Hts].
    destruct (cr_list _ _ _ _ R l ts Hts) as (hd & ns & tl & Hl' & Hc).
    rewrite Hl in Hl'. injection Hl' as ->.
    destruct (seg_lookup _ _ _ _ _ Hin (cl_seg _ _ _ _ _ _ Hc)) as [c Hc']. subst n. congruence. }
  eexists n, _. split; [|split].
  - apply on_cmds_ok. unfold cmd_init. erewrite bind_ok by by apply heap_new_ok.
    erewrite bind_ok by (apply heap_update_ok; cbn; by simplify_map_eq). done.
  - destruct (detached !! n) as [t'|] eqn:Hn; [|done].
    destruct (detached_node _ _ _ _ _ _ R Hn) as (cn & Hcn & _). subst n. congruence.
  - exists own. destruct R as [Rl Rli Rd Rde Rn Ro Rwc Rwl]. split; cbn; try done.
    + intros l ts Hl. destruct (Rli l ts Hl) as (hd & ns & tl & Hown & Hc).
      exists hd, ns, tl. split; [done|]. apply (clist_frame s); try done. cbn.
      intros x Hx. specialize (Hnl _ _ Hown). fold n.
      rewrite !lookup_insert_ne by (intros ->; done). done.
    + intros n' t'. fold n. destruct (decide (n' = n)) as [->|Hne].
      * intros Hn'. simplify_map_eq. split; [done|exact Hnl].
      * intros Hn'. simplify_map_eq. by apply Rde.
    + intros a Ha. fold n in Ha. destruct (decide (a = n)) as [->|Hne].
      * left. by simplify_map_eq.
      * simplify_map_eq. by apply Rn.
    + apply (heap_set_at_wf n); [cbn; by simplify_map_eq|]. by apply heap_new_wf.
Qed.

(** Sentinels linked to each other make an empty list. *)
Lemma empty_list_crep s s' own lists detached l h t :
  crep_in own s lists detached → lists !! l = None → h ≠ t →
  cells (cmds s) !! h = None → cells (cmds s) !! t = None →
  cells (cmds s') !! h = Some (Cmd None (Some (Some t)) (Some None)) →
  cells (cmds s') !! t = Some (Cmd None (Some None) (Some (Some h))) →
  (∀ x, x ≠ h → x ≠ t → cells (cmds s') !! x = cells (cmds s) !! x) →
  cells (cmd_lists s') !! l = Some (CmdList (Some h) (Some t) 0) →
  (∀ x, x ≠ l → cells (cmd_lists s') !! x = cells (cmd_lists s) !! x) →
  heap_wf (cmds s') → heap_wf (cmd_lists s') →
  crep_in (<[l := [h; t]]> own) s' (<[l := []]> lists) detached.
Proof.
  intros [Rl Rli Rd Rde Rn Ro _ _] Hl Hht Hh Ht Hh' Ht' Hag Hobj Hobjs Hw1 Hw2.
  assert (∀ l' L, own !! l' = Some L → h ∉ L ∧ t ∉ L) as Hnl.
  { intros l' L Hl'. destruct (Ro l' ltac:(by eexists)) as [ts Hts].
    destruct (Rli l' ts Hts) as (hd & ns & tl & Hl'' & Hc). rewrite Hl' in Hl''.
    injection Hl'' as ->.
    split; intros Hin; destruct (seg_lookup _ _ _ _ _ Hin (cl_seg _ _ _ _ _ _ Hc));
      congruence. }
  split; try done.
  - intros l' Hl'. destruct (decide (l' = l)) as [->|Hne]; [by simplify_map_eq|].
    rewrite Hobjs in Hl' by done. simplify_map_eq. by apply Rl.
  - intros l' ts Hl'. destruct (decide (l' = l)) as [->|Hne]; simplify_map_eq.
    + exists h, [], t. split; [done|]. split; cbn; try done.
      * repeat constructor; set_solver.
      * eexists. split; [done|]. split_and!; try done. by eexists.
    + destruct (Rli l' ts Hl') as (hd & ns & tl & Hown & Hc). exists hd, ns, tl.
      split; [by simplify_map_eq|]. destruct (Hnl _ _ Hown).
      apply (clist_frame s); [done| |by apply Hobjs].
      intros x Hx. apply Hag; intros ->; done.
  - intros l1 l2 L1 L2 H1 H2 Hne.
    destruct (decide (l1 = l)) as [->|H1l], (decide (l2 = l)) as [->|H2l];
      simplify_map_eq; [..|by eapply Rd].
    + destruct (Hnl _ _ H2). set_solver.
    + destruct (Hnl _ _ H1). set_solver.
  - intros n t1 Hn. destruct (Rde n t1 Hn) as [Hty Hn'].
    assert (n ≠ h ∧ n ≠ t) as [Hnh Hnt].
    { apply fmap_Some in Hty as (cn & Hcn & _). split; intros ->; congruence. }
    split; [by rewrite Hag|]. intros l' L.
    destruct (decide (l' = l)) as [->|Hne]; intros Hl'; simplify_map_eq;
      [set_solver|by eapply Hn'].
  - intros x Hx. destruct (decide (x = h ∨ x = t)) as [Hxx|Hxx].
    + right. exists l, [h; t]. split; [by simplify_map_eq|set_solver].
    + rewrite Hag in Hx by tauto. destruct (Rn x Hx) as [?|(l' & L & Hl' & Hin)];
        [by left|right]. exists l', L. split; [|done].
      rewrite lookup_insert_ne; [done|]. intros <-. destruct (Ro l); [by eexists|congruence].
  - intros l' Hl'. destruct (decide (l' = l)) as [->|Hne]; simplify_map_eq; [done|].
    by apply Ro.
Qed.

Lemma cmd_list_init_spec s lists detached :
  crep s lists detached → malloc_ok 24 = true →
  ∃ l s', cmd_list_init s = (Ok (Some l), s') ∧ lists !! l = None ∧
    crep s' (<[l := []]> lists) detached.
Proof.
  intros [own R] Hmem. set (l := next_loc (cmd_lists s)).
  set (h := next_loc (cmds s)). set (t := Pos.succ h).
  pose proof (cr_wf_cmds _ _ _ _ R) as Hwc. pose proof (cr_wf_lists _ _ _ _ R) as Hwl.
  assert (h ≠ t) as Hht by (subst t; lia).
  assert (lists !! l = None) as Hl.
  { destruct (lists !! l) as [ts|] eqn:Hl; [|done].
    destruct (cr_list _ _ _ _ R l ts Hl) as (hd & ns & tl & _ & Hc).
    pose proof (cl_object _ _ _ _ _ _ Hc). pose proof (heap_fresh _ Hwl).
    subst l. congruence. }
  eexists l, _. split; [|split; [done|]].
  - unfold cmd_list_init.
    erewrite bind_ok by (apply on_cmd_lists_ok; by apply heap_new_ok).
    erewrite bind_ok by (apply on_cmds_ok; by apply heap_new_ok).
    erewrite bind_ok by (apply on_cmd_lists_ok, heap_update_ok; cbn; by simplify_map_eq).
    erewrite bind_ok by (apply on_cmds_ok; by apply heap_new_ok).
    cbn [cmds next_loc cells cmd_lists]. fold h. fold t. fold l.
    do 2 (erewrite bind_ok by (apply on_cmd_lists_ok, heap_update_ok; cbn; by simplify_map_eq)).
    do 4 (erewrite bind_ok by (apply on_cmds_ok, heap_update_ok; cbn; by simplify_map_eq)).
    done.
  - exists (<[l := [h; t]]> own).
    apply (empty_list_crep s _ own lists detached l h t); try done;
      cbn [cmds cmd_lists]; [..|by repeat (apply heap_set_at_wf; [cbn; by simplify_map_eq|]);
        exact (heap_new_wf (Heap (<[h := uninit_cmd]> (cells (cmds s))) t) uninit_cmd
                 (heap_new_wf _ uninit_cmd Hwc))
      |by repeat (apply heap_set_at_wf; [cbn; by simplify_map_eq|]); apply heap_new_wf];
      repeat intro; cbn; try by simplify_map_eq.
    + by apply heap_fresh.
    + destruct (cells (cmds s) !! t) eqn:Hc; [|done].
      pose proof (Hwc t ltac:(by eexists)). subst t h. lia.
Qed.

(** Walking to the tail releases every node but the last. *)
Lemma destroy_loop (h0 : heap cmd_t) L p :
  seg h0 None L None → NoDup L → L ≠ [] → heap_wf h0 → p = first_or L None →
  Z.of_nat (length L) < 2 ^ 64 →
  ∃ L1 a h, L = L1 ++ [a] ∧ mloop P64 cmd_list_destroy_step p h0 = (Ok (Some a), h) ∧
    heap_wf h ∧
    ∀ x, cells h !! x = if decide (x ∈ L1) then None else cells h0 !! x.
Proof.
  intros Hseg Hnd Hne Hwf Hp Hlen.
  destruct (mloop_indexed cmd_list_destroy_step
    (λ k p h, ∃ L1 a L2, L = L1 ++ a :: L2 ∧ p = Some a ∧ k = length L2 ∧ heap_wf h ∧
       ∀ x, cells h !! x = if decide (x ∈ L1) then None else cells h0 !! x)
    (λ r h, ∃ L1 a, L = L1 ++ [a] ∧ r = Some a ∧ heap_wf h ∧
       ∀ x, cells h !! x = if decide (x ∈ L1) then None else cells h0 !! x)
    P64 (length (List.tl L)) p h0) as (r & h & Hrun & L1 & a & HL & -> & Hw & Hc).
  - intros n ? h (L1 & a & L2 & HL & -> & -> & Hw & Hc).
    rewrite HL in Hseg, Hnd. apply seg_app in Hseg as (_ & c & Ha & _ & Hn & _).
    assert (a ∉ L1) as Hal.
    { apply NoDup_app in Hnd as (_ & Hnd & _). intros Hin. apply (Hnd a Hin). by left. }
    assert (cells h !! a = Some c) as Ha' by (by rewrite Hc, decide_False).
    unfold cmd_list_destroy_step.
    erewrite bind_ok by (by eapply get_next_ok).
    destruct L2 as [|b L2]; cbn [first_or].
    + eexists (inr _), h. split; [done|]. by exists L1, a.
    + unfold cmd_destroy. erewrite bind_ok by (apply heap_free_ok; by eexists).
      eexists (inl _), _. split; [done|]. exists (length L2). split; [cbn; lia|].
      exists (L1 ++ [a]), b, L2. rewrite HL, <- app_assoc. split_and!; try done.
      * by apply heap_free_wf.
      * intros x. cbn. destruct (decide (x = a)) as [->|Hxa].
        -- rewrite lookup_delete_eq, decide_True; [done|]. set_solver.
        -- rewrite lookup_delete_ne, Hc by done.
           by rewrite (decide_ext (x ∈ L1) (x ∈ L1 ++ [a])) by set_solver.
  - destruct L as [|a L]; [done|]. by exists [], a, L.
  - destruct L; [done|]. cbn in *. unfold P64. lia.
  - by exists L1, a, h.
Qed.

Lemma destroy_crep s s' own lists detached l L :
  crep_in own s lists detached → own !! l = Some L →
  heap_wf (cmds s') →
  (∀ x, cells (cmds s') !! x = if decide (x ∈ L) then None else cells (cmds s) !! x) →
  cmd_lists s' = Heap (delete l (cells (cmd_lists s))) (next_loc (cmd_lists s)) →
  crep_in (delete l own) s' (delete l lists) detached.
Proof.
  intros [Rl Rli Rd Rde Rn Ro Rwc Rwl] Hown Hw Hc Hlists. split.
  - intros l' Hl'. rewrite Hlists in Hl'. cbn in Hl'.
    destruct (decide (l' = l)) as [->|Hne].
    + rewrite lookup_delete_eq in Hl'. by destruct Hl'.
    + rewrite lookup_delete_ne in Hl' by done.
      rewrite lookup_delete_ne by done. by apply Rl.
  - intros l' ts [Hne Hl']%lookup_delete_Some.
    destruct (Rli l' ts Hl') as (hd & ns & tl & Hown' & Hcl). exists hd, ns, tl.
    split; [by rewrite lookup_delete_ne|]. apply (clist_frame s); [done|..].
    + intros x Hx. rewrite Hc, decide_False; [done|].
      pose proof (Rd _ _ _ _ Hown' Hown ltac:(done)). set_solver.
    + rewrite Hlists. cbn. by rewrite lookup_delete_ne.
  - intros l1 l2 L1 L2 [_ H1]%lookup_delete_Some [_ H2]%lookup_delete_Some. by apply Rd.
  - intros n t Hn. destruct (Rde n t Hn) as [Hty Hnl]. split.
    + rewrite Hc, decide_False; [done|]. by eapply Hnl.
    + intros l' L' [_ Hl']%lookup_delete_Some. by eapply Hnl.
  - intros x Hx. rewrite Hc in Hx. destruct (decide (x ∈ L)) as [|Hnin]; [by destruct Hx|].
    destruct (Rn x Hx) as [?|(l' & L' & Hl' & Hin)]; [by left|right].
    exists l', L'. split; [|done]. apply lookup_delete_Some. split; [|done].
    intros <-. congruence.
  - intros l' [L' [Hne Hl']%lookup_delete_Some]. rewrite lookup_delete_ne by done.
    apply Ro. by eexists.
  - done.
  - rewrite Hlists. by apply heap_free_wf.
Qed.

Lemma cmd_list_destroy_spec s lists detached l ts :
  crep s lists detached → lists !! l = Some ts →
  ∃ s', cmd_list_destroy (Some l) s = (Ok (), s') ∧ crep s' (delete l lists) detached ∧
    cq_cmd_bucket s' = cq_cmd_bucket s.
Proof.
  intros [own R] Hl. destruct (cr_list _ _ _ _ R l ts Hl) as (hd & ns & tl & Hown & Hcl).
  destruct (destroy_loop (cmds s) (hd :: ns ++ [tl]) (Some hd))
    as (L1 & a & h & HL & Hrun & Hw & Hc); try done.
  { by apply Hcl. }
  { by apply Hcl. }
  { by apply R. }
  { pose proof (cl_count _ _ _ _ _ _ Hcl) as Hb. unfold INT_MAX in Hb.
    cbn. rewrite length_app. cbn. lia. }
  pose proof (cl_nodup _ _ _ _ _ _ Hcl) as Hnd. rewrite HL in Hnd.
  assert (a ∉ L1) as Ha.
  { apply NoDup_app in Hnd as (_ & Hnd & _). intros Hin. apply (Hnd a Hin). by left. }
  assert (is_Some (cells h !! a)) as Hah.
  { rewrite Hc, decide_False by done. eapply seg_lookup; [|apply Hcl]. rewrite HL. set_solver. }
  eexists. split; [|split].
  - unfold cmd_list_destroy.
    erewrite bind_ok by (apply on_cmd_lists_ok, heap_get_ok, Hcl). cbn [head].
    erewrite bind_ok by (apply on_cmds_ok; exact Hrun).
    erewrite bind_ok by (apply on_cmds_ok; by apply heap_free_ok).
    apply on_cmd_lists_ok, heap_free_ok. eexists. apply Hcl.
  - exists (delete l own). eapply (destroy_crep s); [done|exact Hown| | |done]; cbn.
    + by apply heap_free_wf.
    + intros x. rewrite HL. destruct (decide (x = a)) as [->|Hxa].
      * rewrite lookup_delete_eq, decide_True; [done|]. set_solver.
      * rewrite lookup_delete_ne, Hc by done.
        by rewrite (decide_ext (x ∈ L1) (x ∈ L1 ++ [a])) by set_solver.
  - done.
Qed.
End operations.

(** ** The abstract command lists *)

(** The lists by their address, and the commands not yet in a list. *)
Definition cmd_pool : Type := gmap loc (list cmd_type_t) * gmap loc cmd_type_t.

Inductive cmd_op :=
  | OpInit (t : cmd_type_t)
  | OpListInit
  | OpAdd (l n : loc)
  | OpAddHead (l n : loc)
  | OpListDestroy (l : loc)
  | OpShow (n : loc).

Inductive cmd_out := OutPtr (p : option loc) | OutRet (r : ret_t) | OutDone | OutText (s : string).

Section simulation.
Context `{Allocator} `{RandSource}.

Definition cmd_exec (o : cmd_op) : M cmd_state cmd_out :=
  match o with
  | OpInit t => p ← on_cmds (cmd_init t); mret (OutPtr p)
  | OpListInit => p ← cmd_list_init; mret (OutPtr p)
  | OpAdd l n => r ← cmd_list_add (Some l) (Some n); mret (OutRet r)
  | OpAddHead l n => r ← cmd_list_add_head (Some l) (Some n); mret (OutRet r)
  | OpListDestroy l => cmd_list_destroy (Some l);; mret OutDone
  | OpShow n => s ← on_cmds (cmd_toString (Some n)); mret (OutText s)
  end.

(** What an operation may do to the pool: new objects get new addresses. *)
Inductive pool_step : cmd_pool → cmd_op → cmd_out → cmd_pool → Prop :=
  | step_init ls ds t n : ds !! n = None →
      pool_step (ls, ds) (OpInit t) (OutPtr (Some n)) (ls, <[n := t]> ds)
  | step_list_init ls ds l : ls !! l = None →
      pool_step (ls, ds) OpListInit (OutPtr (Some l)) (<[l := []]> ls, ds)
  | step_add ls ds l n ts t : ls !! l = Some ts → ds !! n = Some t →
      pool_step (ls, ds) (OpAdd l n) (OutRet RET_SUCCEED)
        (<[l := ts ++ [t]]> ls, delete n ds)
  | step_add_head ls ds l n ts t : ls !! l = Some ts → ds !! n = Some t →
      pool_step (ls, ds) (OpAddHead l n) (OutRet RET_SUCCEED)
        (<[l := t :: ts]> ls, delete n ds)
  | step_destroy ls ds l : pool_step (ls, ds) (OpListDestroy l) OutDone (delete l ls, ds)
  | step_show ls ds n t : ds !! n = Some t →
      pool_step (ls, ds) (OpShow n) (OutText (cmdtype_toString t)) (ls, ds).

(** The arguments are objects of the pool, and a list that grows has a count
    below [INT_MAX]. *)
Definition pool_legal (p : cmd_pool) (o : cmd_op) : Prop :=
  match o with
  | OpInit _ | OpListInit => malloc_ok 24 = true
  | OpAdd l n | OpAddHead l n =>
      is_Some (p.2 !! n) ∧ ∃ ts, p.1 !! l = Some ts ∧ Z.of_nat (length ts) < INT_MAX
  | OpListDestroy l => is_Some (p.1 !! l)
  | OpShow n => is_Some (p.2 !! n)
  end.

(** C4 (simulation). Every operation on the linked command lists does on the
    heap what the same operation does on a pool of lists: additions go to the
    tail or to the head of one list and leave every other list alone, a
    command is in one list at most, and destroying a list releases its nodes
    and sentinels, each once, and nothing else; no operation faults. *)
Theorem cmd_lists_simulate_pool s (p : cmd_pool) (o : cmd_op) :
  crep s p.1 p.2 → pool_legal p o →
  ∃ out s' p', cmd_exec o s = (Ok out, s') ∧ pool_step p o out p' ∧ crep s' p'.1 p'.2.
Proof.
  destruct p as [ls ds]. cbn [fst snd]. intros R Hlegal.
  destruct o as [t| |l n|l n|l|n]; cbn in Hlegal.
  - destruct (cmd_init_spec _ _ _ t R Hlegal) as (n & s' & Hx & Hn & R').
    eexists _, s', _. split; [unfold cmd_exec; by erewrite bind_ok by exact Hx|].
    split; [by constructor|done].
  - destruct (cmd_list_init_spec _ _ _ R Hlegal) as (l & s' & Hx & Hl & R').
    eexists _, s', _. split; [unfold cmd_exec; by erewrite bind_ok by exact Hx|].
    split; [by constructor|done].
  - destruct Hlegal as ([t Hn] & ts & Hl & Hlen).
    destruct (cmd_list_add_spec _ _ _ _ _ _ _ R Hl Hn Hlen) as (s' & Hx & R').
    eexists _, s', _. split; [unfold cmd_exec; by erewrite bind_ok by exact Hx|].
    split; [by econstructor|done].
  - destruct Hlegal as ([t Hn] & ts & Hl & Hlen).
    destruct (cmd_list_add_head_spec _ _ _ _ _ _ _ R Hl Hn Hlen) as (s' & Hx & R').
    eexists _, s', _. split; [unfold cmd_exec; by erewrite bind_ok by exact Hx|].
    split; [by econstructor|done].
  - destruct Hlegal as [ts Hl].
    destruct (cmd_list_destroy_spec _ _ _ _ _ R Hl) as (s' & Hx & R' & _).
    eexists _, s', _. split; [unfold cmd_exec; by erewrite bind_ok by exact Hx|].
    split; [by constructor|done].
  - destruct Hlegal as [t Hn]. destruct R as [own R].
    destruct (detached_node _ _ _ _ _ _ R Hn) as (cn & Hcn & Hty).
    eexists _, s, (ls, ds). split; [|split; [by constructor|by exists own]].
    assert (cmd_toString (Some n) (cmds s) = (Ok (cmdtype_toString t), cmds s)) as Hx.
    { unfold cmd_toString. erewrite bind_ok by (by apply heap_get_ok). by rewrite Hty. }
    unfold cmd_exec. erewrite bind_ok by by apply on_cmds_ok.
    by destruct s.
Qed.
End simulation.

(** ** The bucket of command lists *)

Section bucket.
Context `{Allocator} `{RandSource}.
Implicit Types (s : cmd_state) (v : vector (option loc)) (ls : list loc).

Lemma on_bucket_ok {A} (m : M (vector (option loc)) A) s v a v' :
  cq_cmd_bucket s = SPtr v → m v = (Ok a, v') →
  on_bucket m s = (Ok a, CmdState (cmds s) (cmd_lists s) (SPtr v')).
Proof.
  intros Hb Hm. unfold on_bucket. erewrite bind_ok by done. rewrite Hb.
  erewrite bind_ok by done. rewrite Hm. done.
Qed.

Lemma on_bucket_read {A} (m : M (vector (option loc)) A) s v a :
  cq_cmd_bucket s = SPtr v → m v = (Ok a, v) → on_bucket m s = (Ok a, s).
Proof.
  intros Hb Hm. rewrite (on_bucket_ok _ _ _ _ _ Hb Hm), <- Hb. by destruct s.
Qed.

(** [get_random_cmd_list] answers [NULL] without drawing a
    number when the bucket is empty, and otherwise the list at index
    [rand() % size], one of those that were added; nothing else changes. *)
Theorem get_random_cmd_list_member s v (ls : list (option loc)) (k : nat) :
  cq_cmd_bucket s = SPtr v → vrep v ls →
  get_random_cmd_list (s, k) =
    if bool_decide (ls = []) then (Ok None, (s, k))
    else (Ok (mjoin (ls !! Z.to_nat (rand_at k mod Z.of_nat (length ls)))), (s, S k)).
Proof.
  intros Hb R. destruct R as [cells R']. pose proof (ex_intro _ cells R' : vrep v ls) as R.
  unfold get_random_cmd_list.
  erewrite bind_ok; [|apply on_fst_ok, (on_bucket_read _ _ v); [done|reflexivity]].
  rewrite (vr_isempty _ _ _ _ R'). case_bool_decide as Hls; [done|].
  assert (0 < Z.of_nat (length ls)) as Hpos by (destruct ls; [done|cbn; lia]).
  erewrite bind_ok by (apply on_fst_ok, (on_bucket_read _ _ v); [done|by apply vector_size_spec]).
  erewrite bind_ok by (apply on_snd_ok; by apply rand_mod_ok).
  pose proof (rand_range k) as Hr. unfold RAND_MAX, INT_MAX in Hr.
  pose proof (Z.mod_pos_bound (rand_at k) _ Hpos) as Hm.
  assert (rand_at k mod Z.of_nat (length ls) ≤ rand_at k) by (apply Z.mod_le; lia).
  rewrite i32_small, u64_small by lia.
  erewrite bind_ok; [reflexivity|].
  apply on_fst_ok, (on_bucket_read _ _ v); [done|]. by apply vector_get_spec.
Qed.

Lemma crep_bucket s p lists detached :
  crep s lists detached → crep (CmdState (cmds s) (cmd_lists s) p) lists detached.
Proof.
  intros [own R]. exists own. destruct R as [Rl Rli Rd Rde Rn Ro Rwc Rwl].
  split; try done. intros l ts Hl. destruct (Rli l ts Hl) as (hd & ns & tl & Hown & Hc).
  exists hd, ns, tl. split; [done|]. by apply (clist_frame s).
Qed.

Lemma destroy_lists s lists detached ls :
  crep s lists detached → NoDup ls → (∀ l, l ∈ ls → is_Some (lists !! l)) →
  ∃ s', foldr (λ l k, cmd_list_destroy l;; k) (mret ()) (Some <$> ls) s = (Ok (), s') ∧
    crep s' (foldr delete lists ls) detached.
Proof.
  revert s lists. induction ls as [|l ls IH]; intros s lists R Hnd Hin; [by eexists|].
  apply NoDup_cons in Hnd as [Hl Hnd]. destruct (Hin l ltac:(by left)) as [ts Hts].
  destruct (cmd_list_destroy_spec _ _ _ _ _ R Hts) as (s1 & H1 & R1 & _).
  destruct (IH s1 _ R1 Hnd) as (s2 & H2 & R2).
  { intros l' Hl'. rewrite lookup_delete_ne by (intros ->; done). apply Hin. by right. }
  exists s2. split; [cbn; by erewrite bind_ok by exact H1|].
  replace (foldr delete lists (l :: ls)) with (foldr delete (delete l lists) ls); [done|].
  clear. cbn. induction ls as [|l' ls IH]; [done|]. cbn. rewrite IH. apply delete_delete.
Qed.

(** What it frees goes, with all its nodes. *)
Lemma cmd_bucket_destroy_ok s v lists detached ls :
  crep s lists detached → cq_cmd_bucket s = SPtr v → vrep v (Some <$> ls) →
  NoDup ls → (∀ l, l ∈ ls → is_Some (lists !! l)) →
  ∃ s', cmd_bucket_destroy s = (Ok (), s') ∧
    crep s' (if Z.of_nat (length ls) =? capacity v then lists
             else foldr delete lists ls) detached.
Proof.
  intros R Hb Rv Hnd Hin. destruct (vector_destroy_ok _ _ Rv) as [v' Hv].
  set (freed := if Z.of_nat (length ls) =? capacity v then [] else ls).
  assert (freed_of v (Some <$> ls) = Some <$> freed) as Hf.
  { unfold freed_of, freed. rewrite length_fmap. by destruct (_ =? _). }
  rewrite Hf in Hv.
  assert (crep (CmdState (cmds s) (cmd_lists s) (SPtr v')) lists detached) as R' by by apply crep_bucket.
  destruct (destroy_lists _ _ _ freed R') as (s' & Hs & R2).
  { subst freed. destruct (_ =? _); [constructor|done]. }
  { subst freed. destruct (_ =? _); [by intros l ?%not_elem_of_nil|done]. }
  eexists. split.
  - unfold cmd_bucket_destroy. erewrite bind_ok by (eapply on_bucket_ok; [done|exact Hv]).
    erewrite bind_ok by exact Hs. reflexivity.
  - replace (if Z.of_nat (length ls) =? capacity v then lists else foldr delete lists ls)
      with (foldr delete lists freed) by (subst freed; by destruct (_ =? _)).
    by apply crep_bucket.
Qed.

(** [cmd_bucket_destroy] destroys every list of the bucket, with
    all its nodes, except when the ring of the bucket's vector is exactly
    full: then it destroys none, and the lists leak. *)
Theorem cmd_bucket_destroy_releases s v lists detached ls :
  crep s lists detached → cq_cmd_bucket s = SPtr v → vrep v (Some <$> ls) →
  NoDup ls → (∀ l, l ∈ ls → is_Some (lists !! l)) →
  ∃ s', cmd_bucket_destroy s = (Ok (), s') ∧
    crep s' (if Z.of_nat (length ls) =? capacity v then lists
             else foldr delete lists ls) detached.
Proof. apply cmd_bucket_destroy_ok. Qed.
End bucket.

(** ** Witnesses *)

Local Existing Instance roomy_allocator.
Local Existing Instance counting_rand.

Definition no_commands : cmd_state := CmdState empty_heap empty_heap SNull.

Lemma no_commands_rep : crep no_commands ∅ ∅.
Proof.
  exists ∅. split; cbn; try (intros ? [? ?]; done); try done; apply empty_heap_wf.
Qed.

(** One empty list, one command outside of it. *)
Definition one_list : cmd_state := (cmd_list_init no_commands).2.
Definition sample_cmds : cmd_state := (on_cmds (cmd_init INSERT) one_list).2.

Lemma one_list_rep : crep one_list {[1%positive := []]} ∅.
Proof.
  assert (malloc_ok 24 = true) as Hm by reflexivity.
  destruct (cmd_list_init_spec _ _ _ no_commands_rep Hm) as (l & s & Hx & _ & R).
  assert (cmd_list_init no_commands = (Ok (Some 1%positive), one_list)) as Hx'
    by (vm_compute; reflexivity).
  rewrite Hx' in Hx. injection Hx as <- <-. by rewrite insert_empty in R.
Qed.

Lemma sample_cmds_rep : crep sample_cmds {[1%positive := []]} {[3%positive := INSERT]}.
Proof.
  assert (malloc_ok 24 = true) as Hm by reflexivity.
  destruct (cmd_init_spec _ _ _ INSERT one_list_rep Hm) as (n & s & Hx & _ & R).
  assert (on_cmds (cmd_init INSERT) one_list = (Ok (Some 3%positive), sample_cmds)) as Hx'
    by (vm_compute; reflexivity).
  rewrite Hx' in Hx. injection Hx as <- <-. by rewrite insert_empty in R.
Qed.

Example cmd_lists_simulate_pool_witness :
  ∃ out s' p', cmd_exec (OpAdd 1%positive 3%positive) sample_cmds = (Ok out, s') ∧
    pool_step ({[1%positive := []]}, {[3%positive := INSERT]}) (OpAdd 1%positive 3%positive) out p' ∧
    crep s' p'.1 p'.2.
Proof.
  apply (cmd_lists_simulate_pool sample_cmds ({[1%positive := []]}, {[3%positive := INSERT]})).
  - apply sample_cmds_rep.
  - split; [by eexists|]. exists []. split; [reflexivity|]. unfold INT_MAX. cbn. lia.
Defined.

(** A bucket with one list. *)
Definition one_bucket : vector (option loc) :=
  Vector (Live (Some (Some 1%positive) :: replicate 9 None)) 0 1 10 RwFree false.

Definition with_bucket : cmd_state :=
  CmdState (cmds one_list) (cmd_lists one_list) (SPtr one_bucket).

Lemma one_bucket_rep : vrep one_bucket (Some <$> [1%positive]).
Proof.
  eexists. split; try reflexivity; try (vm_compute; intuition congruence).
  intros [|i] x Hx; [|discriminate Hx]. by injection Hx as <-.
Qed.

Example get_random_cmd_list_member_witness :
  get_random_cmd_list (with_bucket, 7%nat) = (Ok (Some 1%positive), (with_bucket, 8%nat)).
Proof.
  exact (get_random_cmd_list_member with_bucket one_bucket [Some 1%positive] 7 eq_refl
           one_bucket_rep).
Defined.

Example cmd_bucket_destroy_releases_witness :
  ∃ s', cmd_bucket_destroy with_bucket = (Ok (), s') ∧
    crep s' (delete 1%positive {[1%positive := []]}) ∅.
Proof.
  apply (cmd_bucket_destroy_releases with_bucket one_bucket _ _ [1%positive]).
  - apply crep_bucket, one_list_rep.
  - reflexivity.
  - exact one_bucket_rep.
  - apply NoDup_singleton.
  - intros l ->%list_elem_of_singleton. by eexists.
Defined.
