(* ===== verification/CText.v ===== *)
(** * CText: C strings and the formatted output the program uses

    The contents of a C string, without its terminating NUL, are a list of
    bytes.  [decimal] is what [%d], [%zd] and [%PRIu64] print and [atoi] the
    reverse; [text] turns the literals of the program into bytes. *)

From stdpp Require Import base list strings.
From Stdlib Require Import ZArith Lia Ascii.
From S2P Require Import Prelude.
Local Open Scope Z_scope.

Notation cstring := (list Z) (only parsing).

(** The bytes of a literal. *)
Fixpoint text (s : string) : cstring :=
  match s with
  | EmptyString => []
  | String c s => Z.of_N (N_of_ascii c) :: text s
  end.

Definition digit (d : Z) : Z := 48 + d.

(** The digits of [n], most significant first, [acc] behind them. *)
Fixpoint digits_onto (fuel : nat) (n : Z) (acc : cstring) : cstring :=
  match fuel with
  | O => acc
  | S fuel => if n <? 10 then digit n :: acc
              else digits_onto fuel (n / 10) (digit (n mod 10) :: acc)
  end.

(** A number below [2 ^ k] has at most [k] digits. *)
Definition udecimal (n : Z) : cstring := digits_onto (S (Z.to_nat (Z.log2 n))) n [].

Definition decimal (n : Z) : cstring :=
  if n <? 0 then 45 :: udecimal (- n) else udecimal n.

Definition is_digit (c : Z) : bool := (48 <=? c) && (c <=? 57).

(** The number that the leading digits of [s] denote, read onto [n]. *)
Fixpoint read_digits (s : cstring) (n : Z) : Z :=
  match s with
  | c :: s' => if is_digit c then read_digits s' (10 * n + (c - 48)) else n
  | [] => n
  end.

Definition is_space (c : Z) : bool := (c =? 32) || ((9 <=? c) && (c <=? 13)).

Fixpoint skip_spaces (s : cstring) : cstring :=
  match s with
  | c :: s' => if is_space c then skip_spaces s' else s
  | [] => []
  end.

(** [atoi(s)]; a value that an [int] cannot hold has no defined result. *)
Definition atoi (s : cstring) : res Z :=
  let n := match skip_spaces s with
           | 45 :: s' => - read_digits s' 0
           | 43 :: s' => read_digits s' 0
           | s' => read_digits s' 0
           end in
  if (n <? - 2 ^ 31) || (INT_MAX <? n) then Stop (Undefined SignedOverflow) else Ok n.

(** [strncmp(a, b, n) == 0] on NUL-terminated strings. *)
Fixpoint strncmp_eq (a b : cstring) (n : nat) : bool :=
  match n with
  | O => true
  | S n => match a, b with
           | [], [] => true
           | x :: a, y :: b => (x =? y) && strncmp_eq a b n
           | _, _ => false
           end
  end.

(** [strcmp(a, b) == 0] *)
Definition strcmp_eq (a b : cstring) : bool := bool_decide (a = b).

(** [strstr(s, p)]: the rest of [s] from the first occurrence of [p]. *)
Fixpoint strstr (s p : cstring) : option cstring :=
  if bool_decide (take (length p) s = p) then Some s
  else match s with [] => None | _ :: s => strstr s p end.

(** ** Facts *)

(** A string without NUL, of characters. *)
Definition is_text (s : cstring) : Prop := Forall (λ c, 0 < c < 256) s.

#[export] Instance is_text_dec s : Decision (is_text s).
Proof. unfold is_text. apply _. Defined.

Lemma read_digits_app s t n :
  Forall (λ c, is_digit c = true) s → read_digits (s ++ t) n = read_digits t (read_digits s n).
Proof.
  intros Hs. revert n. induction Hs as [|c s Hc Hs IH]; intros n; [done|].
  cbn. rewrite Hc. apply IH.
Qed.

Lemma is_digit_digit d : 0 ≤ d < 10 → is_digit (digit d) = true.
Proof. intros Hd. unfold is_digit, digit. by zbool. Qed.

(** The digits of [n], and their value. *)
Lemma digits_onto_spec fuel n acc :
  0 ≤ n < 2 ^ Z.of_nat fuel →
  ∃ ds, digits_onto fuel n acc = ds ++ acc ∧ Forall (λ c, is_digit c = true) ds ∧
    (0 < fuel → ds ≠ [])%nat ∧
    ∀ m, read_digits ds m = m * 10 ^ Z.of_nat (length ds) + n.
Proof.
  revert n acc. induction fuel as [|fuel IH]; intros n acc Hn.
  - exists []. split_and!; [done|constructor|lia|]. intros m. cbn in *. lia.
  - cbn [digits_onto]. zcase.
    + exists [digit n]. split_and!; [done| |done|].
      * constructor; [apply is_digit_digit; lia|constructor].
      * intros m. cbn. rewrite is_digit_digit by lia. unfold digit. lia.
    + destruct (IH (n / 10) (digit (n mod 10) :: acc)) as (ds & Heq & Hds & _ & Hval).
      { rewrite Nat2Z.inj_succ, Z.pow_succ_r in Hn by lia.
        split; [apply Z.div_pos; lia|]. apply Z.div_lt_upper_bound; lia. }
      exists (ds ++ [digit (n mod 10)]).
      pose proof (Z.mod_pos_bound n 10 ltac:(lia)).
      split_and!.
      * by rewrite Heq, <- app_assoc.
      * apply Forall_app. split; [done|]. constructor; [by apply is_digit_digit|constructor].
      * intros _ Hnil. by apply app_nil in Hnil as [_ Hnil].
      * intros m. rewrite read_digits_app by done. cbn.
        rewrite is_digit_digit by done. rewrite Hval, length_app. cbn.
        rewrite Nat2Z.inj_add, Z.pow_add_r by lia. unfold digit.
        pose proof (Z.div_mod n 10 ltac:(lia)). cbn. lia.
Qed.

Lemma udecimal_spec n : 0 ≤ n →
  Forall (λ c, is_digit c = true) (udecimal n) ∧ udecimal n ≠ [] ∧
  read_digits (udecimal n) 0 = n.
Proof.
  intros Hn. destruct (digits_onto_spec (S (Z.to_nat (Z.log2 n))) n [])
    as (ds & Heq & Hds & Hne & Hval).
  { pose proof (Z.log2_nonneg n). rewrite Nat2Z.inj_succ, Z2Nat.id by lia.
    split; [lia|]. destruct (decide (n = 0)) as [->|]; [cbn; lia|].
    apply Z.log2_spec. lia. }
  unfold udecimal. rewrite Heq, app_nil_r. split_and!; [done|apply Hne; lia|].
  rewrite Hval. lia.
Qed.

(** No number of [k] digits reaches [10 ^ k]. *)
Lemma digits_onto_length fuel n acc k :
  0 ≤ n < 10 ^ Z.of_nat (S k) →
  (length (digits_onto fuel n acc) ≤ S k + length acc)%nat.
Proof.
  revert n acc k. induction fuel as [|fuel IH]; intros n acc k Hn; cbn [digits_onto]; [lia|].
  zcase; [cbn; lia|].
  destruct k as [|k]; [change (10 ^ Z.of_nat 1) with 10 in Hn; lia|].
  etransitivity; [apply (IH _ _ k)|cbn; lia].
  rewrite Nat2Z.inj_succ, Z.pow_succ_r in Hn by lia.
  split; [apply Z.div_pos; lia|]. apply Z.div_lt_upper_bound; lia.
Qed.

Lemma udecimal_length n k : 0 ≤ n < 10 ^ Z.of_nat (S k) → (length (udecimal n) ≤ S k)%nat.
Proof.
  intros Hn. unfold udecimal.
  pose proof (digits_onto_length (S (Z.to_nat (Z.log2 n))) n [] k Hn) as H.
  cbn [length] in H. lia.
Qed.

Lemma is_digit_text s : Forall (λ c, is_digit c = true) s → is_text s.
Proof.
  intros Hs. eapply Forall_impl; [exact Hs|]. intros c Hc. unfold is_digit in Hc.
  apply andb_true_iff in Hc as [H1%Z.leb_le H2%Z.leb_le]. lia.
Qed.

(** [atoi] reads back every [int] that [%d] prints. *)
Lemma atoi_decimal n : - 2 ^ 31 ≤ n ≤ INT_MAX → atoi (decimal n) = Ok n.
Proof.
  intros Hn. unfold atoi, decimal.
  assert (∀ m, 0 ≤ m → match skip_spaces (udecimal m) with
    | 45 :: s' => - read_digits s' 0 | 43 :: s' => read_digits s' 0
    | s' => read_digits s' 0 end = m) as Hpos.
  { intros m Hm. destruct (udecimal_spec m Hm) as (Hds & Hne & Hval).
    destruct (udecimal m) as [|c s] eqn:Hu; [done|].
    assert (48 ≤ c ≤ 57) as Hc.
    { apply Forall_cons in Hds as [Hc _]. unfold is_digit in Hc.
      apply andb_true_iff in Hc as [H1%Z.leb_le H2%Z.leb_le]. lia. }
    cbn [skip_spaces]. unfold is_space. zbool. cbn [orb andb].
    assert (c = 48 ∨ c = 49 ∨ c = 50 ∨ c = 51 ∨ c = 52 ∨ c = 53 ∨ c = 54 ∨ c = 55
            ∨ c = 56 ∨ c = 57) as Hcs by lia.
    decompose [or] Hcs; subst c; exact Hval. }
  assert (∀ m, - 2 ^ 31 ≤ m ≤ INT_MAX →
    (if (m <? - 2 ^ 31) || (INT_MAX <? m) then Stop (Undefined SignedOverflow) else Ok m)
      = Ok m) as Hrange.
  { intros m Hm. zbool. done. }
  destruct (Z.ltb_spec n 0).
  - cbn [skip_spaces]. change (is_space 45) with false. cbn iota.
    destruct (udecimal_spec (- n) ltac:(lia)) as (_ & _ & Hval). rewrite Hval.
    rewrite Z.opp_involutive. by apply Hrange.
  - rewrite Hpos by lia. by apply Hrange.
Qed.
