(* ===== verification/Log.v ===== *)
(** * Log: the lines of the log (src/src/mylib/log.c, src/src/mylib/log.h)

    [log_print_helper_impl] with the bytes that it prints as its result.  The
    time as [strftime] writes it, the thread's id and whether the output is a
    terminal come from the system. *)

From stdpp Require Import base sets list strings.
From Stdlib Require Import ZArith Lia.
From S2P Require Import Prelude CText.
Local Open Scope Z_scope.

(** ** The tables *)

Inductive log_color_t := BLACK | RED | GREEN | YELLOW | BLUE | PINK | CYAN | WHITE.

Definition color_code (c : log_color_t) : Z :=
  match c with
  | BLACK => 0 | RED => 1 | GREEN => 2 | YELLOW => 3
  | BLUE => 4 | PINK => 5 | CYAN => 6 | WHITE => 7
  end.

Definition ESC : Z := 27.
Definition color_str (c : log_color_t) : cstring := ESC :: text "[3" ++ [digit (color_code c); 109].
Definition bold_color_str (c : log_color_t) : cstring :=
  ESC :: text "[1;3" ++ [digit (color_code c); 109].
Definition reset : cstring := ESC :: text "[0m".

Inductive log_level_t := LOG_DBG | LOG_INFO | LOG_WARN | LOG_ERR.

Definition log_level_prio (l : log_level_t) : Z :=
  match l with LOG_DBG => 0 | LOG_INFO => 1 | LOG_WARN => 2 | LOG_ERR => 3 end.
Definition log_level_str (l : log_level_t) : cstring :=
  match l with
  | LOG_DBG => text "DEBUG "
  | LOG_INFO => text "INFO  "
  | LOG_WARN => text "WARN  "
  | LOG_ERR => text "ERROR "
  end.
Definition get_level_str_color (l : log_level_t) : cstring :=
  match l with
  | LOG_DBG => color_str BLUE
  | LOG_INFO => color_str GREEN
  | LOG_WARN => color_str YELLOW
  | LOG_ERR => color_str RED
  end.

Definition COLOR_LOG : bool := true.
Definition MIN_LOG_PRINT_LEVEL : log_level_t := LOG_INFO.

(** ** A line *)

(** [%x] of a number of [k] hexadecimal digits at most. *)
Definition hex_digit (d : Z) : Z := if d <? 10 then 48 + d else 87 + d.
Fixpoint hex_onto (k : nat) (n : Z) (acc : cstring) : cstring :=
  match k with
  | O => acc
  | S k => if n <? 16 then hex_digit n :: acc
           else hex_onto k (n / 16) (hex_digit (n mod 16) :: acc)
  end.
Definition hexadecimal (n : Z) : cstring := hex_onto 8 (n mod 2 ^ 32) [].

(** One turn of the search for the name without its directories. *)
Definition log_file_step (file : cstring) : cstring + cstring :=
  match strstr file (text "/") with
  | Some tmp => inl (drop 1 tmp)
  | None => inr file
  end.
Definition log_file (file_name : cstring) : res cstring :=
  match loop log_file_step P64 file_name with inr r => Ok r | inl _ => Stop Diverges end.

Section log.
Context (time_str : cstring) (pthread_self : Z) (isatty : bool).

Definition log_line (color_flag : bool) (level : log_level_t) (file : cstring) (line : Z)
    (func string : cstring) : cstring :=
  if color_flag
  then color_str GREEN ++ time_str ++ text " " ++ reset ++
       get_level_str_color level ++ log_level_str level ++ text " " ++ reset ++
       color_str GREEN ++ hexadecimal pthread_self ++ text " " ++ file ++ text ":" ++
       decimal line ++ text " [" ++ func ++ text "] " ++ reset ++ string ++ [10]
  else time_str ++ text " " ++ log_level_str level ++ text " " ++ hexadecimal pthread_self ++
       text " " ++ file ++ text ":" ++ decimal line ++ text " [" ++ func ++ text "] " ++
       string ++ [10].

Definition log_print_helper_impl (level : log_level_t) (file_name : cstring) (line : Z)
    (func string : cstring) : res cstring :=
  if log_level_prio level <? log_level_prio MIN_LOG_PRINT_LEVEL then Ok []
  else let color_flag := COLOR_LOG && isatty in
       file ← log_file file_name;
       Ok (log_line color_flag level file line func string).
End log.

(** ** The file's name *)

Definition base_name (file dirs base : cstring) : Prop :=
  file = dirs ++ base ∧ (dirs = [] ∨ last dirs = Some 47) ∧ 47 ∉ base.

Lemma strstr_slash s :
  match strstr s (text "/") with
  | Some t => ∃ d t', s = d ++ 47 :: t' ∧ t = 47 :: t'
  | None => 47 ∉ s
  end.
Proof.
  change (text "/") with [47].
  induction s as [|c s IH]; [cbn; apply not_elem_of_nil|].
  cbn -[take]. case_bool_decide as Hc.
  - injection Hc as ->. by exists [], s.
  - destruct (strstr s [47]) as [t|].
    + destruct IH as (d & t' & -> & ->). cbn. by exists (c :: d), t'.
    + rewrite not_elem_of_cons. split; [|done]. intros <-. done.
Qed.

(** The search ends with the last component of the path. *)
Lemma log_file_base file : Z.of_nat (length file) < 2 ^ 64 →
  ∃ dirs base, log_file file = Ok base ∧ base_name file dirs base.
Proof.
  intros Hlen.
  destruct (loop_total log_file_step
    (λ f, ∃ d, file = d ++ f ∧ (d = [] ∨ last d = Some 47)) (length (A := Z))
    (λ b, ∃ d, base_name file d b) P64 file) as (r & Hr & d & Hb).
  - intros f (d & Hf & Hd). unfold log_file_step. pose proof (strstr_slash f) as Hs.
    destruct (strstr f (text "/")) as [t|]; [|by exists d].
    destruct Hs as (e & t' & -> & ->). cbn [drop]. split.
    + exists (d ++ e ++ [47]). split; [by rewrite Hf, <- !app_assoc|right].
      by rewrite app_assoc, last_snoc.
    + rewrite drop_0, length_app. cbn. lia.
  - exists []. split; [done|by left].
  - change P64 with (2 ^ 64)%positive. lia.
  - exists d, r. unfold log_file. by rewrite Hr.
Qed.

(** ** Colours *)

(** A text without its colours: what is between [ESC] and [m] is left out. *)
Fixpoint uncolored (s : cstring) (in_escape : bool) : cstring :=
  match s with
  | [] => []
  | c :: s => if in_escape then uncolored s (negb (c =? 109))
              else if c =? ESC then uncolored s true else c :: uncolored s false
  end.

Definition no_escape (s : cstring) : Prop := ESC ∉ s.

Lemma uncolored_app s t : no_escape s → uncolored (s ++ t) false = s ++ uncolored t false.
Proof.
  unfold no_escape. induction s as [|c s IH]; intros Hs; [done|].
  rewrite not_elem_of_cons in Hs. destruct Hs as [Hc Hs]. cbn.
  rewrite (proj2 (Z.eqb_neq _ _)) by congruence. by rewrite IH.
Qed.

Lemma uncolored_color c t : uncolored (color_str c ++ t) false = uncolored t false.
Proof. by destruct c. Qed.
Lemma uncolored_reset t : uncolored (reset ++ t) false = uncolored t false.
Proof. done. Qed.
Lemma uncolored_level l t : uncolored (get_level_str_color l ++ t) false = uncolored t false.
Proof. by destruct l. Qed.

Lemma hex_onto_no_escape k n acc : 0 ≤ n → no_escape acc → no_escape (hex_onto k n acc).
Proof.
  assert (∀ d, 0 ≤ d → hex_digit d ≠ ESC) as Hd
    by (intros d Hd; unfold hex_digit, ESC; zcase; lia).
  revert n acc. induction k as [|k IH]; intros n acc Hn Hacc; [done|].
  cbn. zcase.
  - unfold no_escape. rewrite not_elem_of_cons. split; [|done].
    intros He. by apply (Hd n Hn).
  - apply IH; [apply Z.div_pos; lia|]. unfold no_escape. rewrite not_elem_of_cons. split; [|done].
    intros He. apply (Hd (n mod 16)); [|done]. pose proof (Z.mod_pos_bound n 16). lia.
Qed.

Lemma digits_no_escape s : Forall (λ c, is_digit c = true) s → no_escape s.
Proof.
  intros Hs Hin. rewrite Forall_forall in Hs. by specialize (Hs _ Hin).
Qed.

Lemma decimal_no_escape n : no_escape (decimal n).
Proof.
  unfold decimal. zcase.
  - unfold no_escape. rewrite not_elem_of_cons. split; [done|].
    apply digits_no_escape, udecimal_spec. lia.
  - apply digits_no_escape, udecimal_spec. lia.
Qed.

Lemma text_no_escape s : bool_decide (no_escape s) = true → no_escape s.
Proof. apply bool_decide_eq_true. Qed.

Lemma level_str_no_escape l : no_escape (log_level_str l).
Proof. by apply text_no_escape; destruct l. Qed.

(** The log prints the levels from [LOG_INFO] on, under the name of the file
    without its directories, and colours are all that a terminal adds: taken
    away, they leave the line that a file gets. *)
Theorem log_print_outcomes time tid isatty level file_name line func string :
  Forall no_escape [time; file_name; func; string] →
  Z.of_nat (length file_name) < 2 ^ 64 →
  (level = LOG_DBG → log_print_helper_impl time tid isatty level file_name line func string = Ok []) ∧
  (level ≠ LOG_DBG → ∃ out dirs base,
     log_print_helper_impl time tid isatty level file_name line func string = Ok out ∧
     base_name file_name dirs base ∧
     uncolored out false =
       time ++ text " " ++ log_level_str level ++ text " " ++ hexadecimal tid ++ text " " ++
       base ++ text ":" ++ decimal line ++ text " [" ++ func ++ text "] " ++ string ++ [10]).
Proof.
  intros Hne Hlen. rewrite !Forall_cons in Hne. destruct Hne as (Ht & Hf & Hfn & Hs & _).
  split; [by intros ->|]. intros Hl.
  destruct (log_file_base file_name Hlen) as (dirs & base & Hb & Hbase).
  exists (log_line time tid (COLOR_LOG && isatty) level base line func string), dirs, base.
  split; [unfold log_print_helper_impl; rewrite Hb; by destruct level|split; [done|]].
  assert (no_escape base) as Hbe.
  { destruct Hbase as (-> & _ & _). unfold no_escape in *. set_solver. }
  pose proof (decimal_no_escape line) as Hd. pose proof (level_str_no_escape level) as Hls.
  assert (no_escape (hexadecimal tid)) as Hx.
  { apply hex_onto_no_escape; [apply Z.mod_pos_bound; lia|apply not_elem_of_nil]. }
  unfold log_line. destruct isatty; cbn [andb COLOR_LOG].
  all: repeat first
    [ rewrite uncolored_color | rewrite uncolored_reset | rewrite uncolored_level
    | rewrite (uncolored_app time) by done | rewrite (uncolored_app base) by done
    | rewrite (uncolored_app func) by done | rewrite (uncolored_app string) by done
    | rewrite (uncolored_app (decimal _)) by done
    | rewrite (uncolored_app (hexadecimal _)) by done
    | rewrite (uncolored_app (log_level_str _)) by done
    | rewrite (uncolored_app (text _)) by (by apply text_no_escape) ]; done.
Qed.
