(* ===== verification/Signals.v ===== *)
(** * Signals: what the program does on a signal (mylib/sig_hdl.c, mylib/sigsegv.c)

    The disposition of each signal, set by the two constructors and by
    [setup_sigsegv], and the handlers.  A handler takes a lock of its own and
    leaves the program with it, after the quit function if one is set. *)

From stdpp Require Import base list.
From Stdlib Require Import ZArith Lia.
From S2P Require Import Prelude.
Local Open Scope Z_scope.

Inductive signal_t := SIGINT | SIGSEGV | SIGPIPE | SIGCHLD | SIGABRT | SIGTERM | SIGQUIT.

#[export] Instance signal_eq_dec : EqDecision signal_t.
Proof. solve_decision. Defined.

Inductive sig_handler_t :=
  | SIG_DFL
  | SIG_IGN
  | sig_hdl_int | sig_hdl_segv | sig_hdl_abrt | sig_hdl_term | sig_hdl_quit
  | signal_segv.

Definition signal_table : list (signal_t * sig_handler_t) :=
  [(SIGINT, sig_hdl_int); (SIGSEGV, sig_hdl_segv); (SIGPIPE, SIG_IGN); (SIGCHLD, SIG_IGN);
   (SIGABRT, sig_hdl_abrt); (SIGTERM, sig_hdl_term); (SIGQUIT, sig_hdl_quit)].

Section signals.
(** The rest of the program's state, and the type of the quit function's argument. *)
Context {W Arg : Type}.

Record sig_state := SigState {
  handlers : signal_t → sig_handler_t;
  sig_locks : signal_t → bool;
  quit_handler : option (option Arg → M W ());
  quit_handler_arg : option Arg;
}.

Definition sig_start : sig_state := SigState (λ _, SIG_DFL) (λ _, false) None None.

Definition sig_set_quit_func f arg (s : sig_state) : sig_state :=
  SigState (handlers s) (sig_locks s) f arg.

Definition signal (sig : signal_t) (h : sig_handler_t) (s : sig_state) : sig_state :=
  SigState (λ x, if decide (x = sig) then h else handlers s x) (sig_locks s) (quit_handler s)
    (quit_handler_arg s).

Definition init_signal_handlers (s : sig_state) : sig_state :=
  foldl (λ s '(sig, h), signal sig h s) s signal_table.

(** [granted] is whether [sigaction] succeeds. *)
Definition setup_sigsegv (granted : bool) (s : sig_state) : bool * sig_state :=
  if granted then (true, signal SIGSEGV signal_segv s) else (false, s).

(** The constructor of sigsegv.c. *)
Definition init (granted : bool) (s : sig_state) : sig_state :=
  (setup_sigsegv granted (signal SIGPIPE SIG_IGN s)).2.

(** ** The handlers *)

Definition hold (sig : signal_t) (b : bool) (s : sig_state) : sig_state :=
  SigState (handlers s) (λ x, if decide (x = sig) then b else sig_locks s x) (quit_handler s)
    (quit_handler_arg s).

Definition sig_lock (sig : signal_t) : M (sig_state * W) () :=
  s ← mgets fst;
  if sig_locks s sig then mstop Blocked else on_fst (mmodify (hold sig true)).

Definition run_quit_handler : M (sig_state * W) () :=
  s ← mgets fst;
  match quit_handler s with
  | Some f => on_snd (f (quit_handler_arg s))
  | None => mret ()
  end.

(** The five handlers of sig_hdl.c: which of them call the quit function, and
    the status they leave the program with. *)
Definition leave (sig : signal_t) (quit : bool) (code : Z) : M (sig_state * W) () :=
  _ ← sig_lock sig;
  _ ← (if quit then run_quit_handler else mret ());
  mstop (Exited code).

Definition EXIT_SUCCEED : Z := 0.
Definition EXIT_FAILED : Z := 1.

(** What the system does where no handler is set. *)
Context (default : signal_t → M (sig_state * W) ()).

Definition handle (signo : signal_t) (h : sig_handler_t) : M (sig_state * W) () :=
  match h with
  | SIG_DFL => default signo
  | SIG_IGN => mret ()
  | sig_hdl_int => leave SIGINT true EXIT_SUCCEED
  | sig_hdl_segv => leave SIGSEGV false EXIT_FAILED
  | sig_hdl_abrt => leave SIGABRT false EXIT_FAILED
  | sig_hdl_term => leave SIGTERM true EXIT_SUCCEED
  | sig_hdl_quit => leave SIGQUIT true EXIT_FAILED
  | signal_segv => mstop (Exited (-1))
  end.

Definition deliver (signo : signal_t) : M (sig_state * W) () :=
  s ← mgets fst; handle signo (handlers s signo).

(** ** What holds *)

(** The constructors run in either order, and [init_env] calls [setup_sigsegv]
    again, with success. *)
Definition boots (s : sig_state) : Prop :=
  ∃ granted, s = (setup_sigsegv true (init granted (init_signal_handlers sig_start))).2 ∨
             s = (setup_sigsegv true (init_signal_handlers (init granted sig_start))).2.

(** The status that a handler leaves the program with, and whether it calls the
    quit function first. *)
Definition ends_with (sig : signal_t) : option (Z * bool) :=
  match sig with
  | SIGINT | SIGTERM => Some (EXIT_SUCCEED, true)
  | SIGQUIT => Some (EXIT_FAILED, true)
  | SIGABRT => Some (EXIT_FAILED, false)
  | SIGSEGV | SIGPIPE | SIGCHLD => None
  end.

Lemma boots_handlers b sig : boots b →
  handlers b sig = match sig with
                   | SIGINT => sig_hdl_int | SIGSEGV => signal_segv
                   | SIGPIPE | SIGCHLD => SIG_IGN | SIGABRT => sig_hdl_abrt
                   | SIGTERM => sig_hdl_term | SIGQUIT => sig_hdl_quit
                   end.
Proof. by intros [[] [-> | ->]]; destruct sig. Qed.

(** The quit function, where one is to be called. *)
Definition quit_outcome (quit : bool) (s : sig_state) (w : W) : res () * W :=
  match quit_handler s with
  | Some f => if quit then f (quit_handler_arg s) w else (Ok (), w)
  | None => (Ok (), w)
  end.

Lemma leave_outcome sig quit code s w :
  leave sig quit code (s, w) =
    if sig_locks s sig then (Stop Blocked, (s, w))
    else let '(r, w') := quit_outcome quit s w in
         (match r with Ok _ => Stop (Exited code) | Stop e => Stop e end,
          (hold sig true s, w')).
Proof.
  unfold leave, sig_lock, quit_outcome, run_quit_handler, mbind, M_mbind, mgets, mret, M_mret. cbn.
  destruct s as [hs ls [f|] arg]; cbn; destruct (ls sig); try done; destruct quit; try done.
  unfold on_snd, zoom. cbn. by destruct (f arg w) as [[]].
Qed.

(** Whatever the order of the constructors, a running program ignores a broken
    connection and its children, leaves with -1 on a segmentation fault, and on
    the other four signals with the handler's status, behind the quit function;
    the signal's lock is never given back, so that the same signal in another
    thread waits. *)
Theorem deliver_outcomes b s w sig :
  boots b → (∀ x, handlers s x = handlers b x) →
  deliver sig (s, w) =
    match ends_with sig with
    | None => (if decide (sig = SIGSEGV) then Stop (Exited (-1)) else Ok (), (s, w))
    | Some (code, quit) =>
        if sig_locks s sig then (Stop Blocked, (s, w))
        else let '(r, w') := quit_outcome quit s w in
             (match r with Ok _ => Stop (Exited code) | Stop e => Stop e end,
              (hold sig true s, w'))
    end.
Proof.
  intros Hb Hs. unfold deliver, mbind, M_mbind, mgets. cbn. rewrite Hs, (boots_handlers _ _ Hb).
  destruct sig; cbn; try done; apply leave_outcome.
Qed.
End signals.
