(* ===== verification/Names.v ===== *)
(** * Names: hash tables whose entries are filed under a C string

    The tables of the program and the servers of a cluster are kept in hash
    tables keyed by their names, with [strlen] as the key size.  [Named] is what
    such an entry type provides; the lemmas are what the hash table then
    promises in terms of names. *)

From stdpp Require Import base gmap list fin_maps.
From Stdlib Require Import ZArith Lia Znumtheory.
From S2P Require Import Prelude Outcomes Mylib HashFunc Hash Heap CText.
Local Open Scope Z_scope.

Class Named (E : Type) := entry_name : E → cstring.

(** A string from [strdup], the NUL included.  Its storage is aligned; only the
    low three bits of a key's address are ever looked at. *)
Definition strdup_ptr (s : cstring) : key_ptr := KeyPtr 0 (s ++ [0]).

(** [strlen] of what a pointer leads to. *)
Fixpoint strlen (mem : list Z) : Z :=
  match mem with
  | [] => 0
  | c :: mem => if c =? 0 then 0 else 1 + strlen mem
  end.

(** The callbacks: [get_..._name] of the entry, [strlen] of the key. *)
#[export] Instance named_entry `{Named E} : HashEntry E := {|
  hash_entry_key_func e := strdup_ptr (entry_name e);
  hash_key_size_func k := strlen (key_mem k);
|}.

Section named.
Context `{Allocator} `{RandSource} {E : Type} `{Named E}.
Implicit Types (h : hash_t E) (m : gmap (list Z) E).

(** [pservers[rand() % server_num]] of all the entries, [NULL] if there is none. *)
Definition random_entry : M (hash_t E * nat) (option E) :=
  '(entries, num) ← on_fst hash_get_entries;
  if 0 <? num then r ← on_snd (rand_mod num); mlift (arr_read entries r)
  else mret None.

Lemma strlen_text (n : cstring) : is_text n → strlen (n ++ [0]) = Z.of_nat (length n).
Proof.
  induction 1 as [|c n Hc Hn IH]; [done|]. cbn [strlen app length].
  rewrite (proj2 (Z.eqb_neq c 0)) by lia. rewrite IH. lia.
Qed.

(** The key of an entry is its name. *)
Lemma kb_name (n : cstring) : is_text n → kb (E := E) (strdup_ptr n) = n.
Proof.
  intros Hn. unfold kb. cbn [hash_key_size_func named_entry key_mem strdup_ptr].
  rewrite strlen_text, Nat2Z.id by done. by apply take_app_length.
Qed.

Lemma key_ok_name (n : cstring) :
  is_text n → Z.of_nat (length n) < 2 ^ 64 → key_ok (E := E) (strdup_ptr n).
Proof.
  intros Hn Hl. unfold key_ok. cbn [hash_key_size_func named_entry key_mem strdup_ptr].
  rewrite strlen_text, length_app by done. cbn. split_and!; [|lia..].
  apply Forall_app. split; [|repeat constructor; lia].
  eapply Forall_impl; [exact Hn|]. intros c Hc. cbn in *. lia.
Qed.

(** What an [add] needs: a proper name that reaches the slots, and the means to
    rehash when the name is new. *)
Definition can_add h m (e : E) : Prop :=
  is_text (entry_name e) ∧ Z.of_nat (length (entry_name e)) < 2 ^ 64 ∧
  covers (entry_name e) (hash_size h) ∧
  (m !! entry_name e = None →
     2 * hash_size h < INT_MAX ∧ can_rehash h (<[entry_name e := e]> m)).

Lemma named_add h m e :
  hrep h m → can_add h m e →
  ∃ h', hash_add e h =
      (Ok (match m !! entry_name e with Some _ => RET_FAILED | None => RET_SUCCEED end), h') ∧
    hrep h' (match m !! entry_name e with Some _ => m | None => <[entry_name e := e]> m end).
Proof.
  intros R (Ht & Hl & Hc & Hnew).
  pose proof (kb_name (entry_name e) Ht) as Hkb. pose proof (key_ok_name _ Ht Hl) as Hk.
  destruct (m !! entry_name e) as [e'|] eqn:Hm.
  - exists h. split; [|done]. apply add_duplicate with m; [done|exact Hk| |];
      change (hash_entry_key_func e) with (strdup_ptr (entry_name e)); rewrite Hkb;
      [done|by eexists].
  - destruct (Hnew eq_refl) as [Hsz Hcan].
    destruct (add_fresh h m e R) as (h' & Hadd & R');
      change (hash_entry_key_func e) with (strdup_ptr (entry_name e)) in *;
      rewrite ?Hkb in *; try done. by exists h'.
Qed.

Lemma named_get h m (n : cstring) :
  hrep h m → is_text n → Z.of_nat (length n) < 2 ^ 64 → covers n (hash_size h) →
  hash_get (strdup_ptr n) h = (Ok (m !! n), h).
Proof.
  intros R Ht Hl Hc. pose proof (kb_name n Ht) as Hkb.
  rewrite (hash_get_spec h m); rewrite ?Hkb; try done. by apply key_ok_name.
Qed.

(** A random entry is one of the map. *)
Lemma random_entry_member h m (k : nat) :
  hrep h m → malloc_ok (8 * hash_entry_count h) = true →
  ∃ r, random_entry (h, k) = (Ok r, (h, if (size m =? 0)%nat then k else S k)) ∧
    match r with None => m = ∅ | Some e => ∃ n, m !! n = Some e end.
Proof.
  intros R Hmem.
  destruct (hash_get_all_entries h m R Hmem) as (es & Hes & Hperm).
  assert (Z.of_nat (size m) = Z.of_nat (length es)) as Hsize.
  { rewrite Hperm, length_fmap, length_map_to_list. done. }
  unfold random_entry. erewrite bind_ok by (apply on_fst_ok; exact Hes). cbn beta iota.
  destruct (size m =? 0)%nat eqn:Hm.
  - apply Nat.eqb_eq in Hm. apply map_size_empty_iff in Hm as ->. by exists None.
  - apply Nat.eqb_neq in Hm. assert (0 < Z.of_nat (size m)) as Hpos by lia.
    rewrite (proj2 (Z.ltb_lt _ _)) by done.
    erewrite bind_ok by (apply on_snd_ok; by apply rand_mod_ok).
    pose proof (Z.mod_pos_bound (rand_at k) _ Hpos) as Hb.
    destruct (lookup_lt_is_Some_2 es (Z.to_nat (rand_at k mod Z.of_nat (size m))))
      as [e He]; [lia|].
    exists (Some e). split.
    + unfold mlift. rewrite (arr_read_ok _ _ (Some e)); [done|lia|].
      by rewrite !list_lookup_fmap, He.
    + apply list_elem_of_lookup_2 in He. rewrite Hperm in He.
      apply list_elem_of_fmap in He as ([n e'] & -> & Hin).
      apply elem_of_map_to_list in Hin. by exists n.
Qed.

(** *** Small sets

    A set from which nothing is removed, with a table of bounded size: what can
    happen to it, whatever the memory and the probes. *)

Record small_set h m : Prop := {
  ss_rep : hrep h m;
  ss_removed : hash_entry_removed_count h = 0;
  ss_size : hash_size h ≤ 65537;
}.

Lemma prime_65537 : prime 65537.
Proof. apply find_flag_prime; [unfold INT_MAX; lia|]. by vm_compute. Qed.

Lemma grown_small h h' m e : small_set h m → grown h h' →
  Z.of_nat (size m) < 16000 → hrep h' (<[entry_name e := e]> m) →
  small_set h' (<[entry_name e := e]> m).
Proof.
  intros [[cs R] Hr Hs] Hg Hm R'. destruct Hg as [[Hsz Hrm]|(Hn & Hsz & Hrm)];
    [split; [done|congruence|lia]|]. split; [done..|].
  pose proof (hr_count _ _ _ _ R) as Hc.
  assert (size m = length (bindings cs)) as Hlen.
  { rewrite <- (length_map_to_list m), <- (length_fmap snd), <- (length_fmap snd (bindings cs)).
    by rewrite (map_bindings _ _ _ _ R). }
  pose proof (tb_pos _ _ (hr_table _ _ _ _ R)).
  unfold needs_rehash, one_more, REHASH_RATE in Hn.
  cbn [hash_size hash_entry_count hash_entry_removed_count set_count] in Hn.
  rewrite Hr, Z.add_0_r, (u64_small (_ + 1)), u64_small, Z.ltb_lt in Hn by lia.
  unfold rehash_size, one_more, REHASH_RATE in Hsz.
  cbn [hash_size hash_entry_count hash_entry_removed_count set_count] in Hsz.
  rewrite Hr, (proj2 (Z.ltb_ge _ _)), u64_small, i32_small in Hsz by lia.
  destruct (find_first_prime_least (hash_size h * 2)) as (p & Hp & _ & Hlt & Hleast);
    [unfold INT_MAX; lia|].
  rewrite Hp in Hsz. injection Hsz as <-. unfold INT_MAX in Hlt. rewrite u64_small by lia.
  destruct (decide (p ≤ 65537)); [done|]. destruct (Hleast 65537); [lia|apply prime_65537].
Qed.

Lemma named_add_runs h m e :
  small_set h m → is_text (entry_name e) → Z.of_nat (length (entry_name e)) < 2 ^ 64 →
  Z.of_nat (size m) < 16000 →
  runs aborts_or_diverges (hash_add e) h (λ r h',
    r = match m !! entry_name e with Some _ => RET_FAILED | None => RET_SUCCEED end ∧
    small_set h' (match m !! entry_name e with Some _ => m | None => <[entry_name e := e]> m end)).
Proof.
  intros S Ht Hl Hm. pose proof S as [R Hr Hs].
  pose proof (kb_name (entry_name e) Ht) as Hkb. pose proof (key_ok_name _ Ht Hl) as Hk.
  destruct (m !! entry_name e) as [e'|] eqn:Hlook.
  - destruct (add_taken h m e R Hk) as [Ha|[h' Ha]].
    + change (hash_entry_key_func e) with (strdup_ptr (entry_name e)). rewrite Hkb. by eexists.
    + by eapply runs_ok.
    + eapply runs_stop; [exact Ha|by right].
  - destruct (add_total h m e R Hk) as [(h' & Ha & R' & Hg)|[(h' & Ha & _)|(h' & Ha & _)]].
    + change (hash_entry_key_func e) with (strdup_ptr (entry_name e)). by rewrite Hkb.
    + unfold INT_MAX. lia.
    + change (hash_entry_key_func e) with (strdup_ptr (entry_name e)) in R'. rewrite Hkb in R'.
      eapply runs_ok; [exact Ha|]. split; [done|]. by apply (grown_small h).
    + eapply runs_stop; [exact Ha|by left].
    + eapply runs_stop; [exact Ha|by right].
Qed.

Lemma get_entries_runs h m : hrep h m →
  runs aborts hash_get_entries h (λ r h', h' = h ∧ ∃ es,
    r = (Live (Some <$> (Some <$> es)), Z.of_nat (length es)) ∧ es ≡ₚ (map_to_list m).*2).
Proof.
  intros R. destruct (malloc_ok (8 * hash_entry_count h)) eqn:Hmem.
  - destruct (hash_get_all_entries h m R Hmem) as (es & Hes & Hp).
    eapply runs_ok; [exact Hes|]. split; [done|]. exists es. split; [|done]. do 2 f_equal.
    by rewrite Hp, length_fmap, length_map_to_list.
  - destruct (hash_get_all_aborts entry h m R Hmem) as [h' Ha]. by eapply runs_stop.
Qed.

Lemma random_entry_runs h m (k : nat) : hrep h m →
  runs aborts random_entry (h, k) (λ r s, s.1 = h ∧
    match r with None => m = ∅ | Some e => ∃ n, m !! n = Some e end).
Proof.
  intros R. destruct (malloc_ok (8 * hash_entry_count h)) eqn:Hmem.
  - destruct (random_entry_member h m k R Hmem) as (r & Hr & Hm). by eapply runs_ok.
  - destruct (hash_get_all_aborts entry h m R Hmem) as [h' Ha].
    eapply runs_stop; [|done]. unfold random_entry. erewrite bind_stop; [reflexivity|].
    unfold on_fst, zoom. unfold hash_get_entries. cbn [fst]. by rewrite Ha.
Qed.
End named.
