(* ===== verification/Table.v ===== *)
(** * Table: schemas, tables and their sets (src/src/table/cq_table.c)

    A [schema_t] is an array of pointers to columns, shared by all the tables
    that were created from it; schemas and columns live on heaps, so that a
    column added or dropped through one table is seen through the others.  A
    [table_t] is never written after [table_init], and is its own value.  The
    set of schemas is a vector, the set of tables a hash table on the names. *)

From stdpp Require Import base gmap list strings.
From Stdlib Require Import ZArith Lia.
From S2P Require Import Prelude Mylib Vector HashFunc Hash Heap CText Names.
Local Open Scope Z_scope.

Inductive table_data_type_t := BIGINT | VARCHAR.

#[export] Instance table_data_type_eq_dec : EqDecision table_data_type_t.
Proof. solve_decision. Defined.

Record table_data_t := TableData {
  data_name : cstring;
  data_type : table_data_type_t;
  data_len : Z;
}.

Record schema_t := Schema {
  schemas : buffer (option loc);
  schema_capacity : Z;
  nschema : Z;
}.

Record table_schema_t := TableSchema {
  key_schema : option loc;
  val_schema : option loc;
}.

Record table_t := Table { name : cstring; table_schema : option loc }.

#[export] Instance table_eq_dec : EqDecision table_t.
Proof. solve_decision. Defined.

(** [table_key_func] and [table_key_size_func]: a table is filed under its name. *)
#[export] Instance table_named : Named table_t := name.

(** The heaps, and the static pointers [cq_schema_set] and [cq_table_set]. *)
Record table_state := TableState {
  datas : heap table_data_t;
  schema_objs : heap schema_t;
  table_schemas : heap table_schema_t;
  cq_schema_set : static_ptr (vector (option loc));
  cq_table_set : static_ptr (hash_t table_t);
}.

Section table.
Context `{Allocator} `{RandSource}.
Implicit Types (pschema pdata : option loc).

Definition on_datas {A} : M (heap table_data_t) A → M table_state A :=
  zoom datas (λ h s, TableState h (schema_objs s) (table_schemas s) (cq_schema_set s)
                       (cq_table_set s)).
Definition on_schemas {A} : M (heap schema_t) A → M table_state A :=
  zoom schema_objs (λ h s, TableState (datas s) h (table_schemas s) (cq_schema_set s)
                             (cq_table_set s)).
Definition on_table_schemas {A} : M (heap table_schema_t) A → M table_state A :=
  zoom table_schemas (λ h s, TableState (datas s) (schema_objs s) h (cq_schema_set s)
                               (cq_table_set s)).
Definition set_schema_set p : M table_state () :=
  mmodify (λ s, TableState (datas s) (schema_objs s) (table_schemas s) p (cq_table_set s)).
Definition set_table_set p : M table_state () :=
  mmodify (λ s, TableState (datas s) (schema_objs s) (table_schemas s) (cq_schema_set s) p).

Definition on_schema_set {A} (m : M (vector (option loc)) A) : M table_state A :=
  p ← mgets cq_schema_set;
  v ← static_get p;
  let '(r, v') := m v in set_schema_set (SPtr v');; mlift r.
Definition on_table_set {A} (m : M (hash_t table_t) A) : M table_state A :=
  p ← mgets cq_table_set;
  h ← static_get p;
  let '(r, h') := m h in set_table_set (SPtr h');; mlift r.

(** [strdup(s)]: [None] when there is no memory for it. *)
Definition strdup (s : cstring) : option cstring :=
  if malloc_ok (u64 (Z.of_nat (length s) + 1)) then Some s else None.

Definition get_table_key_schema pschema : M (heap table_schema_t) (option loc) :=
  s ← heap_get pschema; mret (key_schema s).
Definition get_table_val_schema pschema : M (heap table_schema_t) (option loc) :=
  s ← heap_get pschema; mret (val_schema s).
Definition get_table_schema (t : table_t) : option loc := table_schema t.
Definition get_table_name (t : table_t) : cstring := name t.
Definition get_table_data_name (d : table_data_t) : cstring := data_name d.
Definition get_table_data_type (d : table_data_t) : table_data_type_t := data_type d.
Definition get_table_data_len (d : table_data_t) : Z := data_len d.

Definition is_table_schema_full pschema : M table_state bool :=
  pschema_val ← on_table_schemas (get_table_val_schema pschema);
  s ← on_schemas (heap_get pschema_val);
  mret (schema_capacity s <=? nschema s).

Definition get_schema_capacity pschema : M (heap schema_t) Z :=
  s ← heap_get pschema; mret (schema_capacity s).

Definition sizeof_table_data_t : Z := 16.
Definition sizeof_schema_t : Z := 16.
Definition sizeof_table_schema_t : Z := 16.
Definition sizeof_table_t : Z := 16.

Definition table_data_init (n : cstring) (t : table_data_type_t) (len : Z)
    : M (heap table_data_t) (option loc) :=
  pdata ← heap_new sizeof_table_data_t (TableData [] BIGINT 0);
  match strdup n with
  | None => mret None
  | Some n' => heap_update pdata (λ _, TableData n' t len);; mret pdata
  end.

(** The name goes with the column. *)
Definition table_data_destroy pdata : M (heap table_data_t) () :=
  heap_get pdata;; heap_free pdata.

Definition schema_init : M (heap schema_t) (option loc) :=
  pschema ← heap_new sizeof_schema_t (Schema Dangling 0 0);
  let capacity := 100 in
  cells ← cq_malloc (8 * capacity) (fresh_buffer capacity);
  heap_update pschema (λ _, Schema cells capacity 0);;
  mret pschema.

Definition set_nschema n (s : schema_t) : schema_t := Schema (schemas s) (schema_capacity s) n.
Definition set_schemas b (s : schema_t) : schema_t := Schema b (schema_capacity s) (nschema s).

Definition schema_destroy pschema : M table_state () :=
  s ← on_schemas (heap_get pschema);
  mfor (nschema s) (λ i,
    s ← on_schemas (heap_get pschema);
    p ← mlift (arr_read (schemas s) i);
    on_datas (table_data_destroy p));;
  on_schemas (heap_free pschema).

Definition schema_add pschema pdata : M (heap schema_t) ret_t :=
  s ← heap_get pschema;
  if nschema s =? schema_capacity s then mret RET_FAILED else
    b ← mlift (arr_write (schemas s) (nschema s) pdata);
    heap_update pschema (set_schemas b);;
    heap_update pschema (λ s, set_nschema (nschema s + 1) s);;
    mret RET_SUCCEED.

(** [sprintf(data_name, "col%d", n)] into [char data_name[10]]. *)
Definition col_name {S} (n : Z) : M S cstring :=
  let s := text "col" ++ decimal n in
  if 10 <? Z.of_nat (length s) + 1 then mstop (Undefined OutOfBounds) else mret s.

(** A column of a random type, and of a random length for a [VARCHAR]. *)
Definition draw_column (data_name : cstring) : M (table_state * nat) (option loc) :=
  r ← on_snd rand;
  if r mod 2 =? 0 then on_fst (on_datas (table_data_init data_name BIGINT 0))
  else r' ← on_snd rand;
       let len := r' mod 503 + 10 in
       on_fst (on_datas (table_data_init data_name VARCHAR len)).

Definition add_table_data pschema : M (table_state * nat) () :=
  pschema_val ← on_fst (on_table_schemas (get_table_val_schema pschema));
  s ← on_fst (on_schemas (heap_get pschema_val));
  data_name ← col_name (nschema s);
  pdata ← draw_column data_name;
  on_fst (on_schemas (schema_add pschema_val pdata));;
  mret ().

Definition drop_table_data pschema : M table_state () :=
  ts ← on_table_schemas (heap_get pschema);
  let pschema_val := val_schema ts in
  s ← on_schemas (heap_get pschema_val);
  p ← mlift (arr_read (schemas s) (nschema s - 1));
  on_datas (table_data_destroy p);;
  on_schemas (heap_update pschema_val (λ s, set_nschema (nschema s - 1) s)).

Definition table_schema_init (k v : option loc) : M (heap table_schema_t) (option loc) :=
  heap_new sizeof_table_schema_t (TableSchema k v).

Definition table_schema_destroy p : M table_state () :=
  ts ← on_table_schemas (heap_get p);
  schema_destroy (key_schema ts);;
  ts ← on_table_schemas (heap_get p);
  schema_destroy (val_schema ts);;
  on_table_schemas (heap_free p).

(** The array of columns, and [*nschema]. *)
Definition schema_types pschema : M table_state (buffer (option loc) * Z) :=
  s ← on_schemas (heap_get pschema); mret (schemas s, nschema s).
Definition get_schema_key_types p : M table_state (buffer (option loc) * Z) :=
  ts ← on_table_schemas (heap_get p); schema_types (key_schema ts).
Definition get_schema_val_types p : M table_state (buffer (option loc) * Z) :=
  ts ← on_table_schemas (heap_get p); schema_types (val_schema ts).
Definition get_table_key_types (t : table_t) : M table_state (buffer (option loc) * Z) :=
  get_schema_key_types (table_schema t).
Definition get_table_val_types (t : table_t) : M table_state (buffer (option loc) * Z) :=
  get_schema_val_types (table_schema t).

Definition table_init (n : cstring) (p : option loc) : M table_state (option table_t) :=
  cq_malloc sizeof_table_t ();;
  mret (match strdup n with None => None | Some n' => Some (Table n' p) end).

Definition schema_set_init : M table_state () :=
  cq_malloc 8 ();;
  v ← pure_state vector_alloc;
  set_schema_set (SPtr v).

(** The pointer is left behind. *)
Definition schema_set_destroy : M table_state () :=
  freed ← on_schema_set vector_destroy;
  foldr (λ p k, table_schema_destroy p;; k) (mret ()) freed;;
  set_schema_set SFreed.

Definition schema_set_add p : M table_state ret_t := on_schema_set (vector_push_back p).

Definition schema_set_get_random : M (table_state * nat) (option loc) :=
  empty ← on_fst (on_schema_set vector_isempty);
  if (empty : bool) then mret None else
    size ← on_fst (on_schema_set vector_size);
    r ← on_snd (rand_mod size);
    p ← on_fst (on_schema_set (vector_get (u64 (i32 r))));
    mret (mjoin p).

Definition table_set_init : M table_state () :=
  cq_malloc 8 ();;
  h ← pure_state hash_alloc;
  set_table_set (SPtr h).

Definition table_set_add (t : table_t) : M table_state ret_t := on_table_set (hash_add t).

Definition table_set_get_all : M table_state (buffer (option table_t) * Z) :=
  on_table_set hash_get_entries.

Definition table_set_get_random : M (table_state * nat) (option table_t) :=
  '(s, k) ← mget;
  h ← static_get (cq_table_set s);
  let '(r, (h', k')) := random_entry (h, k) in
  on_fst (set_table_set (SPtr h'));; on_snd (mput k');; mlift r.

(** The tables given to [table_destroy]. *)
Definition table_set_destroy : M table_state (list (option table_t)) :=
  freed ← on_table_set hash_destroy;
  set_table_set SNull;;
  mret freed.
End table.

(** ** The columns behind the pointers *)

(** What a client reads through [get_table_val_types]: the columns, in order. *)
Fixpoint read_columns (b : buffer (option loc)) (n : nat) (i : Z)
    : M table_state (list table_data_t) :=
  match n with
  | O => mret []
  | S n => p ← mlift (arr_read b i);
           c ← on_datas (heap_get p);
           cs ← read_columns b n (i + 1);
           mret (c :: cs)
  end.
Definition table_val_columns (t : table_t) : M table_state (list table_data_t) :=
  '(b, n) ← get_table_val_types t; read_columns b (Z.to_nat n) 0.

(** The schema object [p] points to the columns [ds], which hold [cs]. *)
Record schema_rep (s : table_state) (p : loc) (ds : list loc) (cs : list table_data_t)
    : Prop := {
  sc_object : ∃ arr, cells (schema_objs s) !! p =
      Some (Schema (Live arr) 100 (Z.of_nat (length ds))) ∧
    length arr = 100%nat ∧ (length ds ≤ 100)%nat ∧
    ∀ i d, ds !! i = Some d → arr !! i = Some (Some (Some d));
  sc_columns : Forall2 (λ d c, cells (datas s) !! d = Some c) ds cs;
  sc_nodup : NoDup ds;
}.

(** All the schemas of the program, none sharing a column with another. *)
Record trep_in (own : gmap loc (list loc)) (s : table_state)
    (cols : gmap loc (list table_data_t)) : Prop := {
  tr_schema p cs : cols !! p = Some cs → ∃ ds, own !! p = Some ds ∧ schema_rep s p ds cs;
  tr_own p ds : own !! p = Some ds → ∃ cs, cols !! p = Some cs;
  tr_disjoint p1 p2 ds1 ds2 :
    own !! p1 = Some ds1 → own !! p2 = Some ds2 → p1 ≠ p2 → ds1 ## ds2;
  tr_wf : heap_wf (datas s);
}.
Definition trep s cols : Prop := ∃ own, trep_in own s cols.

(** The table schema [ts] has the schema object [p] for its values. *)
Definition val_schema_of (s : table_state) (ts p : loc) : Prop :=
  val_schema <$> cells (table_schemas s) !! ts = Some (Some p).

Section spec.
Context `{Allocator} `{RandSource}.
Implicit Types (s : table_state) (cols : gmap loc (list table_data_t)) (p ts : loc).

Lemma on_datas_ok {A} (m : M (heap table_data_t) A) s a h :
  m (datas s) = (Ok a, h) →
  on_datas m s = (Ok a, TableState h (schema_objs s) (table_schemas s) (cq_schema_set s)
                          (cq_table_set s)).
Proof. intros Hm. unfold on_datas. by erewrite zoom_ok by exact Hm. Qed.
Lemma on_schemas_ok {A} (m : M (heap schema_t) A) s a h :
  m (schema_objs s) = (Ok a, h) →
  on_schemas m s = (Ok a, TableState (datas s) h (table_schemas s) (cq_schema_set s)
                            (cq_table_set s)).
Proof. intros Hm. unfold on_schemas. by erewrite zoom_ok by exact Hm. Qed.
Lemma on_datas_read {A} (m : M (heap table_data_t) A) s a :
  m (datas s) = (Ok a, datas s) → on_datas m s = (Ok a, s).
Proof. intros Hm. rewrite (on_datas_ok _ _ _ _ Hm). by destruct s. Qed.
Lemma on_schemas_read {A} (m : M (heap schema_t) A) s a :
  m (schema_objs s) = (Ok a, schema_objs s) → on_schemas m s = (Ok a, s).
Proof. intros Hm. rewrite (on_schemas_ok _ _ _ _ Hm). by destruct s. Qed.

Lemma val_schema_ok s ts p : val_schema_of s ts p →
  on_table_schemas (get_table_val_schema (Some ts)) s = (Ok (Some p), s).
Proof.
  intros (t & Ht & Hp)%fmap_Some. unfold on_table_schemas.
  erewrite zoom_ok; [|unfold get_table_val_schema; by erewrite bind_ok by by apply heap_get_ok].
  rewrite <- Hp. by destruct s.
Qed.

Lemma table_schema_ok s ts p : val_schema_of s ts p →
  ∃ t, on_table_schemas (heap_get (Some ts)) s = (Ok t, s) ∧ val_schema t = Some p.
Proof.
  intros (t & Ht & Hp)%fmap_Some. exists t. split; [|done]. unfold on_table_schemas.
  erewrite zoom_ok by by apply heap_get_ok. by destruct s.
Qed.

Lemma read_columns_ok s arr ds cs :
  (∀ i d, ds !! i = Some d → arr !! i = Some (Some (Some d))) →
  Forall2 (λ d c, cells (datas s) !! d = Some c) ds cs →
  read_columns (Live arr) (length ds) 0 s = (Ok cs, s).
Proof.
  intros Harr Hcs.
  assert (∀ n k, (k + n = length ds)%nat →
    read_columns (Live arr) n (Z.of_nat k) s = (Ok (drop k cs), s)) as Hgen.
  { pose proof (Forall2_length _ _ _ Hcs) as Hlen.
    induction n as [|n IH]; intros k Hk; cbn [read_columns].
    - by rewrite drop_ge by lia.
    - destruct (lookup_lt_is_Some_2 ds k) as [d Hd]; [lia|].
      destruct (Forall2_lookup_l _ _ _ _ _ Hcs Hd) as (c & Hc & Hdc).
      erewrite bind_ok by (unfold mlift; rewrite (arr_read_ok _ _ (Some d)) by
        (first [lia | rewrite Nat2Z.id; by apply Harr]); reflexivity).
      erewrite bind_ok by (by apply on_datas_read, heap_get_ok).
      replace (Z.of_nat k + 1) with (Z.of_nat (S k)) by lia.
      erewrite bind_ok by (apply IH; lia). by rewrite (drop_S _ _ _ Hc). }
  apply (Hgen (length ds) 0%nat). lia.
Qed.

(** Every table sees the columns of its schema object. *)
Lemma table_val_columns_ok s cols t ts p cs :
  trep s cols → table_schema t = Some ts → val_schema_of s ts p → cols !! p = Some cs →
  table_val_columns t s = (Ok cs, s).
Proof.
  intros [own R] Ht Hv Hp. destruct (tr_schema _ _ _ R p cs Hp) as (ds & _ & [Ho Hc _]).
  destruct Ho as (arr & Ho & _ & _ & Harr).
  destruct (table_schema_ok _ _ _ Hv) as (tso & Hts & Hvs).
  unfold table_val_columns, get_table_val_types, get_schema_val_types. rewrite Ht.
  erewrite bind_ok.
  2: { erewrite bind_ok by exact Hts. rewrite Hvs. unfold schema_types.
       erewrite bind_ok by (by apply on_schemas_read, heap_get_ok). reflexivity. }
  cbn [schemas nschema]. rewrite Nat2Z.id. by apply read_columns_ok.
Qed.

Lemma schema_rep_frame s s' p ds cs :
  schema_rep s p ds cs → cells (schema_objs s') !! p = cells (schema_objs s) !! p →
  (∀ d, d ∈ ds → cells (datas s') !! d = cells (datas s) !! d) →
  schema_rep s' p ds cs.
Proof.
  intros [Ho Hc Hnd] Hp Hd. split; [by rewrite Hp| |done].
  apply Forall2_same_length_lookup in Hc as [Hlen Hc].
  apply Forall2_same_length_lookup. split; [done|]. intros i d c Hi Hci.
  rewrite Hd; [by eapply Hc|]. by eapply list_elem_of_lookup_2.
Qed.

(** The live columns of a state. *)
Lemma trep_live s cols own p ds d :
  trep_in own s cols → own !! p = Some ds → d ∈ ds → is_Some (cells (datas s) !! d).
Proof.
  intros [Rs Ro _ _] Hp Hin. destruct (Ro p ds Hp) as [cs Hcs].
  destruct (Rs p cs Hcs) as (ds' & Hp' & [_ Hc _]). rewrite Hp in Hp'. injection Hp' as <-.
  apply list_elem_of_lookup in Hin as [i Hi].
  destruct (Forall2_lookup_l _ _ _ _ _ Hc Hi) as (c & _ & Hd). by eexists.
Qed.

(** Adding one column that no schema has to one schema. *)
Lemma trep_join own s s' cols p d c ds cs :
  trep_in own s cols → own !! p = Some ds → cols !! p = Some cs → (length cs < 100)%nat →
  (∀ d, cells (datas s) !! d ≠ None → cells (datas s') !! d = cells (datas s) !! d) →
  (∀ q ds', own !! q = Some ds' → d ∉ ds') →
  cells (datas s') !! d = Some c → heap_wf (datas s') →
  (∀ q, q ≠ p → cells (schema_objs s') !! q = cells (schema_objs s) !! q) →
  (∀ arr, cells (schema_objs s) !! p = Some (Schema (Live arr) 100 (Z.of_nat (length ds))) →
     cells (schema_objs s') !! p =
       Some (Schema (Live (<[length ds := Some (Some d)]> arr)) 100 (Z.of_nat (length ds) + 1))) →
  trep_in (<[p := ds ++ [d]]> own) s' (<[p := cs ++ [c]]> cols).
Proof.
  intros R Hown Hp Hlt Hag Hnin Hd' Hw Hqs Hobj. pose proof R as [Rs Ro Rd Rw].
  destruct (Rs p cs Hp) as (ds' & Hown' & Hrep). rewrite Hown in Hown'. injection Hown' as <-.
  assert (∀ q ds' d', own !! q = Some ds' → d' ∈ ds' → cells (datas s) !! d' ≠ None) as Hlive.
  { intros q ds' d' Hq Hin. by eapply not_eq_None_Some, trep_live. }
  split; [..|done].
  - intros q cs' Hq. destruct (decide (q = p)) as [->|Hne]; simplify_map_eq.
    + exists (ds ++ [d]). split; [done|].
      destruct Hrep as [(arr & Ho & Hla & Hld & Harr) Hc Hnd].
      pose proof (Forall2_length _ _ _ Hc) as Hlen. split.
      * exists (<[length ds := Some (Some d)]> arr). rewrite (Hobj arr Ho), length_app. cbn.
        split_and!; [do 2 f_equal; lia|by rewrite length_insert|lia|].
        intros i d' Hi. apply lookup_snoc_Some in Hi as [[Hi Hd2]|[-> <-]].
        -- rewrite list_lookup_insert_ne by lia. by apply Harr.
        -- apply list_lookup_insert_eq. lia.
      * apply Forall2_app; [|by repeat constructor].
        eapply Forall2_impl; [exact Hc|]. intros d' c' Hc'. rewrite Hag; [done|congruence].
      * apply NoDup_app. split_and!; [done| |apply NoDup_singleton].
        intros x Hx ->%list_elem_of_singleton. by apply (Hnin p ds).
    + destruct (Rs q cs' Hq) as (ds' & Hq' & Hrep'). exists ds'.
      split; [by simplify_map_eq|]. apply (schema_rep_frame s); [done|by apply Hqs|].
      intros d' Hin. apply Hag. by eapply Hlive.
  - intros q ds' Hq. destruct (decide (q = p)) as [->|Hne]; simplify_map_eq; [by eexists|].
    by eapply Ro.
  - intros p1 p2 ds1 ds2 H1 H2 Hne x Hx1 Hx2.
    destruct (decide (p1 = p)) as [->|H1p], (decide (p2 = p)) as [->|H2p];
      simplify_map_eq.
    + apply elem_of_app in Hx1 as [Hx1| ->%list_elem_of_singleton].
      * by apply (Rd _ _ _ _ Hown H2 Hne x).
      * by apply (Hnin _ _ H2).
    + apply elem_of_app in Hx2 as [Hx2| ->%list_elem_of_singleton].
      * by apply (Rd _ _ _ _ H1 Hown Hne x).
      * by apply (Hnin _ _ H1).
    + by apply (Rd _ _ _ _ H1 H2 Hne x).
Qed.

(** Adding one freshly allocated column to one schema. *)
Lemma trep_append own s s' cols p d c ds cs :
  trep_in own s cols → own !! p = Some ds → cols !! p = Some cs → (length cs < 100)%nat →
  (∀ d, cells (datas s) !! d ≠ None → cells (datas s') !! d = cells (datas s) !! d) →
  cells (datas s) !! d = None → cells (datas s') !! d = Some c → heap_wf (datas s') →
  (∀ q, q ≠ p → cells (schema_objs s') !! q = cells (schema_objs s) !! q) →
  (∀ arr, cells (schema_objs s) !! p = Some (Schema (Live arr) 100 (Z.of_nat (length ds))) →
     cells (schema_objs s') !! p =
       Some (Schema (Live (<[length ds := Some (Some d)]> arr)) 100 (Z.of_nat (length ds) + 1))) →
  trep_in (<[p := ds ++ [d]]> own) s' (<[p := cs ++ [c]]> cols).
Proof.
  intros R ???? Hd ????. eapply trep_join; eauto.
  intros q ds' Hq Hin. by eapply not_eq_None_Some, Hd; eapply trep_live.
Qed.

Lemma col_name_ok {S} n (s : S) : 0 ≤ n < 100 →
  col_name n s = (Ok (text "col" ++ decimal n), s) ∧
  Z.of_nat (length (text "col" ++ decimal n)) ≤ 5.
Proof.
  intros Hn. assert (Z.of_nat (length (text "col" ++ decimal n)) ≤ 5) as Hlen.
  { rewrite length_app. unfold decimal. rewrite (proj2 (Z.ltb_ge n 0)) by lia.
    pose proof (udecimal_length n 1 ltac:(cbn; lia)). cbn [text length]. lia. }
  split; [|done]. unfold col_name. by rewrite (proj2 (Z.ltb_ge 10 _)) by lia.
Qed.

Lemma table_data_init_ok n t len (h : heap table_data_t) :
  malloc_ok 16 = true → malloc_ok (u64 (Z.of_nat (length n) + 1)) = true →
  table_data_init n t len h =
    (Ok (Some (next_loc h)),
     heap_set_at (next_loc h) (TableData n t len)
       (Heap (<[next_loc h := TableData [] BIGINT 0]> (cells h)) (Pos.succ (next_loc h)))).
Proof.
  intros Hm Hn. unfold table_data_init. erewrite bind_ok by by apply heap_new_ok.
  unfold strdup. rewrite Hn.
  erewrite bind_ok by (apply heap_update_ok; cbn; by simplify_map_eq). done.
Qed.

Lemma schema_add_ok p arr n pdata (h : heap schema_t) :
  cells h !! p = Some (Schema (Live arr) 100 n) → 0 ≤ n < 100 → length arr = 100%nat →
  ∃ h', schema_add (Some p) pdata h = (Ok RET_SUCCEED, h') ∧
    cells h' !! p = Some (Schema (Live (<[Z.to_nat n := Some pdata]> arr)) 100 (n + 1)) ∧
    (∀ q, q ≠ p → cells h' !! q = cells h !! q) ∧
    next_loc h' = next_loc h ∧ (heap_wf h → heap_wf h').
Proof.
  intros Hp Hn Hlen. eexists. split.
  - unfold schema_add. erewrite bind_ok by by apply heap_get_ok.
    cbn [nschema schema_capacity schemas]. rewrite (proj2 (Z.eqb_neq n 100)) by lia.
    erewrite bind_ok by (unfold mlift; rewrite arr_write_ok by lia; reflexivity).
    erewrite bind_ok by by apply heap_update_ok.
    erewrite bind_ok by (apply heap_update_ok; cbn; by simplify_map_eq). done.
  - cbn. split_and!; [by simplify_map_eq|intros q Hq; by simplify_map_eq|done|].
    intros Hw. do 2 (apply heap_set_at_wf; [cbn; by simplify_map_eq|]). done.
Qed.

(** The column that [add_table_data] draws. *)
Definition drawn_column (n : Z) (k : nat) : table_data_t :=
  let nm := text "col" ++ decimal n in
  if rand_at k mod 2 =? 0 then TableData nm BIGINT 0
  else TableData nm VARCHAR (rand_at (S k) mod 503 + 10).

(** The numbers that takes. *)
Definition drawn_rand (k : nat) : nat := if rand_at k mod 2 =? 0 then S k else S (S k).

(** Where a new column goes. *)
Definition with_column (s : table_state) (c : table_data_t) : table_state :=
  let d := next_loc (datas s) in
  TableState (Heap (<[d := c]> (cells (datas s))) (Pos.succ d))
    (schema_objs s) (table_schemas s) (cq_schema_set s) (cq_table_set s).

Lemma draw_column_ok n s k :
  malloc_ok 16 = true →
  malloc_ok (u64 (Z.of_nat (length (text "col" ++ decimal n)) + 1)) = true →
  draw_column (text "col" ++ decimal n) (s, k) =
    (Ok (Some (next_loc (datas s))), (with_column s (drawn_column n k), drawn_rand k)).
Proof.
  intros Hm Hn. unfold draw_column, drawn_column, drawn_rand, with_column.
  erewrite bind_ok by (by apply on_snd_ok).
  destruct (rand_at k mod 2 =? 0).
  - apply on_fst_ok. erewrite on_datas_ok by by apply table_data_init_ok.
    unfold heap_set_at. cbn. by rewrite insert_insert_eq.
  - erewrite bind_ok by (by apply on_snd_ok). apply on_fst_ok.
    erewrite on_datas_ok by by apply table_data_init_ok.
    unfold heap_set_at. cbn. by rewrite insert_insert_eq.
Qed.

(** A column that was just allocated joins a schema. *)
Lemma append_column s cols p cs c :
  trep s cols → cols !! p = Some cs → (length cs < 100)%nat →
  ∃ s', on_schemas (schema_add (Some p) (Some (next_loc (datas s)))) (with_column s c) =
      (Ok RET_SUCCEED, s') ∧
    trep s' (<[p := cs ++ [c]]> cols) ∧ table_schemas s' = table_schemas s ∧
    next_loc (schema_objs s') = next_loc (schema_objs s) ∧
    (heap_wf (schema_objs s) → heap_wf (schema_objs s')).
Proof.
  intros [own R] Hp Hlt.
  destruct (tr_schema _ _ _ R p cs Hp) as (ds & Hown & Hrep).
  destruct Hrep as [(arr & Ho & Hla & Hld & Harr) Hc Hnd].
  pose proof (Forall2_length _ _ _ Hc) as Hlen.
  set (d := next_loc (datas s)) in *.
  destruct (schema_add_ok p arr (Z.of_nat (length ds)) (Some d) (schema_objs s) Ho
    ltac:(lia) Hla) as (hs & Hadd & Hobj & Hqs & Hnext & Hwf).
  pose proof (heap_fresh _ (tr_wf _ _ _ R)) as Hfresh. fold d in Hfresh.
  eexists. split; [apply on_schemas_ok; exact Hadd|]. split; [|by split_and!].
  exists (<[p := ds ++ [d]]> own).
  eapply (trep_append own s); try done; cbn.
  - intros d' Hd'. rewrite lookup_insert_ne; [done|]. fold d. congruence.
  - fold d. by simplify_map_eq.
  - by apply heap_new_wf, R.
  - intros arr' Ho'. rewrite Ho in Ho'. injection Ho' as <-. by rewrite Hobj, Nat2Z.id.
Qed.

(** The number of columns in the schema's object. *)
Lemma schema_object s cols p cs : trep s cols → cols !! p = Some cs →
  ∃ b, cells (schema_objs s) !! p = Some (Schema b 100 (Z.of_nat (length cs))) ∧
    (length cs ≤ 100)%nat.
Proof.
  intros [own R] Hp. destruct (tr_schema _ _ _ R p cs Hp) as (ds & _ & [Ho Hc _]).
  destruct Ho as (arr & Ho & _ & Hld & _). rewrite (Forall2_length _ _ _ Hc) in *. by eexists.
Qed.

Lemma add_table_data_runs s cols ts p cs (k : nat) :
  trep s cols → val_schema_of s ts p → cols !! p = Some cs → (length cs < 100)%nat →
  (∀ n, 0 < n ≤ 16 → malloc_ok n = true) →
  ∃ s', add_table_data (Some ts) (s, k) = (Ok (), (s', drawn_rand k)) ∧
    trep s' (<[p := cs ++ [drawn_column (Z.of_nat (length cs)) k]]> cols) ∧
    table_schemas s' = table_schemas s ∧
    next_loc (schema_objs s') = next_loc (schema_objs s) ∧
    (heap_wf (schema_objs s) → heap_wf (schema_objs s')).
Proof.
  intros R Hv Hp Hlt Hmem. destruct (schema_object _ _ _ _ R Hp) as (b & Ho & Hle).
  destruct (col_name_ok (Z.of_nat (length cs)) (s, k) ltac:(lia)) as [Hcol Hcl].
  pose proof (draw_column_ok (Z.of_nat (length cs)) s k ltac:(by apply Hmem)
    ltac:(rewrite u64_small by lia; apply Hmem; lia)) as Hdraw.
  destruct (append_column s cols p cs (drawn_column (Z.of_nat (length cs)) k) R Hp Hlt)
    as (s' & Hadd & HR).
  exists s'. split; [|done]. unfold add_table_data.
  erewrite bind_ok by (apply on_fst_ok; by apply val_schema_ok).
  erewrite bind_ok by (by apply on_fst_ok, on_schemas_read, heap_get_ok).
  cbn [nschema]. erewrite bind_ok by exact Hcol.
  erewrite bind_ok by exact Hdraw.
  by erewrite bind_ok by (apply on_fst_ok; exact Hadd).
Qed.

Lemma add_table_data_ok s cols ts p cs (k : nat) :
  trep s cols → val_schema_of s ts p → cols !! p = Some cs → (length cs < 100)%nat →
  (∀ n, 0 < n ≤ 16 → malloc_ok n = true) →
  ∃ s' k', add_table_data (Some ts) (s, k) = (Ok (), (s', k')) ∧
    trep s' (<[p := cs ++ [drawn_column (Z.of_nat (length cs)) k]]> cols) ∧
    table_schemas s' = table_schemas s.
Proof.
  intros R Hv Hp Hlt Hmem.
  destruct (add_table_data_runs _ _ _ _ _ k R Hv Hp Hlt Hmem) as (s' & ? & ? & ? & _).
  by exists s', (drawn_rand k).
Qed.

(** Taking the last column of a schema away. *)
Lemma drop_table_data_ok s cols ts p cs c :
  trep s cols → val_schema_of s ts p → cols !! p = Some (cs ++ [c]) →
  ∃ s', drop_table_data (Some ts) s = (Ok (), s') ∧ trep s' (<[p := cs]> cols) ∧
    table_schemas s' = table_schemas s ∧
    next_loc (schema_objs s') = next_loc (schema_objs s) ∧
    (heap_wf (schema_objs s) → heap_wf (schema_objs s')).
Proof.
  intros [own R] Hv Hp. destruct (tr_schema _ _ _ R p _ Hp) as (ds & Hown & Hrep).
  destruct Hrep as [(arr & Ho & Hla & Hld & Harr) Hc Hnd].
  apply Forall2_app_inv_r in Hc as (ds1 & ds2 & Hc1 & Hc2 & ->).
  inversion Hc2 as [|d ? ? ? Hd Hnil]; subst. inversion Hnil; subst. clear Hc2 Hnil.
  assert (d ∉ ds1) as Hdn.
  { apply NoDup_app in Hnd as (_ & Hnd & _). intros Hin. apply (Hnd d Hin). by left. }
  rewrite length_app in *. cbn [length] in *.
  destruct (table_schema_ok _ _ _ Hv) as (tso & Hts & Hvs).
  eexists. split; [|split].
  - unfold drop_table_data. erewrite bind_ok by exact Hts. rewrite Hvs.
    erewrite bind_ok by (by apply on_schemas_read, heap_get_ok). cbn [schemas nschema].
    erewrite bind_ok.
    2: { unfold mlift. rewrite (arr_read_ok _ _ (Some d)); [reflexivity|lia|].
         apply Harr. replace (Z.to_nat _) with (length ds1) by lia.
         by rewrite list_lookup_middle. }
    erewrite bind_ok.
    2: { apply on_datas_ok. unfold table_data_destroy.
         erewrite bind_ok by by apply heap_get_ok. apply heap_free_ok. by eexists. }
    apply on_schemas_ok. by apply heap_update_ok.
  - exists (<[p := ds1]> own). destruct R as [Rs Ro Rd Rw]. split.
    + intros q cs' Hq. destruct (decide (q = p)) as [->|Hne]; simplify_map_eq.
      * exists ds1. split; [done|]. split; cbn.
        -- exists arr. simplify_map_eq. unfold set_nschema. cbn.
           split_and!; [do 2 f_equal; lia|done|lia|].
           intros i d' Hi. apply Harr. by apply lookup_app_l_Some.
        -- apply Forall2_same_length_lookup in Hc1 as [Hl Hc1].
           apply Forall2_same_length_lookup. split; [done|]. intros i d' c' Hi Hci.
           rewrite lookup_delete_ne; [by eapply Hc1|]. intros ->.
           by apply Hdn, (list_elem_of_lookup_2 _ i).
        -- by apply NoDup_app in Hnd as (? & _).
      * destruct (Rs q cs' Hq) as (ds' & Hq' & Hrep'). exists ds'.
        split; [by simplify_map_eq|]. apply (schema_rep_frame s); [done|cbn; by simplify_map_eq|].
        intros d' Hin. cbn. rewrite lookup_delete_ne; [done|]. intros ->.
        apply (Rd _ _ _ _ Hq' Hown Hne d' Hin). set_solver.
    + intros q ds' Hq. destruct (decide (q = p)) as [->|Hne]; simplify_map_eq; [by eexists|].
      by eapply Ro.
    + intros p1 p2 dsa dsb H1 H2 Hne x Hx1 Hx2.
      destruct (decide (p1 = p)) as [->|H1p], (decide (p2 = p)) as [->|H2p]; simplify_map_eq.
      * apply (Rd _ _ _ _ Hown H2 Hne x); set_solver.
      * apply (Rd _ _ _ _ H1 Hown Hne x); set_solver.
      * by apply (Rd _ _ _ _ H1 H2 Hne x).
    + by apply heap_free_wf.
  - split_and!; [done|done|]. apply heap_set_at_wf. by eexists.
Qed.
End spec.

(** ** Properties *)

Section properties.
Context `{Allocator} `{RandSource}.
Implicit Types (s : table_state) (cols : gmap loc (list table_data_t)) (p ts : loc).

(** [add_table_data] appends exactly one column, named [colN] for
    the current number N of columns, a [BIGINT] or a [VARCHAR] of 10 to 512
    bytes; every table with that schema sees it from then on, those created
    before included, and the tables of the other schemas see what they saw. *)
Theorem add_table_data_shared s cols ts p cs (k : nat) :
  trep s cols → val_schema_of s ts p → cols !! p = Some cs → (length cs < 100)%nat →
  (∀ n, 0 < n ≤ 16 → malloc_ok n = true) →
  ∃ c s' k', add_table_data (Some ts) (s, k) = (Ok (), (s', k')) ∧
    data_name c = text "col" ++ decimal (Z.of_nat (length cs)) ∧
    (data_type c = BIGINT ∨ data_type c = VARCHAR ∧ 10 ≤ data_len c ≤ 512) ∧
    ∀ t ts' q cs', table_schema t = Some ts' → val_schema_of s ts' q → cols !! q = Some cs' →
      table_val_columns t s' = (Ok (if decide (q = p) then cs ++ [c] else cs'), s').
Proof.
  intros R Hv Hp Hlt Hmem.
  destruct (add_table_data_ok _ _ _ _ _ k R Hv Hp Hlt Hmem) as (s' & k' & Hadd & R' & Hts).
  set (c := drawn_column (Z.of_nat (length cs)) k) in *.
  exists c, s', k'. split; [done|].
  split; [unfold c, drawn_column; by destruct (_ =? 0)|]. split.
  - unfold c, drawn_column. destruct (_ =? 0); [by left|right].
    split; [done|]. cbn. pose proof (Z.mod_pos_bound (rand_at (S k)) 503). lia.
  - intros t ts' q cs' Ht Hv' Hq.
    eapply (table_val_columns_ok _ _ _ ts' q); [done|done|by unfold val_schema_of; rewrite Hts|].
    destruct (decide (q = p)) as [->|Hne]; [by rewrite lookup_insert_eq|].
    by rewrite lookup_insert_ne.
Qed.

(** [drop_table_data] takes away the column that
    [add_table_data] appended and releases it: the columns are again what they
    were.  On a schema without columns it reads the cell before the array. *)
Theorem drop_table_data_undoes s cols ts p cs (k : nat) :
  trep s cols → val_schema_of s ts p → cols !! p = Some cs → (length cs < 100)%nat →
  (∀ n, 0 < n ≤ 16 → malloc_ok n = true) →
  (∃ s1 k1 s2, add_table_data (Some ts) (s, k) = (Ok (), (s1, k1)) ∧
     drop_table_data (Some ts) s1 = (Ok (), s2) ∧ trep s2 cols) ∧
  (cs = [] → drop_table_data (Some ts) s = (Stop (Undefined OutOfBounds), s)).
Proof.
  intros R Hv Hp Hlt Hmem. split.
  - destruct (add_table_data_ok _ _ _ _ _ k R Hv Hp Hlt Hmem) as (s1 & k1 & Hadd & R1 & Hts).
    destruct (drop_table_data_ok _ _ ts p cs (drawn_column (Z.of_nat (length cs)) k) R1)
      as (s2 & Hdrop & R2 & _).
    { unfold val_schema_of. by rewrite Hts. }
    { by rewrite lookup_insert_eq. }
    exists s1, k1, s2. split_and!; [done|done|].
    by rewrite insert_insert_eq, insert_id in R2.
  - intros ->. destruct R as [own R]. destruct (tr_schema _ _ _ R p _ Hp) as (ds & _ & Hrep).
    destruct Hrep as [(arr & Ho & _) Hc _].
    apply Forall2_nil_inv_r in Hc as ->.
    destruct (table_schema_ok _ _ _ Hv) as (tso & Hts & Hvs).
    unfold drop_table_data. erewrite bind_ok by exact Hts. rewrite Hvs.
    erewrite bind_ok by (by apply on_schemas_read, heap_get_ok). done.
Qed.

Lemma on_schema_set_read {A} (m : M (vector (option loc)) A) s v a :
  cq_schema_set s = SPtr v → m v = (Ok a, v) → on_schema_set m s = (Ok a, s).
Proof.
  intros Hs Hm. unfold on_schema_set, set_schema_set, mlift. mstep. rewrite Hs. cbn.
  rewrite Hm. cbn. rewrite <- Hs. by destruct s.
Qed.

(** [schema_set_get_random] answers [NULL] without drawing a number when there
    is no table schema, and otherwise the one at index [rand() % size]. *)
Lemma schema_set_get_random_member s v (ls : list (option loc)) (k : nat) :
  cq_schema_set s = SPtr v → vrep v ls →
  schema_set_get_random (s, k) =
    if bool_decide (ls = []) then (Ok None, (s, k))
    else (Ok (mjoin (ls !! Z.to_nat (rand_at k mod Z.of_nat (length ls)))), (s, S k)).
Proof.
  intros Hb R. destruct R as [cells R']. pose proof (ex_intro _ cells R' : vrep v ls) as R.
  unfold schema_set_get_random.
  erewrite bind_ok; [|apply on_fst_ok, (on_schema_set_read _ _ v); [done|reflexivity]].
  rewrite (vr_isempty _ _ _ _ R'). case_bool_decide as Hls; [done|].
  assert (0 < Z.of_nat (length ls)) as Hpos by (destruct ls; [done|cbn; lia]).
  erewrite bind_ok by (apply on_fst_ok, (on_schema_set_read _ _ v); [done|by apply vector_size_spec]).
  erewrite bind_ok by (apply on_snd_ok; by apply rand_mod_ok).
  pose proof (rand_range k) as Hr. unfold RAND_MAX, INT_MAX in Hr.
  pose proof (Z.mod_pos_bound (rand_at k) _ Hpos) as Hm.
  assert (rand_at k mod Z.of_nat (length ls) ≤ rand_at k) by (apply Z.mod_le; lia).
  rewrite i32_small, u64_small by lia.
  erewrite bind_ok; [reflexivity|].
  apply on_fst_ok, (on_schema_set_read _ _ v); [done|]. by apply vector_get_spec.
Qed.

Lemma on_table_set_ok {A} (m : M (hash_t table_t) A) s (h : hash_t table_t) a h' :
  cq_table_set s = SPtr h → m h = (Ok a, h') →
  on_table_set m s = (Ok a, TableState (datas s) (schema_objs s) (table_schemas s)
                              (cq_schema_set s) (SPtr h')).
Proof.
  intros Hs Hm. unfold on_table_set. erewrite bind_ok by done. rewrite Hs.
  erewrite bind_ok by done. by rewrite Hm.
Qed.

(** [table_set_add] files a table under its name, and
    refuses, changing nothing, a table whose name is taken. *)
Theorem table_set_add_by_name s (h : hash_t table_t) (m : gmap (list Z) table_t)
    (t : table_t) :
  cq_table_set s = SPtr h → hrep h m → can_add h m t →
  ∃ h', table_set_add t s =
      (Ok (match m !! name t with Some _ => RET_FAILED | None => RET_SUCCEED end),
       TableState (datas s) (schema_objs s) (table_schemas s) (cq_schema_set s) (SPtr h')) ∧
    hrep h' (match m !! name t with Some _ => m | None => <[name t := t]> m end).
Proof.
  intros Hs R Hcan. destruct (named_add h m t R Hcan) as (h' & Hadd & R').
  exists h'. split; [|done]. by apply on_table_set_ok with h.
Qed.

(** [table_set_get_random] answers [NULL] for an empty set,
    without drawing a number, and otherwise one of the tables of the set. *)
Theorem table_set_get_random_member s (h : hash_t table_t) (m : gmap (list Z) table_t)
    (k : nat) :
  cq_table_set s = SPtr h → hrep h m → malloc_ok (8 * hash_entry_count h) = true →
  ∃ r, table_set_get_random (s, k) = (Ok r, (s, if (size m =? 0)%nat then k else S k)) ∧
    match r with None => m = ∅ | Some t => ∃ n, m !! n = Some t end.
Proof.
  intros Hs R Hmem. destruct (random_entry_member h m k R Hmem) as (r & Hr & Hm).
  exists r. split; [|done]. unfold table_set_get_random.
  erewrite bind_ok by done. cbn beta iota. rewrite Hs. erewrite bind_ok by done. rewrite Hr.
  destruct s as [s1 s2 s3 s4 s5]. cbn in Hs. subst s5.
  erewrite bind_ok by (by apply on_fst_ok). erewrite bind_ok by (by apply on_snd_ok). done.
Qed.
End properties.

(** ** Witnesses *)

Local Existing Instance roomy_allocator.
Local Existing Instance counting_rand.

Definition id_column : table_data_t := TableData (text "id") BIGINT 0.
Definition val_column : table_data_t := TableData (text "val") VARCHAR 20.

Definition one_column (d : loc) : schema_t :=
  Schema (Live (Some (Some d) :: replicate 99 None)) 100 1.

(** One table schema: a key column and a value column. *)
Definition sample_tables : table_state :=
  TableState (Heap {[1%positive := id_column; 2%positive := val_column]} 3%positive)
    (Heap {[1%positive := one_column 1%positive; 2%positive := one_column 2%positive]} 3%positive)
    (Heap {[1%positive := TableSchema (Some 1%positive) (Some 2%positive)]} 2%positive)
    SNull SNull.

Definition sample_cols : gmap loc (list table_data_t) :=
  {[1%positive := [id_column]; 2%positive := [val_column]]}.

Lemma one_column_rep (d : loc) c :
  cells (datas sample_tables) !! d = Some c →
  cells (schema_objs sample_tables) !! d = Some (one_column d) →
  schema_rep sample_tables d [d] [c].
Proof.
  intros Hd Ho. split; [|by repeat constructor|apply NoDup_singleton].
  exists (Some (Some d) :: replicate 99 None). split_and!; [done|done|cbn; lia|].
  intros [|i] d' Hi; [by injection Hi as <-|discriminate Hi].
Qed.

Lemma sample_tables_rep : trep sample_tables sample_cols.
Proof.
  exists {[1%positive := [1%positive]; 2%positive := [2%positive]]}. split.
  - intros p cs Hp. unfold sample_cols in Hp.
    apply lookup_insert_Some in Hp as [[<- <-]|[_ [<- <-]%lookup_singleton_Some]].
    + exists [1%positive]. split; [done|by apply one_column_rep].
    + exists [2%positive]. split; [done|by apply one_column_rep].
  - intros p ds [[<- <-]|[_ [<- <-]%lookup_singleton_Some]]%lookup_insert_Some; by eexists.
  - intros p1 p2 ds1 ds2 [[<- <-]|[_ [<- <-]%lookup_singleton_Some]]%lookup_insert_Some
      [[<- <-]|[_ [<- <-]%lookup_singleton_Some]]%lookup_insert_Some Hne; set_solver.
  - intros l [c Hc]. cbn in *.
    apply lookup_insert_Some in Hc as [[<- _]|[_ [<- _]%lookup_singleton_Some]]; lia.
Qed.

Lemma sample_val_schema : val_schema_of sample_tables 1%positive 2%positive.
Proof. reflexivity. Qed.

Lemma roomy_16 n : 0 < n ≤ 16 → malloc_ok n = true.
Proof. intros Hn. apply Z.leb_le. unfold PTRDIFF_MAX. lia. Qed.

Example add_table_data_shared_witness :
  ∃ c s' k', add_table_data (Some 1%positive) (sample_tables, 4%nat) = (Ok (), (s', k')) ∧
    data_name c = text "col1" ∧
    (data_type c = BIGINT ∨ data_type c = VARCHAR ∧ 10 ≤ data_len c ≤ 512) ∧
    ∀ t ts' q cs', table_schema t = Some ts' → val_schema_of sample_tables ts' q →
      sample_cols !! q = Some cs' →
      table_val_columns t s' =
        (Ok (if decide (q = 2%positive) then [val_column; c] else cs'), s').
Proof.
  apply (add_table_data_shared sample_tables sample_cols 1%positive 2%positive [val_column]).
  - apply sample_tables_rep.
  - apply sample_val_schema.
  - reflexivity.
  - cbn. lia.
  - apply roomy_16.
Defined.

Example drop_table_data_undoes_witness :
  (∃ s1 k1 s2, add_table_data (Some 1%positive) (sample_tables, 4%nat) = (Ok (), (s1, k1)) ∧
     drop_table_data (Some 1%positive) s1 = (Ok (), s2) ∧ trep s2 sample_cols) ∧
  ([val_column] = [] →
     drop_table_data (Some 1%positive) sample_tables =
       (Stop (Undefined OutOfBounds), sample_tables)).
Proof.
  apply (drop_table_data_undoes sample_tables sample_cols 1%positive 2%positive [val_column]).
  - apply sample_tables_rep.
  - apply sample_val_schema.
  - reflexivity.
  - cbn. lia.
  - apply roomy_16.
Defined.

Definition sample_table : table_t := Table (text "test42") (Some 1%positive).

Definition empty_table_set : hash_t table_t :=
  Hash (Live (Some <$> replicate 11 zero_element)) 11 0 0 RwFree.

Definition with_tables (h : hash_t table_t) : table_state :=
  TableState (datas sample_tables) (schema_objs sample_tables) (table_schemas sample_tables)
    SNull (SPtr h).

Lemma empty_table_set_rep : hrep empty_table_set ∅.
Proof.
  destruct (hash_alloc_spec (E := table_t)) as (h & Ha & R & _); [done|done|].
  assert (hash_alloc () = (Ok empty_table_set, ())) as Ha' by (vm_compute; reflexivity).
  rewrite Ha' in Ha. by injection Ha as <-.
Qed.

Lemma sample_table_legal : run_legal empty_table_set ∅ [HAdd sample_table].
Proof. apply (run_check_sound 200); [lia|vm_compute; reflexivity]. Qed.

Lemma sample_table_can_add : can_add empty_table_set ∅ sample_table.
Proof.
  destruct sample_table_legal as [(_ & Hc & Hcan) _]. split_and!.
  - apply (bool_decide_eq_true (is_text (name sample_table))). vm_compute. reflexivity.
  - reflexivity.
  - exact Hc.
  - intros _. exact (Hcan (lookup_empty _)).
Qed.

Example table_set_add_by_name_witness :
  ∃ h', table_set_add sample_table (with_tables empty_table_set) =
      (Ok RET_SUCCEED, with_tables h') ∧
    hrep h' (<[name sample_table := sample_table]> ∅).
Proof.
  pose proof (table_set_add_by_name (with_tables empty_table_set) empty_table_set ∅
    sample_table eq_refl empty_table_set_rep sample_table_can_add) as Hx.
  rewrite lookup_empty in Hx. exact Hx.
Defined.

Definition one_table_set : hash_t table_t := (hash_add sample_table empty_table_set).2.

Lemma one_table_set_rep : hrep one_table_set {[name sample_table := sample_table]}.
Proof.
  destruct (exec_refines_map (HAdd sample_table) empty_table_set ∅ empty_table_set_rep)
    as (h' & Hx & R).
  { exact (proj1 sample_table_legal). }
  assert (hash_exec (HAdd sample_table) empty_table_set = (Ok (HRet RET_SUCCEED), one_table_set))
    as Hx' by (vm_compute; reflexivity).
  rewrite Hx' in Hx. apply (f_equal snd) in Hx. cbn [snd] in Hx. rewrite Hx. exact R.
Qed.

Example table_set_get_random_member_witness :
  ∃ r, table_set_get_random (with_tables one_table_set, 3%nat) =
      (Ok r, (with_tables one_table_set, 4%nat)) ∧
    match r with
    | None => {[name sample_table := sample_table]} = (∅ : gmap (list Z) table_t)
    | Some t => ∃ n, ({[name sample_table := sample_table]} : gmap (list Z) table_t) !! n = Some t
    end.
Proof.
  assert (malloc_ok (8 * hash_entry_count one_table_set) = true) as Hm
    by (vm_compute; reflexivity).
  pose proof (table_set_get_random_member (with_tables one_table_set) one_table_set _ 3 eq_refl
    one_table_set_rep Hm) as Hx.
  rewrite map_size_singleton in Hx. exact Hx.
Defined.
