(* ===== verification/Schemas.v ===== *)
(** * Schemas: the columns, schemas and table schemas stay well formed
    (src/src/table/cq_table.c)

    The abstract view of the three heaps of [Table] is a finite map from each
    schema to its columns and one from each table schema to its two schemas.
    Every sequence of the operations that build, change and release them keeps
    the heaps in that form: no column belongs to two schemas, none is used after
    it was released, and each is released once. *)

From stdpp Require Import base gmap list strings.
From Stdlib Require Import ZArith Lia.
From S2P Require Import Prelude Mylib Heap CText Table.
Local Open Scope Z_scope.

(** ** The heaps after one change *)

Section heaps.
Implicit Types (s : table_state) (cols : gmap loc (list table_data_t)) (p ts : loc).

(** A state that agrees on the schemas and on the live columns. *)
Lemma trep_in_frame own s s' cols : trep_in own s cols →
  (∀ p, is_Some (cols !! p) → cells (schema_objs s') !! p = cells (schema_objs s) !! p) →
  (∀ d, is_Some (cells (datas s) !! d) → cells (datas s') !! d = cells (datas s) !! d) →
  heap_wf (datas s') → trep_in own s' cols.
Proof.
  intros R Hp Hd Hw. pose proof R as [Rs Ro Rd Rw]. split; [|done..].
  intros p cs Hcs. destruct (Rs p cs Hcs) as (ds & Ho & Hrep). exists ds. split; [done|].
  apply (schema_rep_frame s); [done|by apply Hp; eexists|].
  intros d Hin. apply Hd. by eapply trep_live.
Qed.
Lemma trep_frame s s' cols : trep s cols →
  (∀ p, is_Some (cols !! p) → cells (schema_objs s') !! p = cells (schema_objs s) !! p) →
  (∀ d, is_Some (cells (datas s) !! d) → cells (datas s') !! d = cells (datas s) !! d) →
  heap_wf (datas s') → trep s' cols.
Proof. intros [own R] Hp Hd Hw. exists own. by eapply trep_in_frame. Qed.

Lemma trep_wf s cols : trep s cols → heap_wf (datas s).
Proof. intros [own R]. apply R. Qed.

Lemma trep_schema_live s cols p : trep s cols → is_Some (cols !! p) →
  is_Some (cells (schema_objs s) !! p).
Proof.
  intros [own R] [cs Hp]. destruct (tr_schema _ _ _ R p cs Hp) as (ds & _ & [(arr & Ho & _) _ _]).
  by eexists.
Qed.

(** A new schema, without columns. *)
Lemma trep_new s cols : trep s cols → heap_wf (schema_objs s) →
  let p := next_loc (schema_objs s) in
  let h := heap_set_at p (Schema (fresh_buffer 100) 100 0)
             (Heap (<[p := Schema Dangling 0 0]> (cells (schema_objs s))) (Pos.succ p)) in
  trep (TableState (datas s) h (table_schemas s) (cq_schema_set s) (cq_table_set s))
    (<[p := []]> cols) ∧ heap_wf h.
Proof.
  intros R Hwf p h. assert (heap_wf h) as Hh.
  { apply heap_set_at_wf; [cbn; by simplify_map_eq|by apply heap_new_wf]. }
  split; [|done]. pose proof (heap_fresh _ Hwf) as Hf. fold p in Hf.
  assert (∀ q, is_Some (cols !! q) → q ≠ p) as Hne.
  { intros q Hq ->. destruct (trep_schema_live _ _ _ R Hq). congruence. }
  destruct R as [own [Rs Ro Rd Rw]]. exists (<[p := []]> own). split; [| | |done].
  - intros q cs [[<- <-]|[Hq Hcs]]%lookup_insert_Some.
    + exists []. split; [apply lookup_insert_eq|]. split; [|constructor..].
      exists (replicate 100 None). split_and!; [|done|cbn; lia|done].
      unfold h. cbn. by rewrite lookup_insert_eq.
    + destruct (Rs q cs Hcs) as (ds & Ho & Hrep). exists ds. split; [by simplify_map_eq|].
      apply (schema_rep_frame s); [done| |done]. unfold h. cbn. by simplify_map_eq.
  - intros q ds [[<- <-]|[Hq Hds]]%lookup_insert_Some; [by eexists; simplify_map_eq|].
    destruct (Ro q ds Hds) as [cs Hcs]. exists cs. by simplify_map_eq.
  - intros p1 p2 ds1 ds2 [[<- <-]|[Hq1 Hd1]]%lookup_insert_Some
      [[<- <-]|[Hq2 Hd2]]%lookup_insert_Some Hpp.
    + done.
    + by intros x ?%not_elem_of_nil.
    + by intros x _ ?%not_elem_of_nil.
    + by apply (Rd p1 p2).
Qed.

(** The loop of [schema_destroy] after [i] columns [ds]. *)
Definition released (s : table_state) (ds : list loc) (s' : table_state) : Prop :=
  schema_objs s' = schema_objs s ∧ table_schemas s' = table_schemas s ∧
  (∀ d, cells (datas s') !! d = if decide (d ∈ ds) then None else cells (datas s) !! d) ∧
  heap_wf (datas s').

Lemma schema_destroy_loop s p arr ds : heap_wf (datas s) →
  cells (schema_objs s) !! p = Some (Schema (Live arr) 100 (Z.of_nat (length ds))) →
  (∀ i d, ds !! i = Some d → arr !! i = Some (Some (Some d))) →
  (∀ d, d ∈ ds → is_Some (cells (datas s) !! d)) → NoDup ds →
  ∃ s', mfor (Z.of_nat (length ds)) (λ i,
      s ← on_schemas (heap_get (Some p));
      p ← mlift (arr_read (schemas s) i);
      on_datas (table_data_destroy p)) s = (Ok (), s') ∧ released s ds s'.
Proof.
  intros Hw Ho Harr Hlive Hnd.
  destruct (mfor_inv ds (λ i,
      s ← on_schemas (heap_get (Some p));
      p ← mlift (arr_read (schemas s) i);
      on_datas (table_data_destroy p)) (λ i s', released s (take i ds) s') s)
    as (s' & Hm & Hr).
  - intros i d s1 Hi (Hso & Hts & Hd & Hw1).
    assert (is_Some (cells (datas s1) !! d)) as Hds.
    { rewrite Hd, decide_False; [apply Hlive; by eapply list_elem_of_lookup_2|].
      intros (j & Hj & Hji)%elem_of_take. pose proof (NoDup_lookup _ _ _ _ Hnd Hi Hj). lia. }
    eexists. split.
    + erewrite bind_ok by (apply on_schemas_read, heap_get_ok; rewrite Hso; exact Ho).
      erewrite bind_ok.
      2: { unfold mlift. cbn [schemas]. rewrite (arr_read_ok _ _ (Some d)); [reflexivity|lia|].
           rewrite Nat2Z.id. by apply Harr. }
      apply on_datas_ok. unfold table_data_destroy. destruct Hds as [c Hc].
      erewrite bind_ok by (by apply heap_get_ok). apply heap_free_ok. by eexists.
    + split_and!; [done|done| |by apply heap_free_wf]. cbn. intros d'.
      rewrite (take_S_r _ _ _ Hi). destruct (decide (d' = d)) as [->|Hne].
      * rewrite lookup_delete_eq, decide_True; [done|]. set_solver.
      * rewrite lookup_delete_ne, Hd by done. apply decide_ext. set_solver.
  - split_and!; [done|done| |done]. by intros d.
  - exists s'. split; [exact Hm|]. by rewrite firstn_all in Hr.
Qed.

Lemma schema_destroy_ok s cols p cs : trep s cols → cols !! p = Some cs →
  ∃ s', schema_destroy (Some p) s = (Ok (), s') ∧ trep s' (delete p cols) ∧
    table_schemas s' = table_schemas s ∧
    next_loc (schema_objs s') = next_loc (schema_objs s) ∧
    (heap_wf (schema_objs s) → heap_wf (schema_objs s')).
Proof.
  intros [own R] Hp. destruct (tr_schema _ _ _ R p cs Hp) as (ds & Hown & Hrep).
  destruct Hrep as [(arr & Ho & Hla & Hld & Harr) Hc Hnd].
  destruct (schema_destroy_loop s p arr ds (tr_wf _ _ _ R) Ho Harr) as (s1 & Hloop & Hr).
  { intros d Hd. by eapply trep_live. }
  { done. }
  destruct Hr as (Hso & Hts & Hd & Hw). eexists. split; [|split; [|split; [|split]]].
  - unfold schema_destroy. erewrite bind_ok by (by apply on_schemas_read, heap_get_ok).
    cbn [nschema]. erewrite bind_ok by exact Hloop.
    apply on_schemas_ok, heap_free_ok. rewrite Hso. by eexists.
  - exists (delete p own). destruct R as [Rs Ro Rd Rw]. split; cbn; [| | |done].
    + intros q cs' [Hne Hq]%lookup_delete_Some. destruct (Rs q cs' Hq) as (ds' & Hq' & Hrep').
      exists ds'. split; [by simplify_map_eq|]. apply (schema_rep_frame s); [done| |].
      * cbn. by rewrite lookup_delete_ne, Hso by done.
      * intros d Hin. cbn. rewrite Hd, decide_False; [done|].
        intros Hin2. by apply (Rd p q ds ds' Hown Hq' Hne d).
    + intros q ds' [Hne Hq]%lookup_delete_Some. destruct (Ro q ds' Hq) as [cs' Hcs].
      exists cs'. by simplify_map_eq.
    + intros p1 p2 ds1 ds2 [_ H1]%lookup_delete_Some [_ H2]%lookup_delete_Some. by apply Rd.
  - exact Hts.
  - cbn. by rewrite Hso.
  - intros Hwf. cbn. rewrite Hso. by apply heap_free_wf.
Qed.
End heaps.

(** ** Operations *)

(** What the parsers and the alter thread do to the heaps. *)
Inductive table_op :=
  | NewSchema
  | NewColumn (p : loc) (n : cstring) (type : table_data_type_t) (len : Z)
  | NewTableSchema (k v : loc)
  | AddColumn (ts : loc)
  | DropColumn (ts : loc)
  | FreeTableSchema (ts : loc).

Section exec.
Context `{Allocator} `{RandSource}.

Definition table_exec (op : table_op) : M (table_state * nat) () :=
  match op with
  | NewSchema => on_fst (on_schemas schema_init);; mret ()
  | NewColumn p n type len =>
      d ← on_fst (on_datas (table_data_init n type len));
      on_fst (on_schemas (schema_add (Some p) d));; mret ()
  | NewTableSchema k v => on_fst (on_table_schemas (table_schema_init (Some k) (Some v)));; mret ()
  | AddColumn ts => add_table_data (Some ts)
  | DropColumn ts => on_fst (drop_table_data (Some ts))
  | FreeTableSchema ts => on_fst (table_schema_destroy (Some ts))
  end.

Definition table_exec_all (ops : list table_op) : M (table_state * nat) () :=
  foldr (λ op k, table_exec op;; k) (mret ()) ops.

(** ** The abstract view *)

(** The maps, and the addresses of the next schema and table schema. *)
Record table_view := TableView {
  tv_cols : gmap loc (list table_data_t);
  tv_pairs : gmap loc (loc * loc);
  tv_schema : loc;
  tv_pair : loc;
}.

Definition with_cols (cols : gmap loc (list table_data_t)) (a : table_view) : table_view :=
  TableView cols (tv_pairs a) (tv_schema a) (tv_pair a).

(** What an operation does to it; [None] when the program must not do it. *)
Definition view_step (op : table_op) (s : table_view * nat) : option (table_view * nat) :=
  let '(a, r) := s in
  match op with
  | NewSchema =>
      Some (TableView (<[tv_schema a := []]> (tv_cols a)) (tv_pairs a)
              (Pos.succ (tv_schema a)) (tv_pair a), r)
  | NewColumn p n type len =>
      cs ← tv_cols a !! p;
      if bool_decide (Z.of_nat (length n) < 1000) then
        Some (if bool_decide (length cs < 100)%nat
              then with_cols (<[p := cs ++ [TableData n type len]]> (tv_cols a)) a else a, r)
      else None
  | NewTableSchema k v =>
      Some (TableView (tv_cols a) (<[tv_pair a := (k, v)]> (tv_pairs a)) (tv_schema a)
              (Pos.succ (tv_pair a)), r)
  | AddColumn ts =>
      '(_, v) ← tv_pairs a !! ts;
      cs ← tv_cols a !! v;
      if bool_decide (length cs < 100)%nat then
        Some (with_cols (<[v := cs ++ [drawn_column (Z.of_nat (length cs)) r]]> (tv_cols a)) a,
              drawn_rand r)
      else None
  | DropColumn ts =>
      '(_, v) ← tv_pairs a !! ts;
      cs ← tv_cols a !! v;
      match rev cs with
      | [] => None
      | _ :: rest => Some (with_cols (<[v := rev rest]> (tv_cols a)) a, r)
      end
  | FreeTableSchema ts =>
      '(k, v) ← tv_pairs a !! ts;
      _ ← tv_cols a !! k;
      _ ← delete k (tv_cols a) !! v;
      Some (TableView (delete v (delete k (tv_cols a))) (delete ts (tv_pairs a)) (tv_schema a)
              (tv_pair a), r)
  end.

Fixpoint view_steps (ops : list table_op) (s : table_view * nat) : option (table_view * nat) :=
  match ops with
  | [] => Some s
  | op :: ops => s ← view_step op s; view_steps ops s
  end.

(** The heaps have that view. *)
Record views (s : table_state) (a : table_view) : Prop := {
  vw_cols : trep s (tv_cols a);
  vw_pairs ts : cells (table_schemas s) !! ts =
    (λ '(k, v), TableSchema (Some k) (Some v)) <$> tv_pairs a !! ts;
  vw_schema_wf : heap_wf (schema_objs s);
  vw_pair_wf : heap_wf (table_schemas s);
  vw_schema : next_loc (schema_objs s) = tv_schema a;
  vw_pair : next_loc (table_schemas s) = tv_pair a;
}.

(** Memory for everything the operations ask for. *)
Context (Hmem : ∀ n, 0 < n ≤ 1024 → malloc_ok n = true).
Implicit Types (s : table_state) (cols : gmap loc (list table_data_t)) (p ts : loc).

(** A new schema, without columns. *)
Lemma schema_init_ok (h : heap schema_t) :
  schema_init h = (Ok (Some (next_loc h)),
    heap_set_at (next_loc h) (Schema (fresh_buffer 100) 100 0)
      (Heap (<[next_loc h := Schema Dangling 0 0]> (cells h)) (Pos.succ (next_loc h)))).
Proof using Hmem.
  unfold schema_init. erewrite bind_ok by (apply heap_new_ok, Hmem; by vm_compute).
  erewrite bind_ok by (apply cq_malloc_ok, Hmem; by vm_compute).
  erewrite bind_ok by (apply heap_update_ok; cbn; by simplify_map_eq). done.
Qed.

(** *** Each operation *)

Lemma new_schema_ok s a : views s a →
  ∃ s', on_schemas schema_init s = (Ok (Some (tv_schema a)), s') ∧
    views s' (TableView (<[tv_schema a := []]> (tv_cols a)) (tv_pairs a)
                (Pos.succ (tv_schema a)) (tv_pair a)).
Proof using Hmem.
  intros [Vc Vp Vs Vt Vn Vm]. destruct (trep_new s _ Vc Vs) as [R Hw]. rewrite <- Vn.
  eexists. split; [apply on_schemas_ok, schema_init_ok|by split].
Qed.

Lemma new_table_schema_ok s a k v : views s a →
  ∃ s', on_table_schemas (table_schema_init (Some k) (Some v)) s = (Ok (Some (tv_pair a)), s') ∧
    views s' (TableView (tv_cols a) (<[tv_pair a := (k, v)]> (tv_pairs a)) (tv_schema a)
                (Pos.succ (tv_pair a))).
Proof using Hmem.
  intros [Vc Vp Vs Vt Vn Vm]. rewrite <- Vm. eexists. split.
  - unfold on_table_schemas. erewrite zoom_ok; [reflexivity|].
    apply heap_new_ok, Hmem. by vm_compute.
  - split; cbn; [apply (trep_frame s); [done|done|done|exact (trep_wf _ _ Vc)]| |done|by apply heap_new_wf|done|done].
    intros ts. destruct (decide (ts = next_loc (table_schemas s))) as [->|Hne].
    + by rewrite !lookup_insert_eq.
    + by rewrite !lookup_insert_ne.
Qed.

Lemma new_column_ok s n type len : Z.of_nat (length n) < 1000 →
  on_datas (table_data_init n type len) s =
    (Ok (Some (next_loc (datas s))), with_column s (TableData n type len)).
Proof using Hmem.
  intros Hn. erewrite on_datas_ok.
  2: { apply table_data_init_ok; [by apply Hmem|]. rewrite u64_small by lia.
       apply Hmem. lia. }
  unfold heap_set_at, with_column. cbn. by rewrite insert_insert_eq.
Qed.

Lemma view_val_schema s a ts k v : views s a → tv_pairs a !! ts = Some (k, v) →
  cells (table_schemas s) !! ts = Some (TableSchema (Some k) (Some v)) ∧ val_schema_of s ts v.
Proof.
  intros V Hts. pose proof (vw_pairs _ _ V ts) as Hp. rewrite Hts in Hp. cbn in Hp.
  split; [done|]. unfold val_schema_of. by rewrite Hp.
Qed.

(** The columns of one schema changed, and no table schema. *)
Lemma views_with_cols s s' a cols : views s a → trep s' cols →
  table_schemas s' = table_schemas s →
  next_loc (schema_objs s') = next_loc (schema_objs s) →
  (heap_wf (schema_objs s) → heap_wf (schema_objs s')) →
  views s' (with_cols cols a).
Proof.
  intros [Vc Vp Vs Vt Vn Vm] R Ht Hn Hw. split; cbn; rewrite ?Ht; try done; [by apply Hw|].
  by rewrite Hn.
Qed.

Lemma exec_new_column s a p n type len cs r : views s a → tv_cols a !! p = Some cs →
  Z.of_nat (length n) < 1000 →
  ∃ s', table_exec (NewColumn p n type len) (s, r) = (Ok (), (s', r)) ∧
    views s' (if bool_decide (length cs < 100)%nat
              then with_cols (<[p := cs ++ [TableData n type len]]> (tv_cols a)) a else a).
Proof using Hmem.
  intros V Hp Hn. pose proof (vw_cols _ _ V) as R.
  assert (on_fst (on_datas (table_data_init n type len)) (s, r) =
    (Ok (Some (next_loc (datas s))), (with_column s (TableData n type len), r))) as Hinit
    by (by apply on_fst_ok, new_column_ok).
  cbn [table_exec]. erewrite bind_ok by exact Hinit. case_bool_decide as Hlt.
  - destruct (append_column s _ p cs (TableData n type len) R Hp Hlt) as (s' & Ha & R' & Ht & Hx & Hw).
    exists s'. split; [by erewrite bind_ok by (apply on_fst_ok; exact Ha)|].
    by apply (views_with_cols s).
  - destruct (schema_object _ _ _ _ R Hp) as (b & Ho & Hle).
    eexists. split.
    + erewrite bind_ok; [reflexivity|]. apply on_fst_ok, on_schemas_ok. unfold schema_add.
      erewrite bind_ok by (apply heap_get_ok; exact Ho). cbn [nschema schema_capacity].
      by rewrite (proj2 (Z.eqb_eq _ 100)) by lia.
    + destruct V as [Vc Vp Vs Vt Vn Vm]. split; try done. pose proof (trep_wf _ _ Vc) as Hw.
      apply (trep_frame s); [done|done| |by apply heap_new_wf].
      intros d Hd. cbn. rewrite lookup_insert_ne; [done|].
      intros <-. rewrite heap_fresh in Hd by done. by destruct Hd.
Qed.

Lemma table_schema_destroy_ok s cols ts k v ck cv : trep s cols →
  cells (table_schemas s) !! ts = Some (TableSchema (Some k) (Some v)) →
  cols !! k = Some ck → delete k cols !! v = Some cv →
  ∃ s', table_schema_destroy (Some ts) s = (Ok (), s') ∧ trep s' (delete v (delete k cols)) ∧
    table_schemas s' = Heap (delete ts (cells (table_schemas s))) (next_loc (table_schemas s)) ∧
    next_loc (schema_objs s') = next_loc (schema_objs s) ∧
    (heap_wf (schema_objs s) → heap_wf (schema_objs s')).
Proof.
  intros R Hc Hk Hv.
  destruct (schema_destroy_ok s _ k ck R Hk) as (s1 & H1 & R1 & Ht1 & Hn1 & Hw1).
  destruct (schema_destroy_ok s1 _ v cv R1 Hv) as (s2 & H2 & R2 & Ht2 & Hn2 & Hw2).
  assert (∀ s', table_schemas s' = table_schemas s →
    on_table_schemas (heap_get (Some ts)) s' = (Ok (TableSchema (Some k) (Some v)), s')) as Hget.
  { intros s' Hs'. unfold on_table_schemas. erewrite zoom_ok by (apply heap_get_ok; rewrite Hs'; exact Hc).
    by destruct s'. }
  eexists. split; [|split_and!].
  - unfold table_schema_destroy.
    erewrite bind_ok by by apply Hget. cbn [key_schema]. erewrite bind_ok by exact H1.
    erewrite bind_ok by by apply Hget. cbn [val_schema]. erewrite bind_ok by exact H2.
    unfold on_table_schemas. erewrite zoom_ok; [reflexivity|]. apply heap_free_ok.
    rewrite Ht2, Ht1, Hc. by eexists.
  - by apply (trep_frame s2); [..|exact (trep_wf _ _ R2)].
  - cbn. by rewrite Ht2, Ht1.
  - cbn. congruence.
  - intros Hw. by apply Hw2, Hw1.
Qed.

Lemma exec_free s a ts k v ck cv r : views s a → tv_pairs a !! ts = Some (k, v) →
  tv_cols a !! k = Some ck → delete k (tv_cols a) !! v = Some cv →
  ∃ s', table_exec (FreeTableSchema ts) (s, r) = (Ok (), (s', r)) ∧
    views s' (TableView (delete v (delete k (tv_cols a))) (delete ts (tv_pairs a))
                (tv_schema a) (tv_pair a)).
Proof.
  intros V Hts Hk Hv. destruct (view_val_schema _ _ _ _ _ V Hts) as [Hc _].
  pose proof V as [Vc Vp Vs Vt Vn Vm].
  destruct (table_schema_destroy_ok s _ ts k v ck cv Vc Hc Hk Hv) as (s' & Hd & R & Ht & Hn & Hw).
  exists s'. split; [by apply on_fst_ok|]. split; cbn; rewrite ?Ht; try done.
  - intros ts'. cbn. destruct (decide (ts' = ts)) as [->|Hne].
    + by rewrite !lookup_delete_eq.
    + by rewrite !lookup_delete_ne.
  - by apply Hw.
  - by apply heap_free_wf.
  - congruence.
Qed.

Lemma table_exec_ok op s a r a' r' : views s a → view_step op (a, r) = Some (a', r') →
  ∃ s', table_exec op (s, r) = (Ok (), (s', r')) ∧ views s' a'.
Proof using Hmem.
  intros V. pose proof V as [Vc Vp Vs Vt Vn Vm].
  destruct op as [|p n type len|k v|ts|ts|ts]; cbn [view_step].
  - intros [= <- <-]. destruct (new_schema_ok s a V) as (s' & Hi & V'). exists s'. split; [|done].
    cbn [table_exec]. by erewrite bind_ok by (apply on_fst_ok; exact Hi).
  - destruct (tv_cols a !! p) as [cs|] eqn:Hp; [|done]. cbn [mbind option_bind].
    case_bool_decide as Hn; [|done]. intros [= <- <-]. by apply exec_new_column.
  - intros [= <- <-]. destruct (new_table_schema_ok s a k v V) as (s' & Hi & V'). exists s'.
    split; [|done]. cbn [table_exec]. by erewrite bind_ok by (apply on_fst_ok; exact Hi).
  - destruct (tv_pairs a !! ts) as [[k v]|] eqn:Hts; [|done]. cbn [mbind option_bind].
    destruct (tv_cols a !! v) as [cs|] eqn:Hv; [|done]. cbn [mbind option_bind].
    case_bool_decide as Hlt; [|done]. intros [= <- <-].
    destruct (view_val_schema _ _ _ _ _ V Hts) as [_ Hval].
    destruct (add_table_data_runs s _ ts v cs r Vc Hval Hv Hlt) as (s' & Ha & R & Ht & Hn & Hw).
    { intros m Hm. apply Hmem. lia. }
    exists s'. split; [exact Ha|]. by apply (views_with_cols s).
  - destruct (tv_pairs a !! ts) as [[k v]|] eqn:Hts; [|done]. cbn [mbind option_bind].
    destruct (tv_cols a !! v) as [cs|] eqn:Hv; [|done]. cbn [mbind option_bind].
    destruct (rev cs) as [|c rest] eqn:Hr; [done|]. intros [= <- <-].
    assert (cs = rev rest ++ [c]) as -> by (rewrite <- (rev_involutive cs), Hr; done).
    destruct (view_val_schema _ _ _ _ _ V Hts) as [_ Hval].
    destruct (drop_table_data_ok s _ ts v (rev rest) c Vc Hval Hv) as (s' & Hd & R & Ht & Hn & Hw).
    exists s'. split; [by apply on_fst_ok|]. by apply (views_with_cols s).
  - destruct (tv_pairs a !! ts) as [[k v]|] eqn:Hts; [|done]. cbn [mbind option_bind].
    destruct (tv_cols a !! k) as [ck|] eqn:Hk; [|done]. cbn [mbind option_bind].
    destruct (delete k (tv_cols a) !! v) as [cv|] eqn:Hv; [|done]. cbn [mbind option_bind].
    intros [= <- <-]. by eapply exec_free.
Qed.

(** C20 (well-formed tables). The heaps of columns, schemas and table schemas keep their form under
    every sequence of the operations that create, fill, alter and release them: run on the heaps,
    the sequence does what it does on two finite maps, without a fault, every schema keeping its
    own columns and every column being released once. *)
Theorem tables_stay_well_formed ops s a r a' r' :
  views s a → view_steps ops (a, r) = Some (a', r') →
  ∃ s', table_exec_all ops (s, r) = (Ok (), (s', r')) ∧ views s' a'.
Proof using Hmem.
  revert s a r. induction ops as [|op ops IH]; intros s a r V Hs; cbn [view_steps] in Hs.
  - injection Hs as <- <-. by exists s.
  - destruct (view_step op (a, r)) as [[a1 r1]|] eqn:H1; [|done]. cbn [mbind option_bind] in Hs.
    destruct (table_exec_ok op s a r a1 r1 V H1) as (s1 & Hx & V1).
    destruct (IH s1 a1 r1 V1 Hs) as (s' & Hxs & V'). exists s'. split; [|done].
    cbn [table_exec_all foldr]. by erewrite bind_ok by exact Hx.
Qed.
End exec.

(** ** Witness *)

Local Existing Instance roomy_allocator.
Local Existing Instance counting_rand.

Definition no_tables : table_state :=
  TableState empty_heap empty_heap empty_heap SNull SNull.
Definition no_view : table_view := TableView ∅ ∅ 1%positive 1%positive.

Lemma no_tables_view : views no_tables no_view.
Proof.
  split; [|done|apply empty_heap_wf|apply empty_heap_wf|done|done].
  exists ∅. split; [by intros|by intros|by intros|apply empty_heap_wf].
Qed.

(** A table schema with a key and two values, altered and released. *)
Definition some_ops : list table_op :=
  [NewSchema; NewSchema; NewColumn 1%positive (text "id") BIGINT 0;
   NewColumn 2%positive (text "val") VARCHAR 20; NewTableSchema 1%positive 2%positive;
   AddColumn 1%positive; DropColumn 1%positive; AddColumn 1%positive; FreeTableSchema 1%positive].

Example tables_stay_well_formed_witness :
  ∃ s', table_exec_all some_ops (no_tables, 4%nat) = (Ok (), (s', 7%nat)) ∧
    views s' (TableView ∅ ∅ 3%positive 2%positive).
Proof.
  apply (tables_stay_well_formed) with (a := no_view).
  - intros n Hn. apply Z.leb_le. unfold PTRDIFF_MAX. lia.
  - exact no_tables_view.
  - vm_compute. reflexivity.
Defined.
