(* ===== verification/Races.v ===== *)
(** * Races: a schema that changes while it is read (src/src/table/cq_table.c)

    [Table] runs each function in one piece.  In the program the alter thread
    adds and drops columns while the engine threads, which take no lock, go
    through the same columns to write their statements.  Here the functions are
    cut where they touch the shared schema, and the pieces of one writer and of
    any number of readers are interleaved.  Additions are harmless: every reader
    finds the columns that the schema had at one moment of its reading.  A drop
    is not. *)

From stdpp Require Import base gmap list strings relations.
From Stdlib Require Import ZArith Lia.
From S2P Require Import Prelude Mylib Heap CText Table Schemas.
Local Open Scope Z_scope.

(** The tables, and the random numbers. *)
Notation memory := (table_state * nat)%type.

(** What the alter thread does to a table schema. *)
Inductive ddl := AddTo (ts : loc) | DropFrom (ts : loc).

(** Where it is: [ToStore p d] before [pschema->schemas[pschema->nschema] = d],
    [ToCount p] before [pschema->nschema++], [ToUncount p] before
    [--pschema_val->nschema]. *)
Inductive writer_at :=
  | Idle
  | ToStore (p d : option loc)
  | ToCount (p : option loc)
  | ToUncount (p : option loc).

(** A generator's loop over the value columns of [ts]: [At ts p n i acc] has
    read [acc] of the [n] columns of the schema [p] and goes on at index [i]. *)
Inductive reader_at :=
  | Begin (ts : loc)
  | At (ts : loc) (p : option loc) (n i : Z) (acc : list table_data_t)
  | Done (ts : loc) (acc : list table_data_t).

Section pieces.
Context `{Allocator} `{RandSource}.

(** [mysql_alter_add_table] up to the array of columns. *)
Definition add_begins (ts : loc) : M memory writer_at :=
  full ← on_fst (is_table_schema_full (Some ts));
  if (full : bool) then mret Idle else
    pschema_val ← on_fst (on_table_schemas (get_table_val_schema (Some ts)));
    s ← on_fst (on_schemas (heap_get pschema_val));
    data_name ← col_name (nschema s);
    pdata ← draw_column data_name;
    mret (ToStore pschema_val pdata).

(** [drop_table_data] up to the counter. *)
Definition drop_begins (ts : loc) : M memory writer_at :=
  tso ← on_fst (on_table_schemas (heap_get (Some ts)));
  let pschema_val := val_schema tso in
  s ← on_fst (on_schemas (heap_get pschema_val));
  p ← mlift (arr_read (schemas s) (nschema s - 1));
  on_fst (on_datas (table_data_destroy p));;
  mret (ToUncount pschema_val).

(** [schema_add] up to the counter; the answer: whether there was room. *)
Definition store_column (pschema pdata : option loc) : M (heap schema_t) bool :=
  s ← heap_get pschema;
  if nschema s =? schema_capacity s then mret false else
    b ← mlift (arr_write (schemas s) (nschema s) pdata);
    heap_update pschema (set_schemas b);;
    mret true.
Definition count_column (pschema : option loc) : M (heap schema_t) () :=
  heap_update pschema (λ s, set_nschema (nschema s + 1) s).
Definition uncount_column (pschema : option loc) : M (heap schema_t) () :=
  heap_update pschema (λ s, set_nschema (nschema s - 1) s).

Definition writer_turn (op : ddl) (w : writer_at) : M memory writer_at :=
  match w with
  | Idle => match op with AddTo ts => add_begins ts | DropFrom ts => drop_begins ts end
  | ToStore p d => stored ← on_fst (on_schemas (store_column p d));
                   mret (if (stored : bool) then ToCount p else Idle)
  | ToCount p => on_fst (on_schemas (count_column p));; mret Idle
  | ToUncount p => on_fst (on_schemas (uncount_column p));; mret Idle
  end.

(** The array is read through the schema: it never moves. *)
Definition reader_turn (r : reader_at) : M memory reader_at :=
  match r with
  | Begin ts =>
      tso ← on_fst (on_table_schemas (heap_get (Some ts)));
      s ← on_fst (on_schemas (heap_get (val_schema tso)));
      mret (At ts (val_schema tso) (nschema s) 0 [])
  | At ts p n i acc =>
      if i <? n then
        s ← on_fst (on_schemas (heap_get p));
        d ← mlift (arr_read (schemas s) i);
        c ← on_fst (on_datas (heap_get d));
        mret (At ts p n (i + 1) (acc ++ [c]))
      else mret (Done ts acc)
  | Done ts acc => mret (Done ts acc)
  end.

Record race := Race { r_memory : memory; r_writer : writer_at; r_readers : list reader_at }.

(** One turn of the writer, which may start the operations of [may], or of a
    reader; a fault ends the program. *)
Inductive race_turn (may : ddl → Prop) : race → race + stop → Prop :=
  | writer_steps op m w rs r m' :
      (w = Idle → may op) → writer_turn op w m = (r, m') →
      race_turn may (Race m w rs)
        (match r with Ok w' => inl (Race m' w' rs) | Stop f => inr f end)
  | reader_steps j r0 m w rs r m' :
      rs !! j = Some r0 → reader_turn r0 m = (r, m') →
      race_turn may (Race m w rs)
        (match r with Ok r1 => inl (Race m' w (<[j := r1]> rs)) | Stop f => inr f end).

Definition races (may : ddl → Prop) (c c' : race) : Prop := race_turn may c (inl c').
End pieces.

(** ** Without interruption *)

Section alone.
Context `{Allocator} `{RandSource}.

(** The turns of a writer until it is idle again. *)
Definition writer_alone (op : ddl) : M memory () :=
  w ← writer_turn op Idle;
  w ← match w with Idle => mret Idle | _ => writer_turn op w end;
  match w with Idle => mret () | _ => writer_turn op w;; mret () end.

Fixpoint reader_alone (k : nat) (r : reader_at) : M memory reader_at :=
  match k with
  | O => mret r
  | S k => r ← reader_turn r; reader_alone k r
  end.

Lemma bind_ret {S A B} (a : A) (f : A → M S B) s : (mret a ≫= f) s = f a s.
Proof. done. Qed.
Lemma bind_same {S A B} (m m' : M S A) (f : A → M S B) s :
  m s = m' s → (m ≫= f) s = (m' ≫= f) s.
Proof. intros Hm. unfold mbind, M_mbind. by rewrite Hm. Qed.

(** The pieces make up the functions of [Table]. *)
Lemma schema_add_pieces p d h :
  schema_add p d h =
    (stored ← store_column p d;
     if (stored : bool) then count_column p;; mret RET_SUCCEED else mret RET_FAILED) h.
Proof.
  unfold schema_add, store_column. rewrite bind_assoc. apply bind_ext. intros s h1 _.
  destruct (_ =? _); [done|]. rewrite bind_assoc. apply bind_ext. intros b h2 _.
  by rewrite bind_assoc.
Qed.

Lemma on_schemas_bind {A B} (m : M (heap schema_t) A) (f : A → M (heap schema_t) B) s :
  on_schemas (m ≫= f) s = (on_schemas m ≫= λ a, on_schemas (f a)) s.
Proof.
  unfold on_schemas, zoom, mbind, M_mbind. by destruct (m (schema_objs s)) as [[a|w] h].
Qed.

Lemma on_schemas_ext {A} (m m' : M (heap schema_t) A) (s : memory) :
  (∀ h, m h = m' h) → on_fst (on_schemas m) s = on_fst (on_schemas m') s.
Proof. intros Hm. unfold on_fst, on_schemas, zoom. by rewrite Hm. Qed.

Lemma on_fst_lift {S1 S2 A} (r : res A) (s : S1 * S2) : on_fst (mlift r) s = mlift r s.
Proof. by destruct s. Qed.

Lemma on_both_bind {A B} (m : M (heap schema_t) A) (f : A → M (heap schema_t) B) (s : memory) :
  on_fst (on_schemas (m ≫= f)) s =
    (on_fst (on_schemas m) ≫= λ a, on_fst (on_schemas (f a))) s.
Proof. rewrite <- on_fst_bind. unfold on_fst, zoom. by rewrite on_schemas_bind. Qed.

Lemma writer_alone_adds ts m :
  writer_alone (AddTo ts) m =
    (full ← on_fst (is_table_schema_full (Some ts));
     if (full : bool) then mret () else add_table_data (Some ts)) m.
Proof.
  unfold writer_alone. cbn [writer_turn]. unfold add_begins, add_table_data.
  rewrite bind_assoc. apply bind_ext. intros full m1 _. destruct full; [done|].
  do 4 (rewrite bind_assoc; apply bind_ext; intros ???).
  transitivity ((stored ← on_fst (on_schemas (store_column a a2));
    if (stored : bool) then on_fst (on_schemas (count_column a));; mret () else mret ()) s'2).
  - rewrite bind_ret. cbn [writer_turn]. rewrite bind_assoc. apply bind_ext.
    intros [] s2 _; [|done]. rewrite bind_ret. cbn [writer_turn]. by rewrite bind_assoc.
  - symmetry. erewrite bind_same.
    2: { rewrite (on_schemas_ext _ _ _ (schema_add_pieces a a2)). apply on_both_bind. }
    rewrite bind_assoc. apply bind_ext. intros [] s2 _; [|by destruct s2 as [[] ?]].
    erewrite bind_same by apply on_both_bind. rewrite bind_assoc. apply bind_ext.
    by intros [] [[] ?] _.
Qed.

Lemma writer_alone_drops ts m :
  writer_alone (DropFrom ts) m = on_fst (drop_table_data (Some ts)) m.
Proof.
  unfold writer_alone. cbn [writer_turn]. unfold drop_begins, drop_table_data.
  rewrite bind_assoc, on_fst_bind. apply bind_ext. intros tso m1 _.
  rewrite bind_assoc, on_fst_bind. apply bind_ext. intros s m2 _.
  rewrite bind_assoc, on_fst_bind, (bind_same _ _ _ _ (on_fst_lift _ m2)).
  apply bind_ext. intros d m3 _. rewrite bind_assoc, on_fst_bind. apply bind_ext. intros [] m4 _.
  rewrite bind_ret. cbn [writer_turn]. rewrite bind_assoc.
  unfold mbind, M_mbind, mret, M_mret, uncount_column. cbn beta.
  by destruct (on_fst (on_schemas _) m4) as [[[]|w] m5].
Qed.

(** What one more turn of a reader reads. *)
Lemma reader_turn_at ts p so n i acc s k d c :
  cells (schema_objs s) !! p = Some so → i < n →
  arr_read (schemas so) i = Ok (Some d) → cells (datas s) !! d = Some c →
  reader_turn (At ts (Some p) n i acc) (s, k) =
    (Ok (At ts (Some p) n (i + 1) (acc ++ [c])), (s, k)).
Proof.
  intros Hp Hi Hd Hc. cbn [reader_turn]. rewrite (proj2 (Z.ltb_lt i n) Hi).
  erewrite bind_ok by (by apply on_fst_ok, on_schemas_read, heap_get_ok).
  unfold mlift. rewrite Hd. erewrite bind_ok by reflexivity.
  by erewrite bind_ok by (by apply on_fst_ok, on_datas_read, heap_get_ok).
Qed.

Lemma reader_turn_begins ts p so s k :
  val_schema_of s ts p → cells (schema_objs s) !! p = Some so →
  reader_turn (Begin ts) (s, k) = (Ok (At ts (Some p) (nschema so) 0 []), (s, k)).
Proof.
  intros Hv Hp. cbn [reader_turn]. destruct (table_schema_ok _ _ _ Hv) as (tso & Hts & Hvs).
  erewrite bind_ok by (apply on_fst_ok; exact Hts). rewrite Hvs.
  by erewrite bind_ok by (by apply on_fst_ok, on_schemas_read, heap_get_ok).
Qed.

Lemma reader_alone_loop ts p so k i acc s r cs :
  cells (schema_objs s) !! p = Some so →
  read_columns (schemas so) k i s = (Ok cs, s) →
  reader_alone (S k) (At ts (Some p) (i + Z.of_nat k) i acc) (s, r) =
    (Ok (Done ts (acc ++ cs)), (s, r)).
Proof.
  intros Hp. revert i acc cs. induction k as [|k IH]; intros i acc cs Hr; cbn [read_columns] in Hr.
  - injection Hr as <-. cbn [reader_alone reader_turn].
    rewrite (proj2 (Z.ltb_ge i _)) by lia. by rewrite app_nil_r.
  - destruct (arr_read (schemas so) i) as [[d|]|w] eqn:Hd; [|done..].
    unfold mlift in Hr. erewrite bind_ok in Hr by reflexivity.
    destruct (cells (datas s) !! d) as [c|] eqn:Hc.
    2: { unfold mbind, M_mbind, on_datas, zoom, heap_get in Hr. by rewrite Hc in Hr. }
    erewrite bind_ok in Hr by (by apply on_datas_read, heap_get_ok).
    destruct (read_columns (schemas so) k (i + 1) s) as [[cs1|w] s1] eqn:Hr1.
    2: { by erewrite bind_stop in Hr by exact Hr1. }
    erewrite bind_ok in Hr by exact Hr1. injection Hr as <- ->.
    change (reader_alone (S (S k)) ?r0) with (r1 ← reader_turn r0; reader_alone (S k) r1).
    erewrite bind_ok by (apply (reader_turn_at ts p so _ _ _ s r d c); [done|lia|done..]).
    replace (i + Z.of_nat (S k)) with ((i + 1) + Z.of_nat k) by lia.
    rewrite (IH (i + 1) (acc ++ [c]) cs1 Hr1). by rewrite <- app_assoc.
Qed.
End alone.

(** ** Additions *)

Section additions.
Context `{Allocator} `{RandSource}.
Context (Hmem : ∀ n, 0 < n ≤ 16 → malloc_ok n = true).
Implicit Types (s : table_state) (own : gmap loc (list loc))
  (cols : gmap loc (list table_data_t)) (ts p d : loc).

(** The value columns of [ts]. *)
Definition columns_of (m : memory) ts : res (list table_data_t) :=
  (table_val_columns (Table [] (Some ts)) m.1).1.

(** Every schema has the columns it had, and maybe more. *)
Definition extended cols cols' : Prop :=
  ∀ p cs, cols !! p = Some cs → ∃ rest, cols' !! p = Some (cs ++ rest).

(** A column that waits to be added is in no schema. *)
Definition waiting own s cols p d : Prop :=
  (∀ q ds, own !! q = Some ds → d ∉ ds) ∧ is_Some (cells (datas s) !! d) ∧
  ∃ cs, cols !! p = Some cs ∧ (length cs < 100)%nat.

Definition stored s p d : Prop :=
  ∃ arr n, cells (schema_objs s) !! p = Some (Schema (Live arr) 100 (Z.of_nat n)) ∧
    arr !! n = Some (Some (Some d)).

Definition writer_fits own s cols (w : writer_at) : Prop :=
  match w with
  | Idle => True
  | ToStore q e => ∃ p d, q = Some p ∧ e = Some d ∧ waiting own s cols p d
  | ToCount q => ∃ p d, q = Some p ∧ waiting own s cols p d ∧ stored s p d
  | ToUncount _ => False
  end.

(** The table schema [ts] can be read and extended. *)
Definition valid_schema s cols ts : Prop := ∃ p, val_schema_of s ts p ∧ is_Some (cols !! p).

Definition reader_fits (seen : loc → list table_data_t → Prop) s cols (r : reader_at) : Prop :=
  match r with
  | Begin ts => valid_schema s cols ts
  | At ts q n i acc => ∃ p cs rest, q = Some p ∧ cols !! p = Some (cs ++ rest) ∧ seen ts cs ∧
      n = Z.of_nat (length cs) ∧ 0 ≤ i ≤ n ∧ acc = take (Z.to_nat i) cs
  | Done ts acc => seen ts acc
  end.

Lemma full_ok own s cols ts p cs :
  trep_in own s cols → val_schema_of s ts p → cols !! p = Some cs →
  is_table_schema_full (Some ts) s = (Ok (100 <=? Z.of_nat (length cs)), s) ∧
  ∃ b, cells (schema_objs s) !! p = Some (Schema b 100 (Z.of_nat (length cs))) ∧
    (length cs ≤ 100)%nat.
Proof.
  intros R Hv Hp. destruct (schema_object s cols p cs (ex_intro _ own R) Hp) as (b & Ho & Hl).
  split; [|by exists b]. unfold is_table_schema_full. erewrite bind_ok by by apply val_schema_ok.
  by erewrite bind_ok by (by apply on_schemas_read, heap_get_ok).
Qed.

(** The column is drawn: nobody can reach it. *)
Lemma add_begins_fits own s cols ts k :
  trep_in own s cols → valid_schema s cols ts →
  ∃ w s' k', add_begins ts (s, k) = (Ok w, (s', k')) ∧ trep_in own s' cols ∧
    writer_fits own s' cols w ∧ table_schemas s' = table_schemas s.
Proof using Hmem.
  intros R (p & Hv & cs & Hp). destruct (full_ok _ _ _ _ _ _ R Hv Hp) as (Hfull & b & Ho & Hl).
  unfold add_begins. erewrite bind_ok by (apply on_fst_ok; exact Hfull).
  destruct (Z.leb_spec 100 (Z.of_nat (length cs))) as [Hge|Hlt]; [by eexists _, _, _|].
  destruct (col_name_ok (Z.of_nat (length cs)) (s, k) ltac:(lia)) as [Hcol Hcl].
  pose proof (draw_column_ok (Z.of_nat (length cs)) s k ltac:(by apply Hmem)
    ltac:(rewrite u64_small by lia; apply Hmem; lia)) as Hdraw.
  pose proof (heap_fresh _ (tr_wf _ _ _ R)) as Hfresh.
  erewrite bind_ok by (apply on_fst_ok; by apply val_schema_ok).
  erewrite bind_ok by (by apply on_fst_ok, on_schemas_read, heap_get_ok).
  cbn [nschema]. erewrite bind_ok by exact Hcol. erewrite bind_ok by exact Hdraw.
  eexists _, _, _. split; [reflexivity|]. split_and!; [| |done].
  - apply (trep_in_frame _ s); [done..| |by apply heap_new_wf, R].
    intros d [c Hc]. cbn. rewrite lookup_insert_ne; [done|]. congruence.
  - eexists p, _. split_and!; [done|done|]. split_and!.
    + intros q ds Hq Hin. destruct (trep_live _ _ _ _ _ _ R Hq Hin). congruence.
    + cbn. rewrite lookup_insert_eq. by eexists.
    + exists cs. split; [done|lia].
Qed.

Lemma store_fits own s cols p d :
  trep_in own s cols → waiting own s cols p d →
  ∃ s', on_schemas (store_column (Some p) (Some d)) s = (Ok true, s') ∧ trep_in own s' cols ∧
    waiting own s' cols p d ∧ stored s' p d ∧ table_schemas s' = table_schemas s.
Proof.
  intros R (Hnin & Hlive & cs & Hp & Hlt).
  destruct (tr_schema _ _ _ R p cs Hp) as (ds & Hown & Hrep).
  destruct Hrep as [(arr & Ho & Hla & Hld & Harr) Hc Hnd].
  pose proof (Forall2_length _ _ _ Hc) as Hlen.
  set (so := Schema (Live (<[length ds := Some (Some d)]> arr)) 100 (Z.of_nat (length ds))).
  eexists. split; [|split; [|split; [|split]]].
  - apply on_schemas_ok. unfold store_column. erewrite bind_ok by by apply heap_get_ok.
    cbn [nschema schema_capacity schemas]. rewrite (proj2 (Z.eqb_neq _ 100)) by lia.
    erewrite bind_ok by (unfold mlift; rewrite arr_write_ok by lia; reflexivity).
    erewrite bind_ok by by apply heap_update_ok. unfold set_schemas. cbn.
    rewrite Nat2Z.id. reflexivity.
  - destruct R as [Rs Ro Rd Rw]. split; [|done..].
    intros q cs' Hq. destruct (decide (q = p)) as [->|Hne]; simplify_map_eq.
    + exists ds. split; [done|]. split; [|done..]. exists (<[length ds := Some (Some d)]> arr).
      cbn. rewrite lookup_insert_eq, length_insert. split_and!; [done..|].
      intros i d' Hi. rewrite list_lookup_insert_ne; [by apply Harr|].
      apply lookup_lt_Some in Hi. lia.
    + destruct (Rs q cs' Hq) as (ds' & Hq' & Hrep'). exists ds'. split; [done|].
      apply (schema_rep_frame s); [done| |done]. cbn. by rewrite lookup_insert_ne.
  - split_and!; [done..|]. by exists cs.
  - eexists _, (length ds). cbn. rewrite lookup_insert_eq. split; [reflexivity|].
    apply list_lookup_insert_eq. lia.
  - done.
Qed.

Lemma count_fits own s cols p d :
  trep_in own s cols → waiting own s cols p d → stored s p d →
  ∃ s' own' cols', on_schemas (count_column (Some p)) s = (Ok (), s') ∧ trep_in own' s' cols' ∧
    extended cols cols' ∧ table_schemas s' = table_schemas s.
Proof.
  intros R (Hnin & [c Hlive] & cs & Hp & Hlt) (arr & n & Ho & Hcell).
  destruct (tr_schema _ _ _ R p cs Hp) as (ds & Hown & Hrep).
  destruct Hrep as [(arr' & Ho' & Hla & Hld & Harr) Hc Hnd].
  rewrite Ho in Ho'. injection Ho' as <- ->%Nat2Z.inj.
  pose proof (Forall2_length _ _ _ Hc) as Hlen.
  eexists _, (<[p := ds ++ [d]]> own), (<[p := cs ++ [c]]> cols). split_and!.
  - apply on_schemas_ok. by apply heap_update_ok.
  - apply (trep_join own s _ _ _ _ c); try done; cbn.
    + apply R.
    + by intros q Hq; rewrite lookup_insert_ne.
    + intros arr2 Ho2. rewrite Ho in Ho2. injection Ho2 as <-. rewrite lookup_insert_eq.
      unfold set_nschema. cbn. by rewrite list_insert_id by done.
  - intros q csq Hq. destruct (decide (q = p)) as [->|Hne]; simplify_map_eq; [by eexists|].
    exists []. by rewrite app_nil_r.
  - done.
Qed.

Lemma extended_refl cols : extended cols cols.
Proof. intros p cs Hp. exists []. by rewrite app_nil_r. Qed.

Lemma valid_schema_extended s s' cols cols' ts :
  extended cols cols' → table_schemas s' = table_schemas s →
  valid_schema s cols ts → valid_schema s' cols' ts.
Proof.
  intros He Hts (p & Hv & cs & Hp). destruct (He p cs Hp) as [rest Hp'].
  exists p. split; [unfold val_schema_of; by rewrite Hts|by eexists].
Qed.

Lemma reader_fits_extended (seen seen' : loc → list table_data_t → Prop) s s' cols cols' r :
  extended cols cols' → table_schemas s' = table_schemas s →
  (∀ ts cs, seen ts cs → seen' ts cs) →
  reader_fits seen s cols r → reader_fits seen' s' cols' r.
Proof.
  intros He Hts Hs. destruct r as [ts|ts q n i acc|ts acc]; cbn.
  - by apply valid_schema_extended.
  - intros (p & cs & rest & -> & Hp & Hseen & Hn & Hi & Hacc).
    destruct (He p _ Hp) as [rest' Hp']. exists p, cs, (rest ++ rest').
    rewrite <- app_assoc in Hp'. split_and!; first [done|by apply Hs|lia].
  - apply Hs.
Qed.

(** The writer's turn. *)
Lemma writer_adds own s cols k w ts :
  trep_in own s cols → writer_fits own s cols w → (w = Idle → valid_schema s cols ts) →
  ∃ w' s' k' own' cols', writer_turn (AddTo ts) w (s, k) = (Ok w', (s', k')) ∧
    trep_in own' s' cols' ∧ writer_fits own' s' cols' w' ∧ extended cols cols' ∧
    table_schemas s' = table_schemas s.
Proof using Hmem.
  intros R Hw Hts. destruct w as [|q e|q|q]; cbn [writer_turn].
  - destruct (add_begins_fits own s cols ts k R (Hts eq_refl)) as (w & s' & k' & ? & ? & ? & ?).
    exists w, s', k', own, cols. by split_and!; [..|apply extended_refl|].
  - destruct Hw as (p & d & -> & -> & Hw).
    destruct (store_fits own s cols p d R Hw) as (s' & Hst & R' & Hw' & Hs' & Ht').
    exists (ToCount (Some p)), s', k, own, cols. split_and!; [|done| |apply extended_refl|done].
    + by erewrite bind_ok by (apply on_fst_ok; exact Hst).
    + by exists p, d.
  - destruct Hw as (p & d & -> & Hw & Hs).
    destruct (count_fits own s cols p d R Hw Hs) as (s' & own' & cols' & Hc & R' & He & Ht').
    exists Idle, s', k, own', cols'. split_and!; [|done..].
    by erewrite bind_ok by (apply on_fst_ok; exact Hc).
  - done.
Qed.

(** A reader's turn. *)
Lemma reader_reads own s cols k seen r :
  trep_in own s cols → reader_fits seen s cols r →
  (∀ ts cs, columns_of (s, k) ts = Ok cs → seen ts cs) →
  ∃ r', reader_turn r (s, k) = (Ok r', (s, k)) ∧ reader_fits seen s cols r'.
Proof.
  intros R Hr Hnow. destruct r as [ts|ts q n i acc|ts acc]; [| |by eexists].
  - destruct Hr as (p & Hv & cs & Hp). destruct (full_ok _ _ _ _ _ _ R Hv Hp) as (_ & b & Ho & _).
    eexists. split; [by apply (reader_turn_begins _ _ _ _ _ Hv Ho)|].
    exists p, cs, []. rewrite app_nil_r. split_and!; [done|done| |done|done|cbn; lia|done].
    apply Hnow. unfold columns_of. cbn.
    by rewrite (table_val_columns_ok s cols _ ts p cs (ex_intro _ own R)).
  - destruct Hr as (p & cs & rest & -> & Hp & Hseen & -> & Hi & ->).
    destruct (tr_schema _ _ _ R p _ Hp) as (ds & _ & [(arr & Ho & Hla & Hld & Harr) Hc _]).
    destruct (decide (i < Z.of_nat (length cs))) as [Hlt|Hge].
    + destruct (lookup_lt_is_Some_2 cs (Z.to_nat i)) as [c Hci]; [lia|].
      destruct (Forall2_lookup_r _ _ _ (Z.to_nat i) c Hc) as (d & Hd & Hdc).
      { by apply lookup_app_l_Some. }
      eexists. split.
      { eapply reader_turn_at; [exact Ho|done| |exact Hdc].
        apply arr_read_ok; [lia|]. by apply Harr. }
      exists p, cs, rest. split_and!; [done|done|done|done|lia|lia|].
      replace (Z.to_nat (i + 1)) with (S (Z.to_nat i)) by lia. by rewrite (take_S_r _ _ c).
    + exists (Done ts cs). split; [|done]. cbn [reader_turn].
      rewrite (proj2 (Z.ltb_ge i _)) by lia. by rewrite take_ge by lia.
Qed.

(** ** The interleavings *)

(** At some moment between [c0] and [c] the schema [ts] had the columns [cs]. *)
Definition seen_between (may : ddl → Prop) (c0 c : race) ts cs : Prop :=
  ∃ c1, rtc (races may) c0 c1 ∧ rtc (races may) c1 c ∧ columns_of (r_memory c1) ts = Ok cs.

(** Only additions, to table schemas of [tss]. *)
Definition adds_to (tss : list loc) (op : ddl) : Prop := ∃ ts, op = AddTo ts ∧ ts ∈ tss.

Definition race_fits (tss : list loc) (c0 c : race) : Prop :=
  rtc (races (adds_to tss)) c0 c ∧
  ∃ own cols, trep_in own (r_memory c).1 cols ∧
    writer_fits own (r_memory c).1 cols (r_writer c) ∧
    Forall (reader_fits (seen_between (adds_to tss) c0 c) (r_memory c).1 cols) (r_readers c) ∧
    Forall (valid_schema (r_memory c).1 cols) tss.

Lemma seen_between_later may c0 c c' ts cs :
  races may c c' → seen_between may c0 c ts cs → seen_between may c0 c' ts cs.
Proof.
  intros Hstep (c1 & H1 & H2 & Hc). exists c1. split_and!; [done| |done]. by eapply rtc_r.
Qed.

Lemma race_fits_step tss c0 c o :
  race_fits tss c0 c → race_turn (adds_to tss) c o → ∃ c', o = inl c' ∧ race_fits tss c0 c'.
Proof using Hmem.
  intros (Hrtc & own & cols & R & Hw & Hrs & Htss) Hstep. pose proof Hstep as Hstep0.
  destruct Hstep as [op [s k] w rs r m' Hop Hturn|j r0 [s k] w rs r m' Hj Hturn];
    cbn [r_memory r_writer r_readers fst] in *.
  - assert (∃ ts, (w = Idle → op = AddTo ts ∧ ts ∈ tss) ∧
      writer_turn op w (s, k) = writer_turn (AddTo ts) w (s, k)) as (ts & Hidle & Hsame).
    { destruct w; [|by exists 1%positive..]. destruct (Hop eq_refl) as (ts & -> & Hin).
      by exists ts. }
    destruct (writer_adds own s cols k w ts R Hw) as
      (w' & s' & k' & own' & cols' & Hadd & R' & Hw' & He & Hts).
    { intros Hi. destruct (Hidle Hi) as [_ Hin]. rewrite Forall_forall in Htss. by apply Htss. }
    rewrite Hsame, Hadd in Hturn. injection Hturn as <- <-. eexists. split; [done|].
    split; [by eapply rtc_r|]. exists own', cols'. split_and!; [done|done| |].
    + eapply Forall_impl; [exact Hrs|]. intros r0. apply reader_fits_extended; [done|done|].
      intros ts1 cs1. by apply seen_between_later.
    + eapply Forall_impl; [exact Htss|]. intros ts1. by apply valid_schema_extended.
  - pose proof (Forall_lookup_1 _ _ _ _ Hrs Hj) as Hr0.
    destruct (reader_reads own s cols k _ r0 R Hr0) as (r1 & Hread & Hr1).
    { intros ts cs Hcs. exists (Race (s, k) w rs). by split_and!. }
    rewrite Hread in Hturn. injection Hturn as <- <-. eexists. split; [done|].
    split; [by eapply rtc_r|]. exists own, cols. split_and!; [done|done| |done].
    assert (∀ r, reader_fits (seen_between (adds_to tss) c0 (Race (s, k) w rs)) s cols r →
      reader_fits (seen_between (adds_to tss) c0 (Race (s, k) w (<[j:=r1]> rs))) s cols r) as Hl.
    { intros r. apply reader_fits_extended; [apply extended_refl|done|].
      intros ts1 cs1. by apply seen_between_later. }
    apply Forall_insert; [|by apply Hl]. eapply Forall_impl; [exact Hrs|exact Hl].
Qed.

Lemma race_fits_reachable tss c0 c1 c :
  race_fits tss c0 c1 → rtc (races (adds_to tss)) c1 c → race_fits tss c0 c.
Proof using Hmem.
  intros Hfit Hrtc. induction Hrtc as [|c1 c2 c Hstep Hrtc IH]; [done|]. apply IH.
  by destruct (race_fits_step _ _ _ _ Hfit Hstep) as (c' & [= <-] & Hc').
Qed.

(** C21 (safety). While columns are only added, the readers, that take no lock, are safe: in every
    interleaving with the pieces of [add_table_data], at any number of readers,
    no reader is stopped by a fault, and the columns a reader has at its end are
    exactly those its table schema had at one moment between the start and then. *)
Theorem additions_are_seen_whole tss s cols k readers c :
  trep s cols → Forall (valid_schema s cols) tss →
  Forall (λ r, ∃ ts, r = Begin ts ∧ valid_schema s cols ts) readers →
  rtc (races (adds_to tss)) (Race (s, k) Idle readers) c →
  (∀ o, race_turn (adds_to tss) c o → ∃ c', o = inl c') ∧
  (∀ j ts cs, r_readers c !! j = Some (Done ts cs) →
     seen_between (adds_to tss) (Race (s, k) Idle readers) c ts cs).
Proof using Hmem.
  intros [own R] Htss Hrs Hrtc. set (c0 := Race (s, k) Idle readers) in *.
  assert (race_fits tss c0 c0) as Hfit0.
  { split; [done|]. exists own, cols. split_and!; [done|done| |done].
    eapply Forall_impl; [exact Hrs|]. by intros r (ts & -> & Hv). }
  pose proof (race_fits_reachable _ _ _ _ Hfit0 Hrtc) as Hfit.
  split.
  - intros o Ho. destruct (race_fits_step _ _ _ _ Hfit Ho) as (c' & -> & _). by exists c'.
  - intros j ts cs Hj. destruct Hfit as (_ & own' & cols' & _ & _ & Hfits & _).
    exact (Forall_lookup_1 _ _ _ _ Hfits Hj).
Qed.
End additions.

(** ** A drop *)

Section drops.
Context `{Allocator} `{RandSource}.
Implicit Types (s : table_state) (cols : gmap loc (list table_data_t)) (ts p d : loc).

(** A reader that is not interrupted, up to the index [i]. *)
Lemma reader_reaches may s k w rs j ts p arr ds cs n (i : nat) :
  cells (schema_objs s) !! p = Some (Schema (Live arr) 100 n) →
  (∀ i d, ds !! i = Some d → arr !! i = Some (Some (Some d))) →
  Forall2 (λ d c, cells (datas s) !! d = Some c) ds cs →
  rs !! j = Some (At ts (Some p) n 0 []) → (i ≤ length cs)%nat → Z.of_nat i ≤ n →
  rtc (races may) (Race (s, k) w rs)
    (Race (s, k) w (<[j := At ts (Some p) n (Z.of_nat i) (take i cs)]> rs)).
Proof.
  intros Hp Harr Hc Hj. induction i as [|i IH]; intros Hi Hn.
  { rewrite list_insert_id by done. done. }
  eapply rtc_r; [apply IH; lia|].
  destruct (lookup_lt_is_Some_2 cs i ltac:(lia)) as [c Hci].
  destruct (Forall2_lookup_r _ _ _ i c Hc Hci) as (d & Hd & Hdc).
  rewrite <- (list_insert_insert_eq rs j (At ts (Some p) n (Z.of_nat (S i)) (take (S i) cs))
    (At ts (Some p) n (Z.of_nat i) (take i cs))).
  apply (reader_steps _ j (At ts (Some p) n (Z.of_nat i) (take i cs)) _ _ _
    (Ok (At ts (Some p) n (Z.of_nat (S i)) (take (S i) cs)))).
  { apply list_lookup_insert_eq. by eapply lookup_lt_Some. }
  replace (Z.of_nat (S i)) with (Z.of_nat i + 1) by lia. rewrite (take_S_r _ _ _ Hci).
  eapply reader_turn_at; [exact Hp|lia| |exact Hdc]. apply arr_read_ok; [lia|].
  rewrite Nat2Z.id. by apply Harr.
Qed.

(** The first piece of a drop releases the last column. *)
Lemma drop_begins_ok s ts p arr n d k :
  val_schema_of s ts p → cells (schema_objs s) !! p = Some (Schema (Live arr) 100 (Z.of_nat (S n))) →
  arr !! n = Some (Some (Some d)) → is_Some (cells (datas s) !! d) →
  ∃ s', drop_begins ts (s, k) = (Ok (ToUncount (Some p)), (s', k)) ∧
    schema_objs s' = schema_objs s ∧ cells (datas s') !! d = None.
Proof.
  intros Hv Hp Harr [c Hd]. destruct (table_schema_ok _ _ _ Hv) as (tso & Hts & Hvs).
  eexists. split; [|split].
  - unfold drop_begins. erewrite bind_ok by (apply on_fst_ok; exact Hts). rewrite Hvs.
    erewrite bind_ok by (by apply on_fst_ok, on_schemas_read, heap_get_ok).
    cbn [schemas nschema]. erewrite bind_ok.
    2: { unfold mlift. rewrite (arr_read_ok _ _ (Some d)); [reflexivity|lia|].
         by replace (Z.to_nat _) with n by lia. }
    erewrite bind_ok.
    2: { apply on_fst_ok, on_datas_ok. unfold table_data_destroy.
         erewrite bind_ok by by apply heap_get_ok. apply heap_free_ok. by eexists. }
    reflexivity.
  - done.
  - cbn. by rewrite lookup_delete_eq.
Qed.

(** A reader that has counted the columns reads all but the last; the drop then
    releases the last one. *)
Lemma drop_overtakes s cols ts p cs c k readers j :
  trep s cols → val_schema_of s ts p → cols !! p = Some (cs ++ [c]) →
  readers !! j = Some (Begin ts) →
  ∃ c', rtc (races (eq (DropFrom ts))) (Race (s, k) Idle readers) c' ∧
    race_turn (eq (DropFrom ts)) c' (inr (Undefined UseAfterFree)).
Proof.
  intros [own R] Hv Hp Hj. destruct (tr_schema _ _ _ R p _ Hp) as (ds & _ & Hrep).
  destruct Hrep as [(arr & Ho & _ & _ & Harr) Hc _].
  pose proof (Forall2_length _ _ _ Hc) as Hlen. rewrite length_app in Hlen. cbn in Hlen.
  destruct (Forall2_lookup_r _ _ _ (length cs) c Hc) as (d & Hd & Hdc).
  { by apply list_lookup_middle. }
  set (n := Z.of_nat (length ds)) in *. pose proof (lookup_lt_Some _ _ _ Hj) as Hjl.
  set (r1 := At ts (Some p) n (Z.of_nat (length cs)) (take (length cs) (cs ++ [c]))).
  destruct (drop_begins_ok s ts p arr (length cs) d k) as (s' & Hdrop & Hobj & Hgone);
    [done|by replace (S (length cs)) with (length ds) by lia|by apply Harr|by eexists|].
  exists (Race (s', k) (ToUncount (Some p)) (<[j := r1]> readers)). split.
  - eapply rtc_r.
    + eapply rtc_l.
      * apply (reader_steps _ j (Begin ts) _ _ _ (Ok (At ts (Some p) n 0 []))); [done|].
        by apply (reader_turn_begins _ _ _ _ _ Hv Ho).
      * apply (reader_reaches _ _ _ _ _ j ts p arr ds (cs ++ [c]) n (length cs));
          [done|done|done|by apply list_lookup_insert_eq|rewrite length_app; lia|lia].
    + rewrite list_insert_insert_eq. fold r1.
      by apply (writer_steps _ (DropFrom ts) _ _ _ (Ok (ToUncount (Some p)))).
  - apply (reader_steps _ j r1 _ _ _ (Stop (Undefined UseAfterFree)) (s', k)).
    { by apply list_lookup_insert_eq. }
    cbn [reader_turn r1]. rewrite (proj2 (Z.ltb_lt _ n)) by lia.
    erewrite bind_ok by (apply on_fst_ok, on_schemas_read, heap_get_ok; by rewrite Hobj).
    unfold mlift. cbn [schemas]. rewrite (arr_read_ok _ _ (Some d));
      [|lia|rewrite Nat2Z.id; by apply Harr].
    erewrite bind_ok by reflexivity. apply bind_stop.
    unfold on_fst, on_datas, zoom, heap_get. destruct s'; cbn in *. by rewrite Hgone.
Qed.

(** C22 (error). A drop is a race with every reader: from any well-formed state, whatever
    the table, a reader that has counted the columns can be overtaken by [drop_table_data]
    and goes on to read the column that was released. *)
Theorem a_drop_ends_a_reader s cols ts p cs c k readers j :
  trep s cols → val_schema_of s ts p → cols !! p = Some (cs ++ [c]) →
  readers !! j = Some (Begin ts) →
  ∃ c', rtc (races (eq (DropFrom ts))) (Race (s, k) Idle readers) c' ∧
    race_turn (eq (DropFrom ts)) c' (inr (Undefined UseAfterFree)).
Proof. apply drop_overtakes. Qed.
End drops.

(** ** Without the writer, without the readers *)

Section whole_functions.
Context `{Allocator} `{RandSource}.

(** A reader left alone reads what [table_val_columns] reads; a writer left
    alone does what [add_table_data] and [drop_table_data] do
    ([writer_alone_adds], [writer_alone_drops]). *)
Lemma reader_alone_reads s cols ts p cs k :
  trep s cols → val_schema_of s ts p → cols !! p = Some cs →
  reader_alone (S (S (length cs))) (Begin ts) (s, k) = (Ok (Done ts cs), (s, k)).
Proof.
  intros [own R] Hv Hp. destruct (tr_schema _ _ _ R p _ Hp) as (ds & _ & Hrep).
  destruct Hrep as [(arr & Ho & _ & _ & Harr) Hc _].
  change (reader_alone (S (S (length cs))) ?r0) with
    (r1 ← reader_turn r0; reader_alone (S (length cs)) r1).
  erewrite bind_ok by (by apply (reader_turn_begins _ _ _ _ _ Hv Ho)). cbn [nschema].
  rewrite <- (Forall2_length _ _ _ Hc).
  apply (reader_alone_loop ts p _ (length ds) 0 [] s k cs Ho). by apply read_columns_ok.
Qed.
End whole_functions.

(** ** Witnesses *)

Local Existing Instance roomy_allocator.
Local Existing Instance counting_rand.

Lemma sample_valid : valid_schema sample_tables sample_cols 1%positive.
Proof. exists 2%positive. split; [reflexivity|by eexists]. Qed.

(** Turns taken in a given order; a turn that faults is left out. *)
Inductive turn := WriterTurn (op : ddl) | ReaderTurn (j : nat).

Definition take_turn (c : race) (t : turn) : race :=
  match t with
  | WriterTurn op =>
      match writer_turn op (r_writer c) (r_memory c) with
      | (Ok w, m) => Race m w (r_readers c)
      | _ => c
      end
  | ReaderTurn j =>
      match reader_turn <$> r_readers c !! j with
      | Some f => match f (r_memory c) with
                  | (Ok r, m) => Race m (r_writer c) (<[j := r]> (r_readers c))
                  | _ => c
                  end
      | None => c
      end
  end.

Lemma take_turns_run may ts c :
  Forall (λ t, match t with WriterTurn op => may op | _ => True end) ts →
  rtc (races may) c (foldl take_turn c ts).
Proof.
  revert c. induction ts as [|t ts IH]; intros c Hts; [done|].
  inversion_clear Hts as [|? ? Ht Hrest]. cbn [foldl]. etrans; [|by apply IH].
  destruct c as [m w rs], t as [op|j]; cbn [take_turn r_writer r_memory r_readers].
  - destruct (writer_turn op w m) as [[w'|f] m'] eqn:Hw; [|done].
    apply rtc_once, (writer_steps may op m w rs (Ok w') m'); [by intros _|done].
  - destruct (rs !! j) as [r|] eqn:Hj; [|done]. cbn [fmap option_fmap option_map].
    destruct (reader_turn r m) as [[r'|f] m'] eqn:Hr; [|done].
    exact (rtc_once _ _ (reader_steps may j r m w rs (Ok r') m' Hj Hr)).
Qed.

Definition sample_race : race :=
  Race (sample_tables, 4%nat) Idle [Begin 1%positive; Begin 1%positive].

(** A reader begins, a column is added around its first read, another reader
    begins; both come to their end. *)
Definition mixed_race : race :=
  let w := WriterTurn (AddTo 1%positive) in
  let r := ReaderTurn in
  foldl take_turn sample_race
    [r 0%nat; w; r 0%nat; w; r 0%nat; w; r 1%nat; r 1%nat; w; r 1%nat; r 1%nat].

Example mixed_race_ends :
  r_writer mixed_race = ToStore (Some 2%positive) (Some 4%positive) ∧
  r_readers mixed_race =
    [Done 1%positive [val_column];
     Done 1%positive [val_column; TableData (text "col1") BIGINT 0]].
Proof. split; vm_compute; reflexivity. Qed.

Example additions_are_seen_whole_witness :
  (∀ o, race_turn (adds_to [1%positive]) mixed_race o → ∃ c', o = inl c') ∧
  (∀ j ts cs, r_readers mixed_race !! j = Some (Done ts cs) →
     seen_between (adds_to [1%positive]) sample_race mixed_race ts cs).
Proof.
  apply (additions_are_seen_whole roomy_16 [1%positive] sample_tables sample_cols 4
    [Begin 1%positive; Begin 1%positive] mixed_race).
  - apply sample_tables_rep.
  - repeat constructor. apply sample_valid.
  - repeat constructor; exists 1%positive; (split; [done|apply sample_valid]).
  - apply take_turns_run. repeat constructor; exists 1%positive; (split; [done|by left]).
Defined.

Example a_drop_ends_a_reader_witness :
  ∃ c', rtc (races (eq (DropFrom 1%positive))) sample_race c' ∧
    race_turn (eq (DropFrom 1%positive)) c' (inr (Undefined UseAfterFree)).
Proof.
  apply (a_drop_ends_a_reader sample_tables sample_cols 1%positive 2%positive [] val_column 4
    _ 0).
  - apply sample_tables_rep.
  - apply sample_val_schema.
  - reflexivity.
  - reflexivity.
Defined.
