(* ===== verification/Server.v ===== *)
(** * Server: database servers and clusters (src/src/server/cq_server.c)

    The MySQL client library is not part of the sources: [MysqlClient] is what
    the program calls of it, on a state [db] that holds the connections and the
    servers behind them.  A [cq_server_t] is not written after [server_init] and
    is its own value; a cluster is a pair of hash tables keyed by server names. *)

From stdpp Require Import base gmap list strings.
From Stdlib Require Import ZArith Lia.
From S2P Require Import Prelude Mylib Hash Heap CText Names.
Local Open Scope Z_scope.

(** The client library's functions, as the program calls them; results are the
    C return values, 0 meaning success. *)
Class MysqlClient := {
  db : Type;
  conn : Type;
  mysql_res : Type;
  mysql_init : db → option conn * db;
  mysql_real_connect (c : conn) (ip user password database : cstring) (port : Z) :
    db → bool * db;
  mysql_close : conn → db → db;
  mysql_set_reconnect : conn → db → Z * db;
  mysql_select_db : conn → cstring → db → Z * db;
  mysql_real_query : conn → cstring → db → Z * db;
  mysql_store_result : conn → db → option mysql_res * db;
  mysql_num_fields : mysql_res → Z;
  mysql_num_rows : mysql_res → Z;
  mysql_fetch_row : mysql_res → option (list (option cstring));
  mysql_fetch_lengths : mysql_res → option (list Z);
  mysql_free_result : mysql_res → db → db;
}.

Definition MAX_SERVER_NAME_LEN : Z := 21.

Inductive server_type_t := WRITE_SERVER | READ_SERVER.

#[export] Instance server_type_eq_dec : EqDecision server_type_t.
Proof. solve_decision. Defined.

Record cq_server_t `{MysqlClient} := Server {
  ip : cstring;
  port : Z;
  server_name : cstring;
  server_type : server_type_t;
  mysql : conn;
}.

(** [cq_server_key_func] and [cq_server_key_size_func]. *)
#[export] Instance server_named `{MysqlClient} : Named cq_server_t := server_name.

Record cq_server_cluster_t `{MysqlClient} := Cluster {
  write_servers : hash_t cq_server_t;
  read_servers : hash_t cq_server_t;
}.

Section server.
Context `{Allocator} `{RandSource} `{MysqlClient}.
(** [g_username] and [g_password]. *)
Context (g_username g_password : cstring).

(** A call of the library. *)
Definition lib {A} (f : db → A * db) : M db A := λ s, let '(a, s') := f s in (Ok a, s').
Definition lib_ (f : db → db) : M db () := mmodify f.

(** [strdup] and [asprintf], [None] when there is no memory. *)
Definition dup_string (s : cstring) : option cstring :=
  if malloc_ok (u64 (Z.of_nat (length s) + 1)) then Some s else None.

(** [mysql_init(NULL)] may answer [NULL], which [mysql_real_connect] does not take. *)
Definition open_mysql (ip : cstring) (port : Z) : M db (option conn) :=
  my_sql ← lib mysql_init;
  match my_sql with
  | None => mstop (Undefined NullDeref)
  | Some my_sql =>
      ok ← lib (mysql_real_connect my_sql ip g_username g_password (text "test") port);
      if (ok : bool) then mret (Some my_sql)
      else lib_ (mysql_close my_sql);; mret None
  end.

Definition close_mysql (mysql : conn) : M db () := lib_ (mysql_close mysql).

Definition server_destroy (pserver : cq_server_t) : M db () := close_mysql (mysql pserver).

Definition sizeof_cq_server_t : Z := 64.

(** [asprintf(&name, "%s:%d", ip, port)] *)
Definition format_name (ip : cstring) (port : Z) : cstring := ip ++ text ":" ++ decimal port.

(** A name that is too long leads to [server_destroy], which closes a
    connection that was never set. *)
Definition server_init (ip0 : cstring) (port : Z) (type : server_type_t)
    : M db (option cq_server_t) :=
  cq_malloc sizeof_cq_server_t ();;
  match dup_string ip0 with
  | None => mret None
  | Some ip =>
      match dup_string (format_name ip port) with
      | None => mret None
      | Some name =>
          let name_len := Z.of_nat (length name) in
          if MAX_SERVER_NAME_LEN <? name_len then mstop (Undefined Uninitialized) else
          my_sql ← open_mysql ip port;
          match my_sql with
          | None => mstop Aborted
          | Some mysql =>
              r ← lib (mysql_set_reconnect mysql);
              if negb (r =? 0) then mstop Aborted
              else mret (Some (Server _ ip port name type mysql))
          end
      end
  end.

Definition get_server_ip (s : cq_server_t) : cstring := ip s.
Definition get_server_port (s : cq_server_t) : Z := port s.
Definition get_server_name (s : cq_server_t) : cstring := server_name s.
Definition get_server_mysql (s : cq_server_t) : conn := mysql s.

Definition sizeof_cq_server_cluster_t : Z := 16.

Definition cq_cluster_init : M () cq_server_cluster_t :=
  cq_malloc sizeof_cq_server_cluster_t ();;
  w ← hash_alloc;
  r ← hash_alloc;
  mret (Cluster _ w r).

Definition on_write {A} : M (hash_t cq_server_t) A → M cq_server_cluster_t A :=
  zoom write_servers (λ h c, Cluster _ h (read_servers c)).
Definition on_read {A} : M (hash_t cq_server_t) A → M cq_server_cluster_t A :=
  zoom read_servers (λ h c, Cluster _ (write_servers c) h).

Definition add_write_server (s : cq_server_t) : M cq_server_cluster_t ret_t :=
  on_write (hash_add s).
Definition add_read_server (s : cq_server_t) : M cq_server_cluster_t ret_t :=
  on_read (hash_add s).

Definition cq_cluster_add (pserver : option cq_server_t) : M cq_server_cluster_t ret_t :=
  match pserver with
  | None => mstop (Undefined NullDeref)
  | Some s => if bool_decide (server_type s = WRITE_SERVER) then add_write_server s
              else add_read_server s
  end.

Definition cq_cluster_get_read_server (n : cstring) : M cq_server_cluster_t (option cq_server_t) :=
  on_read (hash_get (strdup_ptr n)).
Definition cq_cluster_get_write_server (n : cstring) : M cq_server_cluster_t (option cq_server_t) :=
  on_write (hash_get (strdup_ptr n)).

Definition cq_cluster_get_all_read_server
    : M cq_server_cluster_t (buffer (option cq_server_t) * Z) := on_read hash_get_entries.
Definition cq_cluster_get_all_write_server
    : M cq_server_cluster_t (buffer (option cq_server_t) * Z) := on_write hash_get_entries.

Definition cq_cluster_get_random_write_server
    : M (cq_server_cluster_t * nat) (option cq_server_t) :=
  zoom (λ s, (write_servers s.1, s.2))
       (λ s' s, (Cluster _ s'.1 (read_servers s.1), s'.2)) random_entry.
Definition cq_cluster_get_random_read_server
    : M (cq_server_cluster_t * nat) (option cq_server_t) :=
  zoom (λ s, (read_servers s.1, s.2))
       (λ s' s, (Cluster _ (write_servers s.1) s'.1, s'.2)) random_entry.

(** The free callback of both tables is [server_destroy]. *)
Definition destroy_all (l : list (option cq_server_t)) : M db () :=
  foldr (λ s k, match s with None => mstop (Undefined NullDeref)
                | Some s => server_destroy s end;; k) (mret ()) l.

Definition cq_cluster_destroy : M (cq_server_cluster_t * db) () :=
  freed ← on_fst (on_write hash_destroy);
  on_snd (destroy_all freed);;
  freed ← on_fst (on_read hash_destroy);
  on_snd (destroy_all freed).
End server.

Section properties.
Context `{Allocator} `{RandSource} `{MysqlClient}.

Lemma format_name_length ip port :
  (length ip ≤ 15)%nat → 0 ≤ port < 65536 →
  Z.of_nat (length (format_name ip port)) ≤ MAX_SERVER_NAME_LEN.
Proof.
  intros Hip Hport. unfold format_name, decimal, MAX_SERVER_NAME_LEN.
  rewrite (proj2 (Z.ltb_ge port 0)), !length_app by lia. cbn [text length].
  pose proof (udecimal_length port 4 ltac:(cbn; lia)). lia.
Qed.

(** For an address of at most 15 characters and a port the
    parser lets through, [server_init] gives a server named "ip:port" with the
    connection it opened, or aborts when the library refuses the connection or
    the option; the name check never fails.  For a longer name, though, the
    cleanup closes a connection that was never initialised. *)
Theorem server_init_outcomes user password ip0 port type (s : db) :
  malloc_ok sizeof_cq_server_t = true → (∀ n, 0 < n ≤ 1024 → malloc_ok n = true) →
  (length ip0 ≤ 1000)%nat → 0 ≤ port < 65536 → (∀ s', (mysql_init s').1 ≠ None) →
  ((length ip0 ≤ 15)%nat →
     (∃ srv s', server_init user password ip0 port type s = (Ok (Some srv), s') ∧
        ip srv = ip0 ∧ Server.port srv = port ∧ server_type srv = type ∧
        server_name srv = ip0 ++ text ":" ++ decimal port ∧
        (length (server_name srv) ≤ 21)%nat) ∨
     (∃ s', server_init user password ip0 port type s = (Stop Aborted, s'))) ∧
  (MAX_SERVER_NAME_LEN < Z.of_nat (length (format_name ip0 port)) →
     server_init user password ip0 port type s = (Stop (Undefined Uninitialized), s)).
Proof.
  intros Hm Hmem Hlen Hport Hinit.
  assert (dup_string ip0 = Some ip0) as Hd1.
  { unfold dup_string. rewrite u64_small, Hmem by lia. done. }
  assert (dup_string (format_name ip0 port) = Some (format_name ip0 port)) as Hd2.
  { unfold dup_string, format_name, decimal.
    rewrite (proj2 (Z.ltb_ge port 0)), !length_app by lia. cbn [text length].
    pose proof (udecimal_length port 4 ltac:(cbn; lia)).
    rewrite u64_small, Hmem by lia. done. }
  assert (cq_malloc sizeof_cq_server_t () s = (Ok (), s)) as Hcm by (by apply cq_malloc_ok).
  unfold server_init. split.
  - intros Hip. pose proof (format_name_length ip0 port Hip Hport) as Hn.
    erewrite !bind_ok by exact Hcm. rewrite Hd1, Hd2. cbv zeta.
    rewrite (proj2 (Z.ltb_ge _ _)) by done.
    unfold open_mysql, lib, lib_. mstep. specialize (Hinit s).
    destruct (mysql_init s) as [[c|] s1]; [|done].
    destruct (mysql_real_connect _ _ _ _ _ _ s1) as [[] s2]; [|right; by eexists].
    destruct (mysql_set_reconnect c s2) as [r s3].
    destruct (r =? 0); [left|right; by eexists]. eexists _, s3. split; [done|].
    unfold MAX_SERVER_NAME_LEN in Hn. split_and!; try done. cbn [server_name]. lia.
  - intros Hn. erewrite bind_ok by exact Hcm. rewrite Hd1, Hd2. cbv zeta.
    by rewrite (proj2 (Z.ltb_lt _ _)) by done.
Qed.

(** The servers of a cluster, by their names. *)
Definition cluster_rep (c : cq_server_cluster_t) (w r : gmap (list Z) cq_server_t) : Prop :=
  hrep (write_servers c) w ∧ hrep (read_servers c) r.

(** [cq_cluster_add] files a write server among the write servers
    and any other among the read servers, under its name, refusing a name that
    is taken there; the other table is untouched. *)
Theorem cq_cluster_add_routes (c : cq_server_cluster_t) w r (s : cq_server_t) :
  cluster_rep c w r →
  (server_type s = WRITE_SERVER → can_add (write_servers c) w s →
   ∃ c', cq_cluster_add (Some s) c =
      (Ok (match w !! server_name s with Some _ => RET_FAILED | None => RET_SUCCEED end), c') ∧
     cluster_rep c'
       (match w !! server_name s with Some _ => w | None => <[server_name s := s]> w end) r) ∧
  (server_type s = READ_SERVER → can_add (read_servers c) r s →
   ∃ c', cq_cluster_add (Some s) c =
      (Ok (match r !! server_name s with Some _ => RET_FAILED | None => RET_SUCCEED end), c') ∧
     cluster_rep c' w
       (match r !! server_name s with Some _ => r | None => <[server_name s := s]> r end)).
Proof.
  intros [Rw Rr]. unfold cq_cluster_add. split; intros Ht Hcan.
  - rewrite bool_decide_true by done.
    destruct (named_add _ _ _ Rw Hcan) as (h' & Hadd & R').
    eexists. split; [unfold add_write_server, on_write; by erewrite zoom_ok by exact Hadd|].
    by split.
  - rewrite bool_decide_false by (by rewrite Ht).
    destruct (named_add _ _ _ Rr Hcan) as (h' & Hadd & R').
    eexists. split; [unfold add_read_server, on_read; by erewrite zoom_ok by exact Hadd|].
    by split.
Qed.

(** The write server that a thread talks to is one of the cluster's
    write servers, or none when there is none; the choice changes nothing but
    the position in the sequence of random numbers. *)
Theorem cq_cluster_get_random_write_server_member (c : cq_server_cluster_t) w r (k : nat) :
  cluster_rep c w r → malloc_ok (8 * hash_entry_count (write_servers c)) = true →
  ∃ o, cq_cluster_get_random_write_server (c, k) =
      (Ok o, (c, if (size w =? 0)%nat then k else S k)) ∧
    match o with None => w = ∅ | Some s => ∃ n, w !! n = Some s end.
Proof.
  intros [Rw _] Hmem. destruct (random_entry_member _ _ k Rw Hmem) as (o & Ho & Hm).
  exists o. split; [|done]. unfold cq_cluster_get_random_write_server.
  erewrite zoom_ok by exact Ho. cbn. by destruct c.
Qed.

(** [cq_cluster_destroy] closes the connection of every server of
    the cluster exactly once, and nothing else. *)
Theorem cq_cluster_destroy_closes (c : cq_server_cluster_t) w r (s : db) :
  cluster_rep c w r →
  ∃ ws rs c', ws ≡ₚ (map_to_list w).*2 ∧ rs ≡ₚ (map_to_list r).*2 ∧
    cq_cluster_destroy (c, s) =
      (Ok (), (c', foldl (λ s srv, mysql_close (mysql srv) s) s (ws ++ rs))).
Proof.
  intros [Rw Rr].
  assert (∀ l s, destroy_all (Some <$> l) s =
    (Ok (), foldl (λ s srv, mysql_close (mysql srv) s) s l)) as Hall.
  { induction l as [|srv l IH]; intros s1; [done|]. cbn [destroy_all fmap list_fmap foldr].
    erewrite bind_ok by done. apply IH. }
  destruct Rw as [cw Rw], Rr as [cr Rr].
  destruct (hash_destroy_spec _ _ _ Rw) as (hw & Hw & _).
  destruct (hash_destroy_spec _ _ _ Rr) as (hr & Hr & _).
  exists (bindings cw).*2, (bindings cr).*2, (Cluster _ hw hr). split_and!.
  - by rewrite (map_bindings _ _ _ _ Rw).
  - by rewrite (map_bindings _ _ _ _ Rr).
  - unfold cq_cluster_destroy.
    erewrite bind_ok by (apply on_fst_ok; unfold on_write; by erewrite zoom_ok by exact Hw).
    erewrite bind_ok by (apply on_snd_ok, Hall).
    erewrite bind_ok by (apply on_fst_ok; unfold on_read; by erewrite zoom_ok by exact Hr).
    rewrite foldl_app. apply on_snd_ok, Hall.
Qed.
End properties.

(** ** Witnesses *)

(** A client whose connections are numbered and whose servers answer every query
    with fixed rows. *)
Record toy_db := ToyDb { toy_next : Z; toy_rows : Z → list (list (option cstring)) }.

Definition toy_client : MysqlClient := {|
  db := toy_db;
  conn := Z;
  mysql_res := list (list (option cstring));
  mysql_init s := (Some (toy_next s), ToyDb (toy_next s + 1) (toy_rows s));
  mysql_real_connect _ _ _ _ _ _ s := (true, s);
  mysql_close _ s := s;
  mysql_set_reconnect _ s := (0, s);
  mysql_select_db _ _ s := (0, s);
  mysql_real_query _ _ s := (0, s);
  mysql_store_result c s := (Some (toy_rows s c), s);
  mysql_num_fields r := Z.of_nat (length (default [] (head r)));
  mysql_num_rows r := Z.of_nat (length r);
  mysql_fetch_row r := head r;
  mysql_fetch_lengths r :=
    fmap (M := option) (map (λ f, Z.of_nat (length (default [] f)))) (head r);
  mysql_free_result _ s := s;
|}.

Local Existing Instance roomy_allocator.
Local Existing Instance counting_rand.
Local Existing Instance toy_client.

Definition toy_start : db := ToyDb 1 (λ _, []).

Lemma roomy_small n : 0 < n ≤ 1024 → malloc_ok n = true.
Proof. intros Hn. apply Z.leb_le. unfold PTRDIFF_MAX. lia. Qed.

Example server_init_outcomes_witness :
  ((length (text "10.32.10.149") ≤ 15)%nat →
     (∃ srv s', server_init [] [] (text "10.32.10.149") 3306 WRITE_SERVER toy_start =
          (Ok (Some srv), s') ∧
        ip srv = text "10.32.10.149" ∧ Server.port srv = 3306 ∧
        server_type srv = WRITE_SERVER ∧
        server_name srv = text "10.32.10.149" ++ text ":" ++ decimal 3306 ∧
        (length (server_name srv) ≤ 21)%nat) ∨
     (∃ s', server_init [] [] (text "10.32.10.149") 3306 WRITE_SERVER toy_start =
        (Stop Aborted, s'))) ∧
  (MAX_SERVER_NAME_LEN < Z.of_nat (length (format_name (text "10.32.10.149") 3306)) →
     server_init [] [] (text "10.32.10.149") 3306 WRITE_SERVER toy_start =
       (Stop (Undefined Uninitialized), toy_start)).
Proof.
  apply (server_init_outcomes [] [] (text "10.32.10.149") 3306 WRITE_SERVER toy_start).
  - reflexivity.
  - apply roomy_small.
  - cbn. lia.
  - lia.
  - discriminate.
Defined.

(** An address that does not fit the name. *)
Example server_init_long_name :
  (server_init [] [] (text "10.32.10.149 (primary)") 3306 WRITE_SERVER toy_start).1 =
    Stop (Undefined Uninitialized).
Proof. vm_compute. reflexivity. Qed.

Definition toy_server : cq_server_t :=
  Server _ (text "10.0.0.1") 3306 (text "10.0.0.1:3306") WRITE_SERVER 1.

Definition empty_servers : hash_t cq_server_t :=
  Hash (Live (Some <$> replicate 11 zero_element)) 11 0 0 RwFree.

Lemma empty_servers_rep : hrep empty_servers ∅.
Proof.
  destruct (hash_alloc_spec (E := cq_server_t)) as (h & Ha & R & _); [done|done|].
  assert (hash_alloc () = (Ok empty_servers, ())) as Ha' by (vm_compute; reflexivity).
  rewrite Ha' in Ha. by injection Ha as <-.
Qed.

Definition empty_cluster : cq_server_cluster_t := Cluster _ empty_servers empty_servers.

Lemma toy_server_legal : run_legal empty_servers ∅ [HAdd toy_server].
Proof. apply (run_check_sound 200); [lia|vm_compute; reflexivity]. Qed.

Lemma toy_server_can_add : can_add empty_servers ∅ toy_server.
Proof.
  destruct toy_server_legal as [(_ & Hc & Hcan) _]. split_and!.
  - apply (bool_decide_eq_true (is_text (server_name toy_server))). vm_compute. reflexivity.
  - reflexivity.
  - exact Hc.
  - intros _. exact (Hcan (lookup_empty _)).
Qed.

Example cq_cluster_add_routes_witness :
  ∃ c', cq_cluster_add (Some toy_server) empty_cluster = (Ok RET_SUCCEED, c') ∧
    cluster_rep c' (<[server_name toy_server := toy_server]> ∅) ∅.
Proof.
  destruct (cq_cluster_add_routes empty_cluster ∅ ∅ toy_server
    (conj empty_servers_rep empty_servers_rep)) as [Hx _].
  specialize (Hx eq_refl toy_server_can_add). rewrite lookup_empty in Hx. exact Hx.
Defined.

(** The cluster with one write server. *)
Definition toy_cluster : cq_server_cluster_t :=
  Cluster _ (hash_add toy_server empty_servers).2 empty_servers.

Lemma toy_cluster_rep :
  cluster_rep toy_cluster {[server_name toy_server := toy_server]} ∅.
Proof.
  split; [|exact empty_servers_rep].
  destruct (named_add _ _ _ empty_servers_rep toy_server_can_add) as (h' & Hadd & R).
  rewrite lookup_empty in Hadd, R. cbn [write_servers toy_cluster]. rewrite Hadd. exact R.
Qed.

Example cq_cluster_get_random_write_server_member_witness :
  ∃ o, cq_cluster_get_random_write_server (toy_cluster, 5%nat) = (Ok o, (toy_cluster, 6%nat)) ∧
    match o with
    | None => {[server_name toy_server := toy_server]} = (∅ : gmap (list Z) cq_server_t)
    | Some s => ∃ n, ({[server_name toy_server := toy_server]} : gmap (list Z) cq_server_t) !! n
                     = Some s
    end.
Proof.
  assert (malloc_ok (8 * hash_entry_count (write_servers toy_cluster)) = true) as Hm
    by (vm_compute; reflexivity).
  pose proof (cq_cluster_get_random_write_server_member toy_cluster _ _ 5 toy_cluster_rep Hm)
    as Hx.
  rewrite map_size_singleton in Hx. exact Hx.
Defined.

Example cq_cluster_destroy_closes_witness :
  ∃ ws rs c', ws ≡ₚ (map_to_list ({[server_name toy_server := toy_server]}
                              : gmap (list Z) cq_server_t)).*2 ∧
    rs ≡ₚ (map_to_list (∅ : gmap (list Z) cq_server_t)).*2 ∧
    cq_cluster_destroy (toy_cluster, toy_start) =
      (Ok (), (c', foldl (λ s srv, mysql_close (mysql srv) s) toy_start (ws ++ rs))).
Proof.
  exact (cq_cluster_destroy_closes toy_cluster {[server_name toy_server := toy_server]} ∅
           toy_start toy_cluster_rep).
Defined.
