(* ===== verification/EngineCtx.v ===== *)
(** * EngineCtx: the context of an engine thread (cq_engine.h, cq_stats.c)

    [eng_ctx_t] is [struct engine_context]; [eng_stats] is the counter and
    time-stamp block that each thread and the whole program keep. *)

From stdpp Require Import base gmap list strings.
From Stdlib Require Import ZArith Lia.
From S2P Require Import Prelude Mylib Heap CText Command Table Server.
Local Open Scope Z_scope.

Definition MAX_TABLE_NAME_LEN : Z := 20.
Definition MAX_DATA_LOG_LEN : Z := 2048.

(** [struct timeval] *)
Record timeval := Timeval { tv_sec : Z; tv_usec : Z }.

#[export] Instance timeval_eq_dec : EqDecision timeval.
Proof. solve_decision. Defined.

Record eng_stats := EngStats {
  tv_start : timeval;
  tv_end : timeval;
  ninsert : Z;
  nupdate : Z;
  ndelete : Z;
  nselect : Z;
  ncheck_fail : Z;
}.

#[export] Instance eng_stats_eq_dec : EqDecision eng_stats.
Proof. solve_decision. Defined.

(** [memset(&stats, 0, sizeof(struct eng_stats))] *)
Definition zero_stats : eng_stats := EngStats (Timeval 0 0) (Timeval 0 0) 0 0 0 0 0.

(** The table of a context: [NULL], a table, or (in the table thread) a pointer
    to something that is not a table. *)
Inductive table_ptr := TNull | TPtr (t : table_t) | TOther.

Record eng_ctx_t `{MysqlClient} := EngCtx {
  cmd_list : option loc;
  write_server : option cq_server_t;
  thread_cluster : cq_server_cluster_t;
  ctx_write_servers : list cq_server_t;
  ctx_read_servers : list cq_server_t;
  table : table_ptr;
  ctx_table_schema : option loc;
  table_name : cstring;
  tid : Z;
  sql : option cstring;
  seed_base : Z;
  prev_cmd : option cmd_type_t;
  stats : eng_stats;
}.

Section context.
Context `{MysqlClient}.
Implicit Types (c : eng_ctx_t).

Definition ctx_with_stats st c : eng_ctx_t :=
  EngCtx _ (cmd_list c) (write_server c) (thread_cluster c) (ctx_write_servers c)
    (ctx_read_servers c) (table c) (ctx_table_schema c) (table_name c) (tid c) (sql c)
    (seed_base c) (prev_cmd c) st.
Definition ctx_with_sql t c : eng_ctx_t :=
  EngCtx _ (cmd_list c) (write_server c) (thread_cluster c) (ctx_write_servers c)
    (ctx_read_servers c) (table c) (ctx_table_schema c) (table_name c) (tid c) (Some t)
    (seed_base c) (prev_cmd c) (stats c).
Definition ctx_with_prev_cmd t c : eng_ctx_t :=
  EngCtx _ (cmd_list c) (write_server c) (thread_cluster c) (ctx_write_servers c)
    (ctx_read_servers c) (table c) (ctx_table_schema c) (table_name c) (tid c) (sql c)
    (seed_base c) (Some t) (stats c).
Definition ctx_with_seed z c : eng_ctx_t :=
  EngCtx _ (cmd_list c) (write_server c) (thread_cluster c) (ctx_write_servers c)
    (ctx_read_servers c) (table c) (ctx_table_schema c) (table_name c) (tid c) (sql c)
    z (prev_cmd c) (stats c).
Definition ctx_with_table t c : eng_ctx_t :=
  EngCtx _ (cmd_list c) (write_server c) (thread_cluster c) (ctx_write_servers c)
    (ctx_read_servers c) t (ctx_table_schema c) (table_name c) (tid c) (sql c)
    (seed_base c) (prev_cmd c) (stats c).

(** [gettimeofday] answers [now], and 0. *)
Definition set_sql_write_time (now : timeval) c : Z * eng_ctx_t :=
  let s := stats c in
  (0, ctx_with_stats (EngStats now (tv_end s) (ninsert s) (nupdate s) (ndelete s) (nselect s)
                        (ncheck_fail s)) c).
Definition set_sql_read_time (now : timeval) c : Z * eng_ctx_t :=
  let s := stats c in
  (0, ctx_with_stats (EngStats (tv_start s) now (ninsert s) (nupdate s) (ndelete s) (nselect s)
                        (ncheck_fail s)) c).

(** Microseconds, in a [long long]. *)
Definition diff_sql_write_read_time c : Z :=
  let s := stats c in
  (tv_sec (tv_end s) - tv_sec (tv_start s)) * 1000000
    + (tv_usec (tv_end s) - tv_usec (tv_start s)).
End context.

(** ** The counters of a statistics block *)

Inductive counter := CInsert | CUpdate | CDelete | CSelect | CCheckFail.

#[export] Instance counter_eq_dec : EqDecision counter.
Proof. solve_decision. Defined.

Definition counter_get (k : counter) (s : eng_stats) : Z :=
  match k with
  | CInsert => ninsert s
  | CUpdate => nupdate s
  | CDelete => ndelete s
  | CSelect => nselect s
  | CCheckFail => ncheck_fail s
  end.

Definition counter_set (k : counter) (z : Z) (s : eng_stats) : eng_stats :=
  match k with
  | CInsert => EngStats (tv_start s) (tv_end s) z (nupdate s) (ndelete s) (nselect s) (ncheck_fail s)
  | CUpdate => EngStats (tv_start s) (tv_end s) (ninsert s) z (ndelete s) (nselect s) (ncheck_fail s)
  | CDelete => EngStats (tv_start s) (tv_end s) (ninsert s) (nupdate s) z (nselect s) (ncheck_fail s)
  | CSelect => EngStats (tv_start s) (tv_end s) (ninsert s) (nupdate s) (ndelete s) z (ncheck_fail s)
  | CCheckFail => EngStats (tv_start s) (tv_end s) (ninsert s) (nupdate s) (ndelete s) (nselect s) z
  end.

(** [stats.n++] on an [int]. *)
Definition counter_incr (k : counter) (s : eng_stats) : res eng_stats :=
  if INT_MAX <=? counter_get k s then Stop (Undefined SignedOverflow)
  else Ok (counter_set k (counter_get k s + 1) s).

(** [g_stat.n = __sync_add_and_fetch(&g_stat.n, 1)], undisturbed: the atomic
    addition wraps around. *)
Definition counter_sync_incr (k : counter) (s : eng_stats) : eng_stats :=
  counter_set k (i32 (counter_get k s + 1)) s.

Lemma counter_get_set k k' z s :
  counter_get k (counter_set k' z s) = if decide (k = k') then z else counter_get k s.
Proof. by destruct k, k'. Qed.
