(* ===== verification/Keys.v ===== *)
(** * Keys: the engine's own blocks of keys (src/src/engine/cq_engine.h, cq_engine.c)

    [eng_table_t] is meant to keep the keys that the engine has written, and
    [eng_data_t] to describe one.  The program defines what makes and destroys them, and
    never calls it. *)

From stdpp Require Import base gmap list.
From Stdlib Require Import ZArith.
From S2P Require Import Prelude Mylib Vector Heap CText Table EngineCtx.
Local Open Scope Z_scope.

Definition MAX_ENGINE_DATA_LEN : Z := 20.

(** [my_malloc] leaves the fields uninitialised. *)
Record eng_data_t := EngData {
  eng_data_name : option cstring;
  eng_data_type : option table_data_type_t;
  eng_data_seed : option Z;
  eng_data_len : option Z;
}.

(** [eng_keys] is a block of its own. *)
Record eng_table_t := EngTable { eng_keys : option loc }.

Record keys_state := KeysState {
  eng_datas : heap eng_data_t;
  eng_tables : heap eng_table_t;
  eng_vectors : heap (vector (option loc));
}.

Section keys.
Context `{Allocator}.
Implicit Types (s : keys_state).

Definition sizeof_eng_data_t : Z := 40.
Definition sizeof_eng_table_t : Z := 8.

Definition on_eng_datas {A} : M (heap eng_data_t) A → M keys_state A :=
  zoom eng_datas (λ x s, KeysState x (eng_tables s) (eng_vectors s)).
Definition on_eng_tables {A} : M (heap eng_table_t) A → M keys_state A :=
  zoom eng_tables (λ x s, KeysState (eng_datas s) x (eng_vectors s)).
Definition on_eng_vectors {A} : M (heap (vector (option loc))) A → M keys_state A :=
  zoom eng_vectors (λ x s, KeysState (eng_datas s) (eng_tables s) x).

Definition eng_data_init : M keys_state (option loc) :=
  on_eng_datas (heap_new sizeof_eng_data_t (EngData None None None None)).
Definition eng_data_destroy (eng_data : option loc) : M keys_state () :=
  on_eng_datas (heap_free eng_data).

Definition eng_table_init : M keys_state (option loc) :=
  eng_table ← on_eng_tables (heap_new sizeof_eng_table_t (EngTable None));
  v ← pure_state vector_alloc;
  eng_keys ← on_eng_vectors (λ h, (Ok (Some (next_loc h)),
    Heap (<[next_loc h := v]> (cells h)) (Pos.succ (next_loc h))));
  on_eng_tables (heap_update eng_table (λ _, EngTable eng_keys));;
  mret eng_table.

(** The vector of the keys stays. *)
Definition eng_table_destroy (eng_table : option loc) : M keys_state () :=
  on_eng_tables (heap_free eng_table).

(** What is made and destroyed leaves the block of the table, and one vector more
    each time. *)
Lemma eng_table_leaks s :
  malloc_ok 8 = true → malloc_ok (u64 sizeof_vector_t) = true →
  malloc_ok (u64 (VECTOR_INIT_SIZE * 8)) = true → heap_wf (eng_tables s) → heap_wf (eng_vectors s) →
  ∃ p s', (p ← eng_table_init; eng_table_destroy p;; mret p) s = (Ok p, s') ∧
    cells (eng_tables s') = cells (eng_tables s) ∧
    size (cells (eng_vectors s')) = S (size (cells (eng_vectors s))).
Proof.
  intros Hm Hv He Ht Hw. destruct (vector_alloc_spec (E := option loc)) as (v & Ha & _); [done..|].
  set (t := next_loc (eng_tables s)). pose proof (heap_fresh _ Ht : cells (eng_tables s) !! t = None) as Hf.
  eexists _, _. split.
  { erewrite bind_ok; [|unfold eng_table_init, on_eng_tables, on_eng_vectors;
      erewrite bind_ok by (apply zoom_ok, heap_new_ok; exact Hm);
      erewrite bind_ok by (apply pure_state_ok; exact Ha); erewrite bind_ok by reflexivity;
      erewrite bind_ok by (apply zoom_ok, heap_update_ok; cbn; by rewrite lookup_insert_eq);
      reflexivity].
    erewrite bind_ok; [reflexivity|]. apply zoom_ok, heap_free_ok. cbn.
    by rewrite lookup_insert_eq. }
  cbn. fold t. split.
  - by rewrite insert_insert_eq, delete_insert_id.
  - rewrite map_size_insert_None; [done|by apply heap_fresh].
Qed.
End keys.
