(* ===== verification/SqlGen.v ===== *)
(** * SqlGen: the SQL text generator (src/src/cq_mysql/cq_sql_gen.c)

    The generators write forward into the context's buffer of [SQL_BUFFER_LEN]
    bytes; [g_text] is what lies between [sql] and [sql_offset].  Random values
    come from [sql_frandom_seed] and [rand]; key values come from the context's
    seed only, so that every statement of one context names the same row. *)

From stdpp Require Import base gmap list strings.
From Stdlib Require Import ZArith Lia.
From S2P Require Import Prelude Mylib Mix Heap CText Command Table Server EngineCtx.
Local Open Scope Z_scope.

Definition SQL_BUFFER_LEN : Z := 1048576.

(** The tables, [sql_frandom_seed], the numbers drawn from [rand], and the text. *)
Record gen := Gen {
  g_tables : table_state;
  g_seed : Z;
  g_rand : nat;
  g_text : cstring;
}.

Section gen.
Context `{RandSource} `{MysqlClient}.
Implicit Types (eng_ctx : eng_ctx_t) (is_key : bool).

Definition put_text t : M gen () := mmodify (λ g, Gen (g_tables g) (g_seed g) (g_rand g) t).

(** [sql_offset += sprintf(sql_offset, ...)], the NUL included in what must fit. *)
Definition emit (bs : cstring) : M gen () :=
  t ← mgets g_text;
  if SQL_BUFFER_LEN <? Z.of_nat (length t) + Z.of_nat (length bs) + 1
  then mstop (Undefined OutOfBounds) else put_text (t ++ bs).

(** [*sql_offset++ = c] *)
Definition emit_char (c : Z) : M gen () :=
  t ← mgets g_text;
  if SQL_BUFFER_LEN <? Z.of_nat (length t) + 1
  then mstop (Undefined OutOfBounds) else put_text (t ++ [c]).

(** [sql_offset--] *)
Definition back : M gen () :=
  t ← mgets g_text;
  match t with
  | [] => mstop (Undefined OutOfBounds)
  | _ => put_text (removelast t)
  end.

(** [sprintf(sql, ...)], from the start of the buffer. *)
Definition start_text (bs : cstring) : M gen () := put_text [];; emit bs.

Definition on_tables {A} : M table_state A → M gen A :=
  zoom g_tables (λ s g, Gen s (g_seed g) (g_rand g) (g_text g)).

(** [__sync_add_and_fetch(&sql_frandom_seed, 1)] *)
Definition next_seed : M gen Z :=
  z ← mgets g_seed;
  let z' := i32 (z + 1) in
  mmodify (λ g, Gen (g_tables g) z' (g_rand g) (g_text g));;
  mret z'.

Definition gen_rand : M gen Z :=
  λ g, (Ok (rand_at (g_rand g)), Gen (g_tables g) (g_seed g) (S (g_rand g)) (g_text g)).

Definition write_bigint eng_ctx is_key : M gen () :=
  seed ← (if is_key then mret (seed_base eng_ctx) else next_seed);
  emit (udecimal (Z.shiftr (frandom (u64 seed) (u64 (tid eng_ctx))) 1)).

Definition write_varchar eng_ctx (table_data : table_data_t) is_key : M gen () :=
  let n := get_table_data_len table_data in
  if n =? 0 then (if is_key then mret () else next_seed;; gen_rand;; mret ());;
                 mstop (Undefined DivByZero)
  else
    '(seed, len) ←
      (if is_key then
         let seed := seed_base eng_ctx in
         mret (seed, i32 (u64 (frandom (u64 seed) (u64 (tid eng_ctx)) mod u64 n + 1)))
       else
         seed ← next_seed;
         r ← gen_rand;
         mret (seed, Z.rem r n + 1));
    t ← mgets g_text;
    if SQL_BUFFER_LEN <? Z.of_nat (length t) + u64 len then mstop (Undefined OutOfBounds)
    else match string_frandom (u64 len) (u64 seed) with
         | None => mstop Diverges
         | Some bs => put_text (t ++ bs)
         end.

(** [table_datas[i]] and the column behind it. *)
Definition column_at (table_datas : buffer (option loc)) (i : Z) : M gen table_data_t :=
  on_tables (p ← mlift (arr_read table_datas i); on_datas (heap_get p)).

Definition write_value eng_ctx (c : table_data_t) is_key : M gen () :=
  if bool_decide (get_table_data_type c = BIGINT) then write_bigint eng_ctx is_key
  else write_varchar eng_ctx c is_key.

(** ['value',] *)
Definition write_quoted eng_ctx (c : table_data_t) is_key : M gen () :=
  emit_char 39;; write_value eng_ctx c is_key;; emit_char 39;; emit_char 44.

(** [name='value',] *)
Definition write_assignment eng_ctx (c : table_data_t) is_key : M gen () :=
  emit (get_table_data_name c ++ text "=");; write_quoted eng_ctx c is_key.

Definition the_table eng_ctx : M gen table_t :=
  match table eng_ctx with
  | TNull => mstop (Undefined NullDeref)
  | TPtr t => mret t
  | TOther => mstop (Undefined UseAfterFree)
  end.

Definition key_types (t : table_t) : M gen (buffer (option loc) * Z) :=
  on_tables (get_table_key_types t).
Definition val_types (t : table_t) : M gen (buffer (option loc) * Z) :=
  on_tables (get_table_val_types t).

Definition insert_gen eng_ctx : M gen ret_t :=
  t ← the_table eng_ctx;
  start_text (text "insert into " ++ get_table_name t ++ text " values(");;
  '(table_datas, ndata) ← key_types t;
  mfor ndata (λ i, c ← column_at table_datas i; write_quoted eng_ctx c true);;
  '(table_datas, ndata) ← val_types t;
  mfor ndata (λ i, c ← column_at table_datas i; write_quoted eng_ctx c false);;
  back;;
  emit_char 41;;
  emit_char 0;;
  mret RET_SUCCEED.

(** The condition on the first key column, and the end of the statement. *)
Definition where_key eng_ctx (t : table_t) : M gen () :=
  '(table_datas, _) ← key_types t;
  mfor 1 (λ i, c ← column_at table_datas i; write_assignment eng_ctx c true);;
  back;;
  emit_char 0.

Definition delete_gen eng_ctx : M gen ret_t :=
  t ← the_table eng_ctx;
  start_text (text "delete from " ++ get_table_name t ++ text " where ");;
  where_key eng_ctx t;;
  mret RET_SUCCEED.

Definition update_gen eng_ctx : M gen ret_t :=
  t ← the_table eng_ctx;
  start_text (text "update " ++ get_table_name t ++ text " set ");;
  '(table_datas, ndata) ← val_types t;
  mfor ndata (λ i, c ← column_at table_datas i; write_assignment eng_ctx c false);;
  back;;
  emit (text " where ");;
  where_key eng_ctx t;;
  mret RET_SUCCEED.

Definition select_gen eng_ctx : M gen ret_t :=
  t ← the_table eng_ctx;
  start_text (text "select ");;
  '(table_keys, ndata) ← key_types t;
  mfor ndata (λ i, c ← column_at table_keys i; emit (get_table_data_name c ++ text ","));;
  '(table_datas, ndata) ← val_types t;
  mfor ndata (λ i, c ← column_at table_datas i; emit (get_table_data_name c ++ text ","));;
  back;;
  emit (text " from " ++ get_table_name t ++ text " where ");;
  where_key eng_ctx t;;
  mret RET_SUCCEED.

(** The SQL type of a column. *)
Definition sql_type (c : table_data_t) : cstring :=
  if bool_decide (get_table_data_type c = BIGINT) then text "bigint"
  else text "varchar(" ++ decimal (get_table_data_len c) ++ text ")".

Definition create_gen eng_ctx : M gen ret_t :=
  let schema := ctx_table_schema eng_ctx in
  start_text (text "create table " ++ table_name eng_ctx ++ text " (");;
  '(table_datas, ndata) ← on_tables (get_schema_key_types schema);
  mfor ndata (λ i, c ← column_at table_datas i;
    emit (get_table_data_name c ++ text " ");;
    emit (sql_type c ++ text " primary key");;
    emit_char 44);;
  '(table_datas, ndata) ← on_tables (get_schema_val_types schema);
  mfor ndata (λ i, c ← column_at table_datas i;
    emit (get_table_data_name c ++ text " ");;
    emit (sql_type c);;
    emit_char 44);;
  back;;
  emit_char 41;;
  emit_char 0;;
  mret RET_SUCCEED.

Definition alter_add_gen eng_ctx : M gen ret_t :=
  t ← the_table eng_ctx;
  start_text (text "alter table " ++ get_table_name t ++ text " ");;
  '(table_datas, ndata) ← val_types t;
  c ← column_at table_datas (ndata - 1);
  emit (text "add " ++ get_table_data_name c ++ text " " ++ sql_type c);;
  emit_char 0;;
  mret RET_SUCCEED.

Definition alter_drop_gen eng_ctx : M gen ret_t :=
  t ← the_table eng_ctx;
  start_text (text "alter table " ++ get_table_name t ++ text " ");;
  '(table_datas, ndata) ← val_types t;
  (if 0 <? ndata then
     let idx := ndata - 1 in
     c ← column_at table_datas idx;
     emit (text "DROP COLUMN " ++ get_table_data_name c)
   else mret ());;
  emit_char 0;;
  mret RET_SUCCEED.

Definition drop_gen eng_ctx : M gen ret_t :=
  start_text (text "drop table " ++ table_name eng_ctx);;
  emit_char 0;;
  mret RET_SUCCEED.

Definition sql_gen eng_ctx (cmd_type : cmd_type_t) : M gen ret_t :=
  my_assert (match table eng_ctx with TNull => false | _ => true end);;
  my_assert (match sql eng_ctx with None => false | _ => true end);;
  match cmd_type with
  | INSERT => insert_gen eng_ctx
  | DELETE => delete_gen eng_ctx
  | UPDATE => update_gen eng_ctx
  | SELECT => select_gen eng_ctx
  | CREATE => create_gen eng_ctx
  | ALTER_ADD => alter_add_gen eng_ctx
  | ALTER_DROP => alter_drop_gen eng_ctx
  | DROP => drop_gen eng_ctx
  end.
End gen.

(** ** What the generators write *)

#[local] Opaque frandom udecimal string_frandom.

(** The bytes written for a value of the column, and the random state after. *)
Section literals.
Context `{RandSource} `{MysqlClient}.
Implicit Types (eng_ctx : eng_ctx_t) (c : table_data_t) (σ : Z * nat).

Definition bigint_literal (seed : Z) eng_ctx : cstring :=
  udecimal (Z.shiftr (frandom (u64 seed) (u64 (tid eng_ctx))) 1).
Definition varchar_literal (seed len : Z) : cstring :=
  default [] (string_frandom len (u64 seed)).

(** A key value depends on the context only. *)
Definition key_length eng_ctx c : Z :=
  frandom (u64 (seed_base eng_ctx)) (u64 (tid eng_ctx)) mod data_len c + 1.
Definition key_literal eng_ctx c : cstring :=
  match data_type c with
  | BIGINT => bigint_literal (seed_base eng_ctx) eng_ctx
  | VARCHAR => varchar_literal (seed_base eng_ctx) (key_length eng_ctx c)
  end.

(** Any other value takes a new seed, and a new random length. *)
Definition val_literal eng_ctx c σ : cstring * (Z * nat) :=
  let '(z, k) := σ in
  let z' := i32 (z + 1) in
  match data_type c with
  | BIGINT => (bigint_literal z' eng_ctx, (z', k))
  | VARCHAR => (varchar_literal z' (rand_at k mod data_len c + 1), (z', S k))
  end.

(** The literals [tx] draws for the columns, and the state after. *)
Fixpoint draw_literals (tx : table_data_t → Z * nat → cstring * (Z * nat))
    (cs : list table_data_t) σ : list cstring * (Z * nat) :=
  match cs with
  | [] => ([], σ)
  | c :: cs => let '(b, σ1) := tx c σ in
               let '(bs, σ2) := draw_literals tx cs σ1 in (b :: bs, σ2)
  end.

(** A column the generators can handle, and the room its values need. *)
Definition col_ok c : Prop := data_type c = VARCHAR → 0 < data_len c ≤ INT_MAX.
Definition width c : Z := match data_type c with BIGINT => 20 | VARCHAR => data_len c end.
(** The most the generators write for a quoted value, an assignment, a name. *)
Definition quoted_width c : Z := width c + 3.
Definition assign_width c : Z := Z.of_nat (length (data_name c)) + width c + 5.
Definition name_width c : Z := Z.of_nat (length (data_name c)) + 2.
Definition total (w : table_data_t → Z) (cs : list table_data_t) : Z :=
  foldr (λ c n, w c + n) 0 cs.

Lemma bigint_literal_length seed eng_ctx :
  Z.of_nat (length (bigint_literal seed eng_ctx)) ≤ 20.
Proof.
  unfold bigint_literal.
  pose proof (frandom_range (u64 seed) (u64 (tid eng_ctx)) (u64_is_u64 _)) as Hr.
  unfold is_u64 in Hr. rewrite Z.shiftr_div_pow2 by lia. change (2 ^ 1) with 2.
  pose proof (udecimal_length (frandom (u64 seed) (u64 (tid eng_ctx)) / 2) 19) as Hl.
  assert (0 ≤ frandom (u64 seed) (u64 (tid eng_ctx)) / 2 < 10 ^ Z.of_nat 20); [|lia].
  split; [apply Z.div_pos; lia|]. apply Z.div_lt_upper_bound; lia.
Qed.

Lemma varchar_literal_spec seed len : 0 ≤ len < 2 ^ 64 →
  string_frandom len (u64 seed) = Some (varchar_literal seed len) ∧
  Z.of_nat (length (varchar_literal seed len)) = len.
Proof.
  intros Hl. destruct (string_frandom_total len (u64 seed) Hl) as (buf & Hb & Hlen & _).
  unfold varchar_literal. by rewrite Hb.
Qed.

Lemma key_length_range eng_ctx c : 0 < data_len c ≤ INT_MAX →
  1 ≤ key_length eng_ctx c ≤ data_len c.
Proof.
  intros Hl. unfold key_length.
  pose proof (Z.mod_pos_bound (frandom (u64 (seed_base eng_ctx)) (u64 (tid eng_ctx)))
    (data_len c)). lia.
Qed.

Lemma key_literal_length eng_ctx c : col_ok c →
  Z.of_nat (length (key_literal eng_ctx c)) ≤ width c.
Proof.
  intros Hok. unfold key_literal, width. destruct (data_type c) eqn:Ht.
  - apply bigint_literal_length.
  - specialize (Hok Ht). pose proof (key_length_range eng_ctx c Hok) as Hr.
    unfold INT_MAX in Hok.
    destruct (varchar_literal_spec (seed_base eng_ctx) (key_length eng_ctx c)) as [_ ->]; lia.
Qed.

Lemma val_literal_length eng_ctx c σ : col_ok c →
  Z.of_nat (length (val_literal eng_ctx c σ).1) ≤ width c.
Proof.
  intros Hok. unfold val_literal, width. destruct σ as [z k], (data_type c) eqn:Ht; cbn [fst].
  - apply bigint_literal_length.
  - specialize (Hok Ht). unfold INT_MAX in Hok.
    pose proof (Z.mod_pos_bound (rand_at k) (data_len c)).
    destruct (varchar_literal_spec (i32 (z + 1)) (rand_at k mod data_len c + 1)) as [_ ->]; lia.
Qed.

(** *** The writers *)

Definition with_text (g : gen) (σ : Z * nat) (t : cstring) : gen :=
  Gen (g_tables g) σ.1 σ.2 t.
Definition rand_state (g : gen) : Z * nat := (g_seed g, g_rand g).

Lemma emit_ok bs g :
  Z.of_nat (length (g_text g)) + Z.of_nat (length bs) + 1 ≤ SQL_BUFFER_LEN →
  emit bs g = (Ok (), with_text g (rand_state g) (g_text g ++ bs)).
Proof.
  intros Hl. unfold emit. erewrite bind_ok by done.
  by rewrite (proj2 (Z.ltb_ge _ _)) by done.
Qed.

Lemma emit_char_ok b g :
  Z.of_nat (length (g_text g)) + 1 ≤ SQL_BUFFER_LEN →
  emit_char b g = (Ok (), with_text g (rand_state g) (g_text g ++ [b])).
Proof.
  intros Hl. unfold emit_char. erewrite bind_ok by done.
  by rewrite (proj2 (Z.ltb_ge _ _)) by done.
Qed.

Lemma back_ok t b g : g_text g = t ++ [b] →
  back g = (Ok (), with_text g (rand_state g) t).
Proof.
  intros Ht. unfold back. erewrite bind_ok by done. rewrite Ht.
  destruct (t ++ [b]) eqn:E; [by destruct t|]. rewrite <- E, removelast_last. done.
Qed.

Lemma next_seed_ok g :
  next_seed g =
    (Ok (i32 (g_seed g + 1)), with_text g (i32 (g_seed g + 1), g_rand g) (g_text g)).
Proof. reflexivity. Qed.

Lemma write_bigint_key eng_ctx g :
  Z.of_nat (length (g_text g)) + 21 ≤ SQL_BUFFER_LEN →
  write_bigint eng_ctx true g =
    (Ok (), with_text g (rand_state g) (g_text g ++ bigint_literal (seed_base eng_ctx) eng_ctx)).
Proof.
  intros Hl. unfold write_bigint. erewrite bind_ok by done. apply emit_ok.
  pose proof (bigint_literal_length (seed_base eng_ctx) eng_ctx) as Hb.
  unfold bigint_literal in *. lia.
Qed.

Lemma write_bigint_val eng_ctx g :
  Z.of_nat (length (g_text g)) + 21 ≤ SQL_BUFFER_LEN →
  let z' := i32 (g_seed g + 1) in
  write_bigint eng_ctx false g =
    (Ok (), with_text g (z', g_rand g) (g_text g ++ bigint_literal z' eng_ctx)).
Proof.
  intros Hl z'. unfold write_bigint. erewrite bind_ok by (apply next_seed_ok).
  rewrite emit_ok; [done|]. cbn [g_text with_text].
  pose proof (bigint_literal_length z' eng_ctx) as Hb. unfold bigint_literal in *.
  fold z'. lia.
Qed.

Lemma write_varchar_key eng_ctx c g :
  0 < data_len c ≤ INT_MAX →
  Z.of_nat (length (g_text g)) + data_len c ≤ SQL_BUFFER_LEN →
  write_varchar eng_ctx c true g =
    (Ok (), with_text g (rand_state g)
       (g_text g ++ varchar_literal (seed_base eng_ctx) (key_length eng_ctx c))).
Proof.
  intros Hc Hl. pose proof (key_length_range eng_ctx c Hc) as Hr. unfold INT_MAX in Hc.
  unfold write_varchar, get_table_data_len. cbv zeta.
  rewrite (proj2 (Z.eqb_neq (data_len c) 0)) by lia.
  erewrite bind_ok by done. cbn beta iota.
  assert (i32 (u64 (frandom (u64 (seed_base eng_ctx)) (u64 (tid eng_ctx)) mod u64 (data_len c)
            + 1)) = key_length eng_ctx c) as ->.
  { rewrite (u64_small (data_len c)) by lia. fold (key_length eng_ctx c).
    rewrite u64_small, i32_small; lia. }
  erewrite bind_ok by done. rewrite (u64_small (key_length eng_ctx c)) by lia.
  rewrite (proj2 (Z.ltb_ge _ _)) by lia.
  destruct (varchar_literal_spec (seed_base eng_ctx) (key_length eng_ctx c)) as [-> _]; [lia|].
  done.
Qed.

Lemma write_varchar_val eng_ctx c g :
  0 < data_len c ≤ INT_MAX →
  Z.of_nat (length (g_text g)) + data_len c ≤ SQL_BUFFER_LEN →
  let z' := i32 (g_seed g + 1) in
  write_varchar eng_ctx c false g =
    (Ok (), with_text g (z', S (g_rand g))
       (g_text g ++ varchar_literal z' (rand_at (g_rand g) mod data_len c + 1))).
Proof.
  intros Hc Hl z'. unfold INT_MAX in Hc. unfold write_varchar, get_table_data_len. cbv zeta.
  rewrite (proj2 (Z.eqb_neq (data_len c) 0)) by lia.
  pose proof (rand_range (g_rand g)) as Hrr. unfold RAND_MAX, INT_MAX in Hrr.
  pose proof (Z.mod_pos_bound (rand_at (g_rand g)) (data_len c) ltac:(lia)) as Hr.
  erewrite bind_ok
    by (erewrite bind_ok by (apply next_seed_ok); erewrite bind_ok by done; reflexivity).
  cbn [with_text g_tables g_seed g_rand g_text fst snd]. cbn beta iota zeta.
  rewrite Z.rem_mod_nonneg by lia. fold z'.
  erewrite bind_ok by done. cbn [g_text].
  rewrite (u64_small (rand_at (g_rand g) mod data_len c + 1)) by lia.
  rewrite (proj2 (Z.ltb_ge _ _)) by lia.
  destruct (varchar_literal_spec z' (rand_at (g_rand g) mod data_len c + 1)) as [-> _]; [lia|].
  done.
Qed.

Lemma write_value_key eng_ctx c g : col_ok c →
  Z.of_nat (length (g_text g)) + width c + 1 ≤ SQL_BUFFER_LEN →
  write_value eng_ctx c true g =
    (Ok (), with_text g (rand_state g) (g_text g ++ key_literal eng_ctx c)).
Proof.
  intros Hok Hl. unfold write_value, key_literal, width, get_table_data_type in *.
  destruct (data_type c) eqn:Ht.
  - rewrite bool_decide_true by done. apply write_bigint_key. lia.
  - rewrite bool_decide_false by done. apply write_varchar_key; [by apply Hok|lia].
Qed.

Lemma write_value_val eng_ctx c g : col_ok c →
  Z.of_nat (length (g_text g)) + width c + 1 ≤ SQL_BUFFER_LEN →
  let '(b, σ) := val_literal eng_ctx c (rand_state g) in
  write_value eng_ctx c false g = (Ok (), with_text g σ (g_text g ++ b)).
Proof.
  intros Hok Hl. unfold write_value, val_literal, rand_state, width, get_table_data_type in *.
  destruct (data_type c) eqn:Ht.
  - rewrite bool_decide_true by done. apply write_bigint_val. lia.
  - rewrite bool_decide_false by done. apply write_varchar_val; [by apply Hok|lia].
Qed.
End literals.

(** ** The statements *)

(** [cs] are the columns behind the first [n] pointers of the array [b]. *)
Definition columns_at (s : table_state) (b : buffer (option loc)) (cs : list table_data_t)
    : Prop :=
  ∀ i c, cs !! i = Some c →
    ∃ d, arr_read b (Z.of_nat i) = Ok (Some d) ∧ cells (datas s) !! d = Some c.

(** The table [t] has the key columns [ks] and the value columns [vs]. *)
Record table_cols (s : table_state) (t : table_t) (ks vs : list table_data_t) : Prop := {
  tc_keys : ∃ b, get_table_key_types t s = (Ok (b, Z.of_nat (length ks)), s) ∧
    columns_at s b ks;
  tc_vals : ∃ b, get_table_val_types t s = (Ok (b, Z.of_nat (length vs)), s) ∧
    columns_at s b vs;
  tc_ok : Forall col_ok (ks ++ vs);
}.

(** ['b'], and values with commas between. *)
Definition quote (b : cstring) : cstring := 39 :: b ++ [39].
Fixpoint join (l : list cstring) : cstring :=
  match l with
  | [] => []
  | [b] => b
  | b :: l => b ++ [44] ++ join l
  end.
Definition with_comma (b : cstring) : cstring := b ++ [44].
Definition assign (n b : cstring) : cstring := n ++ text "=" ++ quote b.

Lemma join_commas (l : list cstring) : l ≠ [] →
  concat (map with_comma l) = join l ++ [44].
Proof.
  induction l as [|b [|b' l] IH]; intros Hl; [done|cbn; by rewrite app_nil_r|].
  change (with_comma b ++ concat (map with_comma (b' :: l)) =
    (b ++ [44] ++ join (b' :: l)) ++ [44]).
  rewrite IH by done. unfold with_comma. by rewrite <- !app_assoc.
Qed.

Lemma join_length (l : list cstring) : l ≠ [] →
  length (concat (map with_comma l)) = S (length (join l)).
Proof. intros Hl. rewrite join_commas, length_app by done. cbn. lia. Qed.

Section statements.
Context `{RandSource} `{MysqlClient}.
Implicit Types (eng_ctx : eng_ctx_t) (c : table_data_t) (σ : Z * nat) (g : gen).

Lemma column_at_ok g b cs i c :
  columns_at (g_tables g) b cs → cs !! i = Some c →
  column_at b (Z.of_nat i) g = (Ok c, g).
Proof.
  intros Hb Hi. destruct (Hb i c Hi) as (d & Hr & Hd). unfold column_at, on_tables.
  erewrite zoom_ok.
  2: { unfold mlift. erewrite bind_ok by (rewrite Hr; reflexivity).
       by apply on_datas_read, heap_get_ok. }
  by destruct g.
Qed.

Lemma total_pos w cs : (∀ c, c ∈ cs → 0 ≤ w c) → 0 ≤ total w cs.
Proof.
  induction cs as [|c cs IH]; intros Hw; cbn; [lia|].
  pose proof (Hw c ltac:(by left)). fold (total w cs).
  enough (0 ≤ total w cs) by lia. apply IH. intros c' Hc'. apply Hw. by right.
Qed.

Lemma total_app w cs ds : total w (cs ++ ds) = total w cs + total w ds.
Proof. induction cs as [|c cs IH]; [done|]. cbn. fold (total w (cs ++ ds)) (total w cs). lia. Qed.

(** A loop whose body writes [fr c b] for each column and its literal. *)
Lemma columns_loop (body : table_data_t → M gen ()) tx
    (fr : table_data_t → cstring → cstring) (w : table_data_t → Z) b cs g :
  (∀ c g, c ∈ cs → Z.of_nat (length (g_text g)) + w c ≤ SQL_BUFFER_LEN →
     let '(l, σ) := tx c (rand_state g) in
     body c g = (Ok (), with_text g σ (g_text g ++ fr c l)) ∧
     Z.of_nat (length (fr c l)) ≤ w c) →
  columns_at (g_tables g) b cs →
  Z.of_nat (length (g_text g)) + total w cs ≤ SQL_BUFFER_LEN →
  (∀ c, c ∈ cs → 0 ≤ w c) →
  let '(ls, σ) := draw_literals tx cs (rand_state g) in
  mfor (Z.of_nat (length cs)) (λ i, c ← column_at b i; body c) g =
    (Ok (), with_text g σ (g_text g ++ concat (zip_with fr cs ls))) ∧
  Z.of_nat (length (concat (zip_with fr cs ls))) ≤ total w cs.
Proof.
  intros Hbody Hb Hroom Hw. unfold mfor. rewrite Nat2Z.id.
  assert (∀ cs2 (k : nat) g2, cs = take k cs ++ cs2 → length (take k cs) = k →
    (∀ c, c ∈ cs2 → c ∈ cs) → g_tables g2 = g_tables g →
    Z.of_nat (length (g_text g2)) + total w cs2 ≤ SQL_BUFFER_LEN →
    let '(ls, σ) := draw_literals tx cs2 (rand_state g2) in
    mfor_from (length cs2) (Z.of_nat k) (λ i, c ← column_at b i; body c) g2 =
      (Ok (), with_text g2 σ (g_text g2 ++ concat (zip_with fr cs2 ls))) ∧
    Z.of_nat (length (concat (zip_with fr cs2 ls))) ≤ total w cs2) as Hgen.
  { induction cs2 as [|c cs2 IH]; intros k g2 Hcs Hk Hin Ht Hr; cbn [draw_literals].
    - cbn. split; [|lia]. rewrite app_nil_r. by destruct g2.
    - cbn [total foldr] in Hr. fold (total w cs2) in Hr.
      assert (0 ≤ total w cs2) as Hf.
      { apply total_pos. intros c' Hc'. apply Hw, Hin. by right. }
      pose proof (Hbody c g2 (Hin c ltac:(by left)) ltac:(lia)) as Hc.
      destruct (tx c (rand_state g2)) as [l σ1]. destruct Hc as [Hc Hlc].
      set (g3 := with_text g2 σ1 (g_text g2 ++ fr c l)) in *.
      assert (cs !! k = Some c) as Hck.
      { rewrite Hcs, lookup_app_r, Hk, Nat.sub_diag by lia. done. }
      specialize (IH (S k) g3). rewrite (take_S_r _ _ _ Hck) in IH.
      destruct (draw_literals tx cs2 σ1) as [ls σ2] eqn:Hd.
      assert (rand_state g3 = σ1) as Hσ by (by destruct σ1).
      rewrite Hσ, Hd in IH.
      destruct IH as [IH1 IH2].
      + rewrite <- app_assoc. exact Hcs.
      + rewrite length_app. cbn. lia.
      + intros c' Hc'. apply Hin. by right.
      + done.
      + cbn [g3 with_text g_text]. rewrite length_app. lia.
      + split.
        * cbn [mfor_from length].
          erewrite bind_ok.
          2: { erewrite bind_ok; [|apply (column_at_ok _ _ cs); [by rewrite Ht|done]].
               exact Hc. }
          replace (Z.of_nat k + 1) with (Z.of_nat (S k)) by lia. rewrite IH1.
          cbn. by rewrite <- app_assoc.
        * cbn [zip_with concat total foldr]. fold (total w cs2). rewrite length_app. lia. }
  apply (Hgen cs 0%nat g); done.
Qed.

(** *** The bodies of the loops *)

Lemma width_pos c : col_ok c → 0 ≤ width c.
Proof. intros Hc. unfold width. destruct (data_type c) eqn:Ht; [lia|]. specialize (Hc Ht). lia. Qed.

Definition key_tx eng_ctx c σ : cstring * (Z * nat) := (key_literal eng_ctx c, σ).
Definition quoted_fr c (b : cstring) : cstring := with_comma (quote b).
Definition assign_fr c (b : cstring) : cstring := with_comma (assign (data_name c) b).

Lemma write_quoted_ok eng_ctx c is_key g : col_ok c →
  Z.of_nat (length (g_text g)) + quoted_width c ≤ SQL_BUFFER_LEN →
  let '(b, σ) := (if is_key : bool then key_tx eng_ctx c (rand_state g)
                  else val_literal eng_ctx c (rand_state g)) in
  write_quoted eng_ctx c is_key g = (Ok (), with_text g σ (g_text g ++ quoted_fr c b)) ∧
  Z.of_nat (length (quoted_fr c b)) ≤ quoted_width c.
Proof.
  intros Hok Hl. unfold quoted_width in *. pose proof (width_pos c Hok).
  set (g1 := with_text g (rand_state g) (g_text g ++ [39])).
  assert (rand_state g1 = rand_state g) as Hσ by done.
  assert (let '(b, σ) := (if is_key then key_tx eng_ctx c (rand_state g)
                  else val_literal eng_ctx c (rand_state g)) in
    write_value eng_ctx c is_key g1 = (Ok (), with_text g1 σ (g_text g1 ++ b)) ∧
    Z.of_nat (length b) ≤ width c) as Hv.
  { assert (Z.of_nat (length (g_text g1)) + width c + 1 ≤ SQL_BUFFER_LEN) as Hl1.
    { cbn. rewrite length_app. cbn. lia. }
    destruct is_key.
    - split; [exact (write_value_key eng_ctx c g1 Hok Hl1)|by apply key_literal_length].
    - pose proof (write_value_val eng_ctx c g1 Hok Hl1) as Hw. rewrite Hσ in Hw.
      pose proof (val_literal_length eng_ctx c (rand_state g) Hok) as Hvl.
      by destruct (val_literal eng_ctx c (rand_state g)) as [b σ]. }
  destruct (if is_key then _ else _) as [b σ]. destruct Hv as [Hv Hlb].
  unfold quoted_fr, with_comma, quote. split.
  - unfold write_quoted. erewrite bind_ok by (apply emit_char_ok; lia). fold g1.
    erewrite bind_ok by exact Hv.
    erewrite bind_ok by (apply emit_char_ok; cbn; rewrite !length_app; cbn; lia).
    rewrite emit_char_ok by (cbn; rewrite !length_app; cbn; lia).
    destruct σ. subst g1. unfold with_text. cbn [g_text g_tables rand_state g_seed g_rand fst snd app].
    by rewrite <- !app_assoc.
  - rewrite length_app. cbn. rewrite length_app. cbn. lia.
Qed.

Lemma write_assignment_ok eng_ctx c is_key g : col_ok c →
  Z.of_nat (length (g_text g)) + assign_width c ≤ SQL_BUFFER_LEN →
  let '(b, σ) := (if is_key : bool then key_tx eng_ctx c (rand_state g)
                  else val_literal eng_ctx c (rand_state g)) in
  write_assignment eng_ctx c is_key g = (Ok (), with_text g σ (g_text g ++ assign_fr c b)) ∧
  Z.of_nat (length (assign_fr c b)) ≤ assign_width c.
Proof.
  intros Hok Hl. unfold assign_width in *. pose proof (width_pos c Hok).
  set (g1 := with_text g (rand_state g) (g_text g ++ data_name c ++ text "=")).
  pose proof (write_quoted_ok eng_ctx c is_key g1 Hok) as Hq.
  change (rand_state g1) with (rand_state g) in Hq. unfold quoted_width in Hq.
  destruct (if is_key then _ else _) as [b σ].
  assert (Z.of_nat (length (g_text g1)) + (width c + 3) ≤ SQL_BUFFER_LEN) as Hl1.
  { cbn. rewrite !length_app. cbn. lia. }
  destruct (Hq Hl1) as [Hw Hlb]. split.
  - unfold write_assignment, get_table_data_name.
    erewrite bind_ok by (apply emit_ok; rewrite length_app; cbn; lia). fold g1.
    rewrite Hw. subst g1. unfold with_text, assign_fr, quoted_fr, with_comma, assign.
    cbn [g_text g_tables g_seed g_rand]. by rewrite <- !app_assoc.
  - unfold assign_fr, quoted_fr, with_comma, assign in *. rewrite !length_app in *.
    cbn in *. lia.
Qed.

(** *** The loops *)

Lemma draw_keys eng_ctx cs σ :
  draw_literals (key_tx eng_ctx) cs σ = (map (key_literal eng_ctx) cs, σ).
Proof. induction cs as [|c cs IH]; [done|]. cbn. by rewrite IH. Qed.

Lemma draw_literals_length tx cs σ : length (draw_literals tx cs σ).1 = length cs.
Proof.
  revert σ. induction cs as [|c cs IH]; intros σ; [done|]. cbn.
  destruct (tx c σ) as [b σ1]. specialize (IH σ1).
  destruct (draw_literals tx cs σ1) as [bs σ2]. cbn in *. by rewrite IH.
Qed.

Lemma zip_quoted cs ls : length ls = length cs →
  zip_with quoted_fr cs ls = map with_comma (map quote ls).
Proof.
  revert ls. induction cs as [|c cs IH]; intros [|l ls] Hl; try done. injection Hl as Hl. cbn. by rewrite IH.
Qed.
Lemma zip_assign cs ls :
  zip_with assign_fr cs ls = map with_comma (zip_with (λ c, assign (data_name c)) cs ls).
Proof. revert ls. induction cs as [|c cs IH]; intros [|l ls]; try done. cbn. by rewrite IH. Qed.

Lemma Forall_elem {A} (P : A → Prop) l x : Forall P l → x ∈ l → P x.
Proof. by rewrite Forall_forall; eauto. Qed.

Lemma total_quoted_pos cs : Forall col_ok cs → 0 ≤ total quoted_width cs.
Proof.
  intros Hok. apply total_pos. intros c Hc. unfold quoted_width.
  pose proof (width_pos c (Forall_elem _ _ _ Hok Hc)). lia.
Qed.

Lemma total_assign_pos cs : Forall col_ok cs → 0 ≤ total assign_width cs.
Proof.
  intros Hok. apply total_pos. intros c Hc. unfold assign_width.
  pose proof (width_pos c (Forall_elem _ _ _ Hok Hc)). lia.
Qed.

Lemma total_name_pos cs : 0 ≤ total name_width cs.
Proof. apply total_pos. intros c _. unfold name_width. lia. Qed.

Lemma assign_width_pos c : col_ok c → 5 ≤ assign_width c.
Proof. intros Hc. unfold assign_width. pose proof (width_pos c Hc). lia. Qed.

(** The states a statement goes through: the tables stay, the text grows. *)
Lemma rand_state_with g σ t : rand_state (with_text g σ t) = σ.
Proof. by destruct σ. Qed.

Lemma loop_ok (body : table_data_t → M gen ()) tx
    (fr : table_data_t → cstring → cstring) (w : table_data_t → Z) b cs g σ t :
  (∀ c g, c ∈ cs → Z.of_nat (length (g_text g)) + w c ≤ SQL_BUFFER_LEN →
     let '(l, σ) := tx c (rand_state g) in
     body c g = (Ok (), with_text g σ (g_text g ++ fr c l)) ∧
     Z.of_nat (length (fr c l)) ≤ w c) →
  columns_at (g_tables g) b cs →
  Z.of_nat (length t) + total w cs ≤ SQL_BUFFER_LEN →
  (∀ c, c ∈ cs → 0 ≤ w c) →
  let '(ls, σ') := draw_literals tx cs σ in
  mfor (Z.of_nat (length cs)) (λ i, c ← column_at b i; body c) (with_text g σ t) =
    (Ok (), with_text g σ' (t ++ concat (zip_with fr cs ls))) ∧
  Z.of_nat (length (concat (zip_with fr cs ls))) ≤ total w cs.
Proof.
  intros Hbody Hb Hr Hw.
  pose proof (columns_loop body tx fr w b cs (with_text g σ t) Hbody Hb Hr Hw) as Hloop.
  by rewrite rand_state_with in Hloop.
Qed.

(** The quoted values of the key columns [ks], and of the value columns [vs]. *)
Lemma quote_keys_loop eng_ctx b ks g σ t : Forall col_ok ks →
  columns_at (g_tables g) b ks →
  Z.of_nat (length t) + total quoted_width ks ≤ SQL_BUFFER_LEN →
  let bs := concat (map with_comma (map quote (map (key_literal eng_ctx) ks))) in
  mfor (Z.of_nat (length ks)) (λ i, c ← column_at b i; write_quoted eng_ctx c true)
    (with_text g σ t) = (Ok (), with_text g σ (t ++ bs)) ∧
  Z.of_nat (length bs) ≤ total quoted_width ks.
Proof.
  intros Hok Hb Hr bs.
  pose proof (loop_ok (λ c, write_quoted eng_ctx c true) (key_tx eng_ctx) quoted_fr
    quoted_width b ks g σ t) as Hloop.
  rewrite draw_keys, zip_quoted in Hloop by (by rewrite length_map).
  apply Hloop; [|done|done|].
  - intros c g' Hc Hl. apply (write_quoted_ok eng_ctx c true g' (Forall_elem _ _ _ Hok Hc) Hl).
  - intros c Hc. unfold quoted_width. pose proof (width_pos c (Forall_elem _ _ _ Hok Hc)). lia.
Qed.

Lemma quote_vals_loop eng_ctx b vs g σ t : Forall col_ok vs →
  columns_at (g_tables g) b vs →
  Z.of_nat (length t) + total quoted_width vs ≤ SQL_BUFFER_LEN →
  let '(ls, σ') := draw_literals (val_literal eng_ctx) vs σ in
  let bs := concat (map with_comma (map quote ls)) in
  mfor (Z.of_nat (length vs)) (λ i, c ← column_at b i; write_quoted eng_ctx c false)
    (with_text g σ t) = (Ok (), with_text g σ' (t ++ bs)) ∧
  Z.of_nat (length bs) ≤ total quoted_width vs.
Proof.
  intros Hok Hb Hr.
  pose proof (loop_ok (λ c, write_quoted eng_ctx c false) (val_literal eng_ctx) quoted_fr
    quoted_width b vs g σ t) as Hloop.
  pose proof (draw_literals_length (val_literal eng_ctx) vs σ) as Hlen.
  destruct (draw_literals _ _ _) as [ls σ'].
  rewrite zip_quoted in Hloop by done. apply Hloop; [|done|done|].
  - intros c g' Hc Hl. apply (write_quoted_ok eng_ctx c false g' (Forall_elem _ _ _ Hok Hc) Hl).
  - intros c Hc. unfold quoted_width. pose proof (width_pos c (Forall_elem _ _ _ Hok Hc)). lia.
Qed.

(** The assignments of an update. *)
Definition assignments (cs : list table_data_t) (ls : list cstring) : list cstring :=
  zip_with (λ c, assign (data_name c)) cs ls.

Lemma assign_vals_loop eng_ctx b vs g σ t : Forall col_ok vs →
  columns_at (g_tables g) b vs →
  Z.of_nat (length t) + total assign_width vs ≤ SQL_BUFFER_LEN →
  let '(ls, σ') := draw_literals (val_literal eng_ctx) vs σ in
  let bs := concat (map with_comma (assignments vs ls)) in
  mfor (Z.of_nat (length vs)) (λ i, c ← column_at b i; write_assignment eng_ctx c false)
    (with_text g σ t) = (Ok (), with_text g σ' (t ++ bs)) ∧
  Z.of_nat (length bs) ≤ total assign_width vs.
Proof.
  intros Hok Hb Hr.
  pose proof (loop_ok (λ c, write_assignment eng_ctx c false) (val_literal eng_ctx)
    assign_fr assign_width b vs g σ t) as Hloop.
  destruct (draw_literals _ _ _) as [ls σ'].
  rewrite zip_assign in Hloop. apply Hloop; [|done|done|].
  - intros c g' Hc Hl.
    apply (write_assignment_ok eng_ctx c false g' (Forall_elem _ _ _ Hok Hc) Hl).
  - intros c Hc. unfold assign_width. pose proof (width_pos c (Forall_elem _ _ _ Hok Hc)). lia.
Qed.

(** The column names of a select. *)
Lemma names_loop b cs g σ t : columns_at (g_tables g) b cs →
  Z.of_nat (length t) + total name_width cs ≤ SQL_BUFFER_LEN →
  let bs := concat (map with_comma (map data_name cs)) in
  mfor (Z.of_nat (length cs))
    (λ i, c ← column_at b i; emit (get_table_data_name c ++ text ",")) (with_text g σ t) =
    (Ok (), with_text g σ (t ++ bs)) ∧
  Z.of_nat (length bs) ≤ total name_width cs.
Proof.
  intros Hb Hr bs.
  pose proof (loop_ok (λ c, emit (get_table_data_name c ++ text ","))
    (λ _ σ, ([], σ)) (λ c _, with_comma (data_name c)) name_width b cs g σ t) as Hloop.
  assert (draw_literals (λ _ σ, ([], σ)) cs σ = (map (λ _, []) cs, σ)) as Hd.
  { clear. induction cs as [|c cs IH]; [done|]. cbn. by rewrite IH. }
  assert (zip_with (λ c _, with_comma (data_name c)) cs (map (λ _, [] : cstring) cs) =
    map with_comma (map data_name cs)) as Hz.
  { clear. induction cs as [|c cs IH]; [done|]. cbn. by rewrite IH. }
  rewrite Hd, Hz in Hloop. apply Hloop; [|done|done|].
  - intros c g' Hc Hl. unfold name_width in *.
    assert (length (with_comma (data_name c)) = S (length (data_name c))) as He
      by (unfold with_comma; rewrite length_app; cbn; lia).
    split; [|lia]. apply emit_ok. change (length (get_table_data_name c ++ text ","))
      with (length (with_comma (data_name c))). lia.
  - intros c Hc. unfold name_width. lia.
Qed.

(** The steps of a statement, on the state [with_text g σ t]. *)
Lemma start_ok bs g : Z.of_nat (length bs) + 1 ≤ SQL_BUFFER_LEN →
  start_text bs g = (Ok (), with_text g (rand_state g) bs).
Proof. intros Hl. unfold start_text. erewrite bind_ok by done. by rewrite emit_ok by (cbn; lia). Qed.

Lemma back_step g σ t bs : bs ≠ [] →
  back (with_text g σ (t ++ concat (map with_comma bs))) =
    (Ok (), with_text g σ (t ++ join bs)).
Proof.
  intros Hb. rewrite (back_ok (t ++ join bs) 44); [by destruct g, σ|].
  cbn. by rewrite join_commas, app_assoc.
Qed.

Lemma emit_step bs g σ t :
  Z.of_nat (length t) + Z.of_nat (length bs) + 1 ≤ SQL_BUFFER_LEN →
  emit bs (with_text g σ t) = (Ok (), with_text g σ (t ++ bs)).
Proof. intros Hl. rewrite emit_ok by done. by destruct σ. Qed.

Lemma emit_char_step b g σ t : Z.of_nat (length t) + 1 ≤ SQL_BUFFER_LEN →
  emit_char b (with_text g σ t) = (Ok (), with_text g σ (t ++ [b])).
Proof. intros Hl. rewrite emit_char_ok by done. by destruct σ. Qed.

(** *** The statements *)

Lemma the_table_ok eng_ctx t g : table eng_ctx = TPtr t → the_table eng_ctx g = (Ok t, g).
Proof. intros Ht. unfold the_table. by rewrite Ht. Qed.

Lemma on_tables_ok {A} (m : M table_state A) a g σ t :
  m (g_tables g) = (Ok a, g_tables g) →
  on_tables m (with_text g σ t) = (Ok a, with_text g σ t).
Proof. intros Hm. unfold on_tables. erewrite zoom_ok by exact Hm. by destruct g. Qed.

(** The condition on the first key column. *)
Definition where_text eng_ctx c : cstring := assign (data_name c) (key_literal eng_ctx c).

Lemma where_key_ok eng_ctx t k ks vs g σ tx :
  table_cols (g_tables g) t (k :: ks) vs →
  Z.of_nat (length tx) + assign_width k + 1 ≤ SQL_BUFFER_LEN →
  where_key eng_ctx t (with_text g σ tx) =
    (Ok (), with_text g σ (tx ++ where_text eng_ctx k ++ [0])).
Proof.
  intros Hc Hr. destruct (tc_keys _ _ _ _ Hc) as (b & Hb & Hat).
  assert (col_ok k) as Hk by (apply (Forall_elem _ _ _ (tc_ok _ _ _ _ Hc)); by left).
  set (g0 := with_text g σ tx).
  destruct (write_assignment_ok eng_ctx k true g0 Hk) as [Hw Hl]; [cbn; lia|].
  unfold where_key, key_types. erewrite bind_ok by (apply on_tables_ok, Hb). cbn beta iota.
  erewrite bind_ok.
  2: { change (mfor 1 ?f) with (f 0;; mret ()). erewrite bind_ok; [reflexivity|].
       erewrite bind_ok by (apply (column_at_ok g0 b _ 0 k Hat); done). exact Hw. }
  change (assign_fr k (key_literal eng_ctx k)) with (where_text eng_ctx k ++ [44]) in *.
  rewrite length_app in Hl. cbn in Hl.
  erewrite bind_ok by (apply (back_ok (tx ++ where_text eng_ctx k) 44), app_assoc).
  rewrite emit_char_ok by (cbn; rewrite length_app; lia).
  destruct σ. unfold with_text. cbn [g_text g_tables]. by rewrite <- app_assoc.
Qed.

(** C39 [insert_gen] writes [insert into T values('k1',...,'v1',...)] with a literal for
    every key column and then for every value column, in the order of the schema, whenever
    the columns fit in the buffer; only the value columns advance the random state. *)
Theorem insert_gen_text eng_ctx t ks vs g :
  table eng_ctx = TPtr t → table_cols (g_tables g) t ks vs → ks ++ vs ≠ [] →
  Z.of_nat (length (name t)) + total quoted_width (ks ++ vs) + 22 ≤ SQL_BUFFER_LEN →
  let '(vals, σ) := draw_literals (val_literal eng_ctx) vs (rand_state g) in
  insert_gen eng_ctx g =
    (Ok RET_SUCCEED, with_text g σ
       (text "insert into " ++ name t ++ text " values(" ++
        join (map quote (map (key_literal eng_ctx) ks ++ vals)) ++ text ")" ++ [0])).
Proof.
  intros Ht Hc Hne Hr. destruct (tc_keys _ _ _ _ Hc) as (bk & Hbk & Hk).
  destruct (tc_vals _ _ _ _ Hc) as (bv & Hbv & Hv).
  destruct (proj1 (Forall_app _ _ _) (tc_ok _ _ _ _ Hc)) as [Hok Hov].
  rewrite total_app in Hr. pose proof (total_quoted_pos _ Hok). pose proof (total_quoted_pos _ Hov).
  set (t0 := text "insert into " ++ get_table_name t ++ text " values(").
  assert (Z.of_nat (length t0) = Z.of_nat (length (name t)) + 20) as Hl0
    by (unfold t0, get_table_name; rewrite !length_app; cbn -[Z.of_nat]; lia).
  destruct (quote_keys_loop eng_ctx bk ks g (rand_state g) t0 Hok Hk ltac:(lia)) as [Hlk Hlenk].
  set (kt := map quote (map (key_literal eng_ctx) ks)) in *.
  pose proof (quote_vals_loop eng_ctx bv vs g (rand_state g) (t0 ++ concat (map with_comma kt))
    Hov Hv) as Hloop.
  pose proof (draw_literals_length (val_literal eng_ctx) vs (rand_state g)) as Hlen.
  destruct (draw_literals _ vs _) as [vals σ]. cbn [fst] in Hlen.
  destruct Hloop as [Hlv Hlenv]; [rewrite length_app; lia|].
  rewrite <- app_assoc, <- concat_app, <- map_app in Hlv. rewrite map_app. fold kt.
  assert (kt ++ map quote vals ≠ []) as Hnn.
  { intros [Hkn Hvn]%app_nil. apply Hne. apply map_eq_nil, map_eq_nil in Hkn. apply map_eq_nil in Hvn. subst.
    by destruct vs. }
  unfold insert_gen.
  erewrite bind_ok by (by apply the_table_ok). erewrite bind_ok by (apply (start_ok t0); lia).
  erewrite bind_ok by (apply on_tables_ok; exact Hbk). cbn beta iota.
  erewrite bind_ok by exact Hlk.
  erewrite bind_ok by (apply on_tables_ok; exact Hbv). cbn beta iota.
  erewrite bind_ok by exact Hlv.
  erewrite bind_ok by (by apply back_step).
  assert (Z.of_nat (length (t0 ++ join (kt ++ map quote vals))) + 2 ≤ SQL_BUFFER_LEN) as Hj.
  { pose proof (join_length (kt ++ map quote vals) Hnn) as Hjl.
    rewrite map_app, concat_app, length_app in Hjl. rewrite length_app. lia. }
  erewrite bind_ok by (apply emit_char_step; lia).
  erewrite bind_ok by (apply emit_char_step; rewrite length_app; cbn [length]; lia).
  unfold t0. by rewrite <- !app_assoc.
Qed.
(** [delete_gen] writes [delete from T where k='v'] on the first key column, with the
    literal [insert_gen] gives that column in the same context, and draws nothing. *)
Theorem delete_gen_text eng_ctx t k ks vs g :
  table eng_ctx = TPtr t → table_cols (g_tables g) t (k :: ks) vs →
  Z.of_nat (length (name t)) + assign_width k + 20 ≤ SQL_BUFFER_LEN →
  delete_gen eng_ctx g =
    (Ok RET_SUCCEED, with_text g (rand_state g)
       (text "delete from " ++ name t ++ text " where " ++ where_text eng_ctx k ++ [0])).
Proof.
  intros Ht Hc Hr.
  pose proof (assign_width_pos k (Forall_elem _ _ k (tc_ok _ _ _ _ Hc) ltac:(by left))).
  set (t0 := text "delete from " ++ get_table_name t ++ text " where ").
  assert (Z.of_nat (length t0) = Z.of_nat (length (name t)) + 19) as Hl0
    by (unfold t0, get_table_name; rewrite !length_app; cbn -[Z.of_nat]; lia).
  unfold delete_gen.
  erewrite bind_ok by (by apply the_table_ok). erewrite bind_ok by (apply (start_ok t0); lia).
  erewrite bind_ok by (eapply where_key_ok; [done|lia]).
  unfold t0. by rewrite <- !app_assoc.
Qed.

(** [update_gen] sets every value column to a new literal, where the first key column
    has the context's literal. *)
Theorem update_gen_text eng_ctx t k ks vs g :
  table eng_ctx = TPtr t → table_cols (g_tables g) t (k :: ks) vs → vs ≠ [] →
  Z.of_nat (length (name t)) + total assign_width vs + assign_width k + 20 ≤ SQL_BUFFER_LEN →
  let '(vals, σ) := draw_literals (val_literal eng_ctx) vs (rand_state g) in
  update_gen eng_ctx g =
    (Ok RET_SUCCEED, with_text g σ
       (text "update " ++ name t ++ text " set " ++ join (assignments vs vals) ++
        text " where " ++ where_text eng_ctx k ++ [0])).
Proof.
  intros Ht Hc Hne Hr. destruct (tc_vals _ _ _ _ Hc) as (bv & Hbv & Hv).
  destruct (proj1 (Forall_app _ _ _) (tc_ok _ _ _ _ Hc)) as [Hok Hov].
  pose proof (assign_width_pos k (Forall_elem _ _ k Hok ltac:(by left))).
  pose proof (total_assign_pos _ Hov).
  set (t0 := text "update " ++ get_table_name t ++ text " set ").
  assert (Z.of_nat (length t0) = Z.of_nat (length (name t)) + 12) as Hl0
    by (unfold t0, get_table_name; rewrite !length_app; cbn -[Z.of_nat]; lia).
  pose proof (assign_vals_loop eng_ctx bv vs g (rand_state g) t0 Hov Hv ltac:(lia)) as Hloop.
  pose proof (draw_literals_length (val_literal eng_ctx) vs (rand_state g)) as Hlen.
  destruct (draw_literals _ vs _) as [vals σ]. cbn [fst] in Hlen. destruct Hloop as [Hlv Hlenv].
  assert (assignments vs vals ≠ []) as Hnn by (destruct vs, vals; done).
  pose proof (join_length _ Hnn) as Hjl.
  unfold update_gen.
  erewrite bind_ok by (by apply the_table_ok). erewrite bind_ok by (apply (start_ok t0); lia).
  erewrite bind_ok by (apply on_tables_ok; exact Hbv). cbn beta iota.
  erewrite bind_ok by exact Hlv. erewrite bind_ok by (by apply back_step).
  erewrite bind_ok by (apply emit_step; rewrite length_app; cbn [length text]; lia).
  erewrite bind_ok
    by (eapply where_key_ok; [done|]; rewrite !length_app; cbn [length text]; lia).
  unfold t0. by rewrite <- !app_assoc.
Qed.

(** [select_gen] asks for every key and value column by name, in the order of the
    schema, where the first key column has the context's literal, and draws nothing. *)
Theorem select_gen_text eng_ctx t k ks vs g :
  table eng_ctx = TPtr t → table_cols (g_tables g) t (k :: ks) vs →
  Z.of_nat (length (name t)) + total name_width (k :: ks ++ vs) + assign_width k + 30
    ≤ SQL_BUFFER_LEN →
  select_gen eng_ctx g =
    (Ok RET_SUCCEED, with_text g (rand_state g)
       (text "select " ++ join (map data_name (k :: ks ++ vs)) ++ text " from " ++ name t ++
        text " where " ++ where_text eng_ctx k ++ [0])).
Proof.
  intros Ht Hc Hr. destruct (tc_keys _ _ _ _ Hc) as (bk & Hbk & Hk).
  destruct (tc_vals _ _ _ _ Hc) as (bv & Hbv & Hv).
  pose proof (assign_width_pos k (Forall_elem _ _ k (tc_ok _ _ _ _ Hc) ltac:(by left))).
  change (k :: ks ++ vs) with ((k :: ks) ++ vs) in *. rewrite total_app in Hr.
  pose proof (total_name_pos (k :: ks)). pose proof (total_name_pos vs).
  set (t0 := text "select ").
  assert (Z.of_nat (length t0) = 7) as Hl0 by done.
  destruct (names_loop bk (k :: ks) g (rand_state g) t0 Hk ltac:(lia)) as [Hlk Hlenk].
  set (kt := map data_name (k :: ks)) in *.
  destruct (names_loop bv vs g (rand_state g) (t0 ++ concat (map with_comma kt)) Hv)
    as [Hlv Hlenv]; [rewrite length_app; lia|].
  rewrite <- app_assoc, <- concat_app, <- map_app in Hlv. rewrite map_app. fold kt.
  assert (kt ++ map data_name vs ≠ []) as Hnn by done.
  pose proof (join_length _ Hnn) as Hjl. rewrite map_app, concat_app, length_app in Hjl.
  set (t1 := text " from " ++ get_table_name t ++ text " where ").
  assert (Z.of_nat (length t1) = Z.of_nat (length (name t)) + 13) as Hl1
    by (unfold t1, get_table_name; rewrite !length_app; cbn [length text]; lia).
  unfold select_gen.
  erewrite bind_ok by (by apply the_table_ok). erewrite bind_ok by (apply (start_ok t0); lia).
  erewrite bind_ok by (apply on_tables_ok; exact Hbk). cbn beta iota.
  erewrite bind_ok by exact Hlk.
  erewrite bind_ok by (apply on_tables_ok; exact Hbv). cbn beta iota.
  erewrite bind_ok by exact Hlv. erewrite bind_ok by (by apply back_step).
  erewrite bind_ok by (apply (emit_step t1); rewrite length_app; lia).
  erewrite bind_ok by (eapply where_key_ok; [done|]; rewrite !length_app; lia).
  unfold t1. by rewrite <- !app_assoc.
Qed.
End statements.

(** ** Witnesses *)

Local Existing Instance roomy_allocator.
Local Existing Instance counting_rand.
Local Existing Instance toy_client.

Definition sample_ctx : eng_ctx_t :=
  EngCtx _ None None toy_cluster [] [] (TPtr sample_table) (Some 1%positive) (text "test42")
    1 (Some []) 7 None zero_stats.

Definition sample_gen : gen := Gen sample_tables 0 3 [].

Lemma one_column_at (d : loc) c : cells (datas sample_tables) !! d = Some c →
  columns_at sample_tables (schemas (one_column d)) [c].
Proof.
  intros Hd [|i] c' Hi; [|discriminate Hi]. injection Hi as <-. by exists d.
Qed.

Lemma sample_table_cols : table_cols sample_tables sample_table [id_column] [val_column].
Proof.
  split.
  - exists (schemas (one_column 1%positive)). split; [reflexivity|by apply one_column_at].
  - exists (schemas (one_column 2%positive)). split; [reflexivity|by apply one_column_at].
  - repeat constructor; cbn; unfold INT_MAX; done || lia.
Qed.

Example insert_gen_text_witness :
  insert_gen sample_ctx sample_gen =
    (Ok RET_SUCCEED, Gen sample_tables 1 4
       (text "insert into test42 values('" ++ key_literal sample_ctx id_column ++ text "','" ++
        varchar_literal 1 4 ++ text "')" ++ [0])).
Proof.
  pose proof (insert_gen_text sample_ctx sample_table [id_column] [val_column] sample_gen
    eq_refl sample_table_cols ltac:(done) ltac:(vm_compute; discriminate)) as Hx.
  rewrite (surjective_pairing (draw_literals _ _ _)) in Hx.
  change (draw_literals (val_literal sample_ctx) [val_column] (rand_state sample_gen))
    with ([varchar_literal 1 (3 mod 20 + 1)], (1, 4%nat)) in Hx.
  rewrite Hx. cbn [fst snd]. unfold with_text. cbn. by rewrite <- !app_assoc.
Defined.

Example delete_gen_text_witness :
  delete_gen sample_ctx sample_gen =
    (Ok RET_SUCCEED, with_text sample_gen (0, 3%nat)
       (text "delete from " ++ text "test42" ++ text " where " ++
        where_text sample_ctx id_column ++ [0])).
Proof.
  exact (delete_gen_text sample_ctx sample_table id_column [] [val_column] sample_gen
    eq_refl sample_table_cols ltac:(vm_compute; discriminate)).
Defined.

Example update_gen_text_witness :
  update_gen sample_ctx sample_gen =
    (Ok RET_SUCCEED, with_text sample_gen (1, 4%nat)
       (text "update " ++ text "test42" ++ text " set " ++
        (text "val" ++ text "=" ++ quote (varchar_literal 1 4)) ++ text " where " ++
        where_text sample_ctx id_column ++ [0])).
Proof.
  exact (update_gen_text sample_ctx sample_table id_column [] [val_column] sample_gen
    eq_refl sample_table_cols ltac:(done) ltac:(vm_compute; discriminate)).
Defined.

Example select_gen_text_witness :
  select_gen sample_ctx sample_gen =
    (Ok RET_SUCCEED, with_text sample_gen (0, 3%nat)
       (text "select " ++ text "id,val" ++ text " from " ++ text "test42" ++ text " where " ++
        where_text sample_ctx id_column ++ [0])).
Proof.
  exact (select_gen_text sample_ctx sample_table id_column [] [val_column] sample_gen
    eq_refl sample_table_cols ltac:(vm_compute; discriminate)).
Defined.
