(* ===== verification/MysqlCmd.v ===== *)
(** * MysqlCmd: the commands of a thread (src/src/cq_mysql/cq_mysql_cmd.c)

    Every command generates its statement in the context's buffer and sends it
    to the context's write server.  [mysql_select] also sends it to every read
    server and compares the rows: it is the check that the program exists for,
    and aborts the program when a read server disagrees. *)

From stdpp Require Import base gmap list strings.
From Stdlib Require Import ZArith Lia.
From S2P Require Import Prelude Mylib Heap CText Command Table Server EngineCtx SqlGen.
Local Open Scope Z_scope.

(** The successive answers of [gettimeofday]. *)
Class Clock := { clock_at : nat → timeval }.

(** What a command can touch: the thread's context, the tables, the static
    [sql_frandom_seed], [rand], the servers, [g_stat], the clock and [stderr]. *)
Record world `{MysqlClient} := World {
  w_ctx : eng_ctx_t;
  w_tables : table_state;
  w_seed : Z;
  w_rand : nat;
  w_db : db;
  g_stat : eng_stats;
  w_now : nat;
  w_stderr : cstring;
}.

(** [char database[] = "test"] *)
Definition database : cstring := text "test".

(** The characters of a buffer up to the first NUL. *)
Fixpoint c_str (bs : cstring) : cstring :=
  match bs with
  | [] => []
  | b :: bs => if b =? 0 then [] else b :: c_str bs
  end.

Section commands.
Context `{Allocator} `{RandSource} `{Clock} `{MysqlClient}.
Implicit Types (w : world) (k : counter).

Definition with_ctx c w : world :=
  World _ c (w_tables w) (w_seed w) (w_rand w) (w_db w) (g_stat w) (w_now w) (w_stderr w).
Definition with_db d w : world :=
  World _ (w_ctx w) (w_tables w) (w_seed w) (w_rand w) d (g_stat w) (w_now w) (w_stderr w).
Definition with_g_stat st w : world :=
  World _ (w_ctx w) (w_tables w) (w_seed w) (w_rand w) (w_db w) st (w_now w) (w_stderr w).
Definition with_now n w : world :=
  World _ (w_ctx w) (w_tables w) (w_seed w) (w_rand w) (w_db w) (g_stat w) n (w_stderr w).
Definition with_stderr t w : world :=
  World _ (w_ctx w) (w_tables w) (w_seed w) (w_rand w) (w_db w) (g_stat w) (w_now w) t.
Definition with_tables_rand (s : table_state * nat) w : world :=
  World _ (w_ctx w) s.1 (w_seed w) s.2 (w_db w) (g_stat w) (w_now w) (w_stderr w).

Definition on_db {A} : M db A → M world A := zoom w_db with_db.
Definition on_world_tables {A} : M (table_state * nat) A → M world A :=
  zoom (λ w, (w_tables w, w_rand w)) with_tables_rand.
Definition modify_ctx (f : eng_ctx_t → eng_ctx_t) : M world () :=
  mmodify (λ w, with_ctx (f (w_ctx w)) w).

(** The state of the generators, and what they leave: the text is in the
    context's buffer. *)
Definition gen_of w : gen :=
  Gen (w_tables w) (w_seed w) (w_rand w) (default [] (sql (w_ctx w))).
Definition with_gen (g : gen) w : world :=
  World _ (match sql (w_ctx w) with
           | None => w_ctx w
           | Some _ => ctx_with_sql (g_text g) (w_ctx w)
           end)
    (g_tables g) (g_seed g) (g_rand g) (w_db w) (g_stat w) (w_now w) (w_stderr w).

(** [sql_gen(eng_ctx, type)], the result being ignored. *)
Definition generate (type : cmd_type_t) : M world () :=
  c ← mgets w_ctx; zoom gen_of with_gen (sql_gen c type);; mret ().

(** [my_assert(eng_ctx->sql)], and the statement in the buffer. *)
Definition the_sql : M world cstring :=
  c ← mgets w_ctx;
  match sql c with None => mstop Aborted | Some bs => mret (c_str bs) end.

Definition get_mysql (s : option cq_server_t) : M world conn :=
  match s with None => mstop (Undefined NullDeref) | Some s => mret (get_server_mysql s) end.
Definition write_mysql : M world conn := c ← mgets w_ctx; get_mysql (write_server c).

Definition select_db (m : conn) : M world Z := on_db (lib (mysql_select_db m database)).
Definition real_query (m : conn) (q : cstring) : M world Z := on_db (lib (mysql_real_query m q)).

(** [gettimeofday] *)
Definition now : M world timeval :=
  n ← mgets w_now; mmodify (with_now (S n));; mret (clock_at n).
Definition write_time : M world () :=
  t ← now; modify_ctx (λ c, (set_sql_write_time t c).2).
Definition read_time : M world () :=
  t ← now; modify_ctx (λ c, (set_sql_read_time t c).2).

(** [g_stat.n = __sync_add_and_fetch(&g_stat.n, 1)], alone. *)
Definition count_all k : M world () :=
  mmodify (λ w, with_g_stat (counter_sync_incr k (g_stat w)) w).

(** [eng_ctx->stats.n++; g_stat.n = __sync_add_and_fetch(&g_stat.n, 1)] *)
Definition count k : M world () :=
  c ← mgets w_ctx;
  st ← mlift (counter_incr k (stats c));
  modify_ctx (ctx_with_stats st);;
  count_all k.

Definition mysql_create_table : M world Z :=
  m ← write_mysql;
  ret ← select_db m;
  if negb (ret =? 0) then mret ret else
    generate CREATE;;
    q ← the_sql;
    real_query m q.

Definition ctx_table : M world table_t :=
  c ← mgets w_ctx;
  match table c with
  | TNull => mstop (Undefined NullDeref)
  | TPtr t => mret t
  | TOther => mstop (Undefined UseAfterFree)
  end.

Definition mysql_alter_add_table : M world Z :=
  m ← write_mysql;
  ptable ← ctx_table;
  let pschema := get_table_schema ptable in
  ret ← select_db m;
  if negb (ret =? 0) then mret ret else
    full ← on_world_tables (on_fst (is_table_schema_full pschema));
    if (full : bool) then mret 0 else
      on_world_tables (add_table_data pschema);;
      generate ALTER_ADD;;
      q ← the_sql;
      real_query m q.

Definition mysql_alter_drop_table : M world Z :=
  m ← write_mysql;
  ptable ← ctx_table;
  let pschema := get_table_schema ptable in
  '(table_datas, ndata) ← on_world_tables (on_fst (get_table_val_types ptable));
  if ndata <=? 0 then mret 0 else
    ret ← select_db m;
    if negb (ret =? 0) then mret ret else
      p ← mlift (arr_read table_datas (ndata - 1));
      d ← on_world_tables (on_fst (on_datas (heap_get p)));
      if negb (strncmp_eq (get_table_data_name d) (text "col") 3) then mret 0 else
        generate ALTER_DROP;;
        q ← the_sql;
        ret ← real_query m q;
        if ret =? 0 then on_world_tables (on_fst (drop_table_data pschema));; mret 0
        else mret ret.

(** The three commands that write a row differ in the statement and the counter. *)
Definition write_command (type : cmd_type_t) k : M world Z :=
  m ← write_mysql;
  ret ← select_db m;
  if negb (ret =? 0) then mret ret else
    generate type;;
    q ← the_sql;
    ret ← real_query m q;
    if ret =? 0 then
      write_time;;
      modify_ctx (ctx_with_prev_cmd type);;
      count k;;
      mret 0
    else mret ret.

Definition mysql_insert : M world Z := write_command INSERT CInsert.
Definition mysql_delete : M world Z := write_command DELETE CDelete.
Definition mysql_update : M world Z := write_command UPDATE CUpdate.

(** [result[i]] of a library array that may be [NULL]. *)
Definition fetched {A} (l : option (list A)) (i : Z) : M world A :=
  match l with
  | None => mstop (Undefined NullDeref)
  | Some l => match l !! Z.to_nat i with
              | Some x => mret x
              | None => mstop (Undefined OutOfBounds)
              end
  end.
Definition field (row : option (list (option cstring))) (i : Z) : M world cstring :=
  o ← fetched row i;
  match o with None => mstop (Undefined NullDeref) | Some f => mret f end.

Definition store_result (m : conn) : M world mysql_res :=
  r ← on_db (lib (mysql_store_result m));
  match r with None => mstop (Undefined NullDeref) | Some r => mret r end.

(** The report of an inconsistency: [%15s], [%.*s] and the last command. *)
Definition pad15 (s : cstring) : cstring := replicate (15 - length s) 32 ++ s.
Definition command_name (c : option cmd_type_t) : cstring :=
  match c with None => text "command not defined!" | Some t => text (cmdtype_toString t) end.
Definition newline : cstring := [10].

Definition report (prev : option cmd_type_t) (wname rname tname : cstring)
    (wkey wval : cstring) (rkeyval : cstring) : cstring :=
  text "Check ERROR !!!" ++ newline ++
  text "Command: " ++ command_name prev ++ text " Host: " ++ pad15 wname ++
  text " Table: " ++ tname ++ text " Key: " ++ take 20 wkey ++
  text " Value: " ++ take 8 wval ++ text " ..." ++ newline ++
  text "Command: SELECT Host: " ++ pad15 rname ++ text " Table: " ++ tname ++ rkeyval.

Definition different_row (rkey rval : cstring) : cstring :=
  text " Key: " ++ take 20 rkey ++ text " Value: " ++ take 8 rval ++
  text " ..." ++ newline ++ newline.
Definition missing_row : cstring :=
  text " Key: NULL Value: NULL " ++ newline ++ newline.

(** The report goes through [data_inconsist_log_buf] to [stderr]; the check has
    failed. *)
Definition inconsistent (rserver : cq_server_t) (wrow : option (list (option cstring)))
    (rkeyval : M world cstring) : M world () :=
  c ← mgets w_ctx;
  m ← (match write_server c with
       | None => mstop (Undefined NullDeref) | Some s => mret (get_server_name s) end);
  t ← ctx_table;
  wkey ← field wrow 0;
  wval ← field wrow 1;
  rest ← rkeyval;
  let log := report (prev_cmd c) m (get_server_name rserver) (get_table_name t) wkey wval rest in
  if MAX_DATA_LOG_LEN <=? Z.of_nat (length log) then mstop (Undefined OutOfBounds) else
  mmodify (λ w, with_stderr (w_stderr w ++ log) w);;
  count_all CCheckFail;;
  mstop Aborted.

(** One column of the two rows. *)
Definition compare_field (rserver : cq_server_t) (wrow rrow : option (list (option cstring)))
    (wlengths : option (list Z)) (j : Z) : M world () :=
  a ← field wrow j;
  b ← field rrow j;
  n ← fetched wlengths j;
  if strncmp_eq a b (Z.to_nat n) then mret ()
  else inconsistent rserver wrow
         (rkey ← field rrow 0; rval ← field rrow 1; mret (different_row rkey rval)).

(** The body of the loop over the read servers. *)
Definition check_server (q : cstring) (wrow : option (list (option cstring)))
    (wlengths : option (list Z)) (wnum_fields : Z) (rserver : cq_server_t) : M world () :=
  let m := get_server_mysql rserver in
  ret ← select_db m;
  if negb (ret =? 0) then mret () else
    ret ← real_query m q;
    if negb (ret =? 0) then mret () else
      read_time;;
      count CSelect;;
      r ← store_result m;
      let rnum_rows := i32 (mysql_num_rows r) in
      let rrow := mysql_fetch_row r in
      (if 0 <? rnum_rows then
         mfor wnum_fields (compare_field rserver wrow rrow wlengths)
       else inconsistent rserver wrow (mret missing_row));;
      on_db (lib_ (mysql_free_result r)).

Definition mysql_select : M world Z :=
  m ← write_mysql;
  ret ← select_db m;
  if negb (ret =? 0) then mret ret else
    generate SELECT;;
    q ← the_sql;
    ret ← real_query m q;
    if negb (ret =? 0) then mret ret else
      count CSelect;;
      r ← store_result m;
      let wnum_fields := i32 (mysql_num_fields r) in
      let wnum_rows := i32 (mysql_num_rows r) in
      let wrow := mysql_fetch_row r in
      let wlengths := mysql_fetch_lengths r in
      if wnum_rows =? 0 then
        on_db (lib_ (mysql_free_result r));;
        mret 1
      else
        c ← mgets w_ctx;
        foldr (λ s rest, check_server q wrow wlengths wnum_fields s;; rest) (mret ())
          (ctx_read_servers c);;
        on_db (lib_ (mysql_free_result r));;
        mret 0.
End commands.

(** ** What the commands do *)

Lemma strncmp_prefix (a b : cstring) :
  strncmp_eq a b (length a) = bool_decide (a `prefix_of` b).
Proof.
  revert b. induction a as [|x a IH]; intros b; cbn [strncmp_eq length].
  - symmetry. apply bool_decide_eq_true, prefix_nil.
  - destruct b as [|y b].
    + symmetry. apply bool_decide_eq_false. intros Hp. by apply prefix_nil_not in Hp.
    + rewrite IH. apply Bool.eq_iff_eq_true.
      rewrite andb_true_iff, Z.eqb_eq, !bool_decide_eq_true. split.
      * intros [-> Hp]. by apply prefix_cons.
      * intros Hp. split; [by eapply prefix_cons_inv_1|by eapply prefix_cons_inv_2].
Qed.

(** A loop that leaves the state alone until an element fails the test. *)
Lemma mfor_scan {S B} (l : list B) (body : Z → M S ()) (p : B → bool) s w s' :
  (∀ i x, l !! i = Some x →
     body (Z.of_nat i) s = if p x then (Ok (), s) else (Stop w, s')) →
  mfor (Z.of_nat (length l)) body s = if forallb p l then (Ok (), s) else (Stop w, s').
Proof.
  intros Hb. unfold mfor. rewrite Nat2Z.id.
  assert (∀ l2 k, (∀ i x, l2 !! i = Some x →
      body (Z.of_nat (k + i)) s = if p x then (Ok (), s) else (Stop w, s')) →
    mfor_from (length l2) (Z.of_nat k) body s =
      if forallb p l2 then (Ok (), s) else (Stop w, s')) as Hgen.
  { induction l2 as [|x l2 IH]; intros k Hk; [done|]. cbn [mfor_from length forallb].
    pose proof (Hk 0%nat x eq_refl) as Hx. rewrite Nat.add_0_r in Hx.
    destruct (p x); cbn [andb]; [|by erewrite bind_stop by exact Hx].
    erewrite bind_ok by exact Hx.
    replace (Z.of_nat k + 1) with (Z.of_nat (Datatypes.S k)) by lia. apply IH.
    intros i y Hi. replace (Datatypes.S k + i)%nat with (k + Datatypes.S i)%nat by lia.
    by apply Hk. }
  by apply (Hgen l 0%nat).
Qed.

(** What a read server answers to the statement [q]. *)
Inductive reply := NoReply | NoRow | Row (fields : list cstring) | Broken.

(** Nothing answered, so many rows compared equal, or so many rows looked at and
    the last of them missing or different. *)
Inductive verdict := Consistent (answers : Z) | Inconsistent (answers : Z) | Unusable.

Definition one_more (v : verdict) : verdict :=
  match v with
  | Consistent n => Consistent (n + 1)
  | Inconsistent n => Inconsistent (n + 1)
  | Unusable => Unusable
  end.

Definition answers_of (v : verdict) : Z :=
  match v with Consistent n | Inconsistent n => n | Unusable => 0 end.

Section spec.
Context `{Allocator} `{RandSource} `{Clock} `{MysqlClient}.
Implicit Types (w : world) (k : counter) (s : cq_server_t) (wrow : list cstring).

Definition row_of (r : mysql_res) : reply :=
  if 0 <? i32 (mysql_num_rows r) then
    match mysql_fetch_row r ≫= mapM id with
    | Some f => Row f
    | None => Broken
    end
  else NoRow.

Definition ask (q : cstring) s (d : db) : reply * db :=
  let '(r1, d1) := mysql_select_db (mysql s) database d in
  if negb (r1 =? 0) then (NoReply, d1) else
  let '(r2, d2) := mysql_real_query (mysql s) q d1 in
  if negb (r2 =? 0) then (NoReply, d2) else
  let '(r, d3) := mysql_store_result (mysql s) d2 in
  match r with
  | None => (Broken, d3)
  | Some r => (row_of r, mysql_free_result r d3)
  end.

(** The rows agree when every field of the write server's is a prefix of the
    read server's. *)
Definition fields_agree wrow (f : list cstring) : bool :=
  bool_decide (Forall2 prefix wrow f).

Fixpoint check_all (q : cstring) wrow (servers : list cq_server_t) (d : db) : verdict :=
  match servers with
  | [] => Consistent 0
  | s :: servers =>
      let '(rep, d') := ask q s d in
      match rep with
      | NoReply => check_all q wrow servers d'
      | NoRow => Inconsistent 1
      | Row f =>
          if bool_decide (length f = length wrow) then
            if fields_agree wrow f then one_more (check_all q wrow servers d')
            else Inconsistent 1
          else Unusable
      | Broken => Unusable
      end
  end.

(** What the comparison of a row leaves alone. *)
Record frame w w' : Prop := {
  fr_ws : write_server (w_ctx w') = write_server (w_ctx w);
  fr_table : table (w_ctx w') = table (w_ctx w);
  fr_prev : prev_cmd (w_ctx w') = prev_cmd (w_ctx w);
  fr_fail : ncheck_fail (g_stat w') = ncheck_fail (g_stat w);
}.

#[export] Instance frame_preorder : PreOrder frame.
Proof.
  split; [by split|]. intros w1 w2 w3 [] []. split; congruence.
Qed.

Lemma on_db_ok {A} (f : db → A * db) w a d :
  f (w_db w) = (a, d) → on_db (lib f) w = (Ok a, with_db d w).
Proof. intros Hf. unfold on_db, zoom, lib. by rewrite Hf. Qed.

Lemma count_ok k w : counter_get k (stats (w_ctx w)) < INT_MAX →
  let st := counter_set k (counter_get k (stats (w_ctx w)) + 1) (stats (w_ctx w)) in
  count k w = (Ok (), with_g_stat (counter_sync_incr k (g_stat w))
                        (with_ctx (ctx_with_stats st (w_ctx w)) w)).
Proof.
  intros Hk st. unfold count. erewrite bind_ok by done. unfold mlift, counter_incr.
  by rewrite (proj2 (Z.leb_gt _ _)) by done.
Qed.

Lemma field_ok (row : list cstring) i f w : row !! i = Some f →
  field (Some (Some <$> row)) (Z.of_nat i) w = (Ok f, w).
Proof.
  intros Hi. unfold field, fetched. rewrite Nat2Z.id, list_lookup_fmap, Hi. done.
Qed.

Lemma the_sql_ok bs w : sql (w_ctx w) = Some bs → the_sql w = (Ok (c_str bs), w).
Proof. intros Hs. unfold the_sql. erewrite bind_ok by done. by rewrite Hs. Qed.

Lemma generate_ok type r g w bs :
  sql (w_ctx w) = Some bs → sql_gen (w_ctx w) type (gen_of w) = (Ok r, g) →
  generate type w = (Ok (), with_gen g w).
Proof.
  intros Hs Hg. unfold generate. erewrite bind_ok by done.
  by erewrite bind_ok by (unfold zoom; by rewrite Hg).
Qed.

(** *** The report *)

Lemma pad15_length n : (length n ≤ 21)%nat → (length (pad15 n) ≤ 21)%nat.
Proof. intros Hn. unfold pad15. rewrite length_app, length_replicate. lia. Qed.

Lemma report_length prev wname rname tname wkey wval rest :
  (length wname ≤ 21)%nat → (length rname ≤ 21)%nat →
  (length (report prev wname rname tname wkey wval rest)
     ≤ 200 + 2 * length tname + length rest)%nat.
Proof.
  intros Hw Hr. apply pad15_length in Hw, Hr. unfold report.
  assert (length (command_name prev) ≤ 20)%nat by (destruct prev as [[]|]; cbn; lia).
  rewrite !length_app, !length_take. cbn [length text newline]. lia.
Qed.

Lemma different_row_length rkey rval : (length (different_row rkey rval) ≤ 48)%nat.
Proof. unfold different_row. rewrite !length_app, !length_take. cbn [length text newline]. lia. Qed.

(** The names fit in the report's buffer. *)
Definition names_fit w : Prop :=
  (∃ s, write_server (w_ctx w) = Some s ∧ (length (server_name s) ≤ 21)%nat) ∧
  (∃ t, table (w_ctx w) = TPtr t ∧ (length (name t) ≤ 800)%nat).

Lemma frame_names w w' : frame w w' → names_fit w → names_fit w'.
Proof. intros [Hw Ht _ _]. unfold names_fit. by rewrite Hw, Ht. Qed.

(** The check has failed: the program stops, with one failure more. *)
Definition check_failed w w' : Prop :=
  g_stat w' = counter_sync_incr CCheckFail (g_stat w) ∧ w_ctx w' = w_ctx w.

Lemma inconsistent_stops s (wrow : list cstring) m rest w :
  names_fit w → (length (server_name s) ≤ 21)%nat → (2 ≤ length wrow)%nat →
  m w = (Ok rest, w) → (length rest ≤ 48)%nat →
  ∃ w', inconsistent s (Some (Some <$> wrow)) m w = (Stop Aborted, w') ∧ check_failed w w'.
Proof.
  intros [(ws & Hws & Hwn) (t & Ht & Htn)] Hs Hrow Hm Hrest.
  destruct wrow as [|k [|v wrow]]; [cbn in Hrow; lia..|].
  unfold inconsistent, ctx_table, get_server_name, get_table_name.
  erewrite bind_ok by done. rewrite Hws. erewrite bind_ok by done.
  erewrite bind_ok by (erewrite bind_ok by done; by rewrite Ht).
  erewrite bind_ok by (by apply (field_ok (k :: v :: wrow) 0)).
  erewrite bind_ok by (by apply (field_ok (k :: v :: wrow) 1)).
  erewrite bind_ok by exact Hm. cbv zeta.
  rewrite (proj2 (Z.leb_gt _ _)).
  - erewrite bind_ok by done. erewrite bind_ok by done. eexists. split; [done|]. by split.
  - pose proof (report_length (prev_cmd (w_ctx w)) (server_name ws) (server_name s) (name t)
      k v rest Hwn Hs) as Hl. unfold MAX_DATA_LOG_LEN. lia.
Qed.

(** *** One read server *)

Lemma fields_agree_zip (wrow f : list cstring) : length f = length wrow →
  fields_agree wrow f = forallb (λ xy, bool_decide (xy.1 `prefix_of` xy.2)) (zip wrow f).
Proof.
  unfold fields_agree. revert f.
  induction wrow as [|x wrow IH]; intros [|y f] Hl; try done. injection Hl as Hl.
  cbn [zip_with forallb fst snd]. rewrite <- IH by done. apply Bool.eq_iff_eq_true.
  by rewrite andb_true_iff, !bool_decide_eq_true, Forall2_cons.
Qed.

Lemma compare_row s (wrow f : list cstring) w :
  names_fit w → (length (server_name s) ≤ 21)%nat → (2 ≤ length wrow)%nat →
  length f = length wrow →
  ∃ w', mfor (Z.of_nat (length wrow))
      (compare_field s (Some (Some <$> wrow)) (Some (Some <$> f))
         (Some ((λ b, Z.of_nat (length b)) <$> wrow))) w =
    (if fields_agree wrow f then (Ok (), w) else (Stop Aborted, w')) ∧ check_failed w w'.
Proof.
  intros Hn Hs Hw Hf.
  assert (∃ rk rv, f !! 0%nat = Some rk ∧ f !! 1%nat = Some rv) as (rk & rv & Hrk & Hrv).
  { destruct f as [|rk [|rv f]]; [cbn in Hf; lia..|by exists rk, rv]. }
  set (diff := rkey ← field (Some (Some <$> f)) 0; rval ← field (Some (Some <$> f)) 1;
               mret (different_row rkey rval)).
  assert (diff w = (Ok (different_row rk rv), w)) as Hd.
  { unfold diff. erewrite bind_ok by (by apply (field_ok f 0)).
    by erewrite bind_ok by (by apply (field_ok f 1)). }
  destruct (inconsistent_stops s wrow diff _ w Hn Hs Hw Hd (different_row_length _ _))
    as (w' & Hi & Hw').
  exists w'. split; [|done]. rewrite fields_agree_zip by done.
  replace (length wrow) with (length (zip wrow f)) by (rewrite length_zip_with; lia).
  apply mfor_scan. intros i [x y] [Hx Hy]%lookup_zip_Some. cbn [fst snd].
  unfold compare_field.
  erewrite bind_ok by (by apply field_ok). erewrite bind_ok by (by apply field_ok).
  erewrite bind_ok.
  2: { unfold fetched. rewrite Nat2Z.id, list_lookup_fmap, Hx. reflexivity. }
  rewrite Nat2Z.id, strncmp_prefix. destruct (bool_decide (x `prefix_of` y)); [done|exact Hi].
Qed.
(** The check went on, after [n] more answers, or failed at the [n]-th. *)
Definition passed (n : Z) d w w' : Prop :=
  w_db w' = d ∧ frame w w' ∧ nselect (stats (w_ctx w')) = nselect (stats (w_ctx w)) + n.
Definition failed (n : Z) w w' : Prop :=
  ncheck_fail (g_stat w') = i32 (ncheck_fail (g_stat w) + 1) ∧
  nselect (stats (w_ctx w')) = nselect (stats (w_ctx w)) + n.

(** The rows as the library hands them out. *)
Definition raw_row (row : list cstring) : option (list (option cstring)) := Some (Some <$> row).
Definition raw_lengths (row : list cstring) : option (list Z) :=
  Some ((λ b, Z.of_nat (length b)) <$> row).

Definition outcome (rep : reply) d (wrow : list cstring) w (r : res () * world) : Prop :=
  let good n := ∃ w', r = (Ok (), w') ∧ passed n d w w' in
  let bad := ∃ w', r = (Stop Aborted, w') ∧ failed 1 w w' in
  match rep with
  | NoReply => good 0
  | NoRow => bad
  | Row f => length f = length wrow → if fields_agree wrow f then good 1 else bad
  | Broken => True
  end.

Lemma mapM_raw row f : row ≫= mapM id = Some f → row = raw_row f.
Proof.
  destruct row as [row|]; [|done]. cbn. intros Hm. unfold raw_row. f_equal.
  revert f Hm. induction row as [|o row IH]; intros f Hm; [by injection Hm as <-|].
  cbn in Hm. destruct o as [x|]; [|done]. cbn in Hm.
  destruct (mapM id row) as [f'|] eqn:E; [|done]. injection Hm as <-.
  cbn. by rewrite <- (IH f').
Qed.

(** The rows of an answer. *)
Lemma check_answer_ok s (wrow : list cstring) r w :
  names_fit w → (length (server_name s) ≤ 21)%nat → (2 ≤ length wrow)%nat →
  match row_of r with
  | Row f => length f = length wrow → ∃ w',
      (if 0 <? i32 (mysql_num_rows r) then
         mfor (Z.of_nat (length wrow))
           (compare_field s (raw_row wrow) (mysql_fetch_row r) (raw_lengths wrow))
       else inconsistent s (raw_row wrow) (mret missing_row)) w =
      (if fields_agree wrow f then (Ok (), w) else (Stop Aborted, w')) ∧ check_failed w w'
  | NoRow => ∃ w',
      (if 0 <? i32 (mysql_num_rows r) then
         mfor (Z.of_nat (length wrow))
           (compare_field s (raw_row wrow) (mysql_fetch_row r) (raw_lengths wrow))
       else inconsistent s (raw_row wrow) (mret missing_row)) w =
      (Stop Aborted, w') ∧ check_failed w w'
  | NoReply => False
  | Broken => True
  end.
Proof.
  intros Hn Hs Hw. unfold row_of. destruct (0 <? i32 (mysql_num_rows r)).
  - destruct (mysql_fetch_row r ≫= mapM id) as [f|] eqn:E; [|done].
    rewrite (mapM_raw _ _ E). intros Hf. by apply compare_row.
  - apply (inconsistent_stops s wrow (mret missing_row) missing_row w Hn Hs Hw); [done|].
    cbn. lia.
Qed.

(** One turn of the loop over the read servers. *)
Lemma check_server_ok q s (wrow : list cstring) w :
  names_fit w → (length (server_name s) ≤ 21)%nat → (2 ≤ length wrow)%nat →
  nselect (stats (w_ctx w)) < INT_MAX →
  let '(rep, d) := ask q s (w_db w) in
  outcome rep d wrow w
    (check_server q (raw_row wrow) (raw_lengths wrow) (Z.of_nat (length wrow)) s w).
Proof.
  intros Hn Hs Hw Hsel. unfold ask, check_server, get_server_mysql.
  destruct (mysql_select_db (mysql s) database (w_db w)) as [r1 d1] eqn:E1.
  erewrite bind_ok by (unfold select_db; by apply on_db_ok).
  destruct (negb (r1 =? 0)); [eexists; repeat split; cbn; lia|].
  destruct (mysql_real_query (mysql s) q d1) as [r2 d2] eqn:E2.
  erewrite bind_ok by (unfold real_query; by apply on_db_ok).
  destruct (negb (r2 =? 0)); [eexists; repeat split; cbn; lia|].
  erewrite bind_ok by done. erewrite bind_ok by (by apply count_ok).
  set (w1 := with_g_stat _ _).
  destruct (mysql_store_result (mysql s) d2) as [[r|] d3] eqn:E3; [|done].
  erewrite bind_ok by (unfold store_result; by erewrite bind_ok by (by apply on_db_ok)).
  set (w2 := with_db d3 w1). cbv zeta.
  pose proof (check_answer_ok s wrow r w2 Hn Hs Hw) as Ha.
  unfold outcome. destruct (row_of r) as [| |f|]; try done.
  - destruct Ha as (w' & Hr & Hg & Hc). exists w'. split; [by erewrite bind_stop by exact Hr|].
    unfold failed. rewrite Hg, Hc. done.
  - intros Hf. destruct (Ha Hf) as (w' & Hr & Hg & Hc).
    destruct (fields_agree wrow f).
    + eexists. split; [erewrite bind_ok by exact Hr; reflexivity|]. repeat split; cbn; lia.
    + exists w'. split; [by erewrite bind_stop by exact Hr|].
      unfold failed. rewrite Hg, Hc. done.
Qed.
(** The whole loop. *)
Lemma check_loop_ok q (wrow : list cstring) servers w :
  names_fit w → (2 ≤ length wrow)%nat →
  Forall (λ s, length (server_name s) ≤ 21)%nat servers →
  nselect (stats (w_ctx w)) + Z.of_nat (length servers) ≤ INT_MAX →
  let loop := foldr (λ s rest, check_server q (raw_row wrow) (raw_lengths wrow)
                                 (Z.of_nat (length wrow)) s;; rest) (mret ()) servers w in
  match check_all q wrow servers (w_db w) with
  | Consistent n => ∃ w', loop = (Ok (), w') ∧ frame w w' ∧
      nselect (stats (w_ctx w')) = nselect (stats (w_ctx w)) + n
  | Inconsistent n => ∃ w', loop = (Stop Aborted, w') ∧ failed n w w'
  | Unusable => True
  end.
Proof.
  revert w. induction servers as [|s servers IH]; intros w Hn Hw Hs Hsel; cbv zeta.
  { exists w. split_and!; [done|done|lia]. }
  cbn [length foldr check_all] in *. apply Forall_cons in Hs as [Hs1 Hs].
  pose proof (check_server_ok q s wrow w Hn Hs1 Hw ltac:(lia)) as Hc.
  destruct (ask q s (w_db w)) as [rep d].
  assert (∀ n, 0 ≤ n ≤ 1 → (∃ w1, check_server q (raw_row wrow) (raw_lengths wrow)
      (Z.of_nat (length wrow)) s w = (Ok (), w1) ∧ passed n d w w1) →
    match check_all q wrow servers d with
    | Consistent m => ∃ w', foldr (λ s rest, check_server q (raw_row wrow) (raw_lengths wrow)
          (Z.of_nat (length wrow)) s;; rest) (mret ()) (s :: servers) w = (Ok (), w') ∧
        frame w w' ∧ nselect (stats (w_ctx w')) = nselect (stats (w_ctx w)) + (n + m)
    | Inconsistent m => ∃ w', foldr (λ s rest, check_server q (raw_row wrow) (raw_lengths wrow)
          (Z.of_nat (length wrow)) s;; rest) (mret ()) (s :: servers) w =
        (Stop Aborted, w') ∧ failed (n + m) w w'
    | Unusable => True
    end) as Hgo.
  { intros n Hn1 (w1 & Hr & Hd & Hf & Hns).
    specialize (IH w1 (frame_names _ _ Hf Hn) Hw Hs ltac:(lia)). rewrite Hd in IH.
    cbn [foldr]. destruct (check_all q wrow servers d) as [m|m|]; [| |done].
    - destruct IH as (w2 & Hl & Hf2 & Hns2). exists w2.
      split_and!; [by erewrite bind_ok by exact Hr|by etrans|lia].
    - destruct IH as (w2 & Hl & Hf2 & Hns2). exists w2.
      split; [by erewrite bind_ok by exact Hr|].
      destruct Hf as [_ _ _ Hff]. split; [by rewrite Hf2, Hff|lia]. }
  unfold outcome in Hc. destruct rep as [| |f|]; [| | |done].
  - specialize (Hgo 0 ltac:(lia) Hc). by destruct (check_all q wrow servers d).
  - destruct Hc as (w' & Hr & Hf). exists w'. split; [by erewrite bind_stop by exact Hr|done].
  - case_bool_decide as Hlen; [|done]. specialize (Hc Hlen). destruct (fields_agree wrow f).
    + specialize (Hgo 1 ltac:(lia) Hc).
      destruct (check_all q wrow servers d) as [m|m|]; [| |done]; cbn [one_more];
        by replace (m + 1) with (1 + m) by lia.
    + destruct Hc as (w' & Hr & Hf). exists w'. split; [by erewrite bind_stop by exact Hr|done].
Qed.

(** The write server [s] answers the statement [q] with the result [r]. *)
Definition write_answers (q : cstring) s (d : db) (r : mysql_res) (d' : db) : Prop :=
  ∃ d1 d2, mysql_select_db (mysql s) database d = (0, d1) ∧
    mysql_real_query (mysql s) q d1 = (0, d2) ∧
    mysql_store_result (mysql s) d2 = (Some r, d').

(** A result of one or more rows of which [wrow] is the first. *)
Record first_row (r : mysql_res) (wrow : list cstring) : Prop := {
  fro_rows : i32 (mysql_num_rows r) ≠ 0;
  fro_fields : i32 (mysql_num_fields r) = Z.of_nat (length wrow);
  fro_row : mysql_fetch_row r = raw_row wrow;
  fro_lengths : mysql_fetch_lengths r = raw_lengths wrow;
}.

(** Up to the write server's answer. *)
Lemma select_prefix w s bs g r0 r d' :
  write_server (w_ctx w) = Some s → sql (w_ctx w) = Some bs →
  sql_gen (w_ctx w) SELECT (gen_of w) = (Ok r0, g) →
  write_answers (c_str (g_text g)) s (w_db w) r d' →
  nselect (stats (w_ctx w)) < INT_MAX →
  ∃ w', w_db w' = d' ∧ frame w w' ∧
    nselect (stats (w_ctx w')) = nselect (stats (w_ctx w)) + 1 ∧
    ctx_read_servers (w_ctx w') = ctx_read_servers (w_ctx w) ∧
    mysql_select w =
      (if i32 (mysql_num_rows r) =? 0 then on_db (lib_ (mysql_free_result r));; mret 1
       else foldr (λ s rest, check_server (c_str (g_text g)) (mysql_fetch_row r)
                (mysql_fetch_lengths r) (i32 (mysql_num_fields r)) s;; rest) (mret ())
              (ctx_read_servers (w_ctx w));;
            on_db (lib_ (mysql_free_result r));; mret 0) w'.
Proof.
  intros Hs Hb Hg (d1 & d2 & Q1 & Q2 & Q3) Hsel.
  set (w2 := with_db d2 (with_gen g (with_db d1 w))).
  assert (w_ctx w2 = ctx_with_sql (g_text g) (w_ctx w)) as Hc2 by (cbn; by rewrite Hb).
  exists (with_db d' (with_g_stat (counter_sync_incr CSelect (g_stat w2))
    (with_ctx (ctx_with_stats (counter_set CSelect (nselect (stats (w_ctx w2)) + 1)
                                 (stats (w_ctx w2))) (w_ctx w2)) w2))).
  cbn [w_ctx w_db with_db with_g_stat with_ctx]. rewrite Hc2. split_and!; try done.
  unfold mysql_select, write_mysql.
  erewrite bind_ok by (erewrite bind_ok by done; rewrite Hs; reflexivity).
  erewrite bind_ok by (unfold select_db; apply on_db_ok; exact Q1).
  change (negb (0 =? 0)) with false. cbv iota.
  erewrite bind_ok by (apply (generate_ok _ r0 g _ bs); [exact Hb|exact Hg]).
  erewrite bind_ok by (apply (the_sql_ok (g_text g)); cbn; by rewrite Hb).
  erewrite bind_ok by (unfold real_query; apply on_db_ok; exact Q2).
  change (negb (0 =? 0)) with false. cbv iota. fold w2.
  erewrite bind_ok by (apply count_ok; by rewrite Hc2).
  erewrite bind_ok by (unfold store_result; erewrite bind_ok by (apply on_db_ok; exact Q3); reflexivity).
  cbv zeta. rewrite Hc2. by destruct (i32 (mysql_num_rows r) =? 0).
Qed.

(** C2 (the check). When the write server has the row, [mysql_select] gives the verdict of
    comparing that row, column by column and in order, with the answers of the read servers:
    it returns 0 when no answer disagrees, counting each answer, and aborts with one check
    failure more at the first read server whose row is missing or has a column that does not
    start with the write server's; servers that do not answer are skipped. *)
Theorem select_verdict w s bs g r0 r wrow d' :
  names_fit w → write_server (w_ctx w) = Some s → sql (w_ctx w) = Some bs →
  sql_gen (w_ctx w) SELECT (gen_of w) = (Ok r0, g) →
  write_answers (c_str (g_text g)) s (w_db w) r d' →
  first_row r wrow → (2 ≤ length wrow)%nat →
  Forall (λ s, length (server_name s) ≤ 21)%nat (ctx_read_servers (w_ctx w)) →
  nselect (stats (w_ctx w)) + Z.of_nat (length (ctx_read_servers (w_ctx w))) < INT_MAX →
  match check_all (c_str (g_text g)) wrow (ctx_read_servers (w_ctx w)) d' with
  | Consistent n => ∃ w', mysql_select w = (Ok 0, w') ∧
      ncheck_fail (g_stat w') = ncheck_fail (g_stat w) ∧
      nselect (stats (w_ctx w')) = nselect (stats (w_ctx w)) + 1 + n
  | Inconsistent n => ∃ w', mysql_select w = (Stop Aborted, w') ∧
      ncheck_fail (g_stat w') = i32 (ncheck_fail (g_stat w) + 1) ∧
      nselect (stats (w_ctx w')) = nselect (stats (w_ctx w)) + 1 + n
  | Unusable => True
  end.
Proof.
  intros Hn Hs Hb Hg Hans [Hrows Hfields Hrow Hlens] Hw Hsrv Hsel.
  destruct (select_prefix w s bs g r0 r d' Hs Hb Hg Hans ltac:(lia))
    as (w1 & Hd & Hf & Hns & _ & ->).
  rewrite (proj2 (Z.eqb_neq _ _)), Hrow, Hlens, Hfields by done.
  pose proof (check_loop_ok (c_str (g_text g)) wrow (ctx_read_servers (w_ctx w)) w1
    (frame_names _ _ Hf Hn) Hw Hsrv ltac:(lia)) as Hl. rewrite Hd in Hl.
  destruct (check_all _ _ _ _) as [n|n|]; [| |done].
  - destruct Hl as (w2 & Hl & Hf2 & Hn2). eexists. split; [by erewrite bind_ok by exact Hl|].
    destruct Hf as [_ _ _ Hf], Hf2 as [_ _ _ Hf2]. cbn. split; [congruence|lia].
  - destruct Hl as (w2 & Hl & Hf2 & Hn2). exists w2. split; [by erewrite bind_stop by exact Hl|].
    destruct Hf as [_ _ _ Hf]. split; [by rewrite Hf2, Hf|lia].
Qed.
(** When the write server has no such row, [mysql_select] returns 1, having
    counted the request; it asks no read server, so a row that only a read server still has
    goes unnoticed. *)
Theorem select_absent_row w s bs g r0 r d' :
  write_server (w_ctx w) = Some s → sql (w_ctx w) = Some bs →
  sql_gen (w_ctx w) SELECT (gen_of w) = (Ok r0, g) →
  write_answers (c_str (g_text g)) s (w_db w) r d' → i32 (mysql_num_rows r) = 0 →
  nselect (stats (w_ctx w)) < INT_MAX →
  ∃ w', mysql_select w = (Ok 1, w') ∧ w_db w' = mysql_free_result r d' ∧
    ncheck_fail (g_stat w') = ncheck_fail (g_stat w) ∧
    nselect (stats (w_ctx w')) = nselect (stats (w_ctx w)) + 1.
Proof.
  intros Hs Hb Hg Hans Hr Hsel.
  destruct (select_prefix w s bs g r0 r d' Hs Hb Hg Hans Hsel) as (w1 & Hd & Hf & Hns & _ & ->).
  rewrite Hr. eexists. split; [done|]. destruct Hf as [_ _ _ Hf]. cbn. by rewrite Hd.
Qed.

(** The commands that write, with their counters. *)
Definition write_command_of (type : cmd_type_t) : option (M world Z * counter) :=
  match type with
  | INSERT => Some (mysql_insert, CInsert)
  | DELETE => Some (mysql_delete, CDelete)
  | UPDATE => Some (mysql_update, CUpdate)
  | _ => None
  end.

(** A successful write, in the context: when, what, and one more of its kind. *)
Definition write_recorded (type : cmd_type_t) k (t : timeval) (c : eng_ctx_t) : eng_ctx_t :=
  let c1 := ctx_with_prev_cmd type (set_sql_write_time t c).2 in
  ctx_with_stats (counter_set k (counter_get k (stats c) + 1) (stats c1)) c1.

(** C40 (accounts). An insert, delete or update sends the generated statement to the write
    server and returns its answer: 0 is recorded in the context and in [g_stat], with the
    time; any other answer, or a database that cannot be selected, records nothing. *)
Theorem write_commands_account w type cmd k s bs g r0 :
  write_command_of type = Some (cmd, k) →
  write_server (w_ctx w) = Some s → sql (w_ctx w) = Some bs →
  sql_gen (w_ctx w) type (gen_of w) = (Ok r0, g) →
  counter_get k (stats (w_ctx w)) < INT_MAX →
  let '(r1, d1) := mysql_select_db (mysql s) database (w_db w) in
  let '(r2, d2) := mysql_real_query (mysql s) (c_str (g_text g)) d1 in
  cmd w =
    if negb (r1 =? 0) then (Ok r1, with_db d1 w)
    else let w2 := with_db d2 (with_gen g (with_db d1 w)) in
      if negb (r2 =? 0) then (Ok r2, w2)
      else (Ok 0, with_g_stat (counter_sync_incr k (g_stat w))
                   (with_ctx (write_recorded type k (clock_at (w_now w)) (w_ctx w2))
                      (with_now (S (w_now w)) w2))).
Proof.
  intros Hc Hs Hb Hg Hk.
  assert (cmd = write_command type k) as ->
    by (destruct type; try discriminate; by injection Hc as <- <-).
  destruct (mysql_select_db _ _ _) as [r1 d1] eqn:E1.
  destruct (mysql_real_query _ _ _) as [r2 d2] eqn:E2.
  unfold write_command, write_mysql.
  erewrite bind_ok by (erewrite bind_ok by done; rewrite Hs; reflexivity).
  erewrite bind_ok by (unfold select_db; apply on_db_ok; exact E1).
  destruct (negb (r1 =? 0)); [done|].
  erewrite bind_ok by (apply (generate_ok _ r0 g _ bs); [exact Hb|exact Hg]).
  erewrite bind_ok by (apply (the_sql_ok (g_text g)); cbn; by rewrite Hb).
  erewrite bind_ok by (unfold real_query; apply on_db_ok; exact E2).
  set (w2 := with_db d2 _). assert (w_ctx w2 = ctx_with_sql (g_text g) (w_ctx w)) as Hc2
    by (cbn; by rewrite Hb).
  destruct (r2 =? 0); [|done]. cbn [negb].
  erewrite bind_ok by done. erewrite bind_ok by done.
  erewrite bind_ok.
  2: { apply count_ok. cbn [w_ctx with_ctx with_now]. rewrite Hc2. by destruct k. }
  cbn [w_ctx with_ctx with_now]. rewrite Hc2. done.
Qed.
End spec.

(** ** Witnesses *)

Local Existing Instance roomy_allocator.
Local Existing Instance counting_rand.
Local Existing Instance toy_client.
#[local] Instance ticking : Clock := {| clock_at n := Timeval (Z.of_nat n) 0 |}.

Definition server_on (c : Z) (type : server_type_t) : cq_server_t :=
  Server _ (text "10.0.0.1") 3306 (text "10.0.0.1:3306") type c.

(** Server 1 is written to; 2 has the same row, 3 a longer value, 4 another one. *)
Definition toy_answers (c : Z) : list (list (option cstring)) :=
  if c =? 1 then [[Some (text "5"); Some (text "abc")]]
  else if c =? 2 then [[Some (text "5"); Some (text "abc")]]
  else if c =? 3 then [[Some (text "5"); Some (text "abcdef")]]
  else [[Some (text "5"); Some (text "abd")]].

Definition sample_world (answers : Z → list (list (option cstring))) (readers : list Z) : world :=
  World _ (EngCtx _ None (Some (server_on 1 WRITE_SERVER)) toy_cluster []
             (map (λ c, server_on c READ_SERVER) readers) (TPtr sample_table) (Some 1%positive)
             (text "test42") 1 (Some []) 7 (Some INSERT) zero_stats)
    sample_tables 0 3 (ToyDb 1 answers) zero_stats 0 [].

Definition sample_select (w : world) : gen := (sql_gen (w_ctx w) SELECT (gen_of w)).2.

Lemma sample_select_ok answers readers :
  let w := sample_world answers readers in
  sql_gen (w_ctx w) SELECT (gen_of w) = (Ok RET_SUCCEED, sample_select w).
Proof. vm_compute. reflexivity. Qed.

Lemma sample_first_row : first_row (toy_answers 1) [text "5"; text "abc"].
Proof. split; [vm_compute; done|reflexivity..]. Qed.

(** The longer value passes, the other value does not. *)
Example select_verdict_witness :
  (∃ w', mysql_select (sample_world toy_answers [2; 3]) = (Ok 0, w') ∧
     ncheck_fail (g_stat w') = 0 ∧ nselect (stats (w_ctx w')) = 3) ∧
  (∃ w', mysql_select (sample_world toy_answers [2; 4]) = (Stop Aborted, w') ∧
     ncheck_fail (g_stat w') = 1 ∧ nselect (stats (w_ctx w')) = 3).
Proof.
  assert (∀ readers, names_fit (sample_world toy_answers readers)) as Hn.
  { intros readers. split; eexists; split; [reflexivity|cbn; lia|reflexivity|cbn; lia]. }
  assert (∀ q readers, write_answers q (server_on 1 WRITE_SERVER)
    (w_db (sample_world toy_answers readers)) (toy_answers 1) (ToyDb 1 toy_answers)) as Ha.
  { intros q readers. by exists (ToyDb 1 toy_answers), (ToyDb 1 toy_answers). }
  split.
  - exact (select_verdict (sample_world toy_answers [2; 3]) (server_on 1 WRITE_SERVER) [] _
      RET_SUCCEED (toy_answers 1) [text "5"; text "abc"] _ (Hn _) eq_refl eq_refl
      (sample_select_ok _ _) (Ha _ _) sample_first_row ltac:(cbn; lia)
      ltac:(repeat constructor; cbn; lia) ltac:(vm_compute; done)).
  - exact (select_verdict (sample_world toy_answers [2; 4]) (server_on 1 WRITE_SERVER) [] _
      RET_SUCCEED (toy_answers 1) [text "5"; text "abc"] _ (Hn _) eq_refl eq_refl
      (sample_select_ok _ _) (Ha _ _) sample_first_row ltac:(cbn; lia)
      ltac:(repeat constructor; cbn; lia) ltac:(vm_compute; done)).
Defined.

(** The row is on server 2 only. *)
Definition stale_answers (c : Z) : list (list (option cstring)) :=
  if c =? 1 then [] else [[Some (text "5"); Some (text "abc")]].

Example select_absent_row_witness :
  ∃ w', mysql_select (sample_world stale_answers [2]) = (Ok 1, w') ∧
    w_db w' = ToyDb 1 stale_answers ∧ ncheck_fail (g_stat w') = 0 ∧
    nselect (stats (w_ctx w')) = 1.
Proof.
  assert (write_answers (c_str (g_text (sample_select (sample_world stale_answers [2]))))
    (server_on 1 WRITE_SERVER) (w_db (sample_world stale_answers [2])) []
    (ToyDb 1 stale_answers)) as Ha by (by exists (ToyDb 1 stale_answers), (ToyDb 1 stale_answers)).
  exact (select_absent_row (sample_world stale_answers [2]) (server_on 1 WRITE_SERVER) [] _
    RET_SUCCEED _ _ eq_refl eq_refl (sample_select_ok _ _) Ha
    eq_refl ltac:(vm_compute; done)).
Defined.

Definition inserting : world := sample_world toy_answers [2].

Lemma sample_insert_ok :
  sql_gen (w_ctx inserting) INSERT (gen_of inserting) =
    (Ok RET_SUCCEED, (sql_gen (w_ctx inserting) INSERT (gen_of inserting)).2).
Proof. vm_compute. reflexivity. Qed.

Example write_commands_account_witness :
  ∃ w', mysql_insert inserting = (Ok 0, w') ∧ prev_cmd (w_ctx w') = Some INSERT ∧
    ninsert (stats (w_ctx w')) = 1 ∧ ninsert (g_stat w') = 1.
Proof.
  eexists. split.
  - exact (write_commands_account inserting INSERT mysql_insert CInsert
      (server_on 1 WRITE_SERVER) [] _ RET_SUCCEED eq_refl eq_refl eq_refl sample_insert_ok
      ltac:(vm_compute; done)).
  - by split_and!.
Defined.
