(* ===== verification/Ddl.v ===== *)
(** * Ddl: creating and altering tables (src/src/cq_mysql/cq_sql_gen.c, src/src/cq_mysql/cq_mysql_cmd.c)

    The texts of [create_gen], [alter_add_gen] and [alter_drop_gen], and what the
    commands that send them do to the program's own picture of the tables.  It
    has to follow the tables on the servers, where an alteration can fail. *)

From stdpp Require Import base gmap list strings.
From Stdlib Require Import ZArith Lia.
From S2P Require Import Prelude Mylib Hash Heap CText Command Table Server EngineCtx SqlGen MysqlCmd.
Local Open Scope Z_scope.

(** ** The texts *)

Section texts.
Context `{RandSource} `{MysqlClient}.
Implicit Types (eng_ctx : eng_ctx_t) (c : table_data_t) (σ : Z * nat) (g : gen).

(** The declaration of a column. *)
Definition declared (suffix : cstring) c : cstring :=
  data_name c ++ text " " ++ sql_type c ++ suffix.
Definition declared_width (suffix : cstring) c : Z := Z.of_nat (length (declared suffix c)) + 2.

Lemma declare_ok suffix c g :
  Z.of_nat (length (g_text g)) + declared_width suffix c ≤ SQL_BUFFER_LEN →
  (emit (get_table_data_name c ++ text " ");; emit (sql_type c ++ suffix);; emit_char 44) g =
    (Ok (), with_text g (rand_state g) (g_text g ++ with_comma (declared suffix c))).
Proof.
  unfold declared_width, declared, with_comma, get_table_data_name. rewrite !length_app.
  cbn [text length]. intros Hl.
  erewrite bind_ok by (apply emit_ok; rewrite !length_app; cbn [text length]; lia).
  erewrite bind_ok by (apply emit_step; rewrite !length_app; cbn [text length]; lia).
  rewrite emit_char_step by (rewrite !length_app; cbn [text length]; lia).
  by rewrite <- !app_assoc.
Qed.

(** The loops over the key and the value columns. *)
Lemma declare_loop (body : table_data_t → M gen ()) suffix b cs g σ t :
  (∀ c g, Z.of_nat (length (g_text g)) + declared_width suffix c ≤ SQL_BUFFER_LEN →
     body c g = (Ok (), with_text g (rand_state g) (g_text g ++ with_comma (declared suffix c)))) →
  columns_at (g_tables g) b cs →
  Z.of_nat (length t) + total (declared_width suffix) cs ≤ SQL_BUFFER_LEN →
  let bs := concat (map with_comma (map (declared suffix) cs)) in
  mfor (Z.of_nat (length cs)) (λ i, c ← column_at b i; body c) (with_text g σ t) =
    (Ok (), with_text g σ (t ++ bs)) ∧
  Z.of_nat (length bs) ≤ total (declared_width suffix) cs.
Proof.
  intros Hbody Hb Hr bs.
  pose proof (loop_ok body (λ _ σ, ([], σ)) (λ c _, with_comma (declared suffix c))
    (declared_width suffix) b cs g σ t) as Hloop.
  assert (draw_literals (λ _ σ, ([], σ)) cs σ = (map (λ _, []) cs, σ)) as Hd.
  { clear. induction cs as [|c cs IH]; [done|]. cbn. by rewrite IH. }
  assert (zip_with (λ c _, with_comma (declared suffix c)) cs (map (λ _, [] : cstring) cs) =
    map with_comma (map (declared suffix) cs)) as Hz.
  { clear. induction cs as [|c cs IH]; [done|]. cbn. by rewrite IH. }
  rewrite Hd, Hz in Hloop. apply Hloop; [|done|done|].
  - intros c g' _ Hl. split; [by apply Hbody|].
    unfold with_comma, declared_width. rewrite length_app. cbn [length]. lia.
  - intros c _. unfold declared_width. lia.
Qed.

Lemma total_declared_pos suffix cs : 0 ≤ total (declared_width suffix) cs.
Proof. apply total_pos. intros c _. unfold declared_width. lia. Qed.

(** The columns behind a table schema. *)
Record schema_cols (s : table_state) (p : option loc) (ks vs : list table_data_t) : Prop := {
  sc_keys : ∃ b, get_schema_key_types p s = (Ok (b, Z.of_nat (length ks)), s) ∧
    columns_at s b ks;
  sc_vals : ∃ b, get_schema_val_types p s = (Ok (b, Z.of_nat (length vs)), s) ∧
    columns_at s b vs;
}.

Definition primary : cstring := text " primary key".
Definition declarations (ks vs : list table_data_t) : list cstring :=
  map (declared primary) ks ++ map (declared []) vs.

(** [create_gen] declares every key column, each as the primary key, and then every
    value column, in the order of the schema and with its type, for the table name of the
    context; it draws nothing. *)
Theorem create_gen_text eng_ctx ks vs g :
  schema_cols (g_tables g) (ctx_table_schema eng_ctx) ks vs → ks ++ vs ≠ [] →
  Z.of_nat (length (table_name eng_ctx)) + total (declared_width primary) ks +
    total (declared_width []) vs + 20 ≤ SQL_BUFFER_LEN →
  create_gen eng_ctx g =
    (Ok RET_SUCCEED, with_text g (rand_state g)
       (text "create table " ++ table_name eng_ctx ++ text " (" ++
        join (declarations ks vs) ++ text ")" ++ [0])).
Proof.
  intros [(bk & Hbk & Hk) (bv & Hbv & Hv)] Hne Hr.
  pose proof (total_declared_pos primary ks). pose proof (total_declared_pos [] vs).
  set (t0 := text "create table " ++ table_name eng_ctx ++ text " (").
  assert (Z.of_nat (length t0) = Z.of_nat (length (table_name eng_ctx)) + 15) as Hl0
    by (unfold t0; rewrite !length_app; cbn [text length]; lia).
  destruct (declare_loop _ primary bk ks g (rand_state g) t0 (declare_ok primary) Hk ltac:(lia))
    as [Hlk Hlenk].
  set (kt := map (declared primary) ks) in *.
  destruct (declare_loop (λ c, emit (get_table_data_name c ++ text " ");; emit (sql_type c);;
    emit_char 44) [] bv vs g (rand_state g) (t0 ++ concat (map with_comma kt))) as [Hlv Hlenv].
  { intros c g' Hl. rewrite <- (app_nil_r (sql_type c)). by apply declare_ok. }
  { done. }
  { rewrite length_app. lia. }
  rewrite <- app_assoc, <- concat_app, <- map_app in Hlv.
  change (kt ++ map (declared []) vs) with (declarations ks vs) in Hlv.
  assert (declarations ks vs ≠ []) as Hnn.
  { intros [Hkn Hvn]%app_nil. apply Hne. by apply map_eq_nil in Hkn as ->, Hvn as ->. }
  pose proof (join_length _ Hnn) as Hjl. unfold declarations in Hjl. fold kt in Hjl.
  rewrite map_app, concat_app, length_app in Hjl. change (kt ++ _) with (declarations ks vs) in Hjl.
  unfold create_gen. cbv zeta.
  erewrite bind_ok by (apply (start_ok t0); lia).
  erewrite bind_ok by (apply on_tables_ok; exact Hbk). cbn beta iota.
  erewrite bind_ok by exact Hlk.
  erewrite bind_ok by (apply on_tables_ok; exact Hbv). cbn beta iota.
  erewrite bind_ok by exact Hlv. erewrite bind_ok by (by apply back_step).
  erewrite bind_ok by (apply emit_char_step; rewrite length_app; lia).
  erewrite bind_ok by (apply emit_char_step; rewrite !length_app; cbn [length]; lia).
  unfold t0. by rewrite <- !app_assoc.
Qed.

(** *** Alterations *)

(** The value columns of a table, as the generators read them. *)
Definition val_cols (s : table_state) (t : table_t) (vs : list table_data_t) : Prop :=
  ∃ b, get_table_val_types t s = (Ok (b, Z.of_nat (length vs)), s) ∧ columns_at s b vs.

Definition alter_text (t : table_t) (rest : cstring) : cstring :=
  text "alter table " ++ name t ++ text " " ++ rest.

Lemma last_column_ok g σ tx b vs c :
  columns_at (g_tables g) b (vs ++ [c]) →
  column_at b (Z.of_nat (length (vs ++ [c])) - 1) (with_text g σ tx) =
    (Ok c, with_text g σ tx).
Proof.
  intros Hb. rewrite length_app. cbn [length].
  replace (Z.of_nat (length vs + 1) - 1) with (Z.of_nat (length vs)) by lia.
  apply (column_at_ok _ _ (vs ++ [c])); [done|]. by rewrite list_lookup_middle.
Qed.

Lemma alter_add_gen_text eng_ctx t vs c g :
  table eng_ctx = TPtr t → val_cols (g_tables g) t (vs ++ [c]) →
  Z.of_nat (length (name t)) + declared_width [] c + 20 ≤ SQL_BUFFER_LEN →
  alter_add_gen eng_ctx g =
    (Ok RET_SUCCEED, with_text g (rand_state g)
       (alter_text t (text "add " ++ declared [] c) ++ [0])).
Proof.
  unfold declared_width, declared. rewrite !length_app. cbn [text length].
  intros Ht (b & Hb & Hat) Hr. unfold alter_add_gen.
  erewrite bind_ok by (by apply the_table_ok).
  erewrite bind_ok by (apply start_ok; unfold get_table_name; rewrite !length_app;
    cbn [text length]; lia).
  unfold val_types. erewrite bind_ok by (apply on_tables_ok; exact Hb). cbn beta iota.
  erewrite bind_ok by by apply last_column_ok.
  erewrite bind_ok by (apply emit_step; unfold get_table_name, get_table_data_name;
    rewrite !length_app; cbn [text length]; lia).
  erewrite bind_ok by (apply emit_char_step; unfold get_table_name, get_table_data_name;
    rewrite !length_app; cbn [text length]; lia).
  unfold alter_text, get_table_name, get_table_data_name. rewrite app_nil_r.
  by rewrite <- !app_assoc.
Qed.

Lemma alter_drop_gen_text eng_ctx t vs c g :
  table eng_ctx = TPtr t → val_cols (g_tables g) t (vs ++ [c]) →
  Z.of_nat (length (name t)) + Z.of_nat (length (data_name c)) + 30 ≤ SQL_BUFFER_LEN →
  alter_drop_gen eng_ctx g =
    (Ok RET_SUCCEED, with_text g (rand_state g)
       (alter_text t (text "DROP COLUMN " ++ data_name c) ++ [0])).
Proof.
  intros Ht (b & Hb & Hat) Hr. unfold alter_drop_gen.
  erewrite bind_ok by (by apply the_table_ok).
  erewrite bind_ok by (apply start_ok; unfold get_table_name; rewrite !length_app;
    cbn [text length]; lia).
  unfold val_types. erewrite bind_ok by (apply on_tables_ok; exact Hb). cbn beta iota.
  rewrite (proj2 (Z.ltb_lt 0 _)) by (rewrite length_app; cbn [length]; lia).
  erewrite bind_ok.
  2: { erewrite bind_ok by by apply last_column_ok.
       apply emit_step; unfold get_table_name, get_table_data_name;
         rewrite !length_app; cbn [text length]; lia. }
  erewrite bind_ok by (apply emit_char_step; unfold get_table_name, get_table_data_name;
    rewrite !length_app; cbn [text length]; lia).
  unfold alter_text, get_table_name, get_table_data_name. by rewrite <- !app_assoc.
Qed.
End texts.

(** ** The commands *)

Section commands.
Context `{Allocator} `{RandSource} `{Clock} `{MysqlClient}.
Implicit Types (w : world) (cols : gmap loc (list table_data_t)) (c : table_data_t).

(** What a client reads of a schema of the representation, and of a table. *)
Lemma trep_schema_types s cols p cs : trep s cols → cols !! p = Some cs →
  ∃ b, schema_types (Some p) s = (Ok (b, Z.of_nat (length cs)), s) ∧ columns_at s b cs ∧
    on_schemas (heap_get (Some p)) s = (Ok (Schema b 100 (Z.of_nat (length cs))), s) ∧
    (length cs ≤ 100)%nat.
Proof.
  intros [own R] Hp. destruct (tr_schema _ _ _ R p cs Hp) as (ds & _ & [Ho Hc _]).
  destruct Ho as (arr & Ho & Hla & Hld & Harr). pose proof (Forall2_length _ _ _ Hc) as Hlen.
  rewrite Hlen in Ho. exists (Live arr).
  assert (on_schemas (heap_get (Some p)) s =
    (Ok (Schema (Live arr) 100 (Z.of_nat (length cs))), s)) as Hg
    by (by apply on_schemas_read, heap_get_ok).
  split_and!; [unfold schema_types; by erewrite bind_ok by exact Hg| |done|lia].
  intros i c Hi. destruct (Forall2_lookup_r _ _ _ _ _ Hc Hi) as (d & Hd & Hdc).
  exists d. split; [|done]. apply arr_read_ok; [lia|]. rewrite Nat2Z.id. by apply Harr.
Qed.

Lemma trep_val_cols s cols t ts p vs :
  trep s cols → table_schema t = Some ts → val_schema_of s ts p → cols !! p = Some vs →
  val_cols s t vs ∧ (length vs ≤ 100)%nat ∧
  is_table_schema_full (Some ts) s = (Ok (100 <=? Z.of_nat (length vs)), s).
Proof.
  intros R Ht Hv Hp. destruct (trep_schema_types s cols p vs R Hp) as (b & Hb & Hat & Hg & Hl).
  destruct (table_schema_ok _ _ _ Hv) as (tso & Hts & Hvs). split_and!; [|done|].
  - exists b. split; [|done]. unfold get_table_val_types, get_schema_val_types. rewrite Ht.
    erewrite bind_ok by exact Hts. by rewrite Hvs.
  - unfold is_table_schema_full. erewrite bind_ok by by apply val_schema_ok.
    by erewrite bind_ok by exact Hg.
Qed.

Lemma c_str_nul bs : c_str (bs ++ [0]) = c_str bs.
Proof. induction bs as [|b bs IH]; [done|]. cbn. by rewrite IH. Qed.

Lemma on_world_tables_ok {A} (m : M (table_state * nat) A) w a s :
  m (w_tables w, w_rand w) = (Ok a, s) →
  on_world_tables m w = (Ok a, with_tables_rand s w).
Proof. intros Hm. unfold on_world_tables. by erewrite zoom_ok by exact Hm. Qed.

Lemma on_world_tables_read {A} (m : M table_state A) w a :
  m (w_tables w) = (Ok a, w_tables w) → on_world_tables (on_fst m) w = (Ok a, w).
Proof.
  intros Hm. erewrite on_world_tables_ok by (by apply on_fst_ok). by destruct w.
Qed.

(** The generator's text is what the server gets. *)
Lemma send_ok {A} type w r0 bs tx g (f : cstring → M world A) :
  sql (w_ctx w) = Some bs → sql_gen (w_ctx w) type (gen_of w) = (Ok r0, g) →
  g_text g = tx ++ [0] →
  (generate type;; q ← the_sql; f q) w = f (c_str tx) (with_gen g w).
Proof.
  intros Hb Hg Htx.
  erewrite bind_ok by (by eapply generate_ok).
  erewrite bind_ok by (apply (the_sql_ok (g_text g)); cbn; by rewrite Hb).
  by rewrite Htx, c_str_nul.
Qed.

Lemma sql_gen_alter eng_ctx t bs g : table eng_ctx = TPtr t → sql eng_ctx = Some bs →
  sql_gen eng_ctx ALTER_ADD g = alter_add_gen eng_ctx g ∧
  sql_gen eng_ctx ALTER_DROP g = alter_drop_gen eng_ctx g ∧
  sql_gen eng_ctx CREATE g = create_gen eng_ctx g.
Proof. intros Ht Hs. unfold sql_gen. rewrite Ht, Hs. by split_and!. Qed.

Lemma decimal_small n : 0 ≤ n < 1000 → Z.of_nat (length (decimal n)) ≤ 3.
Proof.
  intros Hn. unfold decimal. rewrite (proj2 (Z.ltb_ge n 0)) by lia.
  pose proof (udecimal_length n 2 ltac:(cbn; lia)). lia.
Qed.

Lemma drawn_width n k : 0 ≤ n < 100 → declared_width [] (drawn_column n k) ≤ 30.
Proof.
  intros Hn. pose proof (decimal_small n ltac:(lia)) as Hd.
  pose proof (decimal_small (rand_at (S k) mod 503 + 10)) as Hl.
  pose proof (Z.mod_pos_bound (rand_at (S k)) 503 ltac:(lia)) as Hm. specialize (Hl ltac:(lia)).
  unfold declared_width, declared, drawn_column, sql_type, get_table_data_type, get_table_data_len.
  destruct (_ =? 0); cbn [data_type data_name data_len].
  - rewrite bool_decide_true by done. rewrite !length_app. cbn [text length]. lia.
  - rewrite bool_decide_false by done. rewrite !length_app. cbn [text length]. lia.
Qed.

(** A thread that is about to alter a table with the value columns [vs]. *)
Record altering w cols t ts p s bs vs : Prop := {
  al_server : write_server (w_ctx w) = Some s;
  al_sql : sql (w_ctx w) = Some bs;
  al_table : table (w_ctx w) = TPtr t;
  al_schema : table_schema t = Some ts;
  al_tables : trep (w_tables w) cols;
  al_val : val_schema_of (w_tables w) ts p;
  al_cols : cols !! p = Some vs;
}.
Arguments altering : clear implicits.

(** C24 (adding a column). When the database can be selected and the schema has room, a new column
    joins the schema of the table, and of every table that shares it, before the server is asked;
    it stays when the server refuses it.  A full schema leaves everything as it is. *)
Theorem alter_add_keeps_column w cols t ts p s bs vs :
  altering w cols t ts p s bs vs →
  (∀ n, 0 < n ≤ 16 → malloc_ok n = true) →
  Z.of_nat (length (name t)) + 50 ≤ SQL_BUFFER_LEN →
  let '(r1, d1) := mysql_select_db (mysql s) database (w_db w) in
  if negb (r1 =? 0) then mysql_alter_add_table w = (Ok r1, with_db d1 w)
  else if decide (length vs = 100%nat) then mysql_alter_add_table w = (Ok 0, with_db d1 w)
  else
    let c := drawn_column (Z.of_nat (length vs)) (w_rand w) in
    let '(r2, d2) := mysql_real_query (mysql s) (c_str (alter_text t (text "add " ++ declared [] c))) d1 in
    ∃ w', mysql_alter_add_table w = (Ok r2, w') ∧ w_db w' = d2 ∧
      trep (w_tables w') (<[p := vs ++ [c]]> cols).
Proof.
  intros [Hs Hb Ht Hts R Hv Hp] Hmem Hroom.
  destruct (trep_val_cols _ _ _ _ _ _ R Hts Hv Hp) as (_ & Hle & Hfull).
  destruct (mysql_select_db _ _ _) as [r1 d1] eqn:E1.
  unfold mysql_alter_add_table, write_mysql.
  rewrite (bind_ok _ _ w (mysql s) w)
    by (erewrite bind_ok by done; rewrite Hs; reflexivity).
  erewrite bind_ok.
  2: { unfold ctx_table. erewrite bind_ok by done. rewrite Ht. reflexivity. }
  erewrite bind_ok by (unfold select_db; apply on_db_ok; exact E1).
  destruct (negb (r1 =? 0)); [done|].
  unfold get_table_schema. rewrite Hts.
  erewrite bind_ok by (apply on_world_tables_read; exact Hfull).
  destruct (decide (length vs = 100%nat)) as [Hf|Hnf].
  { by rewrite (proj2 (Z.leb_le _ _)) by lia. }
  rewrite (proj2 (Z.leb_gt _ _)) by lia. cbn iota.
  set (c := drawn_column (Z.of_nat (length vs)) (w_rand w)).
  destruct (add_table_data_ok _ cols ts p vs (w_rand w) R Hv Hp ltac:(lia) Hmem)
    as (s' & k' & Hadd & R' & Htsch). fold c in R'.
  erewrite bind_ok by (apply on_world_tables_ok; exact Hadd).
  set (w1 := with_tables_rand (s', k') (with_db d1 w)).
  assert (val_schema_of s' ts p) as Hv' by (unfold val_schema_of; by rewrite Htsch).
  destruct (trep_val_cols s' _ t ts p (vs ++ [c]) R' Hts Hv') as (Hvc & _).
  { by rewrite lookup_insert_eq. }
  pose proof (drawn_width (Z.of_nat (length vs)) (w_rand w) ltac:(lia)) as Hw. fold c in Hw.
  pose proof (alter_add_gen_text (w_ctx w) t vs c (gen_of w1) Ht Hvc ltac:(lia)) as Hg.
  destruct (sql_gen_alter (w_ctx w) t bs (gen_of w1) Ht Hb) as (Hsg & _).
  rewrite <- Hsg in Hg.
  rewrite (send_ok ALTER_ADD w1 _ bs _ _ _ Hb Hg eq_refl).
  destruct (mysql_real_query _ _ d1) as [r2 d2] eqn:E2.
  eexists. split; [unfold real_query; apply on_db_ok; exact E2|]. by split.
Qed.

(** C23 (dropping a column). When the database can be selected and the last value column of the
    table was named [col...], the server is asked to drop it, and it leaves the schema exactly
    when the server agrees.  A table without value columns, and a last column of another name,
    leave everything as it is. *)
Theorem alter_drop_follows_server w cols t ts p s bs vs :
  altering w cols t ts p s bs vs →
  (∀ c, c ∈ vs → Z.of_nat (length (name t)) + Z.of_nat (length (data_name c)) + 30
     ≤ SQL_BUFFER_LEN) →
  match rev vs with
  | [] => mysql_alter_drop_table w = (Ok 0, w)
  | c :: rest =>
      let '(r1, d1) := mysql_select_db (mysql s) database (w_db w) in
      if negb (r1 =? 0) then mysql_alter_drop_table w = (Ok r1, with_db d1 w)
      else if strncmp_eq (data_name c) (text "col") 3 then
        let '(r2, d2) := mysql_real_query (mysql s)
                           (c_str (alter_text t (text "DROP COLUMN " ++ data_name c))) d1 in
        ∃ w', mysql_alter_drop_table w = (Ok r2, w') ∧ w_db w' = d2 ∧
          trep (w_tables w') (if r2 =? 0 then <[p := rev rest]> cols else cols)
      else mysql_alter_drop_table w = (Ok 0, with_db d1 w)
  end.
Proof.
  intros [Hs Hb Ht Hts R Hv Hp] Hroom.
  destruct (trep_val_cols _ _ _ _ _ _ R Hts Hv Hp) as (Hvc & Hle & _).
  pose proof Hvc as (b & Hvt & Hat).
  unfold mysql_alter_drop_table, write_mysql.
  rewrite (bind_ok _ _ w (mysql s) w)
    by (erewrite bind_ok by done; rewrite Hs; reflexivity).
  erewrite bind_ok.
  2: { unfold ctx_table. erewrite bind_ok by done. rewrite Ht. reflexivity. }
  erewrite bind_ok by (apply on_world_tables_read; exact Hvt). cbn beta iota.
  rewrite <- (rev_involutive vs) in *. set (rv := rev vs) in *. rewrite rev_involutive.
  destruct rv as [|c rest]; [done|]. cbn [rev] in *. set (ws := rev rest) in *.
  rewrite length_app in *. cbn [length] in *.
  rewrite (proj2 (Z.leb_gt _ 0)) by lia.
  destruct (mysql_select_db _ _ _) as [r1 d1] eqn:E1.
  erewrite bind_ok by (unfold select_db; apply on_db_ok; exact E1).
  destruct (negb (r1 =? 0)); [done|].
  destruct (Hat (length ws) c) as (d & Hrd & Hdc); [by rewrite list_lookup_middle|].
  replace (Z.of_nat (length ws + 1) - 1) with (Z.of_nat (length ws)) by lia.
  erewrite bind_ok by (unfold mlift; rewrite Hrd; reflexivity).
  erewrite bind_ok.
  2: { apply on_world_tables_read. cbn. by apply on_datas_read, heap_get_ok. }
  unfold get_table_data_name.
  destruct (strncmp_eq (data_name c) (text "col") 3); cbn [negb]; [|done].
  specialize (Hroom c ltac:(apply elem_of_app; right; by left)).
  set (w1 := with_db d1 w).
  pose proof (alter_drop_gen_text (w_ctx w) t ws c (gen_of w1) Ht Hvc Hroom) as Hg.
  destruct (sql_gen_alter (w_ctx w) t bs (gen_of w1) Ht Hb) as (_ & Hsg & _).
  rewrite <- Hsg in Hg.
  rewrite (send_ok ALTER_DROP w1 _ bs _ _ _ Hb Hg eq_refl).
  destruct (mysql_real_query _ _ d1) as [r2 d2] eqn:E2.
  erewrite bind_ok by (unfold real_query; apply on_db_ok; exact E2).
  destruct (r2 =? 0) eqn:Hr2; [apply Z.eqb_eq in Hr2 as ->|].
  - unfold get_table_schema. rewrite Hts.
    destruct (drop_table_data_ok _ cols ts p ws c R Hv Hp) as (s' & Hdrop & R' & _).
    eexists. split; [|split].
    + erewrite bind_ok; [reflexivity|]. apply on_world_tables_ok, on_fst_ok. cbn. exact Hdrop.
    + done.
    + exact R'.
  - eexists. by split.
Qed.
End commands.

(** ** Witnesses *)

Local Existing Instance roomy_allocator.
Local Existing Instance counting_rand.
Local Existing Instance ticking.

(** A server that answers [r] to every statement. *)
Definition stubborn_client (r : Z) : MysqlClient := {|
  db := ();
  conn := Z;
  mysql_res := ();
  mysql_init s := (Some 1, s);
  mysql_real_connect _ _ _ _ _ _ s := (true, s);
  mysql_close _ s := s;
  mysql_set_reconnect _ s := (0, s);
  mysql_select_db _ _ s := (0, s);
  mysql_real_query _ _ s := (r, s);
  mysql_store_result _ s := (None, s);
  mysql_num_fields _ := 0;
  mysql_num_rows _ := 0;
  mysql_fetch_row _ := None;
  mysql_fetch_lengths _ := None;
  mysql_free_result _ s := s;
|}.

Definition no_servers `{MysqlClient} : hash_t cq_server_t :=
  Hash (Live (Some <$> replicate 11 zero_element)) 11 0 0 RwFree.

(** A thread with the table of the samples, on servers that answer [r]. *)
Definition alter_ctx (r : Z) : @eng_ctx_t (stubborn_client r) :=
  let _ := stubborn_client r in
  EngCtx _ None
    (Some (Server _ (text "10.0.0.1") 3306 (text "10.0.0.1:3306") WRITE_SERVER 1))
    (Cluster _ no_servers no_servers) [] [] (TPtr sample_table)
    (Some 1%positive) (text "test42") 1 (Some []) 7 None zero_stats.
Definition alter_world (r : Z) (s : table_state) : @world (stubborn_client r) :=
  World (stubborn_client r) (alter_ctx r) s 0 4 () zero_stats 0 [].

Lemma alter_world_altering r s cols vs :
  trep s cols → table_schemas s = table_schemas sample_tables → cols !! 2%positive = Some vs →
  altering (alter_world r s) cols sample_table 1%positive 2%positive (Server (stubborn_client r) (text "10.0.0.1")
    3306 (text "10.0.0.1:3306") WRITE_SERVER 1) [] vs.
Proof. intros R Hs Hp. split; try done. unfold val_schema_of. cbn. by rewrite Hs. Qed.

Example create_gen_text_witness :
  @create_gen (stubborn_client 0) (alter_ctx 0) sample_gen =
    (Ok RET_SUCCEED, with_text sample_gen (0, 3%nat)
       (text "create table test42 (id bigint primary key,val varchar(20))" ++ [0])).
Proof.
  exact (create_gen_text (H0 := stubborn_client 0) (alter_ctx 0) [id_column] [val_column]
    sample_gen
    (Build_schema_cols _ _ _ _ (tc_keys _ _ _ _ sample_table_cols)
       (tc_vals _ _ _ _ sample_table_cols))
    ltac:(done) ltac:(vm_compute; discriminate)).
Defined.

(** The server refuses, and the column is there. *)
Example alter_add_keeps_column_witness :
  ∃ w', mysql_alter_add_table (alter_world 1 sample_tables) = (Ok 1, w') ∧ w_db w' = () ∧
    trep (w_tables w') (<[2%positive := [val_column; TableData (text "col1") BIGINT 0]]> sample_cols).
Proof.
  exact (alter_add_keeps_column (alter_world 1 sample_tables) sample_cols sample_table 1%positive 2%positive _ []
    [val_column] (alter_world_altering 1 sample_tables sample_cols [val_column] sample_tables_rep
      eq_refl eq_refl) roomy_16 ltac:(vm_compute; discriminate)).
Defined.

(** The same column, dropped and refused. *)
Example alter_drop_follows_server_witness :
  ∃ s cols, cols !! 2%positive = Some [val_column; TableData (text "col1") BIGINT 0] ∧
    (∃ w', mysql_alter_drop_table (alter_world 0 s) = (Ok 0, w') ∧ w_db w' = () ∧
       trep (w_tables w') (<[2%positive := [val_column]]> cols)) ∧
    (∃ w', mysql_alter_drop_table (alter_world 5 s) = (Ok 5, w') ∧ w_db w' = () ∧
       trep (w_tables w') cols).
Proof.
  destruct (add_table_data_ok sample_tables sample_cols 1%positive 2%positive [val_column] 4 sample_tables_rep
    sample_val_schema eq_refl ltac:(cbn; lia) roomy_16) as (s & k & _ & R & Hs).
  assert (∀ c, c ∈ [val_column; TableData (text "col1") BIGINT 0] →
    Z.of_nat (length (name sample_table)) + Z.of_nat (length (data_name c)) + 30
      ≤ SQL_BUFFER_LEN) as Hroom.
  { intros c [->|[->|[]%not_elem_of_nil]%elem_of_cons]%elem_of_cons; vm_compute; discriminate. }
  exists s, (<[2%positive := [val_column; TableData (text "col1") BIGINT 0]]> sample_cols).
  split; [apply lookup_insert_eq|]. split.
  - exact (alter_drop_follows_server (alter_world 0 s) _ sample_table 1%positive 2%positive _ [] _
      (alter_world_altering 0 s _ _ R Hs (lookup_insert_eq _ _ _)) Hroom).
  - exact (alter_drop_follows_server (alter_world 5 s) _ sample_table 1%positive 2%positive _ [] _
      (alter_world_altering 5 s _ _ R Hs (lookup_insert_eq _ _ _)) Hroom).
Defined.
