(* ===== verification/Safety.v ===== *)
(** * Safety: what the program relies on, and that its commands keep it

    [tables_ok] is what the engine's threads rely on of the tables, [ready] of a
    context that [eng_context_config] has filled.  From there every command
    returns or stops as [expected]: the program aborts, a search in a hash table
    goes on for ever, a counter overflows, or the client library has answered
    [NULL].  No other fault can happen. *)

From stdpp Require Import base gmap sets list strings.
From Stdlib Require Import ZArith Lia.
From S2P Require Import Prelude Outcomes Mylib Vector HashFunc Hash Heap CText Names.
From S2P Require Import Command Table Server EngineCtx SqlGen MysqlCmd Ddl.
Local Open Scope Z_scope.

(** ** Columns and tables *)

(** A letter, a digit or an underscore. *)
Definition ident_char (c : Z) : bool :=
  is_digit c || ((65 <=? c) && (c <=? 90)) || ((97 <=? c) && (c <=? 122)) || (c =? 95).
Definition is_ident (n : cstring) : Prop := n ≠ [] ∧ Forall (λ c, ident_char c = true) n.

(** A column whose values and name leave room for two hundred of them. *)
Record col_fits (c : table_data_t) : Prop := {
  cf_ok : col_ok c;
  cf_width : assign_width c ≤ 5000;
  cf_ident : is_ident (data_name c);
}.

(** A column that [mysql_alter_drop_table] takes for one that was added. *)
Definition looks_added (c : table_data_t) : bool := strncmp_eq (data_name c) (text "col") 3.

(** The names that [eng_context_config] makes. *)
Definition is_table_name (n : cstring) : Prop :=
  ∃ i, 0 ≤ i < 10000 ∧ n = text "test" ++ decimal i.

(** Which schemas a table schema has. *)
Notation pairs_t := (gmap loc (loc * loc)).

Record tables_in (pairs : pairs_t) (m : gmap (list Z) table_t)
    (cols : gmap loc (list table_data_t)) (s : table_state) : Prop := {
  ti_cols : trep s cols;
  ti_pairs ts k v : pairs !! ts = Some (k, v) →
    cells (table_schemas s) !! ts = Some (TableSchema (Some k) (Some v));
  ti_keys ts k v : pairs !! ts = Some (k, v) → ∃ c cs, cols !! k = Some (c :: cs);
  ti_vals ts k v : pairs !! ts = Some (k, v) →
    ∃ c cs, cols !! v = Some (c :: cs) ∧ looks_added c = false;
  ti_apart ts1 k1 v1 ts2 k2 v2 : pairs !! ts1 = Some (k1, v1) → pairs !! ts2 = Some (k2, v2) →
    k1 ≠ v2;
  ti_once ts1 k1 v1 ts2 k2 v2 : pairs !! ts1 = Some (k1, v1) → pairs !! ts2 = Some (k2, v2) →
    k1 = k2 ∨ v1 = v2 → ts1 = ts2;
  ti_fits p cs : cols !! p = Some cs → Forall col_fits cs;
  ti_set : ∃ h, cq_table_set s = SPtr h ∧ small_set h m;
  ti_tables n t : m !! n = Some t →
    n = name t ∧ is_table_name (name t) ∧
    ∃ ts, table_schema t = Some ts ∧ is_Some (pairs !! ts);
  ti_schemas : ∃ v l, cq_schema_set s = SPtr v ∧ vrep v (Some <$> l) ∧ l ≠ [] ∧
    NoDup l ∧ ∀ ts, ts ∈ l → is_Some (pairs !! ts);
}.

Definition tables_ok (pairs : pairs_t) (m : gmap (list Z) table_t) (s : table_state) : Prop :=
  ∃ cols, tables_in pairs m cols s.

Lemma table_name_short n : is_table_name n → Z.of_nat (length n) ≤ 8 ∧ is_text n.
Proof.
  intros (i & Hi & ->). unfold decimal. rewrite (proj2 (Z.ltb_ge i 0)) by lia.
  pose proof (udecimal_length i 3 ltac:(cbn; lia)) as Hl. rewrite length_app. cbn [text length].
  split; [lia|]. apply Forall_app. split; [by repeat constructor|].
  destruct (udecimal_spec i ltac:(lia)) as (Hd & _ & _).
  eapply Forall_impl; [exact Hd|]. intros c Hc. unfold is_digit in Hc. lia.
Qed.

Lemma size_list_to_set_le (l : list (list Z)) :
  (size (list_to_set l : gset (list Z)) ≤ length l)%nat.
Proof.
  induction l as [|x l IH]; [done|]. cbn [list_to_set length].
  rewrite size_union_alt, size_singleton. apply le_n_S.
  etransitivity; [|exact IH]. apply subseteq_size. set_solver.
Qed.

(** There are ten thousand names. *)
Lemma tables_few pairs m cols s : tables_in pairs m cols s → Z.of_nat (size m) ≤ 10000.
Proof.
  intros T. pose proof (Z2Nat.id 10000 ltac:(lia)) as Hk. revert Hk.
  generalize (Z.to_nat 10000) as k. intros k Hk.
  pose proof (size_list_to_set_le ((λ i, text "test" ++ decimal (Z.of_nat i)) <$> seq 0 k)) as Hle.
  rewrite length_fmap, length_seq in Hle. rewrite <- Hk. apply inj_le.
  etransitivity; [|exact Hle]. rewrite <- (size_dom (D := gset (list Z))).
  apply subseteq_size. intros n [t Ht]%elem_of_dom.
  destruct (ti_tables _ _ _ _ T n t Ht) as (Hn & (i & Hi & Hnt) & _). rewrite Hnt in Hn.
  apply elem_of_list_to_set, list_elem_of_fmap. exists (Z.to_nat i).
  split; [by rewrite Z2Nat.id by lia|]. apply elem_of_seq. lia.
Qed.

Section columns.
Context `{RandSource} `{MysqlClient}.

Lemma total_le (w : table_data_t → Z) (b : Z) cs :
  Forall (λ c, w c ≤ b) cs → total w cs ≤ b * Z.of_nat (length cs).
Proof. induction 1 as [|c cs Hc _ IH]; [cbn; lia|]. cbn [total foldr length] in *. unfold total in IH. lia. Qed.

Lemma fits_quoted cs : Forall col_fits cs → total quoted_width cs ≤ 5000 * Z.of_nat (length cs).
Proof.
  intros Hf. apply total_le. eapply Forall_impl; [exact Hf|]. intros c [_ Hw _].
  unfold assign_width in Hw. unfold quoted_width. lia.
Qed.
Lemma fits_assign cs : Forall col_fits cs → total assign_width cs ≤ 5000 * Z.of_nat (length cs).
Proof. intros Hf. apply total_le. eapply Forall_impl; [exact Hf|]. by intros c [_ Hw _]. Qed.
Lemma fits_name cs : Forall col_fits cs → total name_width cs ≤ 5000 * Z.of_nat (length cs).
Proof.
  intros Hf. apply total_le. eapply Forall_impl; [exact Hf|]. intros c [Hc Hw _].
  pose proof (width_pos c Hc). unfold assign_width in Hw. unfold name_width. lia.
Qed.

Lemma fits_col_ok cs : Forall col_fits cs → Forall col_ok cs.
Proof. intros Hf. eapply Forall_impl; [exact Hf|]. by intros c [Hc _ _]. Qed.

Lemma decimal_int n : 0 ≤ n ≤ INT_MAX → Z.of_nat (length (decimal n)) ≤ 10.
Proof.
  intros Hn. unfold decimal, INT_MAX in *. rewrite (proj2 (Z.ltb_ge n 0)) by lia.
  pose proof (udecimal_length n 9 ltac:(cbn; lia)). lia.
Qed.

Lemma fits_declared suffix c : Z.of_nat (length suffix) ≤ 12 → col_fits c →
  declared_width suffix c ≤ 5050.
Proof.
  intros Hs [Hc Hw _]. unfold assign_width in Hw. unfold declared_width, declared, sql_type,
    get_table_data_type, get_table_data_len. rewrite !length_app. cbn [text length].
  pose proof (width_pos c Hc). case_bool_decide as Ht; rewrite ?length_app; cbn [text length]; [lia|].
  assert (data_type c = VARCHAR) as Hv by (by destruct (data_type c)).
  specialize (Hc Hv). pose proof (decimal_int (data_len c) ltac:(lia)). lia.
Qed.

Lemma fits_declared_total suffix cs : Z.of_nat (length suffix) ≤ 12 → Forall col_fits cs →
  total (declared_width suffix) cs ≤ 5050 * Z.of_nat (length cs).
Proof.
  intros Hs Hf. apply total_le. eapply Forall_impl; [exact Hf|]. intros c.
  by apply fits_declared.
Qed.
End columns.

(** ** What the generators find, and write *)

Section generators.
Context `{RandSource} `{MysqlClient}.
Implicit Types (c : eng_ctx_t) (g : gen) (s : table_state).

(** The columns behind a table schema. *)
Lemma tables_cols pairs m cols s ts k v : tables_in pairs m cols s → pairs !! ts = Some (k, v) →
  ∃ key ks val vs, cols !! k = Some (key :: ks) ∧ cols !! v = Some (val :: vs) ∧
    looks_added val = false ∧
    schema_cols s (Some ts) (key :: ks) (val :: vs) ∧
    Forall col_fits ((key :: ks) ++ val :: vs) ∧
    (length (key :: ks) ≤ 100)%nat ∧ (length (val :: vs) ≤ 100)%nat.
Proof.
  intros T Hp. destruct (ti_keys _ _ _ _ T _ _ _ Hp) as (key & ks & Hk).
  destruct (ti_vals _ _ _ _ T _ _ _ Hp) as (val & vs & Hv & Hl).
  pose proof (ti_pairs _ _ _ _ T _ _ _ Hp) as Hts.
  destruct (trep_schema_types _ _ _ _ (ti_cols _ _ _ _ T) Hk) as (bk & Hbk & Hak & _ & Hlk).
  destruct (trep_schema_types _ _ _ _ (ti_cols _ _ _ _ T) Hv) as (bv & Hbv & Hav & _ & Hlv).
  assert (on_table_schemas (heap_get (Some ts)) s = (Ok (TableSchema (Some k) (Some v)), s)) as Hg.
  { unfold on_table_schemas. erewrite zoom_ok by (by apply heap_get_ok). by destruct s. }
  exists key, ks, val, vs. split_and!; try done.
  - split; [exists bk|exists bv]; (split; [|done]);
      [unfold get_schema_key_types|unfold get_schema_val_types]; by erewrite bind_ok by exact Hg.
  - apply Forall_app. split; eapply ti_fits; eauto.
Qed.

(** A context whose table is one of the program's. *)
Record has_table (pairs : pairs_t) (m : gmap (list Z) table_t) c : Prop := {
  ht_table : ∃ t, table c = TPtr t ∧ m !! name t = Some t;
  ht_schema : ∃ ts, ctx_table_schema c = Some ts ∧ is_Some (pairs !! ts);
  ht_name : is_table_name (table_name c);
}.

(** The table of the context, its columns, and room for all of them. *)
Lemma context_table pairs m cols s c : tables_in pairs m cols s → has_table pairs m c →
  ∃ t ts p key ks val vs, table c = TPtr t ∧ is_table_name (name t) ∧ table_schema t = Some ts ∧
    pairs !! ts = Some p ∧ cols !! p.2 = Some (val :: vs) ∧ looks_added val = false ∧
    table_cols s t (key :: ks) (val :: vs) ∧ Forall col_fits ((key :: ks) ++ val :: vs) ∧
    (length (key :: ks) ≤ 100)%nat ∧ (length (val :: vs) ≤ 100)%nat.
Proof.
  intros T [(t & Ht & Hm) _ _]. destruct (ti_tables _ _ _ _ T _ _ Hm) as (_ & Hn & ts & Hts & [[k v] Hp]).
  destruct (tables_cols _ _ _ _ _ _ _ T Hp) as (key & ks & val & vs & Hk & Hv & Hl & [Hck Hcv] & Hf & H1 & H2).
  exists t, ts, (k, v), key, ks, val, vs. split_and!; try done. split; [..|by apply fits_col_ok].
  - unfold get_table_key_types. by rewrite Hts.
  - unfold get_table_val_types. by rewrite Hts.
Qed.

(** What a statement of the program looks like, where it matters. *)
Definition statement_of (type : cmd_type_t) (tx : cstring) : Prop :=
  type = SELECT → ∃ names rest, tx = text "select " ++ join names ++ text " from " ++ rest ∧
    Forall is_ident names ∧ (2 ≤ length names ≤ 200)%nat.

Definition is_dml (type : cmd_type_t) : bool :=
  match type with INSERT | DELETE | UPDATE | SELECT => true | _ => false end.

(** Every statement about the rows of the table fits in the buffer. *)
Lemma dml_gen_ok pairs m c g type bs : tables_ok pairs m (g_tables g) → has_table pairs m c →
  sql c = Some bs → is_dml type = true →
  ∃ r σ tx, sql_gen c type g = (Ok r, with_text g σ (tx ++ [0])) ∧ statement_of type tx.
Proof.
  intros [cols T] Hc Hs Hd.
  destruct (context_table _ _ _ _ _ T Hc)
    as (t & ts & p & key & ks & val & vs & Ht & Hn & _ & _ & _ & _ & Hcols & Hf & Hk & Hv).
  destruct (table_name_short _ Hn) as [Hnl _].
  pose proof (fits_quoted _ Hf) as Hq. rewrite length_app in Hq.
  pose proof Hf as [Hfk Hfv]%Forall_app.
  pose proof (fits_assign _ Hfv) as Ha. pose proof (fits_name _ Hf) as Hnm. rewrite length_app in Hnm.
  assert (assign_width key ≤ 5000) as Hak by (by apply Forall_cons in Hfk as [[] _]).
  unfold sql_gen. rewrite Ht, Hs. erewrite bind_ok by done. erewrite bind_ok by done.
  destruct type; try discriminate.
  - pose proof (insert_gen_text c t _ _ g Ht Hcols ltac:(done)) as Hg.
    unfold SQL_BUFFER_LEN in Hg. specialize (Hg ltac:(lia)).
    destruct (draw_literals _ _ _) as [vals σ]. eexists _, _, _. split; [|discriminate].
    rewrite Hg. by rewrite !app_assoc.
  - pose proof (delete_gen_text c t _ _ _ g Ht Hcols) as Hg.
    unfold SQL_BUFFER_LEN in Hg. specialize (Hg ltac:(lia)).
    eexists _, _, _. split; [|discriminate]. rewrite Hg. by rewrite !app_assoc.
  - pose proof (update_gen_text c t _ _ _ g Ht Hcols ltac:(done)) as Hg.
    unfold SQL_BUFFER_LEN in Hg. specialize (Hg ltac:(lia)).
    destruct (draw_literals _ _ _) as [vals σ]. eexists _, _, _. split; [|discriminate].
    rewrite Hg. by rewrite !app_assoc.
  - pose proof (select_gen_text c t _ _ _ g Ht Hcols) as Hg.
    unfold SQL_BUFFER_LEN in Hg. specialize (Hg ltac:(cbn [app] in *; lia)).
    eexists _, _, _. split.
    + rewrite Hg. f_equal. f_equal. by rewrite !app_assoc.
    + intros _. exists (map data_name (key :: ks ++ val :: vs)), (name t ++ text " where " ++ where_text c key).
      split; [by rewrite <- !app_assoc|split].
      * apply Forall_map. eapply Forall_impl; [exact Hf|]. by intros ? [].
      * rewrite length_map. cbn [length] in *. rewrite length_app. cbn [length]. lia.
Qed.
End generators.

(** ** What the commands leave alone *)

Section reads.
Implicit Types (s : table_state).

(** Looking at a heap. *)
Lemma keeps_heap_get {A B} (f : heap A → B) p : keeps f (heap_get p).
Proof. intros h. unfold heap_get. destruct p as [l|]; [|done]. mstep. by destruct (cells h !! l). Qed.
End reads.
#[export] Hint Resolve keeps_heap_get : keeps.

Section frames.
Context `{Allocator} `{RandSource} `{Clock} `{MysqlClient}.
Implicit Types (c : eng_ctx_t).

(** The generators only look at the tables. *)
Lemma keeps_on_tables {A} (m : M table_state A) :
  keeps id m → keeps g_tables (on_tables m).
Proof. intros Hm. by apply (keeps_zoom _ id). Qed.
Lemma keeps_reading {A T} (get : table_state → heap T) set (m : M (heap T) A) :
  keeps id m → (∀ s, set (get s) s = s) → keeps id (zoom get set m).
Proof. intros Hm Hs. apply (keeps_zoom _ id); [done|]. intros t s Ht. unfold id in *. subst t. apply Hs. Qed.

Lemma keeps_schema_types p : keeps id (schema_types p).
Proof. unfold schema_types, on_schemas. keeps. apply keeps_reading; [keeps|by intros []]. Qed.
Lemma keeps_schema_key_types p : keeps id (get_schema_key_types p).
Proof.
  unfold get_schema_key_types, on_table_schemas. keeps; [|apply keeps_schema_types].
  apply keeps_reading; [keeps|by intros []].
Qed.
Lemma keeps_schema_val_types p : keeps id (get_schema_val_types p).
Proof.
  unfold get_schema_val_types, on_table_schemas. keeps; [|apply keeps_schema_types].
  apply keeps_reading; [keeps|by intros []].
Qed.

Lemma keeps_sql_gen c type : keeps g_tables (sql_gen c type).
Proof.
  assert (∀ b i, keeps g_tables (column_at b i)) as Hc.
  { intros b i. apply keeps_on_tables. keeps. apply keeps_reading; [keeps|by intros []]. }
  assert (∀ bs, keeps g_tables (emit bs)) by (intros; unfold emit, put_text; keeps).
  assert (∀ b, keeps g_tables (emit_char b)) by (intros; unfold emit_char, put_text; keeps).
  assert (keeps g_tables back) by (unfold back, put_text; keeps).
  assert (∀ bs, keeps g_tables (start_text bs)) by (intros; unfold start_text, put_text; keeps).
  assert (keeps g_tables next_seed) by (unfold next_seed; keeps).
  assert (keeps g_tables gen_rand) by (by intros g).
  assert (∀ k, keeps g_tables (write_bigint c k)) by (intros; unfold write_bigint; keeps).
  assert (∀ d k, keeps g_tables (write_varchar c d k))
    by (intros; unfold write_varchar, put_text; keeps).
  assert (∀ d k, keeps g_tables (write_quoted c d k))
    by (intros; unfold write_quoted, write_value; keeps).
  assert (∀ d k, keeps g_tables (write_assignment c d k)) by (intros; unfold write_assignment; keeps).
  assert (keeps g_tables (the_table c)) by (unfold the_table; keeps).
  assert (∀ t, keeps g_tables (key_types t)) by (intros; apply keeps_on_tables, keeps_schema_key_types).
  assert (∀ t, keeps g_tables (val_types t)) by (intros; apply keeps_on_tables, keeps_schema_val_types).
  assert (∀ t, keeps g_tables (where_key c t)) by (intros; unfold where_key; keeps).
  assert (∀ p, keeps g_tables (on_tables (get_schema_key_types p)))
    by (intros; apply keeps_on_tables, keeps_schema_key_types).
  assert (∀ p, keeps g_tables (on_tables (get_schema_val_types p)))
    by (intros; apply keeps_on_tables, keeps_schema_val_types).
  unfold sql_gen, insert_gen, delete_gen, update_gen, select_gen, create_gen, alter_add_gen,
    alter_drop_gen, drop_gen. keeps.
Qed.
End frames.

(** ** How a command can end *)

(** The client library answers [NULL] where the program takes no notice. *)
Definition client_nulls `{MysqlClient} : Prop :=
  (∃ s, (mysql_init s).1 = None) ∨ (∃ c s, (mysql_store_result c s).1 = None) ∨
  (∃ r row, mysql_fetch_row r = Some row ∧ None ∈ row).

Definition expected `{MysqlClient} (w : stop) : Prop :=
  w = Aborted ∨ w = Diverges ∨ w = Undefined SignedOverflow ∨
  (w = Undefined NullDeref ∧ client_nulls).

(** A result with [k] columns. *)
Record shaped `{MysqlClient} (r : mysql_res) (k : nat) : Prop := {
  sh_fields : i32 (mysql_num_fields r) = Z.of_nat k;
  sh_row : i32 (mysql_num_rows r) ≠ 0 → ∃ row lens,
    mysql_fetch_row r = Some row ∧ length row = k ∧
    mysql_fetch_lengths r = Some lens ∧ length lens = k;
}.

(** A query for [k] columns, of the 4096 that there can be, has a result with [k]
    columns. *)
Class SelectShape `{MysqlClient} := select_shape : ∀ m names rest d d1 r d2,
  names ≠ [] → (length names ≤ 4096)%nat → Forall is_ident names →
  mysql_real_query m (text "select " ++ join names ++ text " from " ++ rest) d = (0, d1) →
  mysql_store_result m d1 = (Some r, d2) → shaped r (length names).

Section commands.
Context `{Allocator} `{RandSource} `{Clock} `{MysqlClient}.
Implicit Types (w : world) (pairs : pairs_t) (m : gmap (list Z) table_t).

(** What of a context only [eng_context_config] and its like write. *)
Definition static (c : eng_ctx_t) :=
  (cmd_list c, write_server c, thread_cluster c, ctx_read_servers c, table c,
   ctx_table_schema c, table_name c).
Definition still w := (static (w_ctx w), w_tables w).

Record ready pairs m w : Prop := {
  rd_tables : tables_ok pairs m (w_tables w);
  rd_table : has_table pairs m (w_ctx w);
  rd_server : ∃ s, write_server (w_ctx w) = Some s ∧ (length (server_name s) ≤ 21)%nat;
  rd_readers : Forall (λ s, length (server_name s) ≤ 21)%nat (ctx_read_servers (w_ctx w));
}.

Lemma ready_still pairs m w w' : still w' = still w → ready pairs m w → ready pairs m w'.
Proof.
  unfold still, static. intros [= Hc Hw Ht Hr Htb Hts Htn Htab] [Rt [Ra Rb Rc] Rs Rr].
  split; [by rewrite Htab|split|by rewrite Hw|by rewrite Hr]; by rewrite ?Htb, ?Hts, ?Htn.
Qed.

Lemma keeps_modify_ctx f : (∀ c, static (f c) = static c) → keeps still (modify_ctx f).
Proof. intros Hf w. unfold still. cbn. by rewrite Hf. Qed.
Lemma keeps_on_db {A} (x : M db A) : keeps still (on_db x).
Proof. by apply keeps_zoom_away. Qed.
Lemma keeps_count k : keeps (λ w, (still w, w_db w)) (count k).
Proof.
  unfold count, count_all, modify_ctx. keeps.
Qed.
Lemma keeps_read_time : keeps (λ w, (still w, w_db w)) read_time.
Proof. unfold read_time, now, modify_ctx. keeps. Qed.
Lemma keeps_write_time : keeps (λ w, (still w, w_db w)) write_time.
Proof. unfold write_time, now, modify_ctx. keeps. Qed.
Lemma keeps_generate type : keeps still (generate type).
Proof.
  unfold generate. keeps. eapply (keeps_zoom _ g_tables); [apply keeps_sql_gen|].
  intros g w Hg. unfold still. cbn. rewrite Hg. by destruct (sql (w_ctx w)).
Qed.

(** *** The parts of a command *)

Lemma runs_write_mysql pairs m w : ready pairs m w →
  runs expected write_mysql w (λ _ w', w' = w).
Proof. intros R. destruct (rd_server _ _ _ R) as (s & Hs & _). unfold runs, write_mysql. mstep. by rewrite Hs. Qed.

Lemma runs_lib {A} (f : db → A * db) w (Q : A → world → Prop) :
  (∀ a d, f (w_db w) = (a, d) → Q a (with_db d w)) → runs expected (on_db (lib f)) w Q.
Proof.
  intros HQ. apply runs_zoom. unfold runs, lib. destruct (f (w_db w)) as [a d] eqn:Hf. by apply HQ.
Qed.

Lemma runs_count k w : runs expected (count k) w (λ _ w', still w' = still w ∧ w_db w' = w_db w).
Proof.
  eapply runs_weaken; [apply (runs_only_kept _ (λ w, (still w, w_db w))); [apply keeps_count|]|].
  - unfold runs, count, counter_incr. mstep. destruct (_ <=? _); [by right; right; left|done].
  - intros [] w' Heq. by apply pair_equal_spec in Heq.
Qed.

Lemma runs_time (m0 : M world ()) w : m0 = read_time ∨ m0 = write_time →
  runs expected m0 w (λ _ w', still w' = still w ∧ w_db w' = w_db w).
Proof. by intros [-> | ->]. Qed.

(** The statement that reaches the buffer. *)
Lemma c_str_text a b : is_text a → c_str (a ++ b) = a ++ c_str b.
Proof.
  induction 1 as [|c a Hc _ IH]; [done|]. cbn [app c_str].
  rewrite (proj2 (Z.eqb_neq c 0)) by lia. by rewrite IH.
Qed.
Lemma ident_text n : is_ident n → is_text n.
Proof.
  intros [_ Hn]. eapply Forall_impl; [exact Hn|]. intros c Hc.
  unfold ident_char, is_digit in Hc. lia.
Qed.
Lemma join_text names : Forall is_text names → is_text (join names).
Proof.
  induction 1 as [|n names Hn Hns IH]; [by constructor|]. destruct names as [|n2 names]; [done|].
  cbn [join] in *. apply Forall_app. split; [done|]. apply Forall_app. split; [|done].
  repeat constructor; lia.
Qed.
Lemma statement_c_str type tx : statement_of type tx → statement_of type (c_str tx).
Proof.
  intros Hst Ht. destruct (Hst Ht) as (names & rest & -> & Hn & Hl).
  exists names, (c_str rest). split; [|done].
  rewrite c_str_text by (repeat constructor; lia).
  rewrite c_str_text by (apply join_text; eapply Forall_impl; [exact Hn|apply ident_text]).
  by rewrite c_str_text by (repeat constructor; lia).
Qed.

Lemma runs_statement {A} pairs m w type (f : cstring → M world A) Q :
  ready pairs m w → is_dml type = true →
  (∀ q w', still w' = still w → statement_of type q → runs expected (f q) w' Q) →
  runs expected (generate type;; q ← the_sql; f q) w Q.
Proof.
  intros R Hd Hf. destruct (sql (w_ctx w)) as [bs|] eqn:Hs.
  - destruct (dml_gen_ok pairs m (w_ctx w) (gen_of w) type bs (rd_tables _ _ _ R)
      (rd_table _ _ _ R) Hs Hd) as (r & σ & tx & Hg & Hst).
    unfold runs. rewrite (send_ok type w r bs tx _ f Hs Hg eq_refl).
    apply Hf; [|by apply statement_c_str]. unfold still. cbn. by rewrite Hs.
  - destruct (rd_table _ _ _ R) as [(t & Ht & _) _ _].
    unfold runs, generate, sql_gen. mstep. unfold zoom. mstep. rewrite Ht, Hs. by left.
Qed.

(** *** The commands that write a row *)

Lemma runs_write_command pairs m type k w : ready pairs m w → is_dml type = true →
  runs expected (write_command type k) w (λ _ _, True).
Proof.
  intros R Hd. unfold write_command.
  eapply runs_then; [by eapply runs_write_mysql|]. intros c w1 ->.
  eapply runs_bind, runs_lib. intros r d _. destruct (negb _); [done|].
  eapply runs_statement; [by apply (ready_still _ _ w)|done|].
  intros q w2 _ _. eapply runs_bind, runs_lib. intros r2 d2 _. destruct (_ =? 0); [|done].
  eapply runs_then; [by apply runs_time; right|]. intros [] w3 _.
  eapply runs_then; [by apply (runs_modify _ _ _ (λ _ _, True))|]. intros [] w4 _.
  eapply runs_then; [apply runs_count|]. by intros [] w5 _.
Qed.

Lemma keeps_write_command type k : keeps still (write_command type k).
Proof.
  pose proof (keeps_count k) as Hc. pose proof keeps_write_time as Ht.
  apply (keeps_of _ fst) in Hc, Ht. cbn in Hc, Ht.
  unfold write_command, write_mysql, get_mysql, select_db, real_query, the_sql. keeps;
    try apply keeps_on_db; try apply keeps_generate; try apply keeps_modify_ctx; try done.
Qed.
End commands.

(** *** The check *)

Section select.
Context `{Allocator} `{RandSource} `{Clock} `{MysqlClient} `{Hshape : !SelectShape}.
Implicit Types (w : world) (pairs : pairs_t) (m : gmap (list Z) table_t).
Implicit Types (row : list (option cstring)).

(** A row that the client library has handed out. *)
Definition fetched_row row : Prop := ∃ r, mysql_fetch_row r = Some row.

Lemma runs_fetched {A} (l : list A) i w : 0 ≤ i < Z.of_nat (length l) →
  runs expected (fetched (Some l) i) w (λ x w', w' = w ∧ x ∈ l).
Proof.
  intros Hi. destruct (lookup_lt_is_Some_2 l (Z.to_nat i)) as [x Hx]; [lia|].
  unfold fetched. rewrite Hx. split; [done|]. by eapply list_elem_of_lookup_2.
Qed.

Lemma runs_field row i w : fetched_row row → 0 ≤ i < Z.of_nat (length row) →
  runs expected (field (Some row) i) w (λ _ w', w' = w).
Proof.
  intros [r Hr] Hi. unfold field. eapply runs_then; [by apply runs_fetched|].
  intros [f|] w' [-> Hin]; [done|]. right; right; right. split; [done|]. right; right. eauto.
Qed.

(** The report of a check that failed ends the program. *)
Lemma runs_inconsistent pairs m w s row (rest : M world cstring) (Q : () → world → Prop) :
  ready pairs m w → (length (server_name s) ≤ 21)%nat → fetched_row row → (2 ≤ length row)%nat →
  runs expected rest w (λ t w', w' = w ∧ (length t ≤ 48)%nat) →
  runs expected (inconsistent s (Some row) rest) w Q.
Proof.
  intros R Hs Hrow Hl Hrest. destruct (rd_server _ _ _ R) as (ws & Hws & Hwn).
  destruct (rd_table _ _ _ R) as [(t & Ht & Hmt) _ _].
  destruct (rd_tables _ _ _ R) as [cols T].
  destruct (ti_tables _ _ _ _ T _ _ Hmt) as (_ & [Hn _]%table_name_short & _).
  unfold inconsistent. apply runs_gets. rewrite Hws.
  eapply runs_then_ok; [done|].
  eapply runs_then_ok; [unfold ctx_table; mstep; rewrite Ht; reflexivity|].
  eapply runs_then; [apply runs_field; [done|lia]|]. intros wkey ? ->.
  eapply runs_then; [apply runs_field; [done|lia]|]. intros wval ? ->.
  eapply runs_then; [exact Hrest|]. intros tx ? [-> Htx]. cbv zeta.
  rewrite (proj2 (Z.leb_gt _ _)); [by left|].
  pose proof (report_length (prev_cmd (w_ctx w)) (server_name ws) (server_name s) (name t)
    wkey wval tx Hwn Hs) as Hr. unfold get_server_name, get_table_name, MAX_DATA_LOG_LEN. lia.
Qed.

Lemma runs_compare pairs m w s row rrow lens j :
  ready pairs m w → (length (server_name s) ≤ 21)%nat →
  fetched_row row → fetched_row rrow → (2 ≤ length row)%nat →
  length rrow = length row → length lens = length row → 0 ≤ j < Z.of_nat (length row) →
  runs expected (compare_field s (Some row) (Some rrow) (Some lens) j) w (λ _ w', w' = w).
Proof.
  intros R Hs Hrow Hrrow Hl Hlr Hll Hj. unfold compare_field.
  eapply runs_then; [by apply runs_field|]. intros a ? ->.
  eapply runs_then; [apply runs_field; [done|lia]|]. intros b ? ->.
  eapply runs_then; [apply runs_fetched; lia|]. intros n ? [-> _].
  destruct (strncmp_eq a b _); [done|].
  eapply runs_inconsistent; [done..|].
  eapply runs_then; [apply runs_field; [done|lia]|]. intros rkey ? ->.
  eapply runs_then; [apply runs_field; [done|lia]|]. intros rval ? ->.
  split; [done|]. apply different_row_length.
Qed.

(** A statement that asks for [k] columns, two at the least. *)
Definition selects (q : cstring) (k : nat) : Prop :=
  (2 ≤ k ≤ 200)%nat ∧ ∃ names rest, q = text "select " ++ join names ++ text " from " ++ rest ∧
    Forall is_ident names ∧ length names = k.

Lemma selects_shape q k c d d1 r d2 : selects q k →
  mysql_real_query c q d = (0, d1) → mysql_store_result c d1 = (Some r, d2) → shaped r k.
Proof using Hshape.
  intros (Hk & names & rest & -> & Hn & <-) Hq Hr. eapply select_shape; [|lia|done..].
  intros ->. cbn in Hk. lia.
Qed.

Lemma runs_store_result c w (Q : mysql_res → world → Prop) :
  (∀ r d, mysql_store_result c (w_db w) = (Some r, d) → Q r (with_db d w)) →
  runs expected (store_result c) w Q.
Proof.
  intros HQ. unfold store_result. eapply runs_bind, runs_lib. intros [r|] d Hd; [by apply HQ|].
  right; right; right. split; [done|]. right; left. exists c, (w_db w). by rewrite Hd.
Qed.

Lemma runs_check_server pairs m w q s row lens :
  ready pairs m w → selects q (length row) → (length (server_name s) ≤ 21)%nat →
  fetched_row row → length lens = length row →
  runs expected (check_server q (Some row) (Some lens) (Z.of_nat (length row)) s) w
    (λ _ w', still w' = still w).
Proof using Hshape.
  intros R Hq Hs Hrow Hlens. unfold check_server. cbv zeta.
  eapply runs_bind, runs_lib. intros r d _. destruct (negb _); [done|].
  eapply runs_bind, runs_lib. intros r1 d1 Hr1. destruct (Z.eqb_spec r1 0) as [->|]; [|done].
  cbn [negb]. eapply runs_then; [by apply runs_time; left|]. intros [] w2 [K2 D2].
  eapply runs_then; [apply runs_count|]. intros [] w3 [K3 D3].
  eapply runs_bind, runs_store_result. intros res d2 Hres.
  rewrite D3, D2 in Hres. cbn in Hr1, Hres.
  destruct (selects_shape _ _ _ _ _ _ _ Hq Hr1 Hres) as [_ Hsh].
  set (w4 := with_db d2 w3). assert (still w4 = still w) as K4 by (etrans; [exact K3|exact K2]).
  assert (ready pairs m w4) as R4 by (by eapply ready_still).
  destruct Hq as [[Hk _] _].
  eapply runs_then with (λ _ w', w' = w4); [|by intros [] w' ->].
  destruct (Z.ltb_spec 0 (i32 (mysql_num_rows res))) as [Hn|_].
  - destruct Hsh as (rrow & rlens & Hrr & Hlr & _); [lia|]. rewrite Hrr.
    apply runs_mfor with (I := λ w', w' = w4); [|done].
    intros i x ? Hi%lookup_lt_Some ->. eapply runs_compare; try done; [by eexists|lia].
  - eapply runs_inconsistent; [exact R4|done..|]. split; [done|]. cbn. lia.
Qed.

Lemma runs_select pairs m w : ready pairs m w → runs expected mysql_select w (λ _ _, True).
Proof using Hshape.
  intros R. unfold mysql_select.
  eapply runs_then; [by eapply runs_write_mysql|]. intros c w1 ->.
  eapply runs_bind, runs_lib. intros r d _. destruct (negb _); [done|].
  eapply runs_statement; [by apply (ready_still _ _ w)|done|].
  intros q w2 K2 Hst. destruct (Hst eq_refl) as (names & rest & Hq & Hn & Hl).
  eapply runs_bind, runs_lib. intros r1 d1 Hr1. destruct (Z.eqb_spec r1 0) as [->|]; [|done].
  cbn [negb]. eapply runs_then; [apply runs_count|]. intros [] w3 [K3 D3].
  eapply runs_bind, runs_store_result. intros res d2 Hres. rewrite D3 in Hres. cbn in Hres.
  assert (selects q (length names)) as Hsel by (split; [done|]; eauto).
  destruct (selects_shape _ _ _ _ _ _ _ Hsel Hr1 Hres) as [Hf Hsh].
  cbv zeta. destruct (Z.eqb_spec (i32 (mysql_num_rows res)) 0) as [|Hne]; [done|].
  destruct (Hsh Hne) as (row & lens & Hrow & Hlr & Hlens & Hll).
  rewrite Hrow, Hlens, Hf, <- Hlr. apply runs_gets.
  set (w4 := with_db d2 w3). assert (still w4 = still w) as K4 by (etrans; [exact K3|exact K2]).
  assert (ready pairs m w4) as R4 by (by eapply ready_still).
  eapply runs_then; [|by intros [] w'].
  apply runs_foldr with (I := λ w', still w' = still w4); [|done].
  intros s w' Hs Hw'. eapply runs_weaken.
  - eapply runs_check_server; [by eapply ready_still|by rewrite Hlr| |by eexists|congruence].
    pose proof (rd_readers _ _ _ R4) as Hr. by apply (proj1 (Forall_forall _ _) Hr).
  - intros [] w'' ->. done.
Qed.

Lemma keeps_select : keeps still mysql_select.
Proof.
  pose proof (keeps_count CSelect) as Hc. pose proof keeps_read_time as Ht.
  apply (keeps_of _ fst) in Hc, Ht. cbn in Hc, Ht.
  assert (∀ {A} (l : option (list A)) i, keeps still (fetched l i)) as Hf
    by (intros; unfold fetched; keeps).
  assert (∀ o i, keeps still (field o i)) by (intros; unfold field; keeps; apply Hf).
  assert (∀ c, keeps still (store_result c)) by (intros; unfold store_result; keeps; apply keeps_on_db).
  assert (∀ s o rest, keeps still rest → keeps still (inconsistent s o rest)) as Hi
    by (intros; unfold inconsistent, ctx_table, count_all; keeps).
  unfold mysql_select, write_mysql, get_mysql, select_db, real_query, the_sql, check_server,
    select_db, real_query, compare_field. keeps;
    try solve [eauto using keeps_on_db, keeps_generate]; apply Hi; keeps; eauto.
Qed.
End select.

(** *** The commands that create and alter tables *)

Section ddl.
Context `{Allocator} `{RandSource} `{Clock} `{MysqlClient}.
(** There is always memory for a small block. *)
Context (Hmem : ∀ n, 0 < n ≤ 1024 → malloc_ok n = true).
Implicit Types (w : world) (pairs : pairs_t) (m : gmap (list Z) table_t).

(** What an alteration leaves alone. *)
Definition fixed (s : table_state) := (table_schemas s, cq_schema_set s, cq_table_set s).

Lemma tables_set_vals pairs m cols s s' ts k v c cs :
  tables_in pairs m cols s → pairs !! ts = Some (k, v) → trep s' (<[v := c :: cs]> cols) →
  fixed s' = fixed s → Forall col_fits (c :: cs) → looks_added c = false →
  tables_ok pairs m s'.
Proof.
  intros [Tc Tp Tk Tv Ta To Tf Ts Tt Tsc] Hp R [= Hts Hss Hs] Hf Hl. exists (<[v := c :: cs]> cols).
  split; rewrite ?Hts, ?Hss, ?Hs; try done.
  - intros ts' k' v' Hp'. rewrite lookup_insert_ne; [by eapply Tk|]. intros ->.
    by apply (Ta _ _ _ _ _ _ Hp' Hp).
  - intros ts' k' v' Hp'. destruct (decide (v' = v)) as [->|Hne].
    + rewrite lookup_insert_eq. by exists c, cs.
    + rewrite lookup_insert_ne by done. by eapply Tv.
  - intros p ds. destruct (decide (p = v)) as [->|Hne].
    + rewrite lookup_insert_eq. by intros [= <-].
    + rewrite lookup_insert_ne by done. apply Tf.
Qed.

Lemma drawn_fits n k : 0 ≤ n < 100 → col_fits (drawn_column n k).
Proof.
  intros Hn. pose proof (decimal_small n ltac:(lia)) as Hd.
  pose proof (Z.mod_pos_bound (rand_at (S k)) 503 ltac:(lia)) as Hm.
  unfold drawn_column. split.
  - intros Ht. destruct (_ =? 0); [done|]. cbn [data_len]. unfold INT_MAX. lia.
  - unfold assign_width, width. destruct (_ =? 0); cbn [data_type data_name data_len];
      rewrite length_app; cbn [text length]; lia.
  - assert (is_ident (text "col" ++ decimal n)) as Hi; [|by destruct (_ =? 0)].
    split; [done|]. apply Forall_app. split; [by repeat constructor|].
    unfold decimal. rewrite (proj2 (Z.ltb_ge n 0)) by lia.
    destruct (udecimal_spec n ltac:(lia)) as (Hu & _ & _).
    eapply Forall_impl; [exact Hu|]. intros c Hc. unfold ident_char. by rewrite Hc.
Qed.

Lemma keeps_add_table_data p : keeps (λ s, fixed s.1) (add_table_data p).
Proof.
  assert (∀ {A} (x : M (heap table_data_t) A), keeps (λ s : table_state * nat, fixed s.1) (on_fst (on_datas x)))
    as Hd by (intros; by apply (keeps_zoom _ fixed); [apply keeps_zoom_away|]).
  assert (∀ {A} (x : M (heap schema_t) A), keeps (λ s : table_state * nat, fixed s.1) (on_fst (on_schemas x)))
    as Hs by (intros; by apply (keeps_zoom _ fixed); [apply keeps_zoom_away|]).
  assert (∀ p, keeps (λ s : table_state * nat, fixed s.1)
    (on_fst (on_table_schemas (get_table_val_schema p)))) as Ht.
  { intros q. apply (keeps_zoom _ fixed); [|by intros t s ?].
    apply (keeps_of id fixed), keeps_reading; [unfold get_table_val_schema; keeps|by intros []]. }
  unfold add_table_data, col_name, draw_column. keeps; try done; by apply keeps_zoom_away.
Qed.

Lemma keeps_drop_table_data p : keeps fixed (drop_table_data p).
Proof.
  assert (∀ p, keeps fixed (on_table_schemas (heap_get p))).
  { intros q. apply (keeps_of id fixed), keeps_reading; [keeps|by intros []]. }
  unfold drop_table_data. keeps; try done; by apply keeps_zoom_away.
Qed.

Lemma runs_ctx_table pairs m w : ready pairs m w →
  ∃ t, table (w_ctx w) = TPtr t ∧ ctx_table w = (Ok t, w).
Proof.
  intros R. destruct (rd_table _ _ _ R) as [(t & Ht & _) _ _]. exists t.
  unfold ctx_table. mstep. by rewrite Ht.
Qed.

(** A statement of the other kinds. *)
Lemma runs_send {A} w type g r tx (f : cstring → M world A) Q :
  table (w_ctx w) ≠ TNull →
  (∀ bs, sql (w_ctx w) = Some bs → sql_gen (w_ctx w) type (gen_of w) = (Ok r, g) ∧
     g_text g = tx ++ [0] ∧ g_tables g = w_tables w) →
  (∀ q w', still w' = still w → runs expected (f q) w' Q) →
  runs expected (generate type;; q ← the_sql; f q) w Q.
Proof.
  intros Ht Hg Hf. destruct (sql (w_ctx w)) as [bs|] eqn:Hs.
  - destruct (Hg bs eq_refl) as (Hgen & Htx & Htab).
    unfold runs. rewrite (send_ok type w r bs tx g f Hs Hgen Htx). apply Hf.
    unfold still. cbn. by rewrite Htab, Hs.
  - unfold runs, generate, sql_gen. mstep. unfold zoom. mstep. rewrite Hs.
    by destruct (table (w_ctx w)); [|left..].
Qed.

Lemma runs_alter_add pairs m w : ready pairs m w →
  runs expected mysql_alter_add_table w (λ _, ready pairs m).
Proof using Hmem.
  intros R. unfold mysql_alter_add_table.
  eapply runs_then; [by eapply runs_write_mysql|]. intros c w1 ->.
  destruct (rd_tables _ _ _ R) as [cols T].
  destruct (context_table _ _ _ _ _ T (rd_table _ _ _ R))
    as (t & ts & [k v] & key & ks & val & vs & Ht & [Hn _]%table_name_short & Hts & Hp & Hv & Hla & Hcols & Hf & _ & Hl).
  eapply runs_then_ok; [unfold ctx_table; mstep; rewrite Ht; reflexivity|]. cbv zeta.
  eapply runs_bind, runs_lib. intros r d _. destruct (negb _); [by apply (ready_still _ _ w)|].
  set (w1 := with_db d w). pose proof (ti_cols _ _ _ _ T) as Tr.
  pose proof (ti_pairs _ _ _ _ T _ _ _ Hp) as Hcell.
  assert (val_schema_of (w_tables w1) ts v) as Hvs by (unfold val_schema_of; cbn; by rewrite Hcell).
  destruct (trep_val_cols _ _ t ts v _ Tr Hts Hvs Hv) as (_ & _ & Hfull).
  unfold get_table_schema. rewrite Hts.
  eapply runs_then_ok; [by apply on_world_tables_read|].
  destruct (Z.leb_spec 100 (Z.of_nat (length (val :: vs)))) as [|Hroom];
    [by apply (ready_still _ _ w)|].
  destruct (add_table_data_ok _ _ ts v _ (w_rand w) Tr Hvs Hv) as (s' & k' & Hadd & R' & Hs');
    [lia|intros; apply Hmem; lia|].
  eapply runs_then_ok; [by apply on_world_tables_ok|].
  set (nc := drawn_column _ _) in *.
  pose proof (keeps_add_table_data (Some ts) (w_tables w, w_rand w)) as Hk. rewrite Hadd in Hk.
  assert (col_fits nc) as Hnc by (apply drawn_fits; lia).
  set (w2 := with_tables_rand _ w1).
  assert (ready pairs m w2) as R2.
  { destruct R as [_ Rt Rs Rr]. split; [|done..]. cbn.
    apply (tables_set_vals pairs m cols (w_tables w) s' ts k v val (vs ++ [nc])); try done.
    apply Forall_app in Hf as [_ Hf]. rewrite app_comm_cons. apply Forall_app. split; [done|]. by constructor. }
  destruct (trep_val_cols s' _ t ts v ((val :: vs) ++ [nc]) R' Hts) as (Hvc & _).
  { unfold val_schema_of. by rewrite Hs', Hcell. }
  { apply lookup_insert_eq. }
  pose proof (fits_declared [] nc ltac:(cbn; lia) Hnc) as Hw.
  eapply (runs_send _ _ _ RET_SUCCEED _).
  - cbn. by rewrite Ht.
  - intros bs Hs. destruct (sql_gen_alter (w_ctx w2) t bs (gen_of w2) Ht Hs) as (-> & _).
    split_and!.
    + apply (alter_add_gen_text (w_ctx w2) t (val :: vs) nc (gen_of w2) Ht Hvc).
      unfold SQL_BUFFER_LEN. lia.
    + reflexivity.
    + reflexivity.
  - intros q w3 K3. apply runs_lib. intros r2 d2 _. eapply ready_still; [|exact R2]. exact K3.
Qed.
Lemma runs_alter_drop pairs m w : ready pairs m w →
  runs expected mysql_alter_drop_table w (λ _, ready pairs m).
Proof.
  intros R. unfold mysql_alter_drop_table.
  eapply runs_then; [by eapply runs_write_mysql|]. intros cn w1 ->.
  destruct (rd_tables _ _ _ R) as [cols T].
  destruct (context_table _ _ _ _ _ T (rd_table _ _ _ R))
    as (t & ts & [k v] & key & ks & val & vs & Ht & [Hn _]%table_name_short & Hts & Hp & Hv & Hla & Hcols & Hf & _ & Hl).
  eapply runs_then_ok; [unfold ctx_table; mstep; rewrite Ht; reflexivity|]. cbv zeta.
  pose proof (ti_cols _ _ _ _ T) as Tr. pose proof (ti_pairs _ _ _ _ T _ _ _ Hp) as Hcell.
  assert (val_schema_of (w_tables w) ts v) as Hvs by (unfold val_schema_of; by rewrite Hcell).
  apply Forall_app in Hf as [_ Hf].
  destruct (exists_last (l := val :: vs)) as (ds & c & Hds); [done|]. rewrite Hds in *.
  destruct (trep_val_cols _ _ t ts v _ Tr Hts Hvs Hv) as (Hvc & _). pose proof Hvc as (b & Hb & Hat).
  eapply runs_then_ok; [by apply on_world_tables_read|]. cbn beta iota.
  rewrite length_app. cbn [length]. rewrite (proj2 (Z.leb_gt _ 0)) by lia.
  eapply runs_bind, runs_lib. intros r d _. destruct (negb _); [by apply (ready_still _ _ w)|].
  set (w1 := with_db d w).
  destruct (Hat (length ds) c) as (dl & Hrd & Hdc); [by rewrite list_lookup_middle|].
  replace (Z.of_nat (length ds + 1) - 1) with (Z.of_nat (length ds)) by lia.
  eapply runs_then_ok; [unfold mlift; rewrite Hrd; reflexivity|].
  eapply runs_then_ok; [apply on_world_tables_read; cbn; by apply on_datas_read, heap_get_ok|].
  unfold get_table_data_name. destruct (strncmp_eq _ _ _) eqn:Hcol; [|by apply (ready_still _ _ w)].
  cbn [negb]. assert (col_fits c) as [Hck Hcw _] by (by apply Forall_app in Hf as [_ [? _]%Forall_cons]).
  pose proof (width_pos c Hck). unfold assign_width in Hcw.
  eapply (runs_send _ _ _ RET_SUCCEED _).
  - cbn. by rewrite Ht.
  - intros bs Hs. destruct (sql_gen_alter (w_ctx w1) t bs (gen_of w1) Ht Hs) as (_ & -> & _).
    split_and!.
    + apply (alter_drop_gen_text (w_ctx w1) t ds c (gen_of w1) Ht Hvc).
      unfold SQL_BUFFER_LEN. lia.
    + reflexivity.
    + reflexivity.
  - intros q w3 K3. apply runs_bind, runs_lib. intros r2 d2 _. set (w4 := with_db d2 w3).
    assert (still w4 = still w) as K4 by exact K3.
    destruct (_ =? 0); [|by eapply ready_still].
    destruct (drop_table_data_ok _ _ ts v ds c Tr Hvs Hv) as (s' & Hdrop & R' & _ & _ & _).
    unfold get_table_schema. rewrite Hts.
    assert (w_tables w4 = w_tables w) as Hw4 by (by unfold still in K4; simplify_eq).
    eapply runs_then_ok; [apply on_world_tables_ok, on_fst_ok; cbn [fst]; rewrite Hw4; exact Hdrop|].
    destruct (ready_still _ _ _ _ K4 R) as [_ R2 R3 R4]. split; [|done..]. cbn.
    pose proof (keeps_drop_table_data (Some ts) (w_tables w)) as Hk. rewrite Hdrop in Hk.
    destruct ds as [|val' ds]; [injection Hds as -> ->; unfold looks_added in Hla; congruence|].
    injection Hds as <- Hds.
    apply (tables_set_vals pairs m cols (w_tables w) s' ts k v val ds); try done.
    by apply Forall_app in Hf as [Hf _].
Qed.

(** The context stays as it was configured. *)
Lemma keeps_alter : keeps (λ w, static (w_ctx w)) mysql_alter_add_table ∧
  keeps (λ w, static (w_ctx w)) mysql_alter_drop_table.
Proof.
  assert (∀ type, keeps (λ w, static (w_ctx w)) (generate type))
    by (intros; apply (keeps_of still fst), keeps_generate).
  assert (∀ {A} (x : M (table_state * nat) A), keeps (λ w, static (w_ctx w)) (on_world_tables x))
    by (intros; by apply keeps_zoom_away).
  unfold mysql_alter_add_table, mysql_alter_drop_table, write_mysql, get_mysql, ctx_table,
    select_db, real_query, the_sql.
  split; keeps; eauto; by apply keeps_zoom_away.
Qed.

(** The table thread's context points at something that is not a table. *)
Record creating pairs m w : Prop := {
  cg_tables : tables_ok pairs m (w_tables w);
  cg_table : table (w_ctx w) ≠ TNull;
  cg_schema : ∃ ts, ctx_table_schema (w_ctx w) = Some ts ∧ is_Some (pairs !! ts);
  cg_name : is_table_name (table_name (w_ctx w));
  cg_server : ∃ s, write_server (w_ctx w) = Some s;
}.

Lemma keeps_create : keeps still mysql_create_table.
Proof.
  unfold mysql_create_table, write_mysql, get_mysql, select_db, real_query, the_sql. keeps;
    eauto using keeps_on_db, keeps_generate.
Qed.

Lemma runs_create pairs m w : creating pairs m w →
  runs expected mysql_create_table w (λ _ _, True).
Proof.
  intros [[cols T] Ht (ts & Hts & [[k v] Hp]) Hn (s & Hs)].
  destruct (tables_cols _ _ _ _ _ _ _ T Hp)
    as (key & ks & val & vs & _ & _ & _ & Hcols & Hf & Hk & Hv).
  destruct (table_name_short _ Hn) as [Hnl _].
  unfold mysql_create_table. eapply runs_then_ok; [unfold write_mysql; mstep; by rewrite Hs|].
  eapply runs_bind, runs_lib. intros r d _. destruct (negb _); [done|].
  set (w1 := with_db d w). apply Forall_app in Hf as [Hfk Hfv].
  pose proof (fits_declared_total primary _ ltac:(cbn; lia) Hfk) as Hdk.
  pose proof (fits_declared_total [] _ ltac:(cbn; lia) Hfv) as Hdv.
  eapply (runs_send _ _ _ RET_SUCCEED _); [done| |].
  - intros bs Hb.
    assert (sql_gen (w_ctx w1) CREATE (gen_of w1) = create_gen (w_ctx w) (gen_of w1)) as ->.
    { unfold sql_gen. cbn [w_ctx w1 with_db] in *. rewrite Hb. by destruct (table (w_ctx w)). }
    split_and!.
    + apply (create_gen_text (w_ctx w) (key :: ks) (val :: vs) (gen_of w1));
        [by rewrite Hts|done|unfold SQL_BUFFER_LEN; lia].
    + cbn [g_text with_text]. rewrite !app_assoc. reflexivity.
    + reflexivity.
  - intros q w2 _. by apply runs_lib.
Qed.
End ddl.
