(* ===== verification/Engine.v ===== *)
(** * Engine: what each kind of thread does (src/src/engine/cq_engine.c)

    One turn of each thread's loop as a computation on the thread's [engine]:
    its context and what the commands touch ([world]), the command lists, the
    static [engine_frandom_seed] and [cluster_base].  How the turns of several
    threads interleave is in [System]. *)

From stdpp Require Import base gmap list strings.
From Stdlib Require Import ZArith Lia.
From S2P Require Import Prelude Mylib Hash Heap CText Names.
From S2P Require Import Command Table Server EngineCtx SqlGen MysqlCmd.
Local Open Scope Z_scope.

Record engine `{MysqlClient} := Engine {
  e_world : world;
  e_cmds : cmd_state;
  engine_frandom_seed : Z;
  cluster_base : cq_server_cluster_t;
}.

(** [alter_type_t]: [ALTER_OP_ADD], [ALTER_OP_DROP] and their number. *)
Definition ALTER_OP_ADD : Z := 0.
Definition ALTER_OP_DROP : Z := 1.
Definition ALTER_OP_NUM : Z := 2.

Section engine.
Context `{Allocator} `{RandSource} `{Clock} `{MysqlClient}.
(** [g_username] and [g_password]. *)
Context (g_username g_password : cstring).
Implicit Types (e : engine) (w : world) (c : eng_ctx_t).

Definition on_world {A} : M world A → M engine A :=
  zoom e_world (λ w e, Engine _ w (e_cmds e) (engine_frandom_seed e) (cluster_base e)).
Definition on_cmd_state {A} : M cmd_state A → M engine A :=
  zoom e_cmds (λ s e, Engine _ (e_world e) s (engine_frandom_seed e) (cluster_base e)).
(** The command lists together with [rand]. *)
Definition on_cmds_rand {A} : M (cmd_state * nat) A → M engine A :=
  zoom (λ e, (e_cmds e, w_rand (e_world e)))
    (λ s e, Engine _ (with_tables_rand (w_tables (e_world e), s.2) (e_world e)) s.1
              (engine_frandom_seed e) (cluster_base e)).
Definition on_base {A} : M cq_server_cluster_t A → M engine A :=
  zoom cluster_base (λ b e, Engine _ (e_world e) (e_cmds e) (engine_frandom_seed e) b).
Definition on_rand {A} : M nat A → M engine A :=
  zoom (λ e, w_rand (e_world e))
    (λ k e, Engine _ (with_tables_rand (w_tables (e_world e), k) (e_world e)) (e_cmds e)
              (engine_frandom_seed e) (cluster_base e)).

Definition ctx : M engine eng_ctx_t := mgets (λ e, w_ctx (e_world e)).
Definition update_ctx (f : eng_ctx_t → eng_ctx_t) : M engine () := on_world (modify_ctx f).

(** The thread's own cluster. *)
Definition set_cluster (cl : cq_server_cluster_t) c : eng_ctx_t :=
  EngCtx _ (cmd_list c) (write_server c) cl (ctx_write_servers c) (ctx_read_servers c)
    (table c) (ctx_table_schema c) (table_name c) (tid c) (sql c) (seed_base c) (prev_cmd c)
    (stats c).
Definition on_thread_cluster {A} : M cq_server_cluster_t A → M engine A :=
  zoom (λ e, thread_cluster (w_ctx (e_world e)))
    (λ cl e, Engine _ (with_ctx (set_cluster cl (w_ctx (e_world e))) (e_world e)) (e_cmds e)
               (engine_frandom_seed e) (cluster_base e)).

(** The servers of an array from [cq_cluster_get_all_...]. *)
Definition servers_of (b : buffer (option cq_server_t)) (n : Z) : res (list cq_server_t) :=
  (fix go (k : nat) (i : Z) : res (list cq_server_t) :=
     match k with
     | O => Ok []
     | S k => o ← arr_read b i;
              match o with
              | None => Stop (Undefined NullDeref)
              | Some s => l ← go k (i + 1); Ok (s :: l)
              end
     end) (Z.to_nat n) 0.

(** [server_init] on the address of [s], and into the thread's cluster. *)
Definition add_to_thread_cluster (type : server_type_t) (s : cq_server_t) : M engine () :=
  server ← on_world (on_db (server_init g_username g_password (get_server_ip s)
                              (get_server_port s) type));
  r ← on_thread_cluster (cq_cluster_add server);
  if bool_decide (r = RET_FAILED) then mstop Aborted else mret ().

Definition for_servers (l : list cq_server_t) (f : cq_server_t → M engine ()) : M engine () :=
  foldr (λ s k, f s;; k) (mret ()) l.

Definition sizeof_eng_ctx_t : Z := 2232.

(** The context is zeroed; the SQL buffer may be [NULL]. *)
Definition empty_ctx (cl : cq_server_cluster_t) (tid : Z) : eng_ctx_t :=
  EngCtx _ None None cl [] [] TNull None [] tid
    (if malloc_ok SQL_BUFFER_LEN then Some [] else None) 0 None zero_stats.

Definition eng_context_init (para_tid : Z) : M engine () :=
  pure_state (cq_malloc sizeof_eng_ctx_t ());;
  cl ← pure_state cq_cluster_init;
  update_ctx (λ _, empty_ctx cl para_tid);;
  '(b, nserver) ← on_base cq_cluster_get_all_write_server;
  l ← mlift (servers_of b nserver);
  for_servers l (add_to_thread_cluster WRITE_SERVER);;
  '(b, nserver) ← on_base cq_cluster_get_all_read_server;
  l ← mlift (servers_of b nserver);
  for_servers l (add_to_thread_cluster READ_SERVER);;
  update_ctx (ctx_with_stats zero_stats).

(** [sprintf(eng_ctx->table_name, "test%d", rand() % 10000)] *)
Definition random_table_name : M engine cstring :=
  r ← on_rand (rand_mod 10000);
  let n := text "test" ++ decimal r in
  if MAX_TABLE_NAME_LEN <=? Z.of_nat (length n) then mstop (Undefined OutOfBounds) else mret n.

(** The write server chosen at random from the thread's cluster. *)
Definition random_write_server : M engine (option cq_server_t) :=
  zoom (λ e, (thread_cluster (w_ctx (e_world e)), w_rand (e_world e)))
    (λ s e, Engine _ (with_ctx (set_cluster s.1 (w_ctx (e_world e)))
                        (with_tables_rand (w_tables (e_world e), s.2) (e_world e)))
              (e_cmds e) (engine_frandom_seed e) (cluster_base e))
    cq_cluster_get_random_write_server.

Definition eng_context_config : M engine () :=
  cl ← on_cmds_rand get_random_cmd_list;
  ws ← random_write_server;
  '(b, n) ← on_thread_cluster cq_cluster_get_all_write_server;
  wss ← mlift (servers_of b n);
  '(b, n) ← on_thread_cluster cq_cluster_get_all_read_server;
  rss ← mlift (servers_of b n);
  t ← on_world (on_world_tables table_set_get_random);
  ts ← on_world (on_world_tables schema_set_get_random);
  n ← random_table_name;
  update_ctx (λ c, EngCtx _ cl ws (thread_cluster c) wss rss
                     (match t with None => TNull | Some t => TPtr t end) ts n (tid c) (sql c)
                     (seed_base c) (prev_cmd c) (stats c)).

(** The arrays of servers are released; nothing reads them before the next
    [eng_context_config]. *)
Definition eng_context_free_rwservers : M engine () :=
  update_ctx (λ c, EngCtx _ (cmd_list c) (write_server c) (thread_cluster c) [] [] (table c)
                     (ctx_table_schema c) (table_name c) (tid c) (sql c) (seed_base c)
                     (prev_cmd c) (stats c)).

Definition eng_context_destroy : M engine () :=
  zoom (λ e, (thread_cluster (w_ctx (e_world e)), w_db (e_world e)))
    (λ s e, Engine _ (with_ctx (set_cluster s.1 (w_ctx (e_world e))) (with_db s.2 (e_world e)))
              (e_cmds e) (engine_frandom_seed e) (cluster_base e))
    cq_cluster_destroy.

(** [__sync_add_and_fetch(&engine_frandom_seed, 1)] *)
Definition set_seed : M engine () :=
  z ← mgets engine_frandom_seed;
  let z' := i32 (z + 1) in
  mmodify (λ e, Engine _ (e_world e) (e_cmds e) z' (cluster_base e));;
  update_ctx (ctx_with_seed z').

(** The [switch] on the command's type; the results are ignored. *)
Definition run_command (type : cmd_type_t) : M engine () :=
  match type with
  | INSERT => on_world mysql_insert;; mret ()
  | DELETE => on_world mysql_delete;; mret ()
  | UPDATE => on_world mysql_update;; mret ()
  | SELECT => on_world mysql_select;; mret ()
  | _ => mret ()
  end.

(** One turn of [while (cmd != cmd_list->tail)]. *)
Definition travel_step (pcmd_list cmd : option loc) : M engine (option loc + ()) :=
  l ← on_cmd_state (on_cmd_lists (heap_get pcmd_list));
  if bool_decide (cmd = tail l) then mret (inr ()) else
    c ← on_cmd_state (on_cmds (heap_get cmd));
    type ← initialised (type c);
    run_command type;;
    c ← on_cmd_state (on_cmds (heap_get cmd));
    next ← initialised (next c);
    mret (inl next).

Definition travel_command_list : M engine () :=
  c ← ctx;
  let pcmd_list := cmd_list c in
  cmd ← on_cmd_state (get_first_cmd pcmd_list);
  set_seed;;
  mloop P64 (travel_step pcmd_list) cmd.

(** One turn of [engine_thread]'s loop. *)
Definition engine_turn : M engine () :=
  eng_context_config;;
  travel_command_list;;
  eng_context_free_rwservers.

(** One turn of [table_thread]'s loop up to its sleep; it answers whether
    [has_first_table] is set.  The context's table is made to point to the
    thread's parameter. *)
Definition table_turn : M engine bool :=
  eng_context_config;;
  update_ctx (ctx_with_table TOther);;
  ret ← on_world mysql_create_table;
  made ← (if ret =? 0 then
      c ← ctx;
      ptable ← on_world (on_world_tables
        (on_fst (table_init (table_name c) (ctx_table_schema c))));
      match ptable with
      | None => mstop (Undefined NullDeref)
      | Some t => on_world (on_world_tables (on_fst (table_set_add t)));; mret true
      end
    else mret false);
  eng_context_free_rwservers;;
  mret made.

(** One turn of [alter_thread]'s loop up to its sleep. *)
Definition alter_turn : M engine Z :=
  eng_context_config;;
  op ← on_rand (rand_mod ALTER_OP_NUM);
  ret ← (if op =? ALTER_OP_ADD then on_world mysql_alter_add_table
         else if op =? ALTER_OP_DROP then on_world mysql_alter_drop_table
         else mret 0);
  eng_context_free_rwservers;;
  mret ret.
End engine.

(** ** Walking a command list runs its commands in order *)

Section travel.
Context `{Allocator} `{RandSource} `{Clock} `{MysqlClient}.
Implicit Types (e : engine).

(** The commands of a list, one after another. *)
Definition run_commands (ts : list cmd_type_t) : M engine () :=
  foldr (λ t k, run_command t;; k) (mret ()) ts.

Lemma run_command_cmds t e : e_cmds (run_command t e).2 = e_cmds e.
Proof.
  assert (∀ m : M world Z, e_cmds ((on_world m;; mret ()) e).2 = e_cmds e) as Hm.
  { intros m. unfold on_world, zoom. mstep. by destruct (m (e_world e)) as [[] ?]. }
  by destruct t; try apply Hm.
Qed.

Lemma on_cmd_state_read {A} (m : M cmd_state A) e a :
  m (e_cmds e) = (Ok a, e_cmds e) → on_cmd_state m e = (Ok a, e).
Proof. intros Hm. unfold on_cmd_state. erewrite zoom_ok by exact Hm. by destruct e. Qed.

Lemma heap_get_list s (l : loc) o : cells (cmd_lists s) !! l = Some o →
  on_cmd_lists (heap_get (Some l)) s = (Ok o, s).
Proof.
  intros Hl. erewrite (on_cmd_lists_ok _ s) by (by apply heap_get_ok). by destruct s.
Qed.
Lemma heap_get_cmd s (a : loc) c : cells (cmds s) !! a = Some c →
  on_cmds (heap_get (Some a)) s = (Ok c, s).
Proof.
  intros Ha. erewrite (on_cmds_ok _ s) by (by apply heap_get_ok). by destruct s.
Qed.

(** A turn at the node [a] of type [t]. *)
Lemma travel_step_node (l hd tl a : loc) n c t p e :
  cells (cmd_lists (e_cmds e)) !! l = Some (CmdList (Some hd) (Some tl) n) → a ≠ tl →
  cells (cmds (e_cmds e)) !! a = Some c → type c = Some t → next c = Some p →
  travel_step (Some l) (Some a) e =
    match run_command t e with
    | (Ok _, e') => (Ok (inl p), e')
    | (Stop w, e') => (Stop w, e')
    end.
Proof.
  intros Hl Ha Hc Ht Hn. unfold travel_step.
  erewrite bind_ok by (by eapply on_cmd_state_read, heap_get_list). cbn [tail].
  rewrite bool_decide_false by (intros [= ?]; done).
  erewrite bind_ok by (by eapply on_cmd_state_read, heap_get_cmd). rewrite Ht.
  erewrite bind_ok by done.
  pose proof (run_command_cmds t e) as Hcm.
  destruct (run_command t e) as [[[]|w] e'] eqn:Hr; cbn [snd] in Hcm.
  - erewrite bind_ok by exact Hr.
    erewrite bind_ok by (eapply on_cmd_state_read, heap_get_cmd; by rewrite Hcm).
    by rewrite Hn.
  - by erewrite bind_stop by exact Hr.
Qed.

Lemma travel_loop (s : cmd_state) (l hd tl : loc) n ns ts p e :
  e_cmds e = s → cells (cmd_lists s) !! l = Some (CmdList (Some hd) (Some tl) n) →
  tl ∉ ns → seg (cmds s) p (ns ++ [tl]) None →
  Forall2 (λ a t, type <$> cells (cmds s) !! a = Some (Some t)) ns ts →
  Z.of_nat (length ns) < 2 ^ 64 →
  mloop P64 (travel_step (Some l)) (first_or (ns ++ [tl]) None) e = run_commands ts e.
Proof.
  intros He Hl Htl Hseg Hty Hlen. unfold mloop. rewrite loop_run.
  set (step := λ '(a, s), _).
  enough (∀ k, (length ns < k)%nat →
    run step k (first_or (ns ++ [tl]) None, e) = inr (run_commands ts e)) as Hgo.
  { rewrite Hgo; [done|]. unfold P64. lia. }
  clear Hlen. revert p e He Htl Hseg.
  induction Hty as [|a t ns ts Ha Hty IH]; intros p e He Htl Hseg [|k] Hk; try (cbn in Hk; lia).
  - cbn [run app first_or]. unfold step at 1, travel_step.
    erewrite bind_ok by (eapply on_cmd_state_read, heap_get_list; by rewrite He).
    cbn [tail]. by rewrite bool_decide_true by done.
  - destruct Hseg as (c & Hc & Hp & Hn & Hseg). cbn [run app first_or].
    rewrite Hc in Ha. injection Ha as Ha.
    apply not_elem_of_cons in Htl as [Hne Htl].
    unfold step at 1.
    rewrite (travel_step_node l hd tl a n c t _ e) by (by rewrite ?He).
    pose proof (run_command_cmds t e) as Hcm.
    cbn [run_commands foldr]. change (foldr _ _ ts) with (run_commands ts).
    destruct (run_command t e) as [[[]|w] e'] eqn:Hr; cbn [snd] in Hcm.
    + erewrite bind_ok by exact Hr. apply (IH (Some a)); [congruence|done|done|cbn in Hk; lia].
    + by erewrite bind_stop by exact Hr.
Qed.

(** C8 (walk). [travel_command_list] takes a new seed and then runs the commands of the thread's
    list, each once and in the order in which they were added, skipping the kinds it does not
    know; it stops early only where a command stops the program, and it always reaches the end
    of the list. *)
Theorem travel_command_list_runs e lists detached l ts :
  crep (e_cmds e) lists detached → lists !! l = Some ts →
  cmd_list (w_ctx (e_world e)) = Some l →
  travel_command_list e = (set_seed;; run_commands ts) e.
Proof.
  intros [own R] Hl Hc. destruct (cr_list _ _ _ _ R l ts Hl) as (hd & ns & tl & _ & [Ho Hnd Hs Hty Hcnt]).
  unfold travel_command_list. erewrite bind_ok by done. rewrite Hc. cbv zeta.
  destruct Hs as (c & Hhd & _ & Hn & Hs).
  erewrite bind_ok.
  2: { apply on_cmd_state_read. unfold get_first_cmd.
       erewrite bind_ok by (by eapply heap_get_list). cbn [head].
       erewrite (on_cmds_ok _ (e_cmds e)) by (by eapply get_next_ok). by destruct (e_cmds e). }
  assert (∃ e1, set_seed e = (Ok (), e1) ∧ e_cmds e1 = e_cmds e) as (e1 & Hseed & He1)
    by (exists (set_seed e).2; by destruct e).
  erewrite !bind_ok by exact Hseed.
  apply NoDup_cons in Hnd as [_ Hnd]; apply NoDup_app in Hnd as (_ & Hnd & _).
  eapply travel_loop; [done|exact Ho| |exact Hs|exact Hty|].
  - intros Hin. apply (Hnd tl Hin). by left.
  - unfold INT_MAX in Hcnt. lia.
Qed.
End travel.

(** ** Witness *)

Local Existing Instance roomy_allocator.
Local Existing Instance counting_rand.
Local Existing Instance toy_client.
Local Existing Instance ticking.

(** List 1 holds one insert. *)
Definition insert_list : cmd_state :=
  (cmd_list_add (Some 1%positive) (Some 3%positive) sample_cmds).2.

Lemma insert_list_rep : crep insert_list {[1%positive := [INSERT]]} ∅.
Proof.
  destruct (cmd_list_add_spec sample_cmds {[1%positive := []]} {[3%positive := INSERT]}
    1%positive [] 3%positive INSERT sample_cmds_rep) as (s & Hx & R); [done|done|done|].
  assert (cmd_list_add (Some 1%positive) (Some 3%positive) sample_cmds =
    (Ok RET_SUCCEED, insert_list)) as Hx' by (vm_compute; reflexivity).
  pose proof (eq_trans (eq_sym Hx') Hx) as Hy. apply (f_equal snd) in Hy. cbn [snd] in Hy. subst s.
  rewrite insert_singleton_eq, delete_singleton_eq in R. exact R.
Qed.

Definition working : engine :=
  Engine _ (with_ctx (EngCtx _ (Some 1%positive) (Some (server_on 1 WRITE_SERVER)) toy_cluster []
     [server_on 2 READ_SERVER] (TPtr sample_table) (Some 1%positive) (text "test42") 1 (Some [])
     7 None zero_stats) inserting) insert_list 41 toy_cluster.

Example travel_command_list_runs_witness :
  ∃ e', travel_command_list working = (Ok (), e') ∧ engine_frandom_seed e' = 42 ∧
    ninsert (stats (w_ctx (e_world e'))) = 1.
Proof.
  rewrite (travel_command_list_runs working {[1%positive := [INSERT]]} ∅ 1%positive [INSERT]).
  - eexists. split; [vm_compute; reflexivity|]. by split.
  - exact insert_list_rep.
  - reflexivity.
  - reflexivity.
Defined.
