(* ===== verification/Turns.v ===== *)
(** * Turns: a thread's turn keeps what the threads rely on

    [data_ok] is what all the threads rely on of the shared data, [thread_ok] of
    a context that [eng_context_init] has made, [configured] of one that
    [eng_context_config] has filled.  Each part of a turn returns with these kept,
    or stops as [expected]. *)

From stdpp Require Import base gmap sets list strings.
From Stdlib Require Import ZArith Lia.
From S2P Require Import Prelude Outcomes Mylib Vector HashFunc Hash Heap CText Names.
From S2P Require Import Command Table Schemas Server EngineCtx SqlGen MysqlCmd Ddl Safety Engine.
Local Open Scope Z_scope.

(** ** Servers and clusters *)

Section clusters.
Context `{Allocator} `{RandSource} `{MysqlClient}.
Implicit Types (s : cq_server_t) (w r : gmap (list Z) cq_server_t).

(** An IPv4 address, a port, and the name made of them. *)
Record server_fits s : Prop := {
  sf_ip : is_text (ip s) ∧ (length (ip s) ≤ 15)%nat;
  sf_port : 0 ≤ port s < 65536;
  sf_name : server_name s = format_name (ip s) (port s);
}.

Definition filed w : Prop := map_Forall (λ n s, n = server_name s ∧ server_fits s) w.

Record cluster_fits (c : cq_server_cluster_t) w r : Prop := {
  cf_write : small_set (write_servers c) w;
  cf_read : small_set (read_servers c) r;
  cf_writers : filed w;
  cf_readers : filed r;
}.

Lemma fits_name_text s : server_fits s →
  is_text (server_name s) ∧ (length (server_name s) ≤ 21)%nat.
Proof.
  intros [[Ht Hl] Hp ->]. pose proof (format_name_length (ip s) (port s) Hl Hp) as Hn.
  unfold MAX_SERVER_NAME_LEN in Hn. split; [|lia]. unfold format_name.
  apply Forall_app. split; [done|]. apply Forall_app. split; [by repeat constructor|].
  unfold decimal. rewrite (proj2 (Z.ltb_ge (port s) 0)) by lia.
  destruct (udecimal_spec (port s) ltac:(lia)) as (Hd & _ & _).
  eapply Forall_impl; [exact Hd|]. intros c Hc. unfold is_digit in Hc. lia.
Qed.

Lemma filed_insert w s : filed w → server_fits s → filed (<[server_name s := s]> w).
Proof. intros Hw Hs. by apply map_Forall_insert_2. Qed.

(** One more name, or one that was there. *)
Lemma named_server_runs (h : hash_t cq_server_t) w s :
  small_set h w → filed w → server_fits s → Z.of_nat (size w) < 16000 →
  runs aborts_or_diverges (hash_add s) h (λ ret h', (server_name s ∉ dom w → ret = RET_SUCCEED) ∧
    ∃ w', small_set h' w' ∧ filed w' ∧ dom w' = {[server_name s]} ∪ dom w).
Proof.
  intros S Hf Hs Hw. destruct (fits_name_text s Hs) as [Ht Hl].
  eapply runs_weaken; [apply named_add_runs; [exact S|exact Ht| |done]|].
  { change (entry_name s) with (server_name s). lia. }
  intros ret h' [Hret S']. change (entry_name s) with (server_name s) in Hret, S'.
  destruct (w !! server_name s) as [s'|] eqn:Hlook.
  - apply elem_of_dom_2 in Hlook. split; [done|]. exists w. split_and!; [done..|]. set_solver.
  - split; [done|]. eexists. split_and!; [exact S'|by apply filed_insert|]. by rewrite dom_insert_L.
Qed.

Lemma cq_cluster_add_runs (c : cq_server_cluster_t) w r s :
  cluster_fits c w r → server_fits s →
  Z.of_nat (size w) < 16000 → Z.of_nat (size r) < 16000 →
  runs aborts_or_diverges (cq_cluster_add (Some s)) c (λ ret c',
    (server_name s ∉ dom (if bool_decide (server_type s = WRITE_SERVER) then w else r) →
     ret = RET_SUCCEED) ∧ ∃ w' r', cluster_fits c' w' r' ∧
    dom w' = (if bool_decide (server_type s = WRITE_SERVER) then {[server_name s]} ∪ dom w else dom w) ∧
    dom r' = (if bool_decide (server_type s = WRITE_SERVER) then dom r else {[server_name s]} ∪ dom r)).
Proof.
  intros [Sw Sr Fw Fr] Hs Hw Hr. unfold cq_cluster_add. case_bool_decide as Ht.
  - apply runs_zoom. eapply runs_weaken; [by apply (named_server_runs _ w s)|].
    intros ret h' (Hret & w' & S' & F' & Hd). split; [done|]. exists w', r. by split_and!.
  - apply runs_zoom. eapply runs_weaken; [by apply (named_server_runs _ r s)|].
    intros ret h' (Hret & r' & S' & F' & Hd). split; [done|]. exists w, r'. by split_and!.
Qed.

(** There is always memory for a small block. *)
Context (Hmem : ∀ n, 0 < n ≤ 1024 → malloc_ok n = true).

Lemma server_init_runs user password ip0 port0 type (d : db) :
  (length ip0 ≤ 15)%nat → 0 ≤ port0 < 65536 →
  runs expected (server_init user password ip0 port0 type) d (λ o _, ∃ s, o = Some s ∧
    ip s = ip0 ∧ port s = port0 ∧ server_name s = format_name ip0 port0 ∧ server_type s = type).
Proof using Hmem.
  intros Hip Hport. pose proof (format_name_length ip0 port0 Hip Hport) as Hn.
  assert (∀ x, Z.of_nat (length x) ≤ 21 → dup_string x = Some x) as Hdup.
  { intros x Hx. unfold dup_string. by rewrite u64_small, Hmem by lia. }
  unfold MAX_SERVER_NAME_LEN in Hn. unfold server_init.
  eapply runs_then_ok; [apply cq_malloc_ok, Hmem; by vm_compute|].
  rewrite !Hdup by lia. cbv zeta. unfold MAX_SERVER_NAME_LEN. rewrite (proj2 (Z.ltb_ge _ _)) by lia.
  unfold runs, open_mysql, lib, lib_. mstep.
  destruct (mysql_init d) as [[c|] d1] eqn:Hi.
  - destruct (mysql_real_connect _ _ _ _ _ _ d1) as [[] d2]; [|by left].
    destruct (mysql_set_reconnect c d2) as [z d3]. destruct (z =? 0); [|by left]. by eexists.
  - right; right; right. split; [done|]. left. exists d. by rewrite Hi.
Qed.

(** A new cluster is empty. *)
Lemma cq_cluster_init_ok :
  ∃ c, cq_cluster_init () = (Ok c, ()) ∧ cluster_fits c ∅ ∅.
Proof using Hmem.
  destruct (hash_alloc_spec (E := cq_server_t)) as (h & Ha & Hr & Hsz & Hrm);
    [by apply Hmem|by apply Hmem|].
  exists (Cluster _ h h). split.
  - unfold cq_cluster_init. erewrite bind_ok by (by apply cq_malloc_ok, Hmem).
    by do 2 erewrite bind_ok by exact Ha.
  - by split; [split; cbn; [done|done|lia]..| |].
Qed.
End clusters.

(** ** What the threads rely on *)

Section turns.
Context `{Allocator} `{RandSource} `{Clock} `{MysqlClient}.
Context (g_username g_password : cstring).
Context (Hmem : ∀ n, 0 < n ≤ 1024 → malloc_ok n = true).
(** The command lists, the table schemas and the servers of the configuration. *)
Context (configured_cmds : cmd_state).
Context (lists : gmap loc (list cmd_type_t)) (pairs : pairs_t).
Context (wb rb : gmap (list Z) cq_server_t).
Implicit Types (e : engine) (c : eng_ctx_t) (m : gmap (list Z) table_t).
Implicit Types (w : gmap (list Z) cq_server_t).

(** The data that all the threads share. *)
Definition shared_data e := (w_tables (e_world e), e_cmds e, cluster_base e).

Record data_ok m e : Prop := {
  do_tables : tables_ok pairs m (w_tables (e_world e));
  do_cmds : e_cmds e = configured_cmds;
  do_lists : ∃ detached, crep (e_cmds e) lists detached;
  do_bucket : ∃ v ls, cq_cmd_bucket (e_cmds e) = SPtr v ∧ vrep v (Some <$> ls) ∧ ls ≠ [] ∧
    NoDup ls ∧ ∀ l, l ∈ ls → is_Some (lists !! l);
  do_base : cluster_fits (cluster_base e) wb rb;
  do_writers : wb ≠ ∅;
  do_few : Z.of_nat (size wb) < 16000 ∧ Z.of_nat (size rb) < 16000;
}.

Lemma data_ok_shared m e e' : shared_data e' = shared_data e → data_ok m e → data_ok m e'.
Proof. intros [= Ht Hc Hb] [D1 D0 D2 D3 D4 D5 D6]. by split; rewrite ?Ht, ?Hc, ?Hb. Qed.

Notation names := (gset (list Z)).
Notation the_ctx e := (w_ctx (e_world e)).

(** A thread's own servers. *)
Definition thread_ok c : Prop :=
  ∃ w r, cluster_fits (thread_cluster c) w r ∧ w ≠ ∅.

(** A context that [eng_context_config] has filled. *)
Record configured m c : Prop := {
  cc_thread : thread_ok c;
  cc_list : ∃ l, cmd_list c = Some l ∧ is_Some (lists !! l);
  cc_server : ∃ s, write_server c = Some s ∧ (length (server_name s) ≤ 21)%nat;
  cc_readers : Forall (λ s, length (server_name s) ≤ 21)%nat (ctx_read_servers c);
  cc_table : match table c with TNull => m = ∅ | TPtr t => m !! name t = Some t | TOther => True end;
  cc_schema : ∃ ts, ctx_table_schema c = Some ts ∧ is_Some (pairs !! ts);
  cc_name : is_table_name (table_name c);
}.

Lemma configured_ready m e : data_ok m e → configured m (the_ctx e) → m ≠ ∅ →
  table (the_ctx e) ≠ TOther → ready pairs m (e_world e).
Proof.
  intros [D1 _ _ _ _ _ _] [C1 C2 C3 C4 C5 C6 C7] Hm Ht. split; [done| |done..]. split; [|done..].
  destruct (table (the_ctx e)) as [|t|]; [done|by exists t|done].
Qed.

Lemma configured_static m c c' : static c' = static c → configured m c → configured m c'.
Proof.
  unfold static. intros [= Q1 Q2 Q3 Q4 Q5 Q6 Q7] [C1 C2 C3 C4 C5 C6 C7].
  split; rewrite ?Q1, ?Q2, ?Q4, ?Q5, ?Q6, ?Q7; try done. unfold thread_ok. by rewrite Q3.
Qed.

(** *** Parts of the engine *)

Lemma expect_aborts (o : stop) : aborts_or_diverges o → expected o.
Proof. intros [-> | ->]; [by left|by right; left]. Qed.

Lemma runs_on_world {A} (x : M world A) e (Q : A → engine → Prop) :
  runs expected x (e_world e) (λ a wd,
    Q a (Engine _ wd (e_cmds e) (engine_frandom_seed e) (cluster_base e))) →
  runs expected (on_world x) e Q.
Proof. intros Hx. unfold on_world. by apply runs_zoom. Qed.

(** A computation that only looks at its part. *)
Lemma runs_reading {S T A} E (get : S → T) set (x : M T A) s (Q : A → Prop) :
  runs E x (get s) (λ a t, t = get s ∧ Q a) → (∀ s, set (get s) s = s) →
  runs E (zoom get set x) s (λ a s', s' = s ∧ Q a).
Proof.
  intros Hx Hs. apply runs_zoom. eapply runs_weaken; [exact Hx|]. intros a t [-> HQ].
  by rewrite Hs.
Qed.

Lemma runs_malloc {A S} n (a : A) (s : S) :
  runs aborts (cq_malloc n a) s (λ x s', s' = s ∧ x = a).
Proof. unfold runs, cq_malloc. by destruct (malloc_ok _). Qed.

(** The array of all the servers of a cluster. *)
Lemma servers_of_ok (l : list cq_server_t) :
  servers_of (Live (Some <$> (Some <$> l))) (Z.of_nat (length l)) = Ok l.
Proof.
  unfold servers_of. rewrite Nat2Z.id.
  set (go := fix go (k : nat) (i : Z) : res (list cq_server_t) := _).
  enough (∀ l2 l1, l = l1 ++ l2 → go (length l2) (Z.of_nat (length l1)) = Ok l2) as Hgo
    by exact (Hgo l [] eq_refl).
  induction l2 as [|s l2 IH]; intros l1 Hl; [done|]. cbn [length go].
  rewrite (arr_read_ok _ _ (Some s)); [|lia|].
  2: { rewrite Nat2Z.id, Hl, !list_lookup_fmap, list_lookup_middle; done. }
  cbn. specialize (IH (l1 ++ [s])). rewrite length_app in IH. cbn [length] in IH.
  replace (Z.of_nat (length l1) + 1) with (Z.of_nat (length l1 + 1)) by lia.
  rewrite IH; [done|]. by rewrite Hl, <- app_assoc.
Qed.

(** All the servers of a filed table, in the order of the table. *)
Lemma filed_entries w (l : list cq_server_t) : filed w → l ≡ₚ (map_to_list w).*2 →
  Forall (λ s, server_fits s ∧ server_name s ∈ dom w) l ∧ (w ≠ ∅ → l ≠ []).
Proof.
  intros Hf Hl. split.
  - apply Forall_forall. intros s Hs. rewrite Hl in Hs.
    apply list_elem_of_fmap in Hs as ([n s'] & -> & Hin). apply elem_of_map_to_list in Hin.
    destruct (Hf n s' Hin) as [Hn Hsf]. split; [done|]. cbn. rewrite <- Hn. by eapply elem_of_dom_2.
  - intros Hw ->. apply Hw. symmetry in Hl. apply Permutation_nil_r, fmap_nil_inv in Hl.
    by apply map_to_list_empty_iff.
Qed.

(** What [cq_cluster_get_all_...] answers, and its use. *)
Definition all_of w (r : buffer (option cq_server_t) * Z) : Prop :=
  ∃ es, r = (Live (Some <$> (Some <$> es)), Z.of_nat (length es)) ∧ es ≡ₚ (map_to_list w).*2.

Lemma get_all_write_runs cl w r : cluster_fits cl w r →
  runs aborts cq_cluster_get_all_write_server cl (λ x cl', cl' = cl ∧ all_of w x).
Proof.
  intros [[Sw _ _] _ _ _]. apply runs_reading; [by apply get_entries_runs|by intros []].
Qed.
Lemma get_all_read_runs cl w r : cluster_fits cl w r →
  runs aborts cq_cluster_get_all_read_server cl (λ x cl', cl' = cl ∧ all_of r x).
Proof.
  intros [_ [Sr _ _] _ _]. apply runs_reading; [by apply get_entries_runs|by intros []].
Qed.

Lemma runs_servers {A} (x : M engine (buffer (option cq_server_t) * Z)) e w
    (f : list cq_server_t → M engine A) Q :
  runs expected x e (λ r e', e' = e ∧ all_of w r) → filed w →
  (∀ l, Forall (λ s, server_fits s ∧ server_name s ∈ dom w) l → (w ≠ ∅ → l ≠ []) →
     runs expected (f l) e Q) →
  runs expected ('(b, n) ← x; l ← mlift (servers_of b n); f l) e Q.
Proof.
  intros Hx Hf HQ. eapply runs_then; [exact Hx|]. intros r e' [-> (es & -> & Hp)].
  cbn beta iota. eapply runs_then_ok; [unfold mlift; by rewrite servers_of_ok|].
  destruct (filed_entries w es Hf Hp) as [Hes Hne]. by apply HQ.
Qed.

Lemma runs_base {A} (x : M cq_server_cluster_t A) e (P : A → Prop) :
  runs aborts x (cluster_base e) (λ a cl, cl = cluster_base e ∧ P a) →
  runs expected (on_base x) e (λ a e', e' = e ∧ P a).
Proof.
  intros Hx. apply runs_reading; [|by intros []]. eapply runs_expect; [exact Hx|].
  intros w ->. by left.
Qed.
Lemma runs_own_cluster {A} (x : M cq_server_cluster_t A) e (P : A → Prop) :
  runs aborts x (thread_cluster (the_ctx e)) (λ a cl, cl = thread_cluster (the_ctx e) ∧ P a) →
  runs expected (on_thread_cluster x) e (λ a e', e' = e ∧ P a).
Proof.
  intros Hx. apply runs_reading; [|by intros [[[]] ? ? ?]]. eapply runs_expect; [exact Hx|].
  intros w ->. by left.
Qed.

(** *** The context of a thread *)

(** The thread's cluster so far: servers of the base. *)
Definition growing e0 (P : names → Prop) e : Prop :=
  shared_data e = shared_data e0 ∧ ∃ w r, cluster_fits (thread_cluster (the_ctx e)) w r ∧
    dom w ⊆ dom wb ∧ dom r ⊆ dom rb ∧ P (dom w).

Lemma few_names w w' : dom w ⊆@{gset (list Z)} dom w' → Z.of_nat (size w) ≤ Z.of_nat (size w').
Proof.
  intros Hd. rewrite <- (size_dom (D := gset (list Z)) w), <- (size_dom (D := gset (list Z)) w').
  by apply inj_le, subseteq_size.
Qed.

Lemma add_to_thread_cluster_runs (type : server_type_t) (s : cq_server_t) m e0 e (P P' : names → Prop) :
  data_ok m e0 → growing e0 P e → server_fits s →
  server_name s ∈ dom (if bool_decide (type = WRITE_SERVER) then wb else rb) →
  (∀ X, P X → P' (if bool_decide (type = WRITE_SERVER) then {[server_name s]} ∪ X else X)) →
  runs expected (add_to_thread_cluster g_username g_password type s) e (λ _, growing e0 P').
Proof using Hmem.
  intros D (Hsh & w & r & C & Hw & Hr & HP) Hs Hin HPP. specialize (HPP _ HP).
  destruct (do_few _ _ D) as [Hfw Hfr].
  unfold add_to_thread_cluster.
  eapply runs_then with (λ o e1, shared_data e1 = shared_data e ∧
    thread_cluster (the_ctx e1) = thread_cluster (the_ctx e) ∧ ∃ s', o = Some s' ∧
    server_fits s' ∧ server_name s' = server_name s ∧ server_type s' = type).
  { apply runs_on_world. unfold on_db. apply runs_zoom.
    eapply runs_weaken; [apply (server_init_runs Hmem); apply Hs|].
    intros o d (s' & -> & Hi & Hp & Hn & Ht). split_and!; [done..|]. exists s'.
    pose proof (sf_name _ Hs) as Hns. unfold get_server_ip, get_server_port in *.
    split_and!; [done| |congruence|done]. destruct Hs. by split; rewrite ?Hi, ?Hp. }
  intros o e1 (Hsh1 & Hcl & s' & -> & Hs' & Hn & Ht). rewrite <- Hcl in C.
  eapply runs_then with (λ _, growing e0 P'); [|intros ret e2 G2; by destruct (bool_decide (ret = RET_FAILED)); [apply runs_mstop; left|]].
  unfold on_thread_cluster. apply runs_zoom. eapply runs_weaken.
  - eapply runs_expect; [|exact expect_aborts].
    eapply cq_cluster_add_runs; [exact C|exact Hs'|..]; pose proof (few_names w wb Hw);
      pose proof (few_names r rb Hr); lia.
  - intros ret cl (_ & w' & r' & C' & Hdw & Hdr). rewrite Ht, Hn in Hdw, Hdr.
    split; [by rewrite <- Hsh, <- Hsh1|]. exists w', r'. split; [exact C'|].
    rewrite Hdw, Hdr. split_and!; [..|done]; case_bool_decide; set_solver.
Qed.

(** All the servers of the base, of one type. *)
Lemma add_all_runs (type : server_type_t) l m e0 e : data_ok m e0 → growing e0 (λ _, True) e →
  Forall (λ s, server_fits s ∧
    server_name s ∈ dom (if bool_decide (type = WRITE_SERVER) then wb else rb)) l →
  (type = WRITE_SERVER → l ≠ []) → (type = READ_SERVER → growing e0 (λ X, X ≠ ∅) e) →
  runs expected (for_servers l (add_to_thread_cluster g_username g_password type)) e
    (λ _, growing e0 (λ X, X ≠ ∅)).
Proof using Hmem.
  intros D G Hl Hw Hr. unfold for_servers.
  assert (∀ l e, Forall (λ s, server_fits s ∧
      server_name s ∈ dom (if bool_decide (type = WRITE_SERVER) then wb else rb)) l →
    growing e0 (λ X, X ≠ ∅) e → runs expected (foldr (λ s k,
      add_to_thread_cluster g_username g_password type s;; k) (mret ()) l) e
      (λ _, growing e0 (λ X, X ≠ ∅))) as Hgo.
  { intros l2 e2 Hl2. apply runs_foldr. intros s e3 Hs G3.
    rewrite Forall_forall in Hl2. destruct (Hl2 s Hs) as [Hsf Hin].
    eapply add_to_thread_cluster_runs; [done..|]. intros X HX. case_bool_decide; set_solver. }
  destruct type; [|by apply Hgo; [|apply Hr]].
  destruct l as [|s l]; [by destruct (Hw eq_refl)|]. apply Forall_cons in Hl as [[Hsf Hin] Hl].
  cbn [foldr]. eapply runs_then with (λ _, growing e0 (λ X, X ≠ ∅)); [|intros [] e1; by apply Hgo].
  eapply add_to_thread_cluster_runs; [done..|]. intros X _. rewrite bool_decide_true by done. set_solver.
Qed.

Lemma runs_update_ctx f e (Q : () → engine → Prop) :
  Q () (Engine _ (with_ctx (f (the_ctx e)) (e_world e)) (e_cmds e) (engine_frandom_seed e)
          (cluster_base e)) →
  runs expected (update_ctx f) e Q.
Proof. done. Qed.

(** [eng_context_init] *)
Lemma eng_context_init_runs para_tid m e : data_ok m e →
  runs expected (eng_context_init g_username g_password para_tid) e (λ _ e',
    shared_data e' = shared_data e ∧ thread_ok (the_ctx e') ∧ stats (the_ctx e') = zero_stats).
Proof using Hmem.
  intros D. unfold eng_context_init.
  eapply runs_then with (λ _ e', e' = e).
  { apply runs_pure_state. eapply runs_expect; [eapply runs_weaken; [apply runs_malloc|done]|].
    intros o ->. by left. }
  intros [] e1 ->. destruct (cq_cluster_init_ok Hmem) as (cl & Hcl & C).
  eapply runs_then_ok; [unfold pure_state, zoom; by rewrite Hcl|].
  apply runs_bind, runs_update_ctx. set (e1 := Engine _ _ _ _ _).
  pose proof (do_base _ _ D) as B.
  assert (growing e (λ _, True) e1) as G.
  { split; [by destruct e as [[]]|]. exists ∅, ∅. split; [done|]. rewrite dom_empty_L. set_solver. }
  assert (cluster_base e1 = cluster_base e) as Hb1 by (by destruct e as [[]]).
  eapply runs_servers; [apply runs_base; rewrite Hb1; by eapply get_all_write_runs|apply B|].
  intros l Hl Hne. specialize (Hne (do_writers _ _ D)).
  eapply runs_then; [by apply (add_all_runs WRITE_SERVER _ m)|]. intros [] e2 G2.
  assert (cluster_base e2 = cluster_base e) as Hb2 by (destruct G2 as [Hs _]; by injection Hs).
  eapply runs_servers; [apply runs_base; rewrite Hb2; by eapply get_all_read_runs|apply B|].
  intros l2 Hl2 _.
  eapply runs_then; [apply (add_all_runs READ_SERVER _ m e); try done|].
  { destruct G2 as [Hs (w & r & C2 & Hw & Hr & _)]. split; [done|]. by exists w, r. }
  intros [] e3 [Hs (w & r & C3 & _ & _ & Hw)]. apply runs_update_ctx. split_and!; [done| |done].
  exists w, r. split; [done|]. intros ->. by rewrite dom_empty_L in Hw.
Qed.

(** *** A context is configured *)

(** Nothing but numbers drawn. *)
Definition same e e' : Prop := shared_data e' = shared_data e ∧ the_ctx e' = the_ctx e.

Lemma same_trans e e' e'' : same e e' → same e' e'' → same e e''.
Proof. intros [Ha Hb] [Hc Hd]. split; congruence. Qed.

(** One of a vector, at random. *)
Lemma random_in (l : list loc) k : l ≠ [] →
  ∃ x, mjoin ((Some <$> l) !! Z.to_nat (rand_at k mod Z.of_nat (length (Some <$> l)))) = Some x ∧ x ∈ l.
Proof.
  intros Hl. assert (0 < Z.of_nat (length l)) as Hpos by (destruct l; [done|cbn; lia]).
  rewrite length_fmap. pose proof (Z.mod_pos_bound (rand_at k) _ Hpos) as Hm.
  destruct (lookup_lt_is_Some_2 l (Z.to_nat (rand_at k mod Z.of_nat (length l)))) as [x Hx]; [lia|].
  exists x. rewrite list_lookup_fmap, Hx. split; [done|]. by eapply list_elem_of_lookup_2.
Qed.

Lemma cmd_list_runs m e : data_ok m e →
  runs expected (on_cmds_rand get_random_cmd_list) e (λ o e', same e e' ∧
    ∃ l, o = Some l ∧ is_Some (lists !! l)).
Proof.
  intros D. destruct (do_bucket _ _ D) as (v & ls & Hb & R & Hne & _ & Hls).
  pose proof (get_random_cmd_list_member (e_cmds e) v _ (w_rand (e_world e)) Hb R) as Hg.
  destruct (random_in ls (w_rand (e_world e)) Hne) as (l & Hl & Hin).
  rewrite bool_decide_false, Hl in Hg by (by intros ?%fmap_nil_inv).
  unfold on_cmds_rand. apply runs_zoom. eapply runs_ok; [exact Hg|].
  split; [done|]. exists l. split; [done|]. by apply Hls.
Qed.

Lemma schema_runs m e : data_ok m e →
  runs expected (on_world (on_world_tables schema_set_get_random)) e (λ o e', same e e' ∧
    ∃ ts, o = Some ts ∧ is_Some (pairs !! ts)).
Proof.
  intros D. destruct (do_tables _ _ D) as [cols T].
  destruct (ti_schemas _ _ _ _ T) as (v & ls & Hb & R & Hne & _ & Hls).
  pose proof (schema_set_get_random_member _ v _ (w_rand (e_world e)) Hb R) as Hg.
  destruct (random_in ls (w_rand (e_world e)) Hne) as (l & Hl & Hin).
  rewrite bool_decide_false, Hl in Hg by (by intros ?%fmap_nil_inv).
  apply runs_on_world. unfold on_world_tables. apply runs_zoom. eapply runs_ok; [exact Hg|].
  split; [done|]. exists l. split; [done|]. by apply Hls.
Qed.

Lemma table_runs m e : data_ok m e →
  runs expected (on_world (on_world_tables table_set_get_random)) e (λ o e', same e e' ∧
    match o with None => m = ∅ | Some t => m !! name t = Some t end).
Proof.
  intros D. destruct (do_tables _ _ D) as [cols T].
  destruct (ti_set _ _ _ _ T) as (h & Hh & S).
  pose proof (random_entry_runs h m (w_rand (e_world e)) (ss_rep _ _ S)) as Hr.
  apply runs_on_world. unfold on_world_tables. apply runs_zoom.
  unfold runs in *. unfold table_set_get_random. mstep. rewrite Hh. cbn.
  destruct (random_entry (h, w_rand (e_world e))) as [[o|w] [h' k']]; cbn in *; [|by left; apply Hr].
  destruct Hr as [-> Ho]. split; [split; [|done]|].
  - unfold shared_data. cbn. rewrite <- Hh. by destruct (w_tables (e_world e)).
  - destruct o as [t|]; [|done]. destruct Ho as [n Hn].
    by destruct (ti_tables _ _ _ _ T n t Hn) as [-> _].
Qed.

Lemma write_server_runs e : thread_ok (the_ctx e) →
  runs expected random_write_server e (λ o e', same e e' ∧
    ∃ s, o = Some s ∧ (length (server_name s) ≤ 21)%nat).
Proof.
  intros (w & r & [[Sw _ _] _ Fw _] & Hw).
  pose proof (random_entry_runs _ w (w_rand (e_world e)) Sw) as Hr.
  unfold random_write_server, cq_cluster_get_random_write_server. apply runs_zoom, runs_zoom.
  cbn [fst snd]. eapply runs_expect; [eapply runs_weaken; [exact Hr|]|intros o ->; by left].
  intros o [h k] [Hh Ho]. cbn in Hh. subst h. split.
  - split; [done|]. cbn. by destruct e as [[[? ? [] ]] ? ? ?].
  - destruct o as [s|]; [|done]. destruct Ho as [n Hn]. exists s. split; [done|].
    apply fits_name_text. by destruct (Fw n s Hn).
Qed.

Lemma random_table_name_runs e :
  runs expected random_table_name e (λ n e', same e e' ∧ is_table_name n).
Proof.
  unfold random_table_name, on_rand.
  pose proof (Z.mod_pos_bound (rand_at (w_rand (e_world e))) 10000 ltac:(lia)) as Hm.
  eapply runs_then_ok; [by apply zoom_ok, rand_mod_ok|]. cbv zeta.
  assert (is_table_name (text "test" ++ decimal (rand_at (w_rand (e_world e)) mod 10000))) as Hn
    by (by eexists).
  destruct (table_name_short _ Hn) as [Hl _]. unfold MAX_TABLE_NAME_LEN.
  by rewrite (proj2 (Z.leb_gt _ _)) by lia.
Qed.

Lemma data_ok_same m e e' : same e e' → data_ok m e → data_ok m e'.
Proof. intros [Hs _]. by apply data_ok_shared. Qed.

(** One more draw, after others. *)
Lemma runs_draw {A B} (x : M engine A) (f : A → M engine B) e0 e (P : A → Prop) Q :
  same e0 e → (∀ e, same e0 e → runs expected x e (λ a e', same e e' ∧ P a)) →
  (∀ a e', same e0 e' → P a → runs expected (f a) e' Q) → runs expected (x ≫= f) e Q.
Proof.
  intros He Hx Hf. eapply runs_then; [by apply Hx|]. intros a e' [Hs HP].
  apply Hf; [by eapply same_trans|done].
Qed.

(** [eng_context_config] *)
Lemma eng_context_config_runs m e : data_ok m e → thread_ok (the_ctx e) →
  runs expected eng_context_config e (λ _ e',
    shared_data e' = shared_data e ∧ configured m (the_ctx e') ∧ table (the_ctx e') ≠ TOther ∧
    stats (the_ctx e') = stats (the_ctx e)).
Proof.
  intros D T. unfold eng_context_config.
  assert (∀ e', same e e' → data_ok m e' ∧ thread_ok (the_ctx e')) as Hsame.
  { intros e' [Hs Hc]. split; [by eapply data_ok_shared|by rewrite Hc]. }
  eapply (runs_draw _ _ e); [done|intros e1 [D1 _]%Hsame; by eapply cmd_list_runs|].
  intros cl e1 S1 (l & -> & Hl).
  eapply (runs_draw _ _ e); [done|intros e2 [_ T2]%Hsame; by apply write_server_runs|].
  intros ws e2 S2 (s & -> & Hs).
  destruct (Hsame _ S2) as [_ (w & r & C & Hw)].
  eapply runs_servers; [apply runs_own_cluster; by eapply get_all_write_runs|apply C|].
  intros wss _ _.
  eapply runs_servers; [apply runs_own_cluster; by eapply get_all_read_runs|apply C|].
  intros rss Hrss _.
  eapply (runs_draw _ _ e); [done|intros e3 [D3 _]%Hsame; by eapply table_runs|].
  intros t e3 S3 Ht.
  eapply (runs_draw _ _ e); [done|intros e4 [D4 _]%Hsame; by eapply schema_runs|].
  intros ts e4 S4 (ts' & -> & Hts).
  eapply (runs_draw _ _ e); [done|intros e5 _; by apply random_table_name_runs|].
  intros n e5 S5 Hn. apply runs_update_ctx. destruct S5 as [Hsh Hc]. split_and!; [done| | |].
  - destruct (Hsame e5) as [_ T5]; [done|]. split; cbn; try done.
    + by exists l.
    + by exists s.
    + eapply Forall_impl; [exact Hrss|]. intros s' [Hs' _]. by apply fits_name_text.
    + by destruct t.
    + by exists ts'.
  - cbn. by destruct t.
  - cbn. by rewrite Hc.
Qed.

(** *** The commands of a list *)

Context `{Hshape : !SelectShape}.

Lemma run_command_runs m type e : data_ok m e → configured m (the_ctx e) →
  table (the_ctx e) ≠ TOther → m ≠ ∅ →
  runs expected (run_command type) e (λ _ e',
    shared_data e' = shared_data e ∧ static (the_ctx e') = static (the_ctx e)).
Proof using Hshape.
  intros D C Ht Hm. pose proof (configured_ready m e D C Hm Ht) as R.
  assert (∀ x : M world Z, keeps still x → runs expected x (e_world e) (λ _ _, True) →
    runs expected (on_world x;; mret ()) e (λ _ e',
      shared_data e' = shared_data e ∧ static (the_ctx e') = static (the_ctx e))) as Hx.
  { intros x Hk Hx. 
    eapply runs_then with (λ _ e', shared_data e' = shared_data e ∧
      static (the_ctx e') = static (the_ctx e)); [apply runs_on_world|by intros z e'].
    eapply runs_weaken; [by apply (runs_only_kept _ still)|].
    intros z wd [Hs Hw]%pair_equal_spec. unfold shared_data. cbn. by rewrite Hw. }
  unfold run_command. destruct type; try done; apply Hx; eauto using keeps_write_command, keeps_select.
  - by eapply runs_write_command.
  - by eapply runs_write_command.
  - by eapply runs_write_command.
  - by eapply runs_select.
Qed.

(** The thread is at the node [cmd] of the list [l], with [k] commands left to run. *)
Definition nodes_left (s : cmd_state) (l : loc) (cmd : option loc) (k : nat) : Prop :=
  ∃ hd tl n p ns ts, cells (cmd_lists s) !! l = Some (CmdList (Some hd) (Some tl) n) ∧
    tl ∉ ns ∧ seg (cmds s) p (ns ++ [tl]) None ∧
    Forall2 (λ a t, type <$> cells (cmds s) !! a = Some (Some t)) ns ts ∧
    cmd = first_or (ns ++ [tl]) None ∧ length ns = k.

Lemma first_cmd_runs m e l ts : data_ok m e → lists !! l = Some ts →
  runs expected (on_cmd_state (get_first_cmd (Some l))) e (λ cmd e', e' = e ∧
    nodes_left (e_cmds e) l cmd (length ts)).
Proof.
  intros D Hl. destruct (do_lists _ _ D) as (detached & own & R).
  destruct (cr_list _ _ _ _ R l ts Hl) as (hd & ns & tl & _ & [Ho Hnd Hs Hty Hcnt]).
  destruct Hs as (c & Hhd & _ & Hn & Hs).
  eapply runs_ok with (a := first_or (ns ++ [tl]) None).
  - apply on_cmd_state_read. unfold get_first_cmd.
    erewrite bind_ok by (by eapply heap_get_list). cbn [head].
    erewrite (on_cmds_ok _ (e_cmds e)) by (by eapply get_next_ok). by destruct (e_cmds e).
  - split; [done|]. exists hd, tl, (Z.of_nat (length ns)), (Some hd), ns, ts.
    split_and!; try done; [|by eapply Forall2_length].
    apply NoDup_cons in Hnd as [_ Hnd]; apply NoDup_app in Hnd as (_ & Hnd & _).
    intros Hin. apply (Hnd tl Hin). by left.
Qed.

(** [travel_step]: the command at the node is run, unless the node is the last. *)
Lemma travel_step_runs m e l cmd k : data_ok m e → configured m (the_ctx e) →
  table (the_ctx e) ≠ TOther → m ≠ ∅ → nodes_left (e_cmds e) l cmd k →
  runs expected (travel_step (Some l) cmd) e (λ r e',
    shared_data e' = shared_data e ∧ static (the_ctx e') = static (the_ctx e) ∧
    match r with
    | inl cmd' => ∃ k', k = S k' ∧ nodes_left (e_cmds e) l cmd' k'
    | inr () => k = 0%nat
    end).
Proof using Hshape.
  intros D C Ht Hm (hd & tl & n & p & ns & ts & Ho & Htl & Hs & Hty & -> & <-).
  destruct Hty as [|a t ns ts Ha Hty].
  - cbn [app first_or]. unfold travel_step.
    eapply runs_then_ok; [by eapply on_cmd_state_read, heap_get_list|]. cbn [tail].
    by rewrite bool_decide_true by done.
  - apply not_elem_of_cons in Htl as [Hne Htl].
    destruct Hs as (c & Hc & Hp & Hn & Hs). cbn [app first_or].
    rewrite Hc in Ha. injection Ha as Ha.
    pose proof (run_command_runs m t e D C Ht Hm) as Hr. unfold runs in *.
    rewrite (travel_step_node l hd tl a n c t (first_or (ns ++ [tl]) None) e) by done.
    destruct (run_command t e) as [[u|w] e']; [|done]. destruct Hr as [H1' H2']. split_and!; [done..|].
    exists (length ns). split; [done|]. exists hd, tl, n, (Some a), ns, ts. by split_and!.
Qed.

Lemma set_seed_runs e : runs expected set_seed e (λ _ e',
  shared_data e' = shared_data e ∧ static (the_ctx e') = static (the_ctx e) ∧
  stats (the_ctx e') = stats (the_ctx e)).
Proof. done. Qed.

Lemma free_rwservers_runs e : runs expected eng_context_free_rwservers e (λ _ e',
  shared_data e' = shared_data e ∧ thread_cluster (the_ctx e') = thread_cluster (the_ctx e) ∧
  stats (the_ctx e') = stats (the_ctx e)).
Proof. done. Qed.

(** *** The other threads' turns *)

(** [alter_turn]: it leaves the tables as the threads rely on them. *)
Lemma alter_turn_runs m e : data_ok m e → thread_ok (the_ctx e) → m ≠ ∅ →
  runs expected alter_turn e (λ _ e', data_ok m e' ∧ thread_ok (the_ctx e')).
Proof using Hmem.
  intros D T Hm. unfold alter_turn.
  eapply runs_then; [by eapply eng_context_config_runs|]. intros [] e1 (Hs1 & C & Ht & _).
  pose proof (data_ok_shared _ _ _ Hs1 D) as D1.
  pose proof (Z.mod_pos_bound (rand_at (w_rand (e_world e1))) ALTER_OP_NUM ltac:(done)) as Hop.
  unfold on_rand at 1. eapply runs_then_ok; [by apply zoom_ok, rand_mod_ok|].
  set (e2 := Engine _ _ _ _ _). set (op := _ mod ALTER_OP_NUM) in *.
  assert (data_ok m e2) as D2 by (by apply (data_ok_shared m e1)).
  assert (configured m (the_ctx e2)) as C2 by done.
  pose proof (configured_ready m e2 D2 C2 Hm Ht) as R.
  assert (∀ x : M world Z, keeps (λ wd : world, static (w_ctx wd)) x →
    runs expected x (e_world e2) (λ _, ready pairs m) →
    runs expected (on_world x) e2 (λ _ e', data_ok m e' ∧ thread_ok (the_ctx e'))) as Hx.
  { intros x Hk Hx. apply runs_on_world. eapply runs_weaken; [by apply (runs_kept _ _ _ _ _ Hk Hx)|].
    intros z wd [R' Hc]. destruct D2 as [_ Q1 Q2 Q3 Q4 Q5 Q6]. split; [split; try done; apply R'|].
    apply (configured_static m _ _ Hc C2). }
  eapply runs_then with (λ _ e', data_ok m e' ∧ thread_ok (the_ctx e')).
  - unfold ALTER_OP_NUM, ALTER_OP_ADD, ALTER_OP_DROP in *.
    destruct (op =? 0); [|destruct (op =? 1)].
    + apply Hx; [apply keeps_alter|by apply runs_alter_add].
    + apply Hx; [apply keeps_alter|by apply runs_alter_drop].
    + split; [done|apply C2].
  - intros ret e3 [D3 T3]. split; [by apply (data_ok_shared m e3)|exact T3].
Qed.

(** A new table joins the set, unless its name is taken. *)
Lemma table_set_add_runs m (t : table_t) s ts :
  tables_ok pairs m s → is_table_name (name t) → table_schema t = Some ts →
  is_Some (pairs !! ts) →
  runs aborts_or_diverges (table_set_add t) s (λ _ s', ∃ m', tables_ok pairs m' s' ∧
    m ⊆ m' ∧ m' ≠ ∅).
Proof.
  intros [cols T] Hn Hts Hp. destruct (ti_set _ _ _ _ T) as (h & Hh & S).
  destruct (table_name_short _ Hn) as [Hl Ht]. pose proof (tables_few _ _ _ _ T) as Hfew.
  assert (Z.of_nat (length (entry_name t)) < 2 ^ 64) as Hl' by (change (entry_name t) with (name t); lia).
  pose proof (named_add_runs h m t S Ht Hl' ltac:(lia)) as Hr. unfold runs in *.
  change (entry_name t) with (name t) in Hr.
  unfold table_set_add, on_table_set. mstep. rewrite Hh. cbn.
  destruct (hash_add t h) as [[r|w] h']; cbn in *; [|done]. destruct Hr as [_ Hr].
  set (s' := TableState _ _ _ _ _). assert (trep s' cols) as T' by (by apply (trep_frame s); [apply T|..|apply (trep_wf s cols), T]).
  destruct T as [_ Tp Tk Tv Ta To Tf Ts Tt Tsc].
  destruct (m !! name t) as [t'|] eqn:Hlook.
  - exists m. split_and!; [|done|intros ->; done]. exists cols. split; try done. by exists h'.
  - exists (<[name t := t]> m).
    split_and!; [|by apply insert_subseteq|apply insert_non_empty].
    exists cols. split; try done; [by exists h'|]. intros n t' Hn'.
    destruct (decide (n = name t)) as [->|Hne].
    + rewrite lookup_insert_eq in Hn'. injection Hn' as <-. split_and!; [done..|]. by exists ts.
    + rewrite lookup_insert_ne in Hn' by done. by apply Tt.
Qed.

(** [table_turn]: the tables may be one more, and are some once it has made one. *)
Lemma table_turn_runs m e : data_ok m e → thread_ok (the_ctx e) →
  runs expected table_turn e (λ made e', ∃ m', data_ok m' e' ∧ thread_ok (the_ctx e') ∧
    m ⊆ m' ∧ (made = true → m' ≠ ∅)).
Proof using Hmem.
  intros D T. unfold table_turn.
  eapply runs_then; [by eapply eng_context_config_runs|]. intros [] e1 (Hs1 & C & Ht & _).
  pose proof (data_ok_shared _ _ _ Hs1 D) as D1.
  apply runs_bind, runs_update_ctx. set (e2 := Engine _ _ _ _ _).
  assert (data_ok m e2) as D2 by (by apply (data_ok_shared m e1)).
  assert (configured m (the_ctx e2)) as C2 by (by destruct C).
  assert (creating pairs m (e_world e2)) as G.
  { destruct D2 as [Q1 _ _ _ _ _ _], C2 as [_ _ (s & Hs & _) _ _ Hsc Hn]. split; try done. by exists s. }
  eapply runs_then with (λ _ e', shared_data e' = shared_data e2 ∧
    static (the_ctx e') = static (the_ctx e2)).
  { apply runs_on_world. eapply runs_weaken; [apply (runs_only_kept _ still);
      [apply keeps_create|by eapply runs_create]|].
    intros z wd [Hs Hw]%pair_equal_spec. unfold shared_data. cbn. by rewrite Hw. }
  intros ret e3 [Hs3 Hc3].
  pose proof (data_ok_shared _ _ _ Hs3 D2) as D3. pose proof (configured_static _ _ _ Hc3 C2) as C3.
  eapply runs_then with (λ made e', ∃ m', data_ok m' e' ∧ thread_ok (the_ctx e') ∧
    m ⊆ m' ∧ (made = true → m' ≠ ∅)).
  - destruct (ret =? 0); [|exists m; split_and!; [done|apply C3|done|done]].
    apply runs_gets. set (c := the_ctx e3).
    destruct (cc_schema _ _ C3) as (ts & Hts & Hp). pose proof (cc_name _ _ C3) as Hn.
    destruct (table_name_short _ Hn) as [Hl _].
    eapply runs_then with (λ o e', e' = e3 ∧ o = Some (Table (table_name c) (Some ts))).
    { apply runs_on_world. unfold on_world_tables, on_fst. apply runs_zoom, runs_zoom.
      eapply (runs_ok _ _ _ (Some (Table (table_name c) (Some ts))) (w_tables (e_world e3))).
      - unfold table_init. erewrite bind_ok by (by apply cq_malloc_ok, Hmem).
        unfold strdup. rewrite u64_small, Hmem by (unfold c; lia). unfold c. by rewrite Hts.
      - split; [by destruct e3 as [[]]|done]. }
    intros o e4 [-> ->].
    eapply runs_then with (λ _ e', ∃ m', data_ok m' e' ∧ thread_ok (the_ctx e') ∧ m ⊆ m' ∧ m' ≠ ∅).
    { apply runs_on_world. unfold on_world_tables, on_fst. apply runs_zoom, runs_zoom.
      eapply runs_weaken; [eapply runs_expect; [|exact expect_aborts]|].
      - by eapply table_set_add_runs; [apply D3|exact Hn| |exact Hp].
      - intros r s' (m' & Hm' & Hsub & Hne). exists m'. destruct D3 as [_ Q1 Q2 Q3 Q4 Q5 Q6].
        split_and!; [by split|apply C3|done|done]. }
    intros r e5 (m' & D5 & T5 & Hsub & Hne). by exists m'.
  - intros made e4 (m' & D4 & T4 & Hsub & Hne). exists m'.
    split_and!; [by apply (data_ok_shared m' e4)|exact T4|done|done].
Qed.

(** [eng_context_destroy] *)
Lemma eng_context_destroy_runs e : thread_ok (the_ctx e) →
  runs expected eng_context_destroy e (λ _ e', shared_data e' = shared_data e ∧
    stats (the_ctx e') = stats (the_ctx e)).
Proof.
  intros (w & r & C & _). unfold eng_context_destroy. apply runs_zoom.
  eapply runs_weaken with (λ _ _, True); [|by intros u [cl d] _; destruct e as [[]]].
  destruct (cq_cluster_destroy_closes (thread_cluster (the_ctx e)) w r (w_db (e_world e)))
    as (ws & rs & c' & _ & _ & Hd); [by split; apply C|]. by eapply runs_ok.
Qed.
End turns.
