(* ===== verification/Threads.v ===== *)
(** * Threads: the interleavings of the program's threads (src/src/engine/cq_engine.c)

    The threads of [start_engine] share the static variables [duration],
    [end_time], [is_thread_run], [has_first_table] and [total_request] with its
    lock.  Each thread is a program counter and a function for its next step;
    [sys_step] interleaves them with the passing of time.  What one turn of a
    loop does to the tables and the servers is in [Engine]; here it is the
    argument [made] or [work] of the step, and [System] puts the two together. *)

From stdpp Require Import base list relations strings.
From Stdlib Require Import ZArith Lia.
From S2P Require Import Prelude CText EngineCtx.
Local Open Scope Z_scope.

Definition MAX_THREAD_NUM : Z := 300.
Definition TABLE_THREAD_SLEEP : Z := 1200.

(** [unsigned int], the argument of [sleep]. *)
Definition u32 (z : Z) : Z := z mod 2 ^ 32.

Record shared := Shared {
  sh_time : Z;
  duration : Z;
  end_time : Z;
  is_thread_run : bool;
  has_first_table : bool;
  total_request_lock : option nat;
  total_request : Z;
}.

Definition set_time t sh := Shared t (duration sh) (end_time sh) (is_thread_run sh)
  (has_first_table sh) (total_request_lock sh) (total_request sh).
Definition set_duration d sh := Shared (sh_time sh) d (end_time sh) (is_thread_run sh)
  (has_first_table sh) (total_request_lock sh) (total_request sh).
Definition set_end_time t sh := Shared (sh_time sh) (duration sh) t (is_thread_run sh)
  (has_first_table sh) (total_request_lock sh) (total_request sh).
Definition set_run b sh := Shared (sh_time sh) (duration sh) (end_time sh) b
  (has_first_table sh) (total_request_lock sh) (total_request sh).
Definition set_first_table b sh := Shared (sh_time sh) (duration sh) (end_time sh)
  (is_thread_run sh) b (total_request_lock sh) (total_request sh).
Definition set_lock l sh := Shared (sh_time sh) (duration sh) (end_time sh) (is_thread_run sh)
  (has_first_table sh) l (total_request sh).
Definition set_total z sh := Shared (sh_time sh) (duration sh) (end_time sh) (is_thread_run sh)
  (has_first_table sh) (total_request_lock sh) z.

(** ** The time thread *)

Inductive time_pc := TimeInit | TimeTest (start : Z) | TimeSleep (start : Z) | TimeDone.

Definition time_thread (g_end_time : Z) (sh : shared) (pc : time_pc) : option (shared * time_pc) :=
  match pc with
  | TimeInit => Some (set_end_time g_end_time sh, TimeTest (sh_time sh))
  | TimeTest start =>
      if duration sh <? end_time sh then Some (sh, TimeSleep start)
      else Some (set_run false sh, TimeDone)
  | TimeSleep start => Some (set_duration (sh_time sh - start) sh, TimeTest start)
  | TimeDone => None
  end.

(** ** The table and alter threads: work, and a nap until the next turn *)

Inductive pacer_pc := PWait | PTest | PBody | PNap | PAsleep (until : Z) | PDone.

(** [remaining_time = end_time - duration], if that is less than the interval:
    the seconds that [sleep] gets. *)
Definition nap (interval : Z) (sh : shared) : Z :=
  let remaining_time := end_time sh - duration sh in
  u32 (if remaining_time <? interval then remaining_time else interval).

Definition asleep (until : Z) (sh : shared) : option (shared * pacer_pc) :=
  if until <=? sh_time sh then Some (sh, PTest) else None.

Definition table_thread (made : bool) (sh : shared) (pc : pacer_pc)
    : option (shared * pacer_pc) :=
  match pc with
  | PWait => None
  | PTest => Some (sh, if is_thread_run sh then PBody else PDone)
  | PBody => Some (if made then set_first_table true sh else sh, PNap)
  | PNap => Some (sh, PAsleep (sh_time sh + nap TABLE_THREAD_SLEEP sh))
  | PAsleep until => asleep until sh
  | PDone => None
  end.

Definition alter_thread (g_alter_interval : Z) (sh : shared) (pc : pacer_pc)
    : option (shared * pacer_pc) :=
  match pc with
  | PWait => Some (sh, if has_first_table sh then PTest else PWait)
  | PTest => Some (sh, if is_thread_run sh then PBody else PDone)
  | PBody => Some (sh, PNap)
  | PNap => Some (sh, PAsleep (sh_time sh + nap g_alter_interval sh))
  | PAsleep until => asleep until sh
  | PDone => None
  end.

(** ** The statistics thread *)

Definition stat_thread (g_stat_interval : Z) (sh : shared) (pc : pacer_pc)
    : option (shared * pacer_pc) :=
  match pc with
  | PWait => None
  | PTest => Some (sh, if is_thread_run sh then PBody else PDone)
  | PBody => Some (sh, PNap)
  | PNap => Some (sh, PAsleep (sh_time sh + u32 g_stat_interval))
  | PAsleep until => asleep until sh
  | PDone => None
  end.

(** [%-8s] *)
Definition pad8 (s : cstring) : cstring := s ++ replicate (8 - length s) 32.
Definition rate (n time_passed : Z) : Z := if time_passed =? 0 then 0 else Z.quot n time_passed.
Definition stat_line (label : string) (n time_passed : Z) : cstring :=
  pad8 (text label) ++ [32] ++ pad8 (decimal n) ++ [32] ++ pad8 (decimal (rate n time_passed)) ++ [10].

(** [total_reqs] is the sum of four [int]s, made before it is widened. *)
Definition total_reqs (g : eng_stats) : res Z :=
  let add a b := if (INT_MAX <? a + b) || (a + b <? - 2 ^ 31)
                 then Stop (Undefined SignedOverflow) else Ok (a + b) in
  n ← add (ninsert g) (nupdate g); n ← add n (ndelete g); add n (nselect g).

(** What the statistics thread prints, [time_passed] seconds after it started. *)
Definition stat_text (g : eng_stats) (total_reqs time_passed : Z) : cstring :=
  pad8 (text "Type") ++ [32] ++ pad8 (text "Ops") ++ [32] ++ pad8 (text "TPS(ops/s)") ++ [10] ++
  stat_line "Insert" (ninsert g) time_passed ++
  stat_line "Update" (nupdate g) time_passed ++
  stat_line "Delete" (ndelete g) time_passed ++
  stat_line "Select" (nselect g) time_passed ++
  stat_line "Total" total_reqs time_passed ++
  text "Data verify errors: " ++ decimal (ncheck_fail g) ++ [10].

Definition stat_log (g : eng_stats) (time_passed : Z) : res cstring :=
  n ← total_reqs g; Ok (stat_text g n time_passed).

(** [char stat_log[MAX_DATA_LOG_LEN]] has room for it. *)
Definition is_int (n : Z) : Prop := - 2 ^ 31 ≤ n ≤ INT_MAX.

Lemma decimal_int_length n : is_int n → (length (decimal n) ≤ 11)%nat.
Proof.
  unfold is_int, INT_MAX. intros Hn. unfold decimal.
  destruct (Z.ltb_spec n 0).
  - pose proof (udecimal_length (- n) 9 ltac:(cbn; lia)). cbn [length]. lia.
  - pose proof (udecimal_length n 9 ltac:(cbn; lia)). lia.
Qed.

Lemma rate_int n time_passed : is_int n → is_int (rate n time_passed) ∨ rate n time_passed = 2 ^ 31.
Proof.
  unfold is_int, INT_MAX, rate. intros Hn. destruct (Z.eqb_spec time_passed 0); [left; lia|].
  assert (Z.abs (n ÷ time_passed) ≤ Z.abs n) as Hle.
  { rewrite <- Z.quot_abs by done. apply Z.quot_le_upper_bound; nia. }
  lia.
Qed.

Lemma length_pad8 s : length (pad8 s) = (length s `max` 8)%nat.
Proof. unfold pad8. rewrite length_app, length_replicate. lia. Qed.

Lemma stat_line_length label n time_passed : is_int n → (length (text label) ≤ 8)%nat →
  (length (stat_line label n time_passed) ≤ 33)%nat.
Proof.
  intros Hn Hl. unfold stat_line.
  assert (length (decimal (rate n time_passed)) ≤ 11)%nat as Hr.
  { destruct (rate_int n time_passed Hn) as [Hr| ->]; [by apply decimal_int_length|by vm_compute; lia]. }
  pose proof (decimal_int_length n Hn). rewrite !length_app, !length_pad8. cbn [length]. lia.
Qed.

Lemma stat_log_fits g time_passed log :
  is_int (ninsert g) → is_int (nupdate g) → is_int (ndelete g) → is_int (nselect g) →
  is_int (ncheck_fail g) → stat_log g time_passed = Ok log →
  Z.of_nat (length log) + 1 ≤ MAX_DATA_LOG_LEN.
Proof.
  intros Hi Hu Hd Hs Hc. unfold stat_log. destruct (total_reqs g) as [n|w] eqn:Hn; [|done].
  assert (is_int n) as Hni.
  { unfold total_reqs in Hn. cbv zeta in Hn. unfold is_int.
    repeat (destruct ((_ <? _) || _) eqn:? in Hn; [done|]; cbn in Hn).
    injection Hn as <-. lia. }
  intros [= <-]. unfold MAX_DATA_LOG_LEN, stat_text. rewrite !length_app, !length_pad8.
  pose proof (stat_line_length "Insert" (ninsert g) time_passed Hi ltac:(cbn; lia)).
  pose proof (stat_line_length "Update" (nupdate g) time_passed Hu ltac:(cbn; lia)).
  pose proof (stat_line_length "Delete" (ndelete g) time_passed Hd ltac:(cbn; lia)).
  pose proof (stat_line_length "Select" (nselect g) time_passed Hs ltac:(cbn; lia)).
  pose proof (stat_line_length "Total" n time_passed Hni ltac:(cbn; lia)).
  pose proof (decimal_int_length (ncheck_fail g) Hc).
  cbn [text length]. lia.
Qed.

(** ** The engine threads *)

Inductive engine_pc :=
  | EWait
  | ETest (st : eng_stats)
  | EBody (st : eng_stats)
  | ELock (st : eng_stats)
  | EAdd (st : eng_stats) (k : nat)
  | ELoaded (st : eng_stats) (k : nat) (v : Z)
  | EUnlock (st : eng_stats)
  | EDone (st : eng_stats).

(** What is added to [total_request], in order. *)
Definition requests (st : eng_stats) : list Z := [ninsert st; nupdate st; ndelete st; nselect st].

(** The step of the thread [i]; [work] is what one turn does to its statistics.
    [total_request += n] is a load and a store. *)
Definition engine_thread (i : nat) (work : eng_stats → eng_stats) (sh : shared) (pc : engine_pc)
    : option (shared * engine_pc) :=
  match pc with
  | EWait => Some (sh, if has_first_table sh then ETest zero_stats else EWait)
  | ETest st => Some (sh, if is_thread_run sh then EBody st else ELock st)
  | EBody st => Some (sh, ETest (work st))
  | ELock st => match total_request_lock sh with
                | None => Some (set_lock (Some i) sh, EAdd st 0)
                | Some _ => None
                end
  | EAdd st k => match requests st !! k with
                 | Some _ => Some (sh, ELoaded st k (total_request sh))
                 | None => Some (sh, EUnlock st)
                 end
  | ELoaded st k v => Some (set_total (v + default 0 (requests st !! k)) sh, EAdd st (S k))
  | EUnlock st => Some (set_lock None sh, EDone st)
  | EDone _ => None
  end.

(** ** The program *)

Record sys := Sys {
  sh : shared;
  time_at : time_pc;
  table_at : pacer_pc;
  alter_at : pacer_pc;
  stat_at : pacer_pc;
  engines : list engine_pc;
}.

(** [start_engine] creates at most [MAX_THREAD_NUM] engine threads. *)
Definition engine_thread_num (g_engine_thread_num : Z) : Z :=
  if MAX_THREAD_NUM <? g_engine_thread_num then MAX_THREAD_NUM else g_engine_thread_num.

Definition start_engine (g_engine_thread_num t0 : Z) : sys :=
  Sys (Shared t0 0 0 true false None 0) TimeInit PTest PWait PTest
    (replicate (Z.to_nat (engine_thread_num g_engine_thread_num)) EWait).

(** The threads are created one after another: the table, alter and time threads,
    the engine threads and the statistics thread; the program ends at the first
    that cannot be created.  [created] is what [pthread_create] answers. *)
Definition create_threads (created : nat → bool) (g_engine_thread_num t0 : Z) : res sys :=
  if forallb created (seq 0 (4 + Z.to_nat (engine_thread_num g_engine_thread_num)))
  then Ok (start_engine g_engine_thread_num t0) else Stop (Exited 1).

(** [start_engine] returns when the threads it joins have ended: all but the
    time thread. *)
Definition joined (s : sys) : bool :=
  match table_at s, alter_at s, stat_at s with
  | PDone, PDone, PDone =>
      forallb (λ pc, match pc with EDone _ => true | _ => false end) (engines s)
  | _, _, _ => false
  end.

Section system.
Context (g_end_time g_alter_interval g_stat_interval : Z).

Inductive sys_step : sys → sys → Prop :=
  | step_tick s d : 0 ≤ d →
      sys_step s (Sys (set_time (sh_time (sh s) + d) (sh s)) (time_at s) (table_at s) (alter_at s)
                    (stat_at s) (engines s))
  | step_time s sh' pc : time_thread g_end_time (sh s) (time_at s) = Some (sh', pc) →
      sys_step s (Sys sh' pc (table_at s) (alter_at s) (stat_at s) (engines s))
  | step_table s made sh' pc : table_thread made (sh s) (table_at s) = Some (sh', pc) →
      sys_step s (Sys sh' (time_at s) pc (alter_at s) (stat_at s) (engines s))
  | step_alter s sh' pc : alter_thread g_alter_interval (sh s) (alter_at s) = Some (sh', pc) →
      sys_step s (Sys sh' (time_at s) (table_at s) pc (stat_at s) (engines s))
  | step_stat s sh' pc : stat_thread g_stat_interval (sh s) (stat_at s) = Some (sh', pc) →
      sys_step s (Sys sh' (time_at s) (table_at s) (alter_at s) pc (engines s))
  | step_engine s i work pc0 sh' pc : engines s !! i = Some pc0 →
      engine_thread i work (sh s) pc0 = Some (sh', pc) →
      sys_step s (Sys sh' (time_at s) (table_at s) (alter_at s) (stat_at s)
                    (<[i := pc]> (engines s))).
End system.

(** ** The life of the threads *)

Section invariants.
Context (g_end_time g_alter_interval g_stat_interval : Z).
Notation step := (sys_step g_end_time g_alter_interval g_stat_interval).

(** Where the time thread is, and what it has set. *)
Definition time_inv (s : sys) : Prop :=
  match time_at s with
  | TimeInit => is_thread_run (sh s) = true ∧ end_time (sh s) = 0
  | TimeTest _ | TimeSleep _ => is_thread_run (sh s) = true ∧ end_time (sh s) = g_end_time
  | TimeDone => is_thread_run (sh s) = false ∧ end_time (sh s) = g_end_time ∧
      g_end_time ≤ duration (sh s)
  end.

(** No thread that waits for the first table works without one. *)
Definition waits_inv (s : sys) : Prop :=
  (has_first_table (sh s) = false →
     alter_at s = PWait ∧ Forall (λ pc, pc = EWait) (engines s)).

Lemma asleep_shared until sh sh' pc : asleep until sh = Some (sh', pc) → sh' = sh.
Proof. unfold asleep. by destruct (until <=? sh_time sh); intros [= <- <-]. Qed.

(** What each thread leaves alone. *)
Lemma table_shared made sh pc sh' pc' : table_thread made sh pc = Some (sh', pc') →
  sh' = sh ∨ sh' = set_first_table true sh.
Proof.
  destruct pc; cbn; try done; try (intros [= <- <-]; destruct made; by eauto).
  intros ->%asleep_shared. by left.
Qed.
Lemma alter_shared sh pc sh' pc' : alter_thread g_alter_interval sh pc = Some (sh', pc') →
  sh' = sh.
Proof. destruct pc; cbn; try done; try (by intros [= <- <-]). by intros ->%asleep_shared. Qed.
Lemma stat_shared sh pc sh' pc' : stat_thread g_stat_interval sh pc = Some (sh', pc') →
  sh' = sh.
Proof. destruct pc; cbn; try done; try (by intros [= <- <-]). by intros ->%asleep_shared. Qed.

(** The lifecycle part of the shared variables. *)
Definition life (sh : shared) := (duration sh, end_time sh, is_thread_run sh, has_first_table sh).

Lemma engine_life i work sh pc sh' pc' : engine_thread i work sh pc = Some (sh', pc') →
  life sh' = life sh.
Proof.
  destruct pc; cbn; try done; try (by intros [= <- <-]).
  - destruct (total_request_lock sh); [done|]. by intros [= <- <-].
  - by destruct (requests st !! k); intros [= <- <-].
Qed.

Lemma time_inv_life s s' : life (sh s') = life (sh s) → time_at s' = time_at s →
  time_inv s → time_inv s'.
Proof. unfold time_inv, life. intros [= Hd He Hr _] ->. by rewrite Hd, He, Hr. Qed.

Lemma time_inv_step s s' : step s s' → time_inv s → time_inv s'.
Proof.
  destruct 1 as [s d Hd|s sh' pc Hs|s made sh' pc Hs|s sh' pc Hs|s sh' pc Hs|s i work pc0 sh' pc Hi Hs].
  - by apply time_inv_life.
  - unfold time_inv. cbn. destruct (time_at s); cbn in Hs; try done.
    + injection Hs as <- <-. by intros [? _].
    + destruct (Z.ltb_spec (duration (sh s)) (end_time (sh s))) as [Hl|Hl];
        injection Hs as <- <-; [done|]. intros [_ He]. cbn. split_and!; [done..|lia].
    + by injection Hs as <- <-.
  - by apply table_shared in Hs as [-> | ->]; [apply time_inv_life|].
  - apply alter_shared in Hs as ->. by apply time_inv_life.
  - apply stat_shared in Hs as ->. by apply time_inv_life.
  - apply engine_life in Hs. by apply time_inv_life.
Qed.

Lemma waits_inv_step s s' : step s s' → waits_inv s → waits_inv s'.
Proof.
  destruct 1 as [s d Hd|s sh' pc Hs|s made sh' pc Hs|s sh' pc Hs|s sh' pc Hs|s i work pc0 sh' pc Hi Hs];
    unfold waits_inv; cbn.
  - done.
  - intros Hw. destruct (time_at s) as [|start|start|]; cbn in Hs; try (by injection Hs as <- <-).
    + by destruct (duration (sh s) <? end_time (sh s)); injection Hs as <- <-.
    + done.
  - by apply table_shared in Hs as [-> | ->].
  - intros Hw Hf. pose proof Hs as Hsh. apply alter_shared in Hsh as ->.
    destruct (Hw Hf) as [Ha He]. rewrite Ha in Hs. cbn in Hs. rewrite Hf in Hs.
    by injection Hs as <-.
  - by apply stat_shared in Hs as ->.
  - intros Hw Hf. pose proof Hs as Hl. apply engine_life in Hl. injection Hl as _ _ _ Hfh.
    rewrite Hfh in Hf. destruct (Hw Hf) as [Ha He]. split; [done|].
    rewrite Forall_forall in He. rewrite (He pc0) in Hs by (by eapply list_elem_of_lookup_2).
    cbn in Hs. rewrite Hf in Hs. injection Hs as _ <-.
    apply Forall_insert; [by apply Forall_forall|done].
Qed.

(** C18 (life cycle). In every interleaving, the threads run until the time thread has ended, which
    happens only after [g_end_time] seconds; and as long as the table thread has made no table,
    every engine thread and the alter thread wait. *)
Theorem threads_life_cycle n t0 s :
  rtc step (start_engine n t0) s →
  (is_thread_run (sh s) = false ↔ time_at s = TimeDone) ∧
  (time_at s = TimeDone → g_end_time ≤ duration (sh s)) ∧
  (has_first_table (sh s) = false →
     alter_at s = PWait ∧ Forall (λ pc, pc = EWait) (engines s)).
Proof.
  intros Hr.
  assert (time_inv s ∧ waits_inv s) as [Ht Hw].
  { apply (rtc_invariant step (λ s, time_inv s ∧ waits_inv s) (start_engine n t0)); [|done|].
    - intros s1 s2 Hst [H1 H2]. split; [by eapply time_inv_step|by eapply waits_inv_step].
    - split; [done|]. intros _. split; [done|]. by apply Forall_replicate. }
  unfold time_inv in Ht.
  split; [|split; [|exact Hw]]; destruct (time_at s); split || intros ?; try done;
    try (by destruct Ht as (? & ? & ?)); destruct Ht as [Ht _]; congruence.
Qed.

(** *** The total of the requests *)

(** What a thread has added so far. *)
Definition contributed (pc : engine_pc) : Z :=
  match pc with
  | EAdd st k | ELoaded st k _ => zsum id (take k (requests st))
  | EUnlock st | EDone st => zsum id (requests st)
  | _ => 0
  end.

Definition in_section (pc : engine_pc) : bool :=
  match pc with EAdd _ _ | ELoaded _ _ _ | EUnlock _ => true | _ => false end.

(** The thread in the critical section holds the lock, and has seen the total. *)
Record total_inv (s : sys) : Prop := {
  ti_total : total_request (sh s) = zsum contributed (engines s);
  ti_lock i pc : engines s !! i = Some pc → in_section pc = true →
    total_request_lock (sh s) = Some i;
  ti_loaded i st k v : engines s !! i = Some (ELoaded st k v) →
    v = total_request (sh s) ∧ is_Some (requests st !! k);
}.

(** The part of the shared variables that the total lives in. *)
Definition totals (sh : shared) := (total_request sh, total_request_lock sh).

Lemma total_inv_frame s s' : totals (sh s') = totals (sh s) → engines s' = engines s →
  total_inv s → total_inv s'.
Proof.
  unfold totals. intros [= Ht Hl] He [T L D]. split; rewrite He, ?Ht, ?Hl; [done|done|].
  intros i st k v Hi. by eapply D.
Qed.

Lemma contributed_next st k x : requests st !! k = Some x →
  zsum id (take (S k) (requests st)) = zsum id (take k (requests st)) + x.
Proof. intros Hx. rewrite (take_S_r _ _ _ Hx), zsum_app, zsum_cons. change (zsum id []) with 0. unfold id. lia. Qed.

(** A step of an engine thread that leaves the lock and the total alone. *)
Lemma total_inv_local s i pc0 pc : total_inv s → engines s !! i = Some pc0 →
  contributed pc = contributed pc0 → (in_section pc = true → in_section pc0 = true) →
  (∀ st k v, pc = ELoaded st k v → v = total_request (sh s) ∧ is_Some (requests st !! k)) →
  total_inv (Sys (sh s) (time_at s) (table_at s) (alter_at s) (stat_at s) (<[i := pc]> (engines s))).
Proof.
  intros [T L D] Hi Hc Hin Hld. split; cbn.
  - rewrite (zsum_insert _ _ _ _ _ Hi), Hc. lia.
  - intros j q [[<- <-]|[Hne Hj]]%list_lookup_insert_Some_2; [|by apply L].
    intros Hq. by apply (L i pc0), Hin.
  - intros j st k v [[<- Hq]|[Hne Hj]]%list_lookup_insert_Some_2; [by eapply Hld|by eapply D].
Qed.

Lemma total_inv_step s s' : step s s' → total_inv s → total_inv s'.
Proof.
  destruct 1 as [s d Hd|s sh' pc Hs|s made sh' pc Hs|s sh' pc Hs|s sh' pc Hs|s i work pc0 sh' pc Hi Hs].
  - by apply total_inv_frame.
  - apply total_inv_frame; [|done]. cbn. destruct (time_at s); cbn in Hs; try done.
    + by injection Hs as <- <-.
    + by destruct (duration (sh s) <? end_time (sh s)); injection Hs as <- <-.
    + by injection Hs as <- <-.
  - by apply table_shared in Hs as [-> | ->]; apply total_inv_frame.
  - apply alter_shared in Hs as ->. by apply total_inv_frame.
  - apply stat_shared in Hs as ->. by apply total_inv_frame.
  - intros I. pose proof I as [T L D]. destruct pc0 as [|st|st|st|st k|st k v|st|st]; cbn in Hs.
    + injection Hs as <- <-. by destruct (has_first_table (sh s)); apply (total_inv_local s i EWait).
    + injection Hs as <- <-. by destruct (is_thread_run (sh s)); apply (total_inv_local s i (ETest st)).
    + injection Hs as <- <-. by apply (total_inv_local s i (EBody st)).
    + destruct (total_request_lock (sh s)) as [|] eqn:Hlock; [done|]. injection Hs as <- <-.
      split; cbn.
      * rewrite (zsum_insert _ _ _ _ _ Hi). cbn. rewrite ?zsum_nil. lia.
      * intros j q [[<- <-]|[Hne Hj]]%list_lookup_insert_Some_2; [done|].
        intros Hq. pose proof (L j q Hj Hq) as Hc. congruence.
      * intros j st' k v [[<- ?]|[Hne Hj]]%list_lookup_insert_Some_2; [done|by eapply D].
    + destruct (requests st !! k) as [x|] eqn:Hx; injection Hs as <- <-.
      * apply (total_inv_local s i (EAdd st k)); try done.
        intros ? ? ? [= <- <- <-]. by rewrite Hx.
      * apply (total_inv_local s i (EAdd st k)); try done.
        cbn. by rewrite take_ge by (by apply lookup_ge_None).
    + injection Hs as <- <-. destruct (D i st k v Hi) as [-> [x Hx]]. rewrite Hx. cbn.
      assert (∀ j pc, j ≠ i → engines s !! j = Some pc → in_section pc = true → False) as Hex.
      { intros j pc Hne Hj Hp. pose proof (L j pc Hj Hp) as H1.
        pose proof (L i _ Hi eq_refl) as H2. congruence. }
      split; cbn.
      * rewrite (zsum_insert _ _ _ _ _ Hi), T. cbn [contributed].
        rewrite (contributed_next _ _ _ Hx). lia.
      * intros j q [[<- <-]|[Hne Hj]]%list_lookup_insert_Some_2; [|by apply L].
        intros _. by apply (L i _ Hi).
      * intros j st' k' v [[<- ?]|[Hne Hj]]%list_lookup_insert_Some_2; [done|].
        by destruct (Hex j _ ltac:(done) Hj).
    + injection Hs as <- <-. split; cbn.
      * rewrite (zsum_insert _ _ _ _ _ Hi). cbn. rewrite ?zsum_nil. lia.
      * intros j q [[<- <-]|[Hne Hj]]%list_lookup_insert_Some_2; [done|].
        intros Hq. pose proof (L j q Hj Hq) as H1. pose proof (L i _ Hi eq_refl) as H2. congruence.
      * intros j st' k v [[<- ?]|[Hne Hj]]%list_lookup_insert_Some_2; [done|by eapply D].
    + done.
Qed.

Lemma total_inv_run n t0 s : rtc step (start_engine n t0) s → total_inv s.
Proof.
  intros Hr. apply (rtc_invariant step total_inv (start_engine n t0)); [apply total_inv_step|done|].
  split; cbn.
  - by rewrite zsum_replicate_0.
  - by intros i pc [-> _]%lookup_replicate.
  - by intros i st k v [? _]%lookup_replicate.
Qed.

(** What an engine thread that has ended has asked for. *)
Definition asked (pc : engine_pc) : Z :=
  match pc with EDone st => zsum id (requests st) | _ => 0 end.

(** C19 (the total). In every interleaving, when all the threads have been joined [total_request] is
    the sum of the requests of all the engine threads: no addition is lost, since at most one
    thread is between the load and the store. *)
Theorem total_request_sums n t0 s :
  rtc step (start_engine n t0) s → joined s = true →
  total_request (sh s) = zsum asked (engines s) ∧
  Forall (λ pc, ∃ st, pc = EDone st) (engines s).
Proof.
  intros Hr Hj. destruct (total_inv_run n t0 s Hr) as [T _ _].
  assert (Forall (λ pc, ∃ st, pc = EDone st) (engines s)) as Hd.
  { unfold joined in Hj. destruct (table_at s), (alter_at s), (stat_at s); try done.
    apply Forall_forall. intros pc Hpc. apply list_elem_of_In in Hpc.
    rewrite forallb_forall in Hj. specialize (Hj pc Hpc). destruct pc; try done. by eexists. }
  split; [|done]. rewrite T. clear T Hr Hj.
  induction Hd as [|pc l [st ->] Hd IH]; [done|]. rewrite !zsum_cons, IH. done.
Qed.

(** *** Sleeping past the end *)

(** Until the table thread wakes. *)
Definition sleeps_until (u : Z) (s : sys) : Prop :=
  table_at s = PAsleep u ∨ u ≤ sh_time (sh s).

Lemma step_time_mono s s' : step s s' → sh_time (sh s) ≤ sh_time (sh s').
Proof.
  destruct 1 as [s d Hd|s sh' pc Hs|s made sh' pc Hs|s sh' pc Hs|s sh' pc Hs|s i work pc0 sh' pc Hi Hs];
    cbn; try lia.
  - destruct (time_at s); cbn in Hs; try done; try (by injection Hs as <- <-).
    by destruct (duration (sh s) <? end_time (sh s)); injection Hs as <- <-.
  - by apply table_shared in Hs as [-> | ->].
  - by apply alter_shared in Hs as ->.
  - by apply stat_shared in Hs as ->.
  - destruct pc0; cbn in Hs; try done; try (by injection Hs as <- <-).
    + destruct (total_request_lock (sh s)); [done|]. by injection Hs as <- <-.
    + by destruct (requests st !! k); injection Hs as <- <-.
Qed.

Lemma sleeps_until_step u s s' : step s s' → sleeps_until u s → sleeps_until u s'.
Proof.
  intros Hs. pose proof (step_time_mono s s' Hs) as Hm. intros [Ha|Hu]; [|right; lia].
  destruct Hs as [s d Hd|s sh' pc Hs|s made sh' pc Hs|s sh' pc Hs|s sh' pc Hs|s i work pc0 sh' pc Hi Hs];
    try (left; exact Ha).
  rewrite Ha in Hs. cbn in Hs. unfold asleep in Hs.
  destruct (Z.leb_spec u (sh_time (sh s))); [|done]. right. cbn in *. lia.
Qed.

(** C31 (sleeping past the end). A pause lasts what is left of the run, at most the interval, as long
    as the run is not over.  But one that starts when the clock has passed [end_time], which a run
    of any length can reach, asks [sleep] for the negative rest: more than a hundred years, before
    which [start_engine] does not return. *)
Theorem nap_past_the_end n t0 :
  1 ≤ g_end_time →
  (∀ interval sh, duration sh ≤ end_time sh → end_time sh - duration sh < 2 ^ 32 →
     0 ≤ interval < 2 ^ 32 → nap interval sh = Z.min (end_time sh - duration sh) interval) ∧
  ∃ s, rtc step (start_engine n t0) s ∧ time_at s = TimeDone ∧
    ∀ s', rtc step s s' → joined s' = true → sh_time (sh s) + (2 ^ 32 - 1) ≤ sh_time (sh s').
Proof.
  intros Hg. split.
  { intros interval sh Hle Hlt Hi. unfold nap, u32.
    destruct (Z.ltb_spec (end_time sh - duration sh) interval); rewrite Z.mod_small; lia. }
  set (waiting := replicate (Z.to_nat (engine_thread_num n)) EWait).
  set (t1 := t0 + (g_end_time + 1)).
  set (s := Sys (Shared t1 (g_end_time + 1) g_end_time false true None 0) TimeDone
    (PAsleep (t1 + (2 ^ 32 - 1))) PWait PTest waiting).
  exists s. split; [|split; [done|]].
  - eapply rtc_l; [by apply step_time|]. cbn.
    eapply rtc_l; [by apply (step_table _ _ _ _ true)|]. cbn.
    eapply rtc_l; [by apply (step_table _ _ _ _ true)|]. cbn.
    eapply rtc_l; [apply step_time; cbn; by rewrite (proj2 (Z.ltb_lt _ _)) by lia|].
    eapply rtc_l; [apply (step_tick _ _ _ _ (g_end_time + 1)); lia|].
    eapply rtc_l; [by apply step_time|].
    eapply rtc_l; [apply step_time; cbn; by rewrite (proj2 (Z.ltb_ge _ _)) by lia|].
    eapply rtc_l; [by apply (step_table _ _ _ _ true)|].
    assert (nap TABLE_THREAD_SLEEP (sh s) = 2 ^ 32 - 1) as Hnap.
    { unfold nap, u32, TABLE_THREAD_SLEEP. cbn -[Z.pow Z.modulo].
      rewrite (proj2 (Z.ltb_lt _ _)) by lia. replace (g_end_time - (g_end_time + 1)) with (-1) by lia.
      done. }
    cbn -[nap Z.pow]. unfold set_duration, set_run. cbn -[nap Z.pow].
    replace (t0 + (g_end_time + 1) - t0) with (g_end_time + 1) by lia.
    fold t1 waiting. change (Shared t1 (g_end_time + 1) g_end_time false true None 0) with (sh s).
    rewrite Hnap. apply rtc_refl.
  - intros s' Hr Hj.
    assert (sleeps_until (t1 + (2 ^ 32 - 1)) s') as [Ha|Hu].
    { apply (rtc_invariant step (sleeps_until (t1 + (2 ^ 32 - 1))) s);
        [by intros; eapply sleeps_until_step|done|by left]. }
    + unfold joined in Hj. by rewrite Ha in Hj.
    + exact Hu.
Qed.
End invariants.

(** ** The counters of [g_stat]

    [g_stat.n = __sync_add_and_fetch(&g_stat.n, 1)] is an atomic addition and
    then a store of what it returned; in between, other threads add and store.
    [pending] holds, for each thread, the value it is about to store. *)

Section race.
Context (k : counter).

Record race := Race { g : eng_stats; pending : list (option Z); additions : Z }.

Inductive race_step : race → race → Prop :=
  | race_add r i : pending r !! i = Some None →
      let g' := counter_sync_incr k (g r) in
      race_step r (Race g' (<[i := Some (counter_get k g')]> (pending r)) (additions r + 1))
  | race_store r i v : pending r !! i = Some (Some v) →
      race_step r (Race (counter_set k v (g r)) (<[i := None]> (pending r)) (additions r)).

(** The counter, and every value about to be stored, is at most the additions. *)
Definition race_inv (r : race) : Prop :=
  0 ≤ additions r ∧
  (additions r ≤ INT_MAX →
     0 ≤ counter_get k (g r) ≤ additions r ∧
     ∀ i v, pending r !! i = Some (Some v) → 0 ≤ v ≤ additions r).

Lemma race_inv_step r r' : race_step r r' → race_inv r → race_inv r'.
Proof.
  destruct 1 as [r i Hi|r i v Hi]; intros [Ha Hinv].
  - split; cbn; [lia|]. intros Hle. destruct (Hinv ltac:(lia)) as [Hg Hp].
    subst g'. unfold counter_sync_incr. rewrite counter_get_set, decide_True by done.
    unfold INT_MAX in Hle. rewrite i32_small by lia. split; [lia|].
    intros j v [[<- [= <-]]|[Hne Hj]]%list_lookup_insert_Some_2; [lia|].
    specialize (Hp j v Hj). lia.
  - split; cbn; [done|]. intros Hle. destruct (Hinv Hle) as [Hg Hp].
    rewrite counter_get_set, decide_True by done. split; [by eapply Hp|].
    intros j w [[<- ?]|[Hne Hj]]%list_lookup_insert_Some_2; [done|by eapply Hp].
Qed.

(** C30 (lost counts). However the threads interleave, a counter of [g_stat] never exceeds the number
    of additions.  It can fall short: the store of an older value undoes additions, so that two
    additions, both finished, can leave it at 1. *)
Theorem counter_never_overcounts n r :
  rtc race_step (Race zero_stats (replicate n None) 0) r → additions r ≤ INT_MAX →
  0 ≤ counter_get k (g r) ≤ additions r ∧
  ∃ r', rtc race_step (Race zero_stats [None; None] 0) r' ∧ pending r' = [None; None] ∧
    additions r' = 2 ∧ counter_get k (g r') = 1.
Proof.
  intros Hr Hle. split.
  - assert (race_inv r) as [_ Hinv]; [|by apply Hinv].
    apply (rtc_invariant race_step race_inv _ _ race_inv_step Hr).
    split; [done|]. intros _. split; [by destruct k|].
    by intros i v [? _]%lookup_replicate.
  - exists (Race (counter_set k 1 (counter_set k 2 (counter_set k 2 (counter_set k 1 zero_stats))))
      [None; None] 2).
    split; [|split; [done|split; [done|by destruct k]]].
    eapply rtc_l; [by apply (race_add _ 0)|]. cbn.
    eapply rtc_l; [by apply (race_add _ 1)|]. cbn.
    eapply rtc_l; [by eapply (race_store _ 1)|]. cbn.
    eapply rtc_l; [by eapply (race_store _ 0)|]. cbn.
    by destruct k; apply rtc_refl.
Qed.
End race.

(** ** Witnesses *)

(** One insert and two selects. *)
Definition some_work (st : eng_stats) : eng_stats :=
  counter_set CInsert 1 (counter_set CSelect 2 st).

(** A run of no seconds with one engine thread that does one turn, to the end. *)
Definition ended : sys :=
  Sys (Shared 0 0 0 false true None 3) TimeDone PDone PDone PDone [EDone (some_work zero_stats)].

Tactic Notation "sys_by" uconstr(c) := eapply rtc_l; [eapply c; cbn; reflexivity|]; cbn.

Lemma ended_reachable : rtc (sys_step 0 30 1) (start_engine 1 0) ended.
Proof.
  sys_by step_time.
  do 3 sys_by (step_table 0 30 1 _ true).
  do 3 sys_by (step_engine 0 30 1 _ 0 some_work).
  sys_by step_alter. sys_by step_time. sys_by step_alter. sys_by step_stat.
  do 2 sys_by (step_table 0 30 1 _ true).
  do 12 sys_by (step_engine 0 30 1 _ 0 some_work).
  apply rtc_refl.
Qed.

(** The same run in the middle: the alter thread still waits, the engine thread is
    at the end of its turn. *)
Definition at_the_list : sys :=
  Sys (Shared 0 0 0 true true None 0) (TimeTest 0) (PAsleep 0) PWait PTest [EBody zero_stats].

Lemma at_the_list_reachable : rtc (sys_step 0 30 1) (start_engine 1 0) at_the_list.
Proof.
  sys_by step_time.
  do 3 sys_by (step_table 0 30 1 _ true).
  do 2 sys_by (step_engine 0 30 1 _ 0 some_work).
  apply rtc_refl.
Qed.

(** Before the first table, at work, and at the end. *)
Definition none_yet : sys :=
  Sys (Shared 0 0 0 true false None 0) (TimeTest 0) PBody PWait PTest [EWait].

Lemma none_yet_reachable : rtc (sys_step 0 30 1) (start_engine 1 0) none_yet.
Proof.
  sys_by step_time. sys_by (step_table 0 30 1 _ true).
  sys_by step_alter. sys_by (step_engine 0 30 1 _ 0 some_work).
  apply rtc_refl.
Qed.

Example threads_life_cycle_witness :
  (alter_at none_yet = PWait ∧ Forall (λ pc, pc = EWait) (engines none_yet)) ∧
  (is_thread_run (sh at_the_list) = false ↔ time_at at_the_list = TimeDone) ∧
  is_thread_run (sh ended) = false ∧ 0 ≤ duration (sh ended).
Proof.
  destruct (threads_life_cycle 0 30 1 1 0 none_yet none_yet_reachable) as (_ & _ & Hwaiting).
  destruct (threads_life_cycle 0 30 1 1 0 at_the_list at_the_list_reachable) as (Hat & _ & _).
  destruct (threads_life_cycle 0 30 1 1 0 ended ended_reachable) as (Hended & Hlong & _).
  exact (conj (Hwaiting eq_refl) (conj Hat (conj (proj2 Hended eq_refl) (Hlong eq_refl)))).
Defined.

Example total_request_sums_witness :
  3 = zsum asked [EDone (some_work zero_stats)] ∧
  Forall (λ pc, ∃ st, pc = EDone st) [EDone (some_work zero_stats)].
Proof. exact (total_request_sums 0 30 1 1 0 ended ended_reachable eq_refl). Defined.

Example nap_past_the_end_witness :
  ∃ s, rtc (sys_step 3600 60 10) (start_engine 4 1000) s ∧ time_at s = TimeDone ∧
    ∀ s', rtc (sys_step 3600 60 10) s s' → joined s' = true →
      sh_time (sh s) + (2 ^ 32 - 1) ≤ sh_time (sh s').
Proof. apply (nap_past_the_end 3600 60 10 4 1000). lia. Defined.

(** Two threads, one after the other: each adds and stores. *)
Lemma two_additions : rtc (race_step CInsert) (Race zero_stats [None; None] 0)
  (Race (counter_set CInsert 2 zero_stats) [None; None] 2).
Proof.
  eapply rtc_l; [by apply (race_add _ _ 0)|]. cbn.
  eapply rtc_l; [by eapply (race_store _ _ 0)|]. cbn.
  eapply rtc_l; [by apply (race_add _ _ 1)|]. cbn.
  eapply rtc_l; [by eapply (race_store _ _ 1)|]. cbn.
  apply rtc_refl.
Qed.

Example counter_never_overcounts_witness :
  0 ≤ 2 ≤ 2 ∧
  ∃ r', rtc (race_step CInsert) (Race zero_stats [None; None] 0) r' ∧
    pending r' = [None; None] ∧ additions r' = 2 ∧ ninsert (g r') = 1.
Proof.
  apply (counter_never_overcounts CInsert 2 (Race (counter_set CInsert 2 zero_stats) [None; None] 2)).
  - exact two_additions.
  - cbn. unfold INT_MAX. lia.
Defined.
