(* ===== verification/Ending.v ===== *)
(** * Ending: when the program can come to its end (src/src/engine/cq_engine.c)

    The threads of [Threads] never block one another for good: from wherever they
    are they can still be joined, exactly when there is a table, or there can
    still be one.  When the run is over before the table thread has made one, the
    engine threads and the alter thread wait for it for ever. *)

From stdpp Require Import base list relations.
From Stdlib Require Import ZArith Lia.
From S2P Require Import Prelude EngineCtx Threads.
Local Open Scope Z_scope.

Section ending.
Context (g_end_time g_alter_interval g_stat_interval : Z).
Notation step := (sys_step g_end_time g_alter_interval g_stat_interval).
Implicit Types (s : sys) (sh : shared).

(** What holds of every state that can be reached. *)
Record alive s : Prop := {
  al_time : time_inv g_end_time s;
  al_waits : waits_inv s;
  al_total : total_inv s;
  al_table : table_at s ≠ PWait ∧ (table_at s = PDone → is_thread_run (Threads.sh s) = false);
  al_stat : stat_at s ≠ PWait;
  al_lock i : total_request_lock (Threads.sh s) = Some i →
    ∃ pc, engines s !! i = Some pc ∧ in_section pc = true;
}.

Lemma time_life sh pc sh' pc' : time_thread g_end_time sh pc = Some (sh', pc') →
  totals sh' = totals sh ∧ (is_thread_run sh = false → is_thread_run sh' = false) ∧
  has_first_table sh' = has_first_table sh.
Proof.
  destruct pc; cbn; try done; try (by intros [= <- <-]).
  by destruct (duration sh <? end_time sh); intros [= <- <-].
Qed.

Lemma table_pc made sh pc sh' pc' : table_thread made sh pc = Some (sh', pc') →
  pc' ≠ PWait ∧ (pc' = PDone → is_thread_run sh' = false).
Proof.
  destruct pc; cbn; unfold asleep; try done; try (by intros [= <- <-]).
  - destruct (is_thread_run sh) eqn:Hr; by intros [= <- <-].
  - destruct (_ <=? _); by intros [= <- <-].
Qed.

Lemma stat_pc_waits sh pc sh' pc' : stat_thread g_stat_interval sh pc = Some (sh', pc') → pc' ≠ PWait.
Proof.
  destruct pc; cbn; unfold asleep; try done; try (by intros [= <- <-]).
  - destruct (is_thread_run sh) eqn:Hr; by intros [= <- <-].
  - destruct (_ <=? _); by intros [= <- <-].
Qed.

Lemma lock_step i work sh pc sh' pc' j : engine_thread i work sh pc = Some (sh', pc') →
  (total_request_lock sh' = Some j → j = i ∧ in_section pc' = true ∨
     total_request_lock sh = Some j ∧ (j = i → in_section pc = true → in_section pc' = true)).
Proof.
  destruct pc as [|st|st|st|st k|st k v|st|st]; cbn; try done; try (intros [= <- <-] ?; by right).
  - destruct (total_request_lock sh) eqn:Hl; [done|]. intros [= <- <-] [= <-]. by left.
  - destruct (requests st !! k); intros [= <- <-] Hl; by right.
Qed.

Lemma alive_step s s' : step s s' → alive s → alive s'.
Proof.
  intros Hst [A1 A2 A3 A4 A5 A6].
  split; [by eapply time_inv_step|by eapply waits_inv_step|by eapply total_inv_step|..];
    destruct Hst as [s d Hd|s sh' pc Hs|s made sh' pc Hs|s sh' pc Hs|s sh' pc Hs|s i work pc0 sh' pc Hi Hs];
    cbn [table_at stat_at engines Threads.sh]; try done.
  - destruct (time_life _ _ _ _ Hs) as (_ & Hr & _). split; [apply A4|]. intros Hp. by apply Hr, A4.
  - by eapply table_pc.
  - by apply alter_shared in Hs as ->.
  - by apply stat_shared in Hs as ->.
  - apply engine_life in Hs. injection Hs as _ _ Hr _. by rewrite Hr.
  - by eapply stat_pc_waits.
  - destruct (time_life _ _ _ _ Hs) as ([= _ Hl] & _ & _). by rewrite Hl.
  - by apply table_shared in Hs as [-> | ->].
  - by apply alter_shared in Hs as ->.
  - by apply stat_shared in Hs as ->.
  - intros j Hj. destruct (lock_step _ _ _ _ _ _ j Hs Hj) as [[-> Hp]|[Hl Hp]].
    + exists pc. split; [|done]. apply list_lookup_insert_eq. by apply lookup_lt_Some in Hi.
    + destruct (A6 j Hl) as (q & Hq & Hin). destruct (decide (j = i)) as [->|Hne].
      * rewrite Hi in Hq. injection Hq as <-. exists pc. split; [|by apply Hp].
        apply list_lookup_insert_eq. by apply lookup_lt_Some in Hi.
      * exists q. by rewrite list_lookup_insert_ne by done.
Qed.

Lemma alive_start n t0 : alive (start_engine n t0).
Proof.
  split; try done.
  - intros _. split; [done|]. by apply Forall_replicate.
  - exact (total_inv_run 0 0 0 n t0 _ (rtc_refl _ _)).
Qed.

Lemma alive_run s s' : rtc step s s' → alive s → alive s'.
Proof. intros Hr Ha. by apply (rtc_invariant step alive s s' alive_step Hr). Qed.

(** *** Towards the end, thread by thread *)

(** From [s] the threads can come to a state with [P]. *)
Definition can (P : sys → Prop) s : Prop := ∃ s', rtc step s s' ∧ P s'.

Lemma can_now (P : sys → Prop) s : P s → can P s.
Proof. intros HP. exists s. split; [apply rtc_refl|done]. Qed.
Lemma can_step (P : sys → Prop) s s' : step s s' → can P s' → can P s.
Proof. intros Hs (s2 & Hr & HP). exists s2. split; [by eapply rtc_l|done]. Qed.
Lemma can_then (P Q : sys → Prop) s : can P s → (∀ s', P s' → can Q s') → can Q s.
Proof.
  intros (s1 & Hr1 & HP) HQ. destruct (HQ s1 HP) as (s2 & Hr2 & HQ2).
  exists s2. split; [by etrans|done].
Qed.
Lemma can_more (P Q : sys → Prop) s : can P s → (∀ s', P s' → Q s') → can Q s.
Proof. intros (s' & Hr & HP) HQ. exists s'. auto. Qed.
Lemma can_alive (P : sys → Prop) s : alive s → can P s → can (λ s', alive s' ∧ P s') s.
Proof. intros Ha (s' & Hr & HP). exists s'. split_and!; [done|by eapply alive_run|done]. Qed.

(** The time thread ends the run. *)
Lemma time_ends s : alive s → can (λ s', is_thread_run (Threads.sh s') = false ∧
  has_first_table (Threads.sh s') = has_first_table (Threads.sh s)) s.
Proof.
  intros A. assert (∀ s0 start, time_at s0 = TimeTest start → end_time (Threads.sh s0) ≤ duration (Threads.sh s0) →
    can (λ s', is_thread_run (Threads.sh s') = false ∧
      has_first_table (Threads.sh s') = has_first_table (Threads.sh s0)) s0) as Hlate.
  { intros s0 start Ht Hd. eapply can_step; [apply step_time; rewrite Ht; cbn;
      by rewrite (proj2 (Z.ltb_ge _ _)) by lia|]. by apply can_now. }
  assert (∀ s0 start, time_at s0 = TimeSleep start → can (λ s', is_thread_run (Threads.sh s') = false ∧
      has_first_table (Threads.sh s') = has_first_table (Threads.sh s0)) s0) as Hsleep.
  { intros s0 start Ht. eapply can_step; [apply (step_tick _ _ _ s0
      (Z.max 0 (end_time (Threads.sh s0) + start - sh_time (Threads.sh s0)))); lia|].
    eapply can_step; [by apply step_time; cbn; rewrite Ht|].
    eapply can_more; [by eapply Hlate; cbn; [|lia]|]. cbn. done. }
  assert (∀ s0 start, time_at s0 = TimeTest start → can (λ s', is_thread_run (Threads.sh s') = false ∧
      has_first_table (Threads.sh s') = has_first_table (Threads.sh s0)) s0) as Htest.
  { intros s0 start Ht. destruct (Z.ltb_spec (duration (Threads.sh s0)) (end_time (Threads.sh s0))) as [Hd|Hd];
      [|by eapply Hlate].
    eapply can_step; [apply step_time; rewrite Ht; cbn; by rewrite (proj2 (Z.ltb_lt _ _)) by lia|].
    by eapply can_more; [by eapply Hsleep|]. }
  pose proof (al_time _ A) as Hinv. unfold time_inv in Hinv. destruct (time_at s) eqn:Ht.
  - eapply can_step; [apply step_time; by rewrite Ht|]. by eapply can_more; [by eapply Htest|].
  - by eapply Htest.
  - by eapply Hsleep.
  - apply can_now. by destruct Hinv.
Qed.

(** The table thread makes a table, if it comes to its work once more. *)
Lemma table_makes s : alive s → is_thread_run (Threads.sh s) = true ∨ table_at s = PBody →
  can (λ s', has_first_table (Threads.sh s') = true) s.
Proof.
  intros A Hr. set (P := λ s', has_first_table (Threads.sh s') = true).
  assert (∀ s0, table_at s0 = PBody → can P s0) as Hbody.
  { intros s0 Hb. eapply can_step; [apply (step_table _ _ _ s0 true); by rewrite Hb|]. by apply can_now. }
  assert (∀ s0, table_at s0 = PTest → is_thread_run (Threads.sh s0) = true → can P s0) as Htest.
  { intros s0 Hb Hrun. eapply can_step; [apply (step_table _ _ _ s0 true); rewrite Hb; cbn; by rewrite Hrun|].
    by apply Hbody. }
  assert (∀ s0 u, table_at s0 = PAsleep u → is_thread_run (Threads.sh s0) = true → can P s0) as Hasleep.
  { intros s0 u Hb Hrun. eapply can_step; [apply (step_tick _ _ _ s0 (Z.max 0 (u - sh_time (Threads.sh s0)))); lia|].
    eapply can_step; [eapply (step_table _ _ _ _ true); cbn; rewrite Hb; cbn; unfold asleep;
      cbn; by rewrite (proj2 (Z.leb_le _ _)) by lia|]. by apply Htest. }
  destruct (table_at s) as [| | | |u|] eqn:Ht.
  - by destruct (proj1 (al_table _ A)).
  - apply Htest; [done|by destruct Hr].
  - by apply Hbody.
  - destruct Hr as [Hr|]; [|done]. eapply can_step; [apply (step_table _ _ _ s true); by rewrite Ht|].
    by eapply Hasleep.
  - eapply Hasleep; [done|by destruct Hr].
  - pose proof (proj2 (al_table _ A) Ht). by destruct Hr; [congruence|].
Qed.

(** A thread that works, naps and looks whether the run is over. *)
Record paced (f : shared → pacer_pc → option (shared * pacer_pc)) : Prop := {
  pd_test sh : f sh PTest = Some (sh, if is_thread_run sh then PBody else PDone);
  pd_body sh : f sh PBody = Some (sh, PNap);
  pd_nap sh : ∃ u, f sh PNap = Some (sh, PAsleep u);
  pd_asleep sh u : f sh (PAsleep u) = asleep u sh;
}.

(** When the run is over it ends. *)
Lemma pacer_ends f (put : shared → pacer_pc → sys) sh pc :
  paced f → (∀ sh pc sh' pc', f sh pc = Some (sh', pc') → step (put sh pc) (put sh' pc')) →
  (∀ sh pc d, 0 ≤ d → step (put sh pc) (put (set_time (sh_time sh + d) sh) pc)) →
  is_thread_run sh = false → pc ≠ PWait →
  ∃ t, rtc step (put sh pc) (put (set_time t sh) PDone).
Proof.
  intros F Hf Htick Hrun Hpc.
  assert (∀ sh, is_thread_run sh = false → rtc step (put sh PTest) (put sh PDone)) as Htest.
  { intros sh0 H0. apply rtc_once, Hf. by rewrite (pd_test _ F), H0. }
  assert (∀ sh u, is_thread_run sh = false →
    ∃ t, rtc step (put sh (PAsleep u)) (put (set_time t sh) PDone)) as Hasleep.
  { intros sh0 u H0. exists (sh_time sh0 + Z.max 0 (u - sh_time sh0)).
    eapply rtc_l; [apply (Htick _ _ (Z.max 0 (u - sh_time sh0))); lia|].
    eapply rtc_l; [|by apply Htest]. apply Hf. rewrite (pd_asleep _ F). unfold asleep. cbn.
    by rewrite (proj2 (Z.leb_le _ _)) by lia. }
  assert (∀ sh, is_thread_run sh = false →
    ∃ t, rtc step (put sh PNap) (put (set_time t sh) PDone)) as Hnap.
  { intros sh0 H0. destruct (pd_nap _ F sh0) as [u Hu]. destruct (Hasleep sh0 u H0) as [t Ht].
    exists t. eapply rtc_l; [by apply Hf|done]. }
  assert (set_time (sh_time sh) sh = sh) as Hsame by by destruct sh.
  destruct pc as [| | | |u|]; [done| | |by apply Hnap|by apply Hasleep|].
  - exists (sh_time sh). rewrite Hsame. by apply Htest.
  - destruct (Hnap sh Hrun) as [t Ht]. exists t. eapply rtc_l; [apply Hf, F|done].
  - exists (sh_time sh). by rewrite Hsame.
Qed.

Lemma table_paced : paced (table_thread false).
Proof. split; try done. intros sh. by eexists. Qed.
Lemma alter_paced : paced (alter_thread g_alter_interval).
Proof. split; try done. intros sh. by eexists. Qed.
Lemma stat_paced : paced (stat_thread g_stat_interval).
Proof. split; try done. intros sh. by eexists. Qed.

(** The three of them. *)
Lemma pacers_end s : alive s → is_thread_run (Threads.sh s) = false →
  has_first_table (Threads.sh s) = true →
  ∃ t, rtc step s (Sys (set_time t (Threads.sh s)) (time_at s) PDone PDone PDone (engines s)).
Proof.
  intros A Hrun Hfirst. destruct s as [sh0 ti ta al st en]. cbn in *.
  destruct (pacer_ends (table_thread false) (λ sh pc, Sys sh ti pc al st en) sh0 ta table_paced)
    as [t1 H1]; [intros; by apply (step_table _ _ _ (Sys _ _ _ _ _ _) false)
      |intros; by apply (step_tick _ _ _ (Sys _ _ _ _ _ _))|done|by apply (al_table _ A)|].
  assert (∃ al', al' ≠ PWait ∧ rtc step (Sys (set_time t1 sh0) ti PDone al st en)
    (Sys (set_time t1 sh0) ti PDone al' st en)) as (al' & Hal & H2).
  { assert (al = PWait ∨ al ≠ PWait) as [->|Hne] by (destruct al; auto); [|by exists al]. exists PTest. split; [done|].
    apply rtc_once. eapply (step_alter _ _ _ (Sys _ _ _ _ _ _)). cbn. by rewrite Hfirst. }
  destruct (pacer_ends (alter_thread g_alter_interval) (λ sh pc, Sys sh ti PDone pc st en)
    (set_time t1 sh0) al' alter_paced) as [t3 H3];
    [intros; by apply (step_alter _ _ _ (Sys _ _ _ _ _ _))
      |intros; by apply (step_tick _ _ _ (Sys _ _ _ _ _ _))|done|done|].
  destruct (pacer_ends (stat_thread g_stat_interval) (λ sh pc, Sys sh ti PDone PDone pc en)
    (set_time t3 (set_time t1 sh0)) st stat_paced) as [t4 H4];
    [intros; by apply (step_stat _ _ _ (Sys _ _ _ _ _ _))
      |intros; by apply (step_tick _ _ _ (Sys _ _ _ _ _ _))|done|by apply (al_stat _ A)|].
  exists t4. etrans; [exact H1|]. etrans; [exact H2|]. etrans; [exact H3|exact H4].
Qed.

(** *** The engine threads *)

Definition with_engines sh l s : sys := Sys sh (time_at s) (table_at s) (alter_at s) (stat_at s) l.

(** A step of one of them. *)
Lemma engine_steps s i work pc sh l sh' pc' : l !! i = Some pc →
  engine_thread i work sh pc = Some (sh', pc') →
  step (with_engines sh l s) (with_engines sh' (<[i := pc']> l) s).
Proof. intros Hi He. by eapply (step_engine _ _ _ (with_engines sh l s)). Qed.

(** The thread [i] can come to its end, with the lock free. *)
Definition ends s i sh l : Prop := ∃ sh' st, life sh' = life sh ∧ total_request_lock sh' = None ∧
  rtc step (with_engines sh l s) (with_engines sh' (<[i := EDone st]> l) s).

Lemma ends_after s i work sh l pc sh' pc' : l !! i = Some pc →
  engine_thread i work sh pc = Some (sh', pc') → ends s i sh' (<[i := pc']> l) → ends s i sh l.
Proof.
  intros Hi He (sh2 & st & Hl & Hk & Hr). exists sh2, st. split_and!; [|done|].
  - rewrite Hl. by eapply engine_life.
  - eapply rtc_l; [by eapply engine_steps|]. by rewrite list_insert_insert_eq in Hr.
Qed.

Lemma at_index (l : list engine_pc) i pc pc' : l !! i = Some pc → <[i := pc']> l !! i = Some pc'.
Proof. intros Hi. apply list_lookup_insert_eq. by apply lookup_lt_Some in Hi. Qed.

Lemma adds_end s i (m : nat) st (k : nat) sh l : (4 ≤ k + m)%nat → l !! i = Some (EAdd st k) → ends s i sh l.
Proof.
  revert k sh l. induction m as [|m IH]; intros k sh l Hk Hi.
  - assert (requests st !! k = None) as Hr by (apply lookup_ge_None; cbn; lia).
    eapply (ends_after s i id); [exact Hi|cbn; by rewrite Hr|].
    eapply (ends_after s i id); [by eapply at_index|done|].
    eexists _, st. split_and!; [done|done|]. rewrite !list_insert_insert_eq. apply rtc_refl.
  - destruct (requests st !! k) as [x|] eqn:Hr.
    + eapply (ends_after s i id); [exact Hi|cbn; by rewrite Hr|].
      eapply (ends_after s i id); [by eapply at_index|done|].
      apply (IH (S k)); [lia|]. by eapply at_index, at_index.
    + eapply (ends_after s i id); [exact Hi|cbn; by rewrite Hr|].
      eapply (ends_after s i id); [by eapply at_index|done|].
      eexists _, st. split_and!; [done|done|]. rewrite !list_insert_insert_eq. apply rtc_refl.
Qed.

Lemma engine_ends s i pc sh l : l !! i = Some pc →
  is_thread_run sh = false → has_first_table sh = true →
  in_section pc = true ∨ total_request_lock sh = None → ends s i sh l.
Proof.
  intros Hi Hrun Hfirst Hlock.
  assert (∀ st sh l, l !! i = Some (ELock st) → total_request_lock sh = None → ends s i sh l) as Hl.
  { intros st sh0 l0 H0 H1. eapply (ends_after s i id); [exact H0|cbn; by rewrite H1|].
    eapply (adds_end s i 4 st 0); [lia|by eapply at_index]. }
  assert (∀ st l, l !! i = Some (ETest st) → total_request_lock sh = None → ends s i sh l) as Ht.
  { intros st l0 H0 H1. eapply (ends_after s i id); [exact H0|cbn; by rewrite Hrun|].
    eapply Hl; [by eapply at_index|done]. }
  destruct pc as [|st|st|st|st k|st k v|st|st]; cbn in Hlock; try (destruct Hlock as [|Hlock]; [done|]).
  - eapply (ends_after s i id); [exact Hi|cbn; by rewrite Hfirst|]. eapply Ht; [by eapply at_index|done].
  - by eapply Ht.
  - eapply (ends_after s i id); [exact Hi|done|]. eapply Ht; [by eapply at_index|done].
  - by eapply Hl.
  - eapply (adds_end s i 4 st k); [lia|done].
  - eapply (ends_after s i id); [exact Hi|done|]. eapply (adds_end s i 4 st (S k)); [lia|by eapply at_index].
  - eapply (ends_after s i id); [exact Hi|done|]. eexists _, st. split_and!; [done|done|].
    rewrite !list_insert_insert_eq. apply rtc_refl.
  - exists sh, st. split_and!; [done|done|]. rewrite list_insert_id by done. apply rtc_refl.
Qed.

Definition is_done (pc : engine_pc) : bool := match pc with EDone _ => true | _ => false end.

(** One after the other. *)
Lemma engines_end s sh l (m : nat) : is_thread_run sh = false → has_first_table sh = true →
  total_request_lock sh = None → (m ≤ length l)%nat →
  ∃ sh' l', rtc step (with_engines sh l s) (with_engines sh' l' s) ∧ life sh' = life sh ∧
    total_request_lock sh' = None ∧ length l' = length l ∧ forallb is_done (take m l') = true.
Proof.
  intros Hrun Hfirst Hlock. induction m as [|m IH]; intros Hm.
  { exists sh, l. split_and!; [apply rtc_refl|done..]. }
  destruct IH as (sh1 & l1 & Hr1 & Hl1 & Hk1 & Hlen & Hd); [lia|].
  destruct (lookup_lt_is_Some_2 l1 m) as [pc Hi]; [lia|]. pose proof Hl1 as [= _ _ Hrun1 Hfirst1].
  destruct (engine_ends s m pc sh1 l1 Hi) as (sh2 & st & Hl2 & Hk2 & Hr2); [congruence..|by right|].
  exists sh2, (<[m := EDone st]> l1). split_and!; [by etrans|congruence|done|by rewrite length_insert|].
  rewrite (take_S_r _ _ (EDone st)) by (by eapply at_index).
  rewrite take_insert_ge by lia. rewrite forallb_app, Hd. done.
Qed.

(** The run is over, and there is no table. *)
Definition stranded s : Prop := is_thread_run (Threads.sh s) = false ∧
  has_first_table (Threads.sh s) = false ∧ table_at s ≠ PBody.

Lemma stranded_step s s' : step s s' → stranded s → stranded s'.
Proof.
  unfold stranded.
  destruct 1 as [s d Hd|s sh' pc Hs|s made sh' pc Hs|s sh' pc Hs|s sh' pc Hs|s i work pc0 sh' pc Hi Hs];
    cbn; intros (Hr & Hf & Ht).
  - done.
  - destruct (time_life _ _ _ _ Hs) as (_ & Hrun & ->). split_and!; [by apply Hrun|done|done].
  - destruct (table_at s); cbn in Hs; unfold asleep in Hs; try done; try (by injection Hs as <- <-).
    + rewrite Hr in Hs. by injection Hs as <- <-.
    + destruct (_ <=? _); [by injection Hs as <- <-|done].
  - by apply alter_shared in Hs as ->.
  - by apply stat_shared in Hs as ->.
  - apply engine_life in Hs. injection Hs as _ _ -> ->. done.
Qed.

(** Everything has ended. *)
Lemma run_over_joins s : alive s → is_thread_run (Threads.sh s) = false →
  has_first_table (Threads.sh s) = true → can (λ s', joined s' = true) s.
Proof.
  intros A Hrun Hfirst. destruct (pacers_end s A Hrun Hfirst) as [t Hp].
  set (s1 := Sys _ _ _ _ _ _) in Hp. pose proof (alive_run _ _ Hp A) as A1.
  assert (∃ sh l, rtc step s1 (with_engines sh l s1) ∧ is_thread_run sh = false ∧
    has_first_table sh = true ∧ total_request_lock sh = None) as (sh & l & Hr & Hrun1 & Hfirst1 & Hlock).
  { destruct (total_request_lock (Threads.sh s1)) as [i|] eqn:Hl.
    - destruct (al_lock _ A1 i Hl) as (pc & Hi & Hin).
      destruct (engine_ends s1 i pc (Threads.sh s1) (engines s1) Hi) as (sh & st & Hl2 & Hk & Hr);
        [done|done|by left|]. unfold life in Hl2. injection Hl2 as _ _ H1 H2. exists sh, (<[i := EDone st]> (engines s1)).
      split_and!; [exact Hr|by rewrite H1|by rewrite H2|done].
    - exists (Threads.sh s1), (engines s1). by split_and!; [apply rtc_refl|..]. }
  destruct (engines_end s1 sh l (length l) Hrun1 Hfirst1 Hlock) as (sh2 & l2 & Hr2 & _ & _ & Hlen & Hd); [done|].
  exists (with_engines sh2 l2 s1). split; [etrans; [exact Hp|by etrans]|].
  rewrite <- Hlen, firstn_all in Hd. exact Hd.
Qed.

(** C17 (the end can be reached). From every state that the threads can reach they can still be
    joined, whatever they have done before, exactly if there is a table, or the run is not over, or
    the table thread is at work: no order of their steps blocks them.  When the run is over and no table
    has been made, [start_engine] never returns. *)
Theorem can_be_joined n t0 s : rtc step (start_engine n t0) s →
  ((∃ s', rtc step s s' ∧ joined s' = true) ↔
   has_first_table (Threads.sh s) = true ∨ is_thread_run (Threads.sh s) = true ∨ table_at s = PBody).
Proof.
  intros Hr. pose proof (alive_run _ _ Hr (alive_start n t0)) as A. split.
  - intros (s' & Hr' & Hj).
    destruct (has_first_table (Threads.sh s)) eqn:Hf; [by left|right].
    destruct (is_thread_run (Threads.sh s)) eqn:Hrun; [by left|right].
    assert (table_at s = PBody ∨ table_at s ≠ PBody) as [|Hne] by (destruct (table_at s); auto); [done|].
    assert (stranded s') as (_ & Hf' & _)
      by (by apply (rtc_invariant step stranded s s' stranded_step Hr')).
    destruct (al_waits _ (alive_run _ _ Hr' A) Hf') as [Ha _].
    unfold joined in Hj. rewrite Ha in Hj. by destruct (table_at s').
  - intros Hor. change (can (λ s', joined s' = true) s).
    assert (can (λ s', has_first_table (Threads.sh s') = true) s) as Hcan.
    { destruct Hor as [|Hor]; [by apply can_now|by apply table_makes]. }
    eapply can_then; [by apply can_alive|]. intros s1 [A1 Hf1].
    eapply can_then; [by apply can_alive, time_ends|]. intros s2 (A2 & Hrun2 & Hf2).
    apply run_over_joins; [done..|]. by rewrite Hf2.
Qed.
End ending.

(** ** Witness *)

(** A run of no seconds is over before the table thread has made a table. *)
Definition too_short : sys :=
  Sys (Shared 0 0 0 false false None 0) TimeDone PTest PWait PTest [EWait].

Lemma too_short_reachable : rtc (sys_step 0 30 1) (start_engine 1 0) too_short.
Proof.
  eapply rtc_l; [eapply step_time; cbn; reflexivity|]. cbn.
  eapply rtc_l; [eapply step_time; cbn; reflexivity|]. apply rtc_refl.
Qed.

Example can_be_joined_witness :
  (∃ s', rtc (sys_step 0 30 1) (start_engine 1 0) s' ∧ joined s' = true) ∧
  ¬ ∃ s', rtc (sys_step 0 30 1) too_short s' ∧ joined s' = true.
Proof.
  split.
  - apply (can_be_joined 0 30 1 1 0 _ (rtc_refl _ _)). right. by left.
  - intros Hj. apply (can_be_joined 0 30 1 1 0 _ too_short_reachable) in Hj.
    cbn in Hj. destruct Hj as [?|[?|?]]; discriminate.
Defined.
