(* ===== verification/System.v ===== *)
(** * System: the whole program at work (src/src/engine/cq_engine.c)

    [Threads] is what the threads do to the variables that control them;
    [Engine] is what one of them does to the tables and the servers.  Here the
    two are put together: every thread has its own context, the threads take
    turns on the shared data, and a step can end the program.  The engine threads
    are interleaved at every command of their lists; a turn of the table thread
    and of the alter thread is one step. *)

From stdpp Require Import base gmap sets list relations strings.
From Stdlib Require Import ZArith Lia.
From S2P Require Import Prelude Outcomes Mylib Vector Hash Heap CText Names.
From S2P Require Import Command Table Schemas Races Server EngineCtx SqlGen MysqlCmd Ddl Safety Engine Turns Threads.
Local Open Scope Z_scope.

(** Where the table thread or the alter thread is; [c] is its [eng_ctx]. *)
Inductive worker `{MysqlClient} :=
  | WWait
  | WInit
  | WTest (c : eng_ctx_t)
  | WBody (c : eng_ctx_t)
  | WNap (c : eng_ctx_t)
  | WAsleep (c : eng_ctx_t) (until : Z)
  | WDestroy (c : eng_ctx_t)
  | WDone.

(** Where an engine thread is; [TTravel] is the loop of [travel_command_list]. *)
Inductive engine_at `{MysqlClient} :=
  | TWait
  | TInit
  | TTest (c : eng_ctx_t)
  | TConfig (c : eng_ctx_t)
  | TFirst (c : eng_ctx_t)
  | TTravel (c : eng_ctx_t) (pcmd_list cmd : option loc)
  | TFree (c : eng_ctx_t)
  | TLock (c : eng_ctx_t)
  | TAdd (c : eng_ctx_t) (k : nat)
  | TLoaded (c : eng_ctx_t) (k : nat) (v : Z)
  | TUnlock (c : eng_ctx_t)
  | TDestroy (c : eng_ctx_t)
  | TDone (st : eng_stats).

(** The statistics thread, with the time at which it started. *)
Inductive stat_at_t := SStart | SRun (start : Z) (pc : pacer_pc).

Record system `{MysqlClient} := System {
  ctl : shared;
  time_thr : time_pc;
  table_thr : worker;
  alter_thr : worker;
  stat_thr : stat_at_t;
  engine_thrs : list engine_at;
  data : engine;
}.

Section steps.
Context `{Allocator} `{RandSource} `{Clock} `{MysqlClient}.
Context (g_username g_password : cstring).
Context (g_end_time g_alter_interval g_stat_interval : Z).
(** [table_para] and [alter_para] are not initialised. *)
Context (table_tid alter_tid : Z).
Implicit Types (e : engine) (c : eng_ctx_t) (sh : shared).

(** The shared data as the thread with the context [c] sees them. *)
Definition as_thread c e : engine :=
  Engine _ (with_ctx c (e_world e)) (e_cmds e) (engine_frandom_seed e) (cluster_base e).

(** A thread runs [m]: what it answers, its context and the data, or the end. *)
Definition turn {A} (m : M engine A) e : res (A * eng_ctx_t * engine) :=
  match m e with
  | (Ok a, e') => Ok (a, w_ctx (e_world e'), e')
  | (Stop w, _) => Stop w
  end.

Definition table_step sh e (t : worker) : option (res (shared * worker * engine)) :=
  match t with
  | WWait | WDone => None
  | WInit => Some ('(_, c, e') ← turn (eng_context_init g_username g_password table_tid) e;
                   Ok (sh, WTest c, e'))
  | WTest c => Some (Ok (sh, if is_thread_run sh then WBody c else WDestroy c, e))
  | WBody c => Some ('(made, c', e') ← turn table_turn (as_thread c e);
                     Ok (if (made : bool) then set_first_table true sh else sh, WNap c', e'))
  | WNap c => Some (Ok (sh, WAsleep c (sh_time sh + nap TABLE_THREAD_SLEEP sh), e))
  | WAsleep c until => if until <=? sh_time sh then Some (Ok (sh, WTest c, e)) else None
  | WDestroy c => Some ('(_, _, e') ← turn eng_context_destroy (as_thread c e); Ok (sh, WDone, e'))
  end.

Definition alter_step sh e (t : worker) : option (res (shared * worker * engine)) :=
  match t with
  | WWait => Some (Ok (sh, if has_first_table sh then WInit else WWait, e))
  | WInit => Some ('(_, c, e') ← turn (eng_context_init g_username g_password alter_tid) e;
                   Ok (sh, WTest c, e'))
  | WTest c => Some (Ok (sh, if is_thread_run sh then WBody c else WDestroy c, e))
  | WBody c => Some ('(_, c', e') ← turn alter_turn (as_thread c e); Ok (sh, WNap c', e'))
  | WNap c => Some (Ok (sh, WAsleep c (sh_time sh + nap g_alter_interval sh), e))
  | WAsleep c until => if until <=? sh_time sh then Some (Ok (sh, WTest c, e)) else None
  | WDestroy c => Some ('(_, _, e') ← turn eng_context_destroy (as_thread c e); Ok (sh, WDone, e'))
  | WDone => None
  end.

(** The report goes to [stderr]. *)
Definition print_stats (time_passed : Z) : M engine () :=
  st ← mgets (λ e, g_stat (e_world e));
  log ← mlift (stat_log st time_passed);
  on_world (mmodify (λ w, with_stderr (w_stderr w ++ log ++ newline) w)).

Definition stat_step sh e (t : stat_at_t) : option (res (shared * stat_at_t * engine)) :=
  match t with
  | SStart => Some (Ok (sh, SRun (sh_time sh) PTest, e))
  | SRun start PBody => Some ('(_, _, e') ← turn (print_stats (sh_time sh - start)) e;
                              Ok (sh, SRun start PNap, e'))
  | SRun start pc => '(sh', pc') ← stat_thread g_stat_interval sh pc;
                     Some (Ok (sh', SRun start pc', e))
  end.

(** The step of the engine thread [i]. *)
Definition engine_step (i : nat) sh e (t : engine_at) : option (res (shared * engine_at * engine)) :=
  match t with
  | TWait => Some (Ok (sh, if has_first_table sh then TInit else TWait, e))
  | TInit => Some ('(_, c, e') ← turn (eng_context_init g_username g_password (Z.of_nat i)) e;
                   Ok (sh, TTest c, e'))
  | TTest c => Some (Ok (sh, if is_thread_run sh then TConfig c else TLock c, e))
  | TConfig c => Some ('(_, c', e') ← turn eng_context_config (as_thread c e); Ok (sh, TFirst c', e'))
  | TFirst c => Some ('(cmd, c', e') ← turn (cmd ← on_cmd_state (get_first_cmd (cmd_list c));
                                             set_seed;; mret cmd) (as_thread c e);
                      Ok (sh, TTravel c' (cmd_list c) cmd, e'))
  | TTravel c pcmd_list cmd =>
      Some ('(r, c', e') ← turn (travel_step pcmd_list cmd) (as_thread c e);
            Ok (sh, match r with inl cmd' => TTravel c' pcmd_list cmd' | inr _ => TFree c' end, e'))
  | TFree c => Some ('(_, c', e') ← turn eng_context_free_rwservers (as_thread c e);
                     Ok (sh, TTest c', e'))
  | TLock c => match total_request_lock sh with
               | None => Some (Ok (set_lock (Some i) sh, TAdd c 0, e))
               | Some _ => None
               end
  | TAdd c k => Some (Ok (sh, match requests (stats c) !! k with
                              | Some _ => TLoaded c k (total_request sh)
                              | None => TUnlock c
                              end, e))
  | TLoaded c k v =>
      Some (Ok (set_total (v + default 0 (requests (stats c) !! k)) sh, TAdd c (S k), e))
  | TUnlock c => Some (Ok (set_lock None sh, TDestroy c, e))
  | TDestroy c => Some ('(_, _, e') ← turn eng_context_destroy (as_thread c e);
                        Ok (sh, TDone (stats c), e'))
  | TDone _ => None
  end.

(** The program goes on, or has ended. *)
Definition after {T} (f : shared → T → engine → system) (r : res (shared * T * engine))
    : system + stop :=
  match r with Ok (sh, t, e) => inl (f sh t e) | Stop w => inr w end.

Inductive step : system → system + stop → Prop :=
  | st_tick s d : 0 ≤ d →
      step s (inl (System _ (set_time (sh_time (ctl s) + d) (ctl s)) (time_thr s) (table_thr s)
                     (alter_thr s) (stat_thr s) (engine_thrs s) (data s)))
  | st_time s sh pc : time_thread g_end_time (ctl s) (time_thr s) = Some (sh, pc) →
      step s (inl (System _ sh pc (table_thr s) (alter_thr s) (stat_thr s) (engine_thrs s) (data s)))
  | st_table s r : table_step (ctl s) (data s) (table_thr s) = Some r →
      step s (after (λ sh t e, System _ sh (time_thr s) t (alter_thr s) (stat_thr s)
                       (engine_thrs s) e) r)
  | st_alter s r : alter_step (ctl s) (data s) (alter_thr s) = Some r →
      step s (after (λ sh t e, System _ sh (time_thr s) (table_thr s) t (stat_thr s)
                       (engine_thrs s) e) r)
  | st_stat s r : stat_step (ctl s) (data s) (stat_thr s) = Some r →
      step s (after (λ sh t e, System _ sh (time_thr s) (table_thr s) (alter_thr s) t
                       (engine_thrs s) e) r)
  | st_engine s i t r : engine_thrs s !! i = Some t →
      engine_step i (ctl s) (data s) t = Some r →
      step s (after (λ sh t e, System _ sh (time_thr s) (table_thr s) (alter_thr s) (stat_thr s)
                       (<[i := t]> (engine_thrs s)) e) r).

(** The program goes on. *)
Definition goes_on (s s' : system) : Prop := step s (inl s').

(** A run in which no command of a list, and no turn of the table thread or of the
    alter thread, is interrupted by another thread: this is what [step] allows. *)
Definition uninterrupted_run : system → system → Prop := rtc goes_on.

(** What [step] leaves out: [drop_table_data] of [ts] in pieces, and a generator that
    reads the value columns of [ts] in pieces ([Races]), from the tables of [s], can end
    with the use of a column that was released. *)
Definition drop_overtakes_reader (s : system) (ts : loc) : Prop := ∀ seed : nat,
  let may := eq (DropFrom ts) in
  ∃ torn, rtc (races may) (Races.Race (w_tables (e_world (data s)), seed) Idle [Begin ts]) torn ∧
    race_turn may torn (inr (Undefined UseAfterFree)).

(** [start_engine], all the threads created. *)
Definition start_system (g_engine_thread_num t0 : Z) e : system :=
  System _ (Shared t0 0 0 true false None 0) TimeInit WInit WWait SStart
    (replicate (Z.to_nat (engine_thread_num g_engine_thread_num)) TWait) e.

Definition all_joined (s : system) : bool :=
  match table_thr s, alter_thr s, stat_thr s with
  | WDone, WDone, SRun _ PDone =>
      forallb (λ t, match t with TDone _ => true | _ => false end) (engine_thrs s)
  | _, _, _ => false
  end.
End steps.

(** ** Runs that can be computed *)

Section schedules.
Context `{Allocator} `{RandSource} `{Clock} `{MysqlClient}.
Context (g_username g_password : cstring).
Context (g_end_time g_alter_interval g_stat_interval table_tid alter_tid : Z).
Notation step := (step g_username g_password g_end_time g_alter_interval g_stat_interval
                    table_tid alter_tid).
Notation goes_on := (goes_on g_username g_password g_end_time g_alter_interval g_stat_interval
                       table_tid alter_tid).
Implicit Types (s : system).

(** Whose step is next: a second, or more, may pass, or a thread is scheduled. *)
Inductive who := Tick (d : nat) | TimeThread | TableThread | AlterThread | StatThread
  | EngineThread (i : nat).

Definition exec_step (x : who) s : option (system + stop) :=
  match x with
  | Tick d => Some (inl (System _ (set_time (sh_time (ctl s) + Z.of_nat d) (ctl s)) (time_thr s)
                (table_thr s) (alter_thr s) (stat_thr s) (engine_thrs s) (data s)))
  | TimeThread =>
      '(sh, pc) ← time_thread g_end_time (ctl s) (time_thr s);
      Some (inl (System _ sh pc (table_thr s) (alter_thr s) (stat_thr s) (engine_thrs s) (data s)))
  | TableThread =>
      after (λ sh t e, System _ sh (time_thr s) t (alter_thr s) (stat_thr s) (engine_thrs s) e) <$>
        table_step g_username g_password table_tid (ctl s) (data s) (table_thr s)
  | AlterThread =>
      after (λ sh t e, System _ sh (time_thr s) (table_thr s) t (stat_thr s) (engine_thrs s) e) <$>
        alter_step g_username g_password g_alter_interval alter_tid (ctl s) (data s) (alter_thr s)
  | StatThread =>
      after (λ sh t e, System _ sh (time_thr s) (table_thr s) (alter_thr s) t (engine_thrs s) e) <$>
        stat_step g_stat_interval (ctl s) (data s) (stat_thr s)
  | EngineThread i =>
      t ← engine_thrs s !! i;
      after (λ sh t e, System _ sh (time_thr s) (table_thr s) (alter_thr s) (stat_thr s)
               (<[i := t]> (engine_thrs s)) e) <$>
        engine_step g_username g_password i (ctl s) (data s) t
  end.

(** A schedule, until the program ends or a thread that is scheduled cannot go on. *)
Fixpoint exec (l : list who) s : option (system + stop) :=
  match l with
  | [] => Some (inl s)
  | x :: l => match exec_step x s with
              | Some (inl s') => exec l s'
              | o => o
              end
  end.

Lemma exec_step_sound x s o : exec_step x s = Some o → step s o.
Proof.
  destruct x as [d| | | | |i]; cbn.
  - intros [= <-]. apply st_tick. lia.
  - destruct (time_thread _ _ _) as [[sh pc]|] eqn:Ht; intros [= <-]. by apply st_time.
  - destruct (table_step _ _ _ _ _ _) as [r|] eqn:Hr; intros [= <-]. by apply st_table.
  - destruct (alter_step _ _ _ _ _ _ _) as [r|] eqn:Hr; intros [= <-]. by apply st_alter.
  - destruct (stat_step _ _ _ _) as [r|] eqn:Hr; intros [= <-]. by apply st_stat.
  - destruct (engine_thrs s !! i) as [t|] eqn:Hi; [|done]. cbn.
    destruct (engine_step _ _ _ _ _ _) as [r|] eqn:Hr; intros [= <-]. by eapply st_engine.
Qed.

Lemma exec_sound l s o : exec l s = Some o →
  ∃ s', rtc goes_on s s' ∧ match o with inl s1 => s1 = s' | inr w => step s' (inr w) end.
Proof.
  revert s. induction l as [|x l IH]; intros s; cbn [exec].
  - intros [= <-]. by exists s.
  - destruct (exec_step x s) as [[s1|w]|] eqn:Hx; [| |done].
    + intros Hl. destruct (IH _ Hl) as (s' & Hr & Ho). exists s'. split; [|done].
      eapply rtc_l; [by eapply exec_step_sound|exact Hr].
    + intros [= <-]. exists s. split; [apply rtc_refl|by eapply exec_step_sound].
Qed.
End schedules.

(** ** The program refines the threads of [Threads] *)

Section refinement.
Context `{Allocator} `{RandSource} `{Clock} `{MysqlClient}.
Context (g_username g_password : cstring).
Context (g_end_time g_alter_interval g_stat_interval table_tid alter_tid : Z).
Notation goes_on := (goes_on g_username g_password g_end_time g_alter_interval g_stat_interval
                       table_tid alter_tid).
Notation sys_step := (sys_step g_end_time g_alter_interval g_stat_interval).
Implicit Types (e : engine) (c : eng_ctx_t) (s : system) (t : sys).

(** What [Threads] sees of a thread.  It has the turns of an engine thread in one
    step, so that between the beginning and the end of a turn the statistics it
    knows are older than the thread's. *)
Definition worker_pc (w : worker) : pacer_pc :=
  match w with
  | WWait => PWait
  | WInit | WTest _ => PTest
  | WBody _ => PBody
  | WNap _ => PNap
  | WAsleep _ until => PAsleep until
  | WDestroy _ | WDone => PDone
  end.

Definition stat_pc (st : stat_at_t) : pacer_pc :=
  match st with SStart => PTest | SRun _ pc => pc end.

Definition engine_sees (a : engine_at) (pc : engine_pc) : Prop :=
  match a with
  | TWait => pc = EWait
  | TInit => pc = ETest zero_stats
  | TTest c => pc = ETest (stats c)
  | TConfig _ | TFirst _ | TTravel _ _ _ | TFree _ => ∃ st, pc = EBody st
  | TLock c => pc = ELock (stats c)
  | TAdd c k => pc = EAdd (stats c) k
  | TLoaded c k v => pc = ELoaded (stats c) k v
  | TUnlock c => pc = EUnlock (stats c)
  | TDestroy c => pc = EDone (stats c)
  | TDone st => pc = EDone st
  end.

Record sees s t : Prop := {
  se_shared : sh t = ctl s;
  se_time : time_at t = time_thr s;
  se_table : table_at t = worker_pc (table_thr s);
  se_alter : alter_at t = worker_pc (alter_thr s);
  se_stat : stat_at t = stat_pc (stat_thr s);
  se_engines : Forall2 engine_sees (engine_thrs s) (engines t);
}.

(** [eng_context_init] ends with the statistics cleared. *)
Lemma eng_context_init_zero para_tid e a c e' :
  turn (eng_context_init g_username g_password para_tid) e = Ok (a, c, e') → stats c = zero_stats.
Proof.
  assert (runs (λ _, True) (eng_context_init g_username g_password para_tid) e
    (λ _ e', stats (w_ctx (e_world e')) = zero_stats)) as Hr.
  { unfold eng_context_init.
    do 3 (eapply runs_then; [apply runs_any|intros ? ? _]).
    do 2 (eapply runs_then; [apply runs_any|intros [? ?] ? _];
          do 2 (eapply runs_then; [apply runs_any|intros ? ? _])).
    done. }
  unfold runs, turn in *. destruct (eng_context_init _ _ _ e) as [[u|w] e1]; [|done].
  by intros [= _ <- _].
Qed.

Lemma sees_engine s t i a a' pc pc' e : sees s t → engine_thrs s !! i = Some a →
  engines t !! i = Some pc → engine_sees a' pc' →
  ∀ sh', sees (System _ sh' (time_thr s) (table_thr s) (alter_thr s) (stat_thr s)
                 (<[i := a']> (engine_thrs s)) e)
              (Sys sh' (time_at t) (table_at t) (alter_at t) (stat_at t) (<[i := pc']> (engines t))).
Proof.
  intros [S1 S2 S3 S4 S5 S6] Ha Hpc Hs sh'. split; try done. cbn. by apply Forall2_insert.
Qed.

(** Nothing that [Threads] sees. *)
Lemma sees_engine_stutter s t i a a' pc e : sees s t → engine_thrs s !! i = Some a →
  engines t !! i = Some pc → engine_sees a' pc →
  sees (System _ (ctl s) (time_thr s) (table_thr s) (alter_thr s) (stat_thr s)
          (<[i := a']> (engine_thrs s)) e) t.
Proof.
  intros S Ha Hpc Hs. pose proof (sees_engine s t i a a' pc pc e S Ha Hpc Hs (ctl s)) as S'.
  rewrite (list_insert_id (engines t)) in S' by done. destruct S as [Hsh _ _ _ _ _]. destruct t. cbn in *. by subst.
Qed.

(** A step of the program is a step of the threads, or none. *)
Definition follows s t : Prop := ∃ t', rtc sys_step t t' ∧ sees s t'.

Lemma follows_one s t t' : sys_step t t' → sees s t' → follows s t.
Proof. intros Ht Hs. exists t'. split; [by apply rtc_once|done]. Qed.
Lemma follows_none s t : sees s t → follows s t.
Proof. intros Hs. by exists t. Qed.

(** The engine threads. *)
Lemma engine_follows s t i a sh' a' e' : sees s t → engine_thrs s !! i = Some a →
  engine_step g_username g_password i (ctl s) (data s) a = Some (Ok (sh', a', e')) →
  follows (System _ sh' (time_thr s) (table_thr s) (alter_thr s) (stat_thr s)
             (<[i := a']> (engine_thrs s)) e') t.
Proof.
  intros S Ha Hstep. destruct (Forall2_lookup_l _ _ _ _ _ (se_engines _ _ S) Ha) as (pc & Hpc & Hsee).
  pose proof (se_shared _ _ S) as Hsh.
  assert (∀ work pc', engine_thread i work (ctl s) pc = Some (sh', pc') → engine_sees a' pc' →
    follows (System _ sh' (time_thr s) (table_thr s) (alter_thr s) (stat_thr s)
             (<[i := a']> (engine_thrs s)) e') t) as Hone.
  { intros work pc' Hth Hs'. eapply follows_one; [|by eapply sees_engine].
    eapply step_engine; [done|]. by rewrite Hsh. }
  assert (sh' = ctl s → engine_sees a' pc →
    follows (System _ sh' (time_thr s) (table_thr s) (alter_thr s) (stat_thr s)
             (<[i := a']> (engine_thrs s)) e') t) as Hnone.
  { intros -> Hs'. by eapply follows_none, sees_engine_stutter. }
  unfold engine_step in Hstep.
  destruct a as [| |c|c|c|c p cmd|c|c|c k|c k v|c|c|st]; cbn [engine_sees] in Hsee.
  - subst pc. injection Hstep as <- <- <-.
    apply (Hone id (if has_first_table (ctl s) then ETest zero_stats else EWait)); [done|].
    by destruct (has_first_table (ctl s)).
  - subst pc. destruct (turn _ _) as [[[u c] e1]|w] eqn:Ht; [|done]. injection Hstep as <- <- <-.
    apply Hnone; [done|]. cbn. by rewrite (eng_context_init_zero _ _ _ _ _ Ht).
  - subst pc. injection Hstep as <- <- <-.
    apply (Hone id (if is_thread_run (ctl s) then EBody (stats c) else ELock (stats c))); [done|].
    destruct (is_thread_run (ctl s)); [by eexists|done].
  - destruct (turn _ _) as [[[u c'] e1]|w]; [|done]. injection Hstep as <- <- <-. by apply Hnone.
  - destruct (turn _ _) as [[[u c'] e1]|w]; [|done]. injection Hstep as <- <- <-. by apply Hnone.
  - destruct (turn _ _) as [[[[cmd'|u] c'] e1]|w]; [| |done]; injection Hstep as <- <- <-; by apply Hnone.
  - destruct (turn _ _) as [[[u c'] e1]|w]; [|done]. injection Hstep as <- <- <-.
    destruct Hsee as [st ->]. by apply (Hone (λ _, stats c') (ETest (stats c'))).
  - subst pc. destruct (total_request_lock (ctl s)) eqn:Hl; [done|]. injection Hstep as <- <- <-.
    apply (Hone id (EAdd (stats c) 0)); [|done]. cbn. by rewrite Hl.
  - subst pc. injection Hstep as <- <- <-.
    apply (Hone id (match requests (stats c) !! k with
      Some _ => ELoaded (stats c) k (total_request (ctl s)) | None => EUnlock (stats c) end));
      cbn [engine_thread]; by destruct (requests (stats c) !! k).
  - subst pc. injection Hstep as <- <- <-. by apply (Hone id (EAdd (stats c) (Datatypes.S k))).
  - subst pc. injection Hstep as <- <- <-. by apply (Hone id (EDone (stats c))).
  - subst pc. destruct (turn _ _) as [[[u c'] e1]|w]; [|done]. injection Hstep as <- <- <-.
    by apply Hnone.
  - done.
Qed.

Lemma table_follows s t sh' w' e' : sees s t →
  table_step g_username g_password table_tid (ctl s) (data s) (table_thr s) = Some (Ok (sh', w', e')) →
  follows (System _ sh' (time_thr s) w' (alter_thr s) (stat_thr s) (engine_thrs s) e') t.
Proof.
  intros [S1 S2 S3 S4 S5 S6] Hstep.
  assert (∀ made pc', table_thread made (ctl s) (worker_pc (table_thr s)) = Some (sh', pc') →
    worker_pc w' = pc' →
    follows (System _ sh' (time_thr s) w' (alter_thr s) (stat_thr s) (engine_thrs s) e') t) as Hone.
  { intros made pc' Hth Hw. eapply follows_one; [eapply step_table; rewrite S1, S3; exact Hth|].
    by split. }
  assert (sh' = ctl s → worker_pc w' = worker_pc (table_thr s) →
    follows (System _ sh' (time_thr s) w' (alter_thr s) (stat_thr s) (engine_thrs s) e') t) as Hnone.
  { intros -> Hw. apply follows_none. split; try done. cbn. congruence. }
  unfold table_step in Hstep. destruct (table_thr s) as [| |c|c|c|c until|c|]; try done.
  - destruct (turn _ _) as [[[u c] e1]|w]; [|done]. injection Hstep as <- <- <-. by apply Hnone.
  - injection Hstep as <- <- <-. apply (Hone true _ eq_refl). by destruct (is_thread_run (ctl s)).
  - destruct (turn _ _) as [[[made c'] e1]|w]; [|done]. injection Hstep as <- <- <-.
    by apply (Hone made PNap).
  - injection Hstep as <- <- <-. by apply (Hone true _ eq_refl).
  - destruct (until <=? sh_time (ctl s)) eqn:Hu; [|done]. injection Hstep as <- <- <-.
    apply (Hone true PTest); [|done]. cbn. unfold asleep. by rewrite Hu.
  - destruct (turn _ _) as [[[u c'] e1]|w]; [|done]. injection Hstep as <- <- <-. by apply Hnone.
Qed.

Lemma alter_follows s t sh' w' e' : sees s t →
  alter_step g_username g_password g_alter_interval alter_tid (ctl s) (data s) (alter_thr s) =
    Some (Ok (sh', w', e')) →
  follows (System _ sh' (time_thr s) (table_thr s) w' (stat_thr s) (engine_thrs s) e') t.
Proof.
  intros [S1 S2 S3 S4 S5 S6] Hstep.
  assert (∀ pc', alter_thread g_alter_interval (ctl s) (worker_pc (alter_thr s)) = Some (sh', pc') →
    worker_pc w' = pc' →
    follows (System _ sh' (time_thr s) (table_thr s) w' (stat_thr s) (engine_thrs s) e') t) as Hone.
  { intros pc' Hth Hw. eapply follows_one; [eapply step_alter; rewrite S1, S4; exact Hth|].
    by split. }
  assert (sh' = ctl s → worker_pc w' = worker_pc (alter_thr s) →
    follows (System _ sh' (time_thr s) (table_thr s) w' (stat_thr s) (engine_thrs s) e') t) as Hnone.
  { intros -> Hw. apply follows_none. split; try done. cbn. congruence. }
  unfold alter_step in Hstep. destruct (alter_thr s) as [| |c|c|c|c until|c|]; try done.
  - injection Hstep as <- <- <-. apply (Hone _ eq_refl). by destruct (has_first_table (ctl s)).
  - destruct (turn _ _) as [[[u c] e1]|w]; [|done]. injection Hstep as <- <- <-. by apply Hnone.
  - injection Hstep as <- <- <-. apply (Hone _ eq_refl). by destruct (is_thread_run (ctl s)).
  - destruct (turn _ _) as [[[made c'] e1]|w]; [|done]. injection Hstep as <- <- <-.
    by apply (Hone PNap).
  - injection Hstep as <- <- <-. by apply (Hone _ eq_refl).
  - destruct (until <=? sh_time (ctl s)) eqn:Hu; [|done]. injection Hstep as <- <- <-.
    apply (Hone PTest); [|done]. cbn. unfold asleep. by rewrite Hu.
  - destruct (turn _ _) as [[[u c'] e1]|w]; [|done]. injection Hstep as <- <- <-. by apply Hnone.
Qed.

Lemma stat_follows s t sh' st' e' : sees s t →
  stat_step g_stat_interval (ctl s) (data s) (stat_thr s) = Some (Ok (sh', st', e')) →
  follows (System _ sh' (time_thr s) (table_thr s) (alter_thr s) st' (engine_thrs s) e') t.
Proof.
  intros [S1 S2 S3 S4 S5 S6] Hstep.
  assert (∀ pc', stat_thread g_stat_interval (ctl s) (stat_pc (stat_thr s)) = Some (sh', pc') →
    stat_pc st' = pc' →
    follows (System _ sh' (time_thr s) (table_thr s) (alter_thr s) st' (engine_thrs s) e') t) as Hone.
  { intros pc' Hth Hw. eapply follows_one; [eapply step_stat; rewrite S1, S5; exact Hth|].
    by split. }
  unfold stat_step in Hstep. destruct (stat_thr s) as [|start pc].
  - injection Hstep as <- <- <-. apply follows_none. by split.
  - assert (∀ r, stat_thread g_stat_interval (ctl s) pc = Some r →
      Some (Ok (r.1, SRun start r.2, data s)) = Some (Ok (sh', st', e')) →
      follows (System _ sh' (time_thr s) (table_thr s) (alter_thr s) st' (engine_thrs s) e') t) as Hth.
    { intros [sh1 pc1] Hr [= <- <- <-]. by apply (Hone pc1). }
    destruct pc; first [done|by eapply Hth|cbn in Hstep].
    + destruct (turn _ _) as [[[u c] e1]|w]; [|done]. injection Hstep as <- <- <-.
      by apply (Hone PNap).
    + cbn in Hth. destruct (asleep until (ctl s)) as [[sh1 pc1]|]; [|done]. by eapply Hth.
Qed.

(** Every step of the program is one that the threads of [Threads] can make, or
    one of which they see nothing. *)
Lemma goes_on_follows s s' t : goes_on s s' → sees s t → follows s' t.
Proof.
  intros Hstep S. unfold System.goes_on in Hstep. remember (inl s' : system + stop) as o eqn:Ho.
  destruct Hstep as [s d Hd|s sh pc Ht|s r Hr|s r Hr|s r Hr|s i a r Ha Hr];
    try (destruct r as [[[sh' a'] e']|w]; [|done]); injection Ho as <-.
  - destruct S as [S1 S2 S3 S4 S5 S6]. eapply follows_one; [by apply (step_tick _ _ _ _ d)|].
    split; try done. cbn. by rewrite S1.
  - destruct S as [S1 S2 S3 S4 S5 S6]. eapply follows_one; [eapply step_time; by rewrite S1, S2|].
    by split.
  - by eapply table_follows.
  - by eapply alter_follows.
  - by eapply stat_follows.
  - by eapply engine_follows.
Qed.

Lemma run_follows s s' t : rtc goes_on s s' → sees s t → follows s' t.
Proof.
  intros Hr. revert t. induction Hr as [s|s1 s2 s3 Hs _ IH]; intros t S; [by apply follows_none|].
  destruct (goes_on_follows _ _ _ Hs S) as (t1 & Ht1 & S1). destruct (IH t1 S1) as (t2 & Ht2 & S2).
  exists t2. split; [by etrans|done].
Qed.

Lemma start_sees n (t0 : Z) e : sees (start_system n t0 e) (start_engine n t0).
Proof.
  split; try done. cbn. generalize (Z.to_nat (engine_thread_num n)) as k.
  induction k as [|k IH]; [constructor|]. by constructor.
Qed.

Lemma joined_sees s t : sees s t → all_joined s = true →
  joined t = true ∧ Forall2 (λ a pc, ∃ st, a = TDone st ∧ pc = EDone st) (engine_thrs s) (engines t).
Proof.
  intros [_ _ S3 S4 S5 S6] Hj. unfold all_joined in Hj.
  destruct (table_thr s), (alter_thr s), (stat_thr s) as [|start []]; try done.
  assert (Forall2 (λ a pc, ∃ st, a = TDone st ∧ pc = EDone st) (engine_thrs s) (engines t)) as Hf.
  { clear S3 S4 S5. induction S6 as [|a pc l1 l2 Hs S6 IH]; [constructor|]. cbn in Hj.
    destruct a; try done. constructor; [by eexists|by apply IH]. }
  split; [|done]. unfold joined. rewrite S3, S4, S5. cbn. apply forallb_forall. intros pc Hpc.
  apply list_elem_of_In, list_elem_of_lookup in Hpc as [i Hi].
  destruct (Forall2_lookup_r _ _ _ _ _ Hf Hi) as (a & _ & st & _ & ->). done.
Qed.

(** C12 (composition). The whole program, with its contexts, tables and servers, does nothing that the
    threads of [Threads] cannot do: every run of it is seen as a run of theirs, thread by thread,
    and when all its threads have been joined so have those. *)
Theorem system_refines_threads n (t0 : Z) e s :
  rtc goes_on (start_system n t0 e) s →
  ∃ t, rtc sys_step (start_engine n t0) t ∧ sees s t ∧ (all_joined s = true → joined t = true).
Proof.
  intros Hr. destruct (run_follows _ _ _ Hr (start_sees n t0 e)) as (t & Ht & S).
  exists t. split_and!; [done..|]. intros Hj. by apply (joined_sees s t).
Qed.

(** What an engine thread that has ended has asked the servers for. *)
Definition asked_for (a : engine_at) : Z :=
  match a with TDone st => zsum id (requests st) | _ => 0 end.

(** When all the threads have been joined, [total_request] is the sum of the requests
    that each engine thread has counted in its context. *)
Lemma total_at_join n (t0 : Z) e s :
  rtc goes_on (start_system n t0 e) s → all_joined s = true →
  total_request (ctl s) = zsum asked_for (engine_thrs s).
Proof.
  intros Hr Hj. destruct (run_follows _ _ _ Hr (start_sees n t0 e)) as (t & Ht & S).
  destruct (joined_sees s t S Hj) as [_ Hf]. rewrite <- (se_shared _ _ S).
  destruct (total_inv_run _ _ _ _ _ _ Ht) as [-> _ _].
  induction Hf as [|a pc l1 l2 (st & -> & ->) _ IH]; [done|]. by rewrite !zsum_cons, IH.
Qed.
End refinement.

(** ** How a run can end *)

Section safety.
Context `{Allocator} `{RandSource} `{Clock} `{MysqlClient} `{Hshape : !SelectShape}.
Context (g_username g_password : cstring).
Context (g_end_time g_alter_interval g_stat_interval table_tid alter_tid : Z).
Context (Hmem : ∀ n, 0 < n ≤ 1024 → malloc_ok n = true).
(** The configuration. *)
Context (cs : cmd_state) (lists : gmap loc (list cmd_type_t)) (pairs : pairs_t).
Context (wb rb : gmap (list Z) cq_server_t).
Notation goes_on := (goes_on g_username g_password g_end_time g_alter_interval g_stat_interval
                       table_tid alter_tid).
Notation uninterrupted_run := (uninterrupted_run g_username g_password g_end_time
                                 g_alter_interval g_stat_interval table_tid alter_tid).
Notation step := (step g_username g_password g_end_time g_alter_interval g_stat_interval
                    table_tid alter_tid).
Notation data_ok := (data_ok cs lists pairs wb rb).
Notation configured := (configured lists pairs).
Implicit Types (e : engine) (c : eng_ctx_t) (s : system) (m : gmap (list Z) table_t).

(** A thread in the middle of its turn. *)
Definition busy m c : Prop := configured m c ∧ table c ≠ TOther ∧ m ≠ ∅.

Definition worker_ok (w : worker) : Prop :=
  match w with
  | WWait | WInit | WDone => True
  | WTest c | WBody c | WNap c | WAsleep c _ | WDestroy c => thread_ok c
  end.

Definition engine_ok m (a : engine_at) : Prop :=
  match a with
  | TWait | TInit | TDone _ => True
  | TTest c | TConfig c | TFree c | TLock c | TAdd c _ | TLoaded c _ _ | TUnlock c | TDestroy c =>
      thread_ok c
  | TFirst c => busy m c
  | TTravel c pcmd_list cmd => busy m c ∧ ∃ l ts k, pcmd_list = Some l ∧ lists !! l = Some ts ∧
      nodes_left cs l cmd k ∧ (k ≤ length ts)%nat
  end.

(** Nobody starts to work without a table. *)
Definition waits_for_table (sh : shared) (w : worker) (l : list engine_at) : Prop :=
  has_first_table sh = false → w = WWait ∧ Forall (λ a, a = TWait) l.

Record system_ok s : Prop := {
  so_data : ∃ m, data_ok m (data s) ∧ (has_first_table (ctl s) = true → m ≠ ∅) ∧
    Forall (engine_ok m) (engine_thrs s);
  so_table : worker_ok (table_thr s);
  so_alter : worker_ok (alter_thr s);
  so_waits : waits_for_table (ctl s) (alter_thr s) (engine_thrs s);
}.

Lemma busy_more m m' c : m ⊆ m' → busy m c → busy m' c.
Proof.
  intros Hsub ([C1 C2 C3 C4 C5 C6 C7] & Ht & Hm).
  assert (m' ≠ ∅) as Hm'.
  { intros ->. apply Hm, map_empty. intros i. destruct (m !! i) eqn:Hi; [|done].
    by apply (lookup_weaken _ ∅) in Hi. }
  split_and!; [split; try done|done|done].
  destruct (table c) as [|t|]; [done| |done]. by eapply lookup_weaken.
Qed.

Lemma engine_ok_more m m' a : m ⊆ m' → engine_ok m a → engine_ok m' a.
Proof.
  intros Hsub. destruct a; cbn; try done; [by apply busy_more|].
  intros [Hb Hn]. split; [by eapply busy_more|done].
Qed.

(** The data as another thread sees them. *)
Lemma data_ok_thread m c e : data_ok m e → data_ok m (as_thread c e).
Proof. by apply data_ok_shared. Qed.

(** A turn that runs as [expected]. *)
Lemma runs_turn {A X} (m0 : M engine A) e (k : A → eng_ctx_t → engine → X)
    (Q : A → engine → Prop) (P : X → Prop) :
  runs expected m0 e Q → (∀ a e', Q a e' → P (k a (w_ctx (e_world e')) e')) →
  match '(a, c, e') ← turn m0 e; Ok (k a c e') with Ok x => P x | Stop w => expected w end.
Proof. unfold runs, turn. destruct (m0 e) as [[a|w] e']; cbn; eauto. Qed.

Lemma table_step_ok m sh e w r : data_ok m e → worker_ok w →
  table_step g_username g_password table_tid sh e w = Some r →
  match r with
  | Ok (sh', w', e') => ∃ m', data_ok m' e' ∧ m ⊆ m' ∧ worker_ok w' ∧
      (has_first_table sh' = has_first_table sh ∨ has_first_table sh' = true ∧ m' ≠ ∅)
  | Stop x => expected x
  end.
Proof using Hmem.
  intros D W. pose proof (data_ok_thread m) as Hth.
  unfold table_step. destruct w as [| |c|c|c|c until|c|]; cbn in W; try done.
  - intros [= <-]. eapply (runs_turn _ _ (λ _ c e', (sh, WTest c, e'))); [by eapply eng_context_init_runs|].
    intros u e' (Hs & T & _). exists m. split_and!; [by eapply data_ok_shared|done|done|by left].
  - intros [= <-]. exists m. split_and!; [done|done| |by left]. by destruct (is_thread_run sh).
  - intros [= <-].
    eapply (runs_turn _ _ (λ (made : bool) c' e', (if made then set_first_table true sh else sh, WNap c', e')));
      [by eapply table_turn_runs; [|apply Hth|]|].
    intros made e' (m' & D' & T' & Hsub & Hmade). exists m'. split_and!; [done..|].
    destruct made; [right|left]; split || done; auto.
  - intros [= <-]. exists m. split_and!; [done..|by left].
  - destruct (until <=? sh_time sh); intros [= <-]. exists m. split_and!; [done..|by left].
  - intros [= <-]. eapply (runs_turn _ _ (λ _ _ e', (sh, WDone, e')));
      [by apply eng_context_destroy_runs|].
    intros u e' [Hs _]. exists m. split_and!; [eapply data_ok_shared, Hth, D; exact Hs|done|done|by left].
Qed.

Lemma alter_step_ok m sh e w r : data_ok m e → worker_ok w → (w ≠ WWait → m ≠ ∅) →
  alter_step g_username g_password g_alter_interval alter_tid sh e w = Some r →
  match r with
  | Ok (sh', w', e') => sh' = sh ∧ data_ok m e' ∧ worker_ok w' ∧
      (has_first_table sh = false → w = WWait → w' = WWait)
  | Stop x => expected x
  end.
Proof using Hmem.
  intros D W Hm. pose proof (data_ok_thread m) as Hth.
  unfold alter_step. destruct w as [| |c|c|c|c until|c|]; cbn in W; try done.
  - intros [= <-]. split_and!; [done..|by destruct (has_first_table sh)|by intros ->].
  - intros [= <-]. eapply (runs_turn _ _ (λ _ c e', (sh, WTest c, e'))); [by eapply eng_context_init_runs|].
    intros u e' (Hs & T & _). split_and!; [done|by eapply data_ok_shared|done|done].
  - intros [= <-]. split_and!; [done..| |done]. by destruct (is_thread_run sh).
  - intros [= <-]. eapply (runs_turn _ _ (λ _ c' e', (sh, WNap c', e'))).
    + eapply alter_turn_runs; [done|by apply Hth|exact W|by apply Hm].
    + intros u e' [D' T']. by split_and!.
  - intros [= <-]. by split_and!.
  - destruct (until <=? sh_time sh); intros [= <-]. by split_and!.
  - intros [= <-]. eapply (runs_turn _ _ (λ _ _ e', (sh, WDone, e')));
      [by apply eng_context_destroy_runs|].
    intros u e' [Hs _]. split_and!; [done| |done|done]. eapply data_ok_shared, Hth, D; exact Hs.
Qed.

Lemma stat_log_overflow st time_passed w :
  stat_log st time_passed = Stop w → w = Undefined SignedOverflow.
Proof.
  unfold stat_log, total_reqs. cbv zeta.
  destruct ((_ <? _) || _); [by intros [= <-]|]. cbn.
  destruct ((_ <? _) || _); [by intros [= <-]|]. cbn.
  destruct ((_ <? _) || _); [by intros [= <-]|]. done.
Qed.

Lemma stat_step_ok m sh e st r : data_ok m e →
  stat_step g_stat_interval sh e st = Some r →
  match r with Ok (sh', st', e') => sh' = sh ∧ data_ok m e' | Stop x => expected x end.
Proof.
  intros D. unfold stat_step. destruct st as [|start pc]; [by intros [= <-]|].
  destruct pc as [| | | |until|]; cbn; first [done|by intros [= <-]|idtac].
  - intros [= <-]. apply (runs_turn _ _ (λ _ _ e', (sh, SRun start PNap, e')) (λ _ e', data_ok m e'));
      [|by intros u e' D'].
    unfold print_stats. apply runs_gets.
    destruct (stat_log _ _) as [log|w] eqn:Hlog.
    + eapply runs_then_ok; [done|]. eapply data_ok_shared; [|exact D]; done.
    + apply runs_bind. rewrite (stat_log_overflow _ _ _ Hlog). by right; right; left.
  - unfold asleep. destruct (until <=? sh_time sh); [by intros [= <-]|done].
Qed.

Lemma engine_step_ok m i sh e a r : data_ok m e → engine_ok m a → (a ≠ TWait → m ≠ ∅) →
  engine_step g_username g_password i sh e a = Some r →
  match r with
  | Ok (sh', a', e') => has_first_table sh' = has_first_table sh ∧ data_ok m e' ∧
      engine_ok m a' ∧ (has_first_table sh = false → a = TWait → a' = TWait)
  | Stop x => expected x
  end.
Proof using Hmem Hshape.
  intros D W Hm. pose proof (data_ok_thread m) as Hth.
  unfold engine_step. destruct a as [| |c|c|c|c p cmd|c|c|c k|c k v|c|c|st]; cbn in W; try done.
  - intros [= <-]. split_and!; [done..|by destruct (has_first_table sh)|by intros ->].
  - intros [= <-]. eapply (runs_turn _ _ (λ _ c e', (sh, TTest c, e'))); [by eapply eng_context_init_runs|].
    intros u e' (Hs & T & _). split_and!; [done|by eapply data_ok_shared|done|done].
  - intros [= <-]. split_and!; [done..| |done]. by destruct (is_thread_run sh).
  - intros [= <-]. eapply (runs_turn _ _ (λ _ c' e', (sh, TFirst c', e'))).
    + eapply eng_context_config_runs; [by apply Hth|exact W].
    + intros u e' (Hs & C & Ht & _). split_and!; [done| | |done].
      * eapply data_ok_shared, Hth, D; exact Hs.
      * split_and!; [done..|by apply Hm].
  - intros [= <-]. destruct W as (C & Ht & Hne). destruct (cc_list _ _ _ _ C) as (l & Hl & ts & Hts).
    eapply (runs_turn _ _ (λ cmd c' e', (sh, TTravel c' (cmd_list c) cmd, e'))
      (λ cmd e', shared_data e' = shared_data e ∧ static (w_ctx (e_world e')) = static c ∧
         nodes_left cs l cmd (length ts))).
    + rewrite Hl. eapply runs_then; [eapply first_cmd_runs; [by apply Hth|exact Hts]|].
      intros cmd e1 [-> Hat]. cbn in Hat. rewrite (do_cmds _ _ _ _ _ _ _ D) in Hat.
      by split_and!.
    + intros cmd e' (Hs & Hst & Hat). split_and!; [done|by eapply data_ok_shared| |done].
      split; [|by exists l, ts, (length ts)]. split_and!; [by eapply configured_static| |done].
      intros Ht'. unfold static in Hst. congruence.
  - intros [= <-]. destruct W as ((C & Ht & Hne) & l & ts & k & -> & Hts & Hat & Hk).
    eapply (runs_turn _ _ (λ r c' e', (sh, match r with inl cmd' => TTravel c' (Some l) cmd'
      | inr _ => TFree c' end, e'))).
    + eapply travel_step_runs; [done|by apply Hth|exact C|done..|]. cbn.
      by rewrite (do_cmds _ _ _ _ _ _ _ D).
    + intros x e' (Hs & Hst & Hx). cbn in Hst.
      assert (busy m (w_ctx (e_world e'))) as B.
      { split_and!; [by eapply configured_static| |done]. intros Ht'. unfold static in Hst. congruence. }
      split_and!; [done|eapply data_ok_shared, Hth, D; exact Hs| |done]. destruct x as [cmd'|u].
      * split; [done|]. destruct Hx as (k' & -> & Hx). exists l, ts, k'. cbn in Hx.
        rewrite (do_cmds _ _ _ _ _ _ _ D) in Hx. split_and!; [done..|lia].
      * apply B.
  - intros [= <-]. split_and!; [done|eapply data_ok_shared; [|exact D]; done|exact W|done].
  - destruct (total_request_lock sh); [done|]. intros [= <-]. by split_and!.
  - intros [= <-]. split_and!; [done..| |done]. by destruct (requests (stats c) !! k).
  - intros [= <-]. by split_and!.
  - intros [= <-]. by split_and!.
  - intros [= <-]. eapply (runs_turn _ _ (λ _ _ e', (sh, TDone (stats c), e')));
      [by apply eng_context_destroy_runs|].
    intros u e' [Hs _]. split_and!; [done|eapply data_ok_shared, Hth, D; exact Hs|done|done].
Qed.

(** A step keeps all this, or ends the program as [expected]. *)
Lemma step_ok s o : system_ok s → step s o →
  match o with inl s' => system_ok s' | inr w => expected w end.
Proof using Hmem Hshape.
  intros [(m & D & Hm & He) Ht Ha Hw] Hstep.
  assert (alter_thr s ≠ WWait → m ≠ ∅) as Hma.
  { intros Hne. apply Hm. destruct (has_first_table (ctl s)) eqn:Hf; [done|]. by destruct (Hw Hf). }
  destruct Hstep as [s d Hd|s sh pc Hs|s r Hr|s r Hr|s r Hr|s i a r Hi Hr].
  - split; [by exists m|done..].
  - assert (has_first_table sh = has_first_table (ctl s)) as Hsh.
    { destruct (time_thr s); cbn in Hs; try done; try (by injection Hs as <- _).
      by destruct (_ <? _); injection Hs as <- _. }
    split; [exists m; cbn; by rewrite Hsh|done|done|]. unfold waits_for_table. cbn. by rewrite Hsh.
  - pose proof (table_step_ok m _ _ _ r D Ht Hr) as Hok. destruct r as [[[sh w] e]|x]; [|done].
    destruct Hok as (m' & D' & Hsub & Hw' & Hsh). split; [|done|done|].
    + exists m'. split_and!; [done| |eapply Forall_impl; [exact He|intros a; by apply engine_ok_more]].
      cbn. destruct Hsh as [-> | [_ Hne]]; [|done]. intros Hf ->. apply (Hm Hf), map_empty.
      intros k. destruct (m !! k) eqn:Hk; [|done]. by apply (lookup_weaken _ ∅) in Hk.
    + unfold waits_for_table. cbn. destruct Hsh as [-> | [-> _]]; done.
  - pose proof (alter_step_ok m _ _ _ r D Ha Hma Hr) as Hok. destruct r as [[[sh w] e]|x]; [|done].
    destruct Hok as (-> & D' & Hw' & Hst). split; [by exists m|done|done|].
    intros Hf. destruct (Hw Hf) as [Hal Hen]. split; [by apply Hst|done].
  - pose proof (stat_step_ok m _ _ _ r D Hr) as Hok. destruct r as [[[sh w] e]|x]; [|done].
    destruct Hok as [-> D']. split; [by exists m|done..].
  - assert (a ≠ TWait → m ≠ ∅) as Hma'.
    { intros Hne. apply Hm. destruct (has_first_table (ctl s)) eqn:Hf; [done|].
      destruct (Hw Hf) as [_ Hen]. rewrite Forall_lookup in Hen. by specialize (Hen _ _ Hi). }
    assert (engine_ok m a) as Hao by (rewrite Forall_lookup in He; by eapply He).
    pose proof (engine_step_ok m i _ _ _ r D Hao Hma' Hr) as Hok.
    destruct r as [[[sh a'] e]|x]; [|done]. destruct Hok as (Hsh & D' & Ha' & Hst). split; [|done|done|].
    + exists m. cbn. rewrite Hsh. split_and!; [done..|by apply Forall_insert].
    + intros Hf. cbn in Hf. rewrite Hsh in Hf. destruct (Hw Hf) as [Hal Hen]. split; [done|].
      apply Forall_insert; [done|]. apply Hst; [done|]. rewrite Forall_lookup in Hen. by eapply Hen.
Qed.

Lemma start_system_ok n (t0 : Z) e : data_ok ∅ e → system_ok (start_system n t0 e).
Proof.
  intros D. split; cbn; [|done|done|].
  - exists ∅. split_and!; [done|done|]. by apply Forall_replicate.
  - intros _. split; [done|]. by apply Forall_replicate.
Qed.

Lemma run_ok n (t0 : Z) e s :
  data_ok ∅ e → rtc goes_on (start_system n t0 e) s → system_ok s.
Proof using Hmem Hshape.
  intros D Hr. apply (rtc_invariant goes_on system_ok (start_system n t0 e)); [|done|by apply start_system_ok].
  intros s1 s2 Hstep Hok. by apply (step_ok s1 (inl s2)).
Qed.

(** Every value schema of the configuration has a column, so that what [Races] finds
    applies in each of these states. *)
Lemma system_ok_overtaken s ts k v : system_ok s → pairs !! ts = Some (k, v) →
  drop_overtakes_reader s ts.
Proof.
  intros [(m & [(cols & T) _ _ _ _ _ _] & _) _ _ _] Hp seed.
  destruct (ti_vals _ _ _ _ T _ _ _ Hp) as (c & vs & Hv & _).
  destruct (exists_last (l := c :: vs)) as (vs' & c' & Hl); [done|]. rewrite Hl in Hv.
  apply (drop_overtakes _ cols ts v vs' c' seed [Begin ts] 0); [exact (ti_cols _ _ _ _ T)| |exact Hv|done].
  unfold val_schema_of. by rewrite (ti_pairs _ _ _ _ T _ _ _ Hp).
Qed.

(** C11 (how a run can end, when commands and turns are not interrupted). Of the runs in
    which every command of an engine thread and every turn of the table thread and of the
    alter thread is done in one piece, from a proper configuration, with memory for small
    blocks and a client library that answers a query with the columns it asked for: in
    whatever order the threads take these pieces, none brings the program to a fault of its
    own.  Such a run goes on, or it ends because the program aborts, because a search in a
    hash table does not come to an end, because a counter overflows, or at a [NULL] that the
    client library answered.  The restriction is needed: in every state of such a run, and for
    every table schema of the configuration, if [drop_table_data] could interrupt a generator
    that reads the value columns, the two can end with the use of a column that was released. *)
Theorem system_safe n (t0 : Z) e s :
  data_ok ∅ e → uninterrupted_run (start_system n t0 e) s →
  (∀ w, step s (inr w) → expected w) ∧
  (∀ ts k v, pairs !! ts = Some (k, v) → drop_overtakes_reader s ts).
Proof using Hmem Hshape.
  intros D Hr. pose proof (run_ok n t0 e s D Hr) as S. split; [intros w; by apply (step_ok s (inr w))|].
  intros ts k v. by apply system_ok_overtaken.
Qed.
End safety.

(** ** Witnesses *)

Local Existing Instance roomy_allocator.
Local Existing Instance counting_rand.
Local Existing Instance ticking.

(** The columns that a query asks for: one more than its commas. *)
Fixpoint commas (q : cstring) : nat :=
  match q with
  | [] => 0
  | b :: q => if b =? 32 then 0 else if b =? 44 then Datatypes.S (commas q) else commas q
  end.

(** A client library whose servers answer a query with a row of its shape: the
    key, and values in which the servers [1] and [2] agree with nobody. *)
Record mock_db := MockDb { mock_next : Z; mock_query : cstring }.

Definition mock_row (c : Z) (k : nat) : list (option cstring) :=
  Some (text "5") :: replicate (k - 1) (Some (text "v" ++ decimal c)).

Definition mock_client : MysqlClient := {|
  db := mock_db;
  conn := Z;
  mysql_res := Z * nat;
  mysql_init s := (Some (mock_next s), MockDb (mock_next s + 1) (mock_query s));
  mysql_real_connect _ _ _ _ _ _ s := (true, s);
  mysql_close _ s := s;
  mysql_set_reconnect _ s := (0, s);
  mysql_select_db _ _ s := (0, s);
  mysql_real_query _ q s := (0, MockDb (mock_next s) q);
  mysql_store_result c s := (Some (c, Datatypes.S (commas (drop 7 (mock_query s)))), s);
  mysql_num_fields r := Z.of_nat r.2;
  mysql_num_rows _ := 1;
  mysql_fetch_row r := Some (mock_row r.1 r.2);
  mysql_fetch_lengths r := Some (map (λ f, Z.of_nat (length (default [] f))) (mock_row r.1 r.2));
  mysql_free_result _ s := s;
|}.
Local Existing Instance mock_client.

Lemma commas_join names rest : names ≠ [] → Forall is_ident names →
  Datatypes.S (commas (join names ++ 32 :: rest)) = length names.
Proof.
  intros Hne Hn. assert (∀ n q, is_ident n → commas (n ++ q) = commas q) as Hid.
  { intros n q [_ Hf]. induction Hf as [|c n Hc _ IH]; [done|]. cbn [app commas].
    unfold ident_char, is_digit in Hc.
    rewrite (proj2 (Z.eqb_neq c 32)), (proj2 (Z.eqb_neq c 44)) by lia. exact IH. }
  induction Hn as [|n names Hi Hn IH]; [done|]. destruct names as [|n2 names].
  - cbn [join]. by rewrite Hid.
  - cbn [join] in *. rewrite <- !app_assoc, Hid by done. cbn [app commas].
    change (44 =? 32) with false. change (44 =? 44) with true. cbv iota.
    change (length (n :: n2 :: names)) with (Datatypes.S (length (n2 :: names))).
    f_equal. by apply IH.
Qed.

Lemma mock_shaped c k : (0 < k ≤ 4096)%nat → shaped ((c, k) : mysql_res) k.
Proof.
  intros Hk. split; [cbn; apply i32_small; lia|]. intros _. eexists _, _.
  split_and!; [done| |done|]; cbn; rewrite ?length_map, length_replicate; lia.
Qed.

#[local] Instance mock_shape : SelectShape.
Proof.
  intros c names rest d d1 r d2 Hne Hle Hn Hq Hr. injection Hq as <-.
  assert (Datatypes.S (commas (drop 7 (text "select " ++ join names ++ text " from " ++ rest))) =
    length names) as Hk.
  { rewrite drop_app_length'; [|done]. by apply commas_join. }
  assert (r = (c, length names)) as ->.
  { rewrite <- Hk. apply (f_equal fst) in Hr. by injection Hr as <-. }
  apply mock_shaped. destruct names; [done|]. cbn [length] in *. lia.
Qed.

(** A list with one [SELECT], in a bucket. *)
Definition select_cmds : cmd_state := (on_cmds (cmd_init SELECT) one_list).2.
Definition select_list : cmd_state :=
  (cmd_list_add (Some 1%positive) (Some 3%positive) select_cmds).2.
Definition mock_cmds : cmd_state :=
  CmdState (cmds select_list) (cmd_lists select_list) (SPtr one_bucket).

Lemma mock_cmds_rep : crep mock_cmds {[1%positive := [SELECT]]} ∅.
Proof.
  assert (malloc_ok 24 = true) as Hm by reflexivity.
  destruct (cmd_init_spec _ _ _ SELECT one_list_rep Hm) as (n & s & Hx & _ & R).
  assert (on_cmds (cmd_init SELECT) one_list = (Ok (Some 3%positive), select_cmds)) as Hx'
    by (vm_compute; reflexivity).
  rewrite Hx' in Hx. injection Hx as <- <-. rewrite insert_empty in R.
  destruct (cmd_list_add_spec select_cmds {[1%positive := []]} {[3%positive := SELECT]}
    1%positive [] 3%positive SELECT R) as (s & Hx & R2); [done|done|done|].
  assert (cmd_list_add (Some 1%positive) (Some 3%positive) select_cmds =
    (Ok RET_SUCCEED, select_list)) as Hx2 by (vm_compute; reflexivity).
  pose proof (eq_trans (eq_sym Hx2) Hx) as Hy. apply (f_equal snd) in Hy. cbn [snd] in Hy. subst s.
  rewrite insert_singleton_eq, delete_singleton_eq in R2. by apply crep_bucket.
Qed.

(** The table schema of the samples, and no tables yet. *)
Definition mock_tables : table_state :=
  TableState (datas sample_tables) (schema_objs sample_tables) (table_schemas sample_tables)
    (SPtr one_bucket) (SPtr (Hash (Live (Some <$> replicate 11 zero_element)) 11 0 0 RwFree)).

Definition mock_pairs : pairs_t := {[1%positive := (1%positive, 2%positive)]}.

Lemma mock_pairs_inv ts k v : mock_pairs !! ts = Some (k, v) →
  ts = 1%positive ∧ k = 1%positive ∧ v = 2%positive.
Proof. unfold mock_pairs. intros [<- [= <- <-]]%lookup_singleton_Some. done. Qed.

Lemma sample_fits : col_fits id_column ∧ col_fits val_column.
Proof.
  split; split; try (vm_compute; intuition discriminate); split; try done; by repeat constructor.
Qed.

Lemma mock_tables_ok : tables_ok mock_pairs ∅ mock_tables.
Proof.
  exists sample_cols. split.
  - eapply trep_frame; [exact sample_tables_rep|done..|]. apply (trep_wf _ _ sample_tables_rep).
  - by intros ts k v (-> & -> & ->)%mock_pairs_inv.
  - intros ts k v (-> & -> & ->)%mock_pairs_inv. by exists id_column, [].
  - intros ts k v (-> & -> & ->)%mock_pairs_inv. by exists val_column, [].
  - by intros ts1 k1 v1 ts2 k2 v2 (-> & -> & ->)%mock_pairs_inv (-> & -> & ->)%mock_pairs_inv.
  - by intros ts1 k1 v1 ts2 k2 v2 (-> & -> & ->)%mock_pairs_inv (-> & -> & ->)%mock_pairs_inv.
  - intros p cs. destruct sample_fits as [Hi Hv]. unfold sample_cols.
    rewrite lookup_insert_Some, lookup_singleton_Some. intros [[<- <-]|[_ [<- <-]]]; by constructor.
  - eexists. split; [done|]. destruct (hash_alloc_spec (E := table_t)) as (h & Ha & R & Hs & Hr);
      [done|done|].
    assert (hash_alloc (E := table_t) () = (Ok (Hash (Live (Some <$> replicate 11 zero_element)) 11 0 0 RwFree), ()))
      as Ha' by (vm_compute; reflexivity).
    rewrite Ha' in Ha. injection Ha as <-. by split.
  - done.
  - exists one_bucket, [1%positive]. split_and!; [done|apply one_bucket_rep|done|apply NoDup_singleton|].
    intros ts ->%list_elem_of_singleton. by eexists.
Qed.

(** A write server and a read server. *)
Definition mock_server (ip0 : cstring) (type : server_type_t) : cq_server_t :=
  Server _ ip0 3306 (format_name ip0 3306) type 0.
Definition writer : cq_server_t := mock_server (text "10.0.0.1") WRITE_SERVER.
Definition reader : cq_server_t := mock_server (text "10.0.0.2") READ_SERVER.

Definition no_mock_servers : hash_t cq_server_t :=
  Hash (Live (Some <$> replicate 11 zero_element)) 11 0 0 RwFree.
Definition mock_base : cq_server_cluster_t :=
  (cq_cluster_add (Some reader) (cq_cluster_add (Some writer)
     (Cluster _ no_mock_servers no_mock_servers)).2).2.

Lemma mock_server_fits ip0 type : is_text ip0 → (length ip0 ≤ 15)%nat → server_fits (mock_server ip0 type).
Proof. intros Ht Hl. by split; cbn. Qed.

Lemma mock_base_fits : ∃ wb rb, cluster_fits mock_base wb rb ∧
  dom wb = {[server_name writer]} ∧ dom rb = {[server_name reader]}.
Proof.
  destruct (cq_cluster_init_ok roomy_small) as (c & Hc & C).
  assert (cq_cluster_init () = (Ok (Cluster _ no_mock_servers no_mock_servers), ())) as Hc'
    by (vm_cast_no_check (eq_refl (cq_cluster_init ()))).
  rewrite Hc' in Hc. injection Hc as <-.
  assert (∀ o c' cl w r (s : cq_server_t), cluster_fits cl w r → server_fits s →
    Z.of_nat (size w) < 16000 → Z.of_nat (size r) < 16000 →
    cq_cluster_add (Some s) cl = (Ok o, c') → ∃ w' r', cluster_fits c' w' r' ∧
    dom w' = (if bool_decide (server_type s = WRITE_SERVER) then {[server_name s]} ∪ dom w else dom w) ∧
    dom r' = (if bool_decide (server_type s = WRITE_SERVER) then dom r else {[server_name s]} ∪ dom r))
    as Hadd.
  { intros o c' cl w r s F Hs Hw Hr Hx. by destruct (runs_inv _ _ _ _ _ _ (cq_cluster_add_runs cl w r s F Hs Hw Hr) Hx). }
  destruct (Hadd RET_SUCCEED (cq_cluster_add (Some writer) (Cluster _ no_mock_servers no_mock_servers)).2
    _ _ _ writer C) as (w1 & r1 & C1 & Hw1 & Hr1);
    [by apply mock_server_fits; [repeat constructor; lia|cbn; lia]|done|done|by vm_cast_no_check (eq_refl (cq_cluster_add (Some writer) (Cluster _ no_mock_servers no_mock_servers)))|].
  rewrite bool_decide_true, dom_empty_L in Hw1, Hr1 by done.
  assert (size w1 = 1%nat ∧ size r1 = 0%nat) as [Sw Sr].
  { rewrite <- !(size_dom (D := gset (list Z))), Hw1, Hr1, union_empty_r_L.
    by rewrite size_singleton, size_empty. }
  destruct (Hadd RET_SUCCEED mock_base _ _ _ reader C1) as (w2 & r2 & C2 & Hw2 & Hr2);
    [by apply mock_server_fits; [repeat constructor; lia|cbn; lia]|lia|lia|by vm_cast_no_check (eq_refl (cq_cluster_add (Some reader) (cq_cluster_add (Some writer)
     (Cluster _ no_mock_servers no_mock_servers)).2))|].
  rewrite bool_decide_false in Hw2, Hr2 by done.
  exists w2, r2. split; [exact C2|]. by rewrite Hw2, Hr2, Hw1, Hr1, !union_empty_r_L.
Qed.

(** The data of the program when the threads start, with the command lists [cs]. *)
Definition mock_engine (cs : cmd_state) : engine :=
  Engine _ (World _ (empty_ctx (Cluster _ no_mock_servers no_mock_servers) 0) mock_tables 0 0
    (MockDb 1 []) zero_stats 0 []) cs 0 mock_base.
Definition mock_start (cs : cmd_state) : system := start_system 1 0 (mock_engine cs).

Lemma mock_data_ok : ∃ wb rb,
  data_ok mock_cmds {[1%positive := [SELECT]]} mock_pairs wb rb ∅ (mock_engine mock_cmds).
Proof.
  destruct mock_base_fits as (wb & rb & C & Hw & Hr). exists wb, rb. split.
  - apply mock_tables_ok.
  - done.
  - exists ∅. apply mock_cmds_rep.
  - exists one_bucket, [1%positive]. split_and!; [done|apply one_bucket_rep|done|apply NoDup_singleton|].
    intros l ->%list_elem_of_singleton. by eexists.
  - exact C.
  - intros ->. rewrite dom_empty_L in Hw. set_solver.
  - rewrite <- !(size_dom (D := gset (list Z))), Hw, Hr, !size_singleton. lia.
Qed.

(** The table thread makes a table, the engine thread configures its context and
    runs its list: the servers do not agree. *)
Definition mock_schedule : list who :=
  TimeThread :: replicate 3 TableThread ++ replicate 6 (EngineThread 0).

Lemma mock_run_aborts : exec [] [] 60 600 10 0 0 mock_schedule (mock_start mock_cmds) =
  Some (inr Aborted).
Proof. vm_compute. reflexivity. Qed.

Example system_safe_witness :
  ∃ s, uninterrupted_run [] [] 60 600 10 0 0 (mock_start mock_cmds) s ∧
    step [] [] 60 600 10 0 0 s (inr Aborted) ∧ expected Aborted ∧ drop_overtakes_reader s 1%positive.
Proof.
  destruct mock_data_ok as (wb & rb & D).
  destruct (exec_sound _ _ _ _ _ _ _ _ _ _ mock_run_aborts) as (s & Hr & Hs).
  destruct (system_safe [] [] 60 600 10 0 0 roomy_small mock_cmds _ _ wb rb 1 0 _ s D Hr) as [Hx Ht].
  exists s. split_and!; [exact Hr|exact Hs|by apply Hx|by apply (Ht _ 1%positive 2%positive)].
Defined.

(** A run of no seconds, with one [INSERT], to the end. *)
Definition insert_cmds : cmd_state :=
  CmdState (cmds insert_list) (cmd_lists insert_list) (SPtr one_bucket).
Definition whole_schedule : list who :=
  TimeThread :: replicate 3 TableThread ++ replicate 8 (EngineThread 0) ++ [TimeThread] ++
  replicate 4 TableThread ++ replicate 4 AlterThread ++ replicate 2 StatThread ++
  replicate 13 (EngineThread 0).

Definition going_on {A} (o : option (A + stop)) : option A :=
  match o with Some (inl s) => Some s | _ => None end.
Lemma going_on_Some {A} (o : option (A + stop)) s : going_on o = Some s → o = Some (inl s).
Proof. by destruct o as [[s'|w]|]; [intros [= ->]|..]. Qed.

Notation whole_run := (exec [] [] 0 600 10 0 0 whole_schedule (mock_start insert_cmds)).

Lemma exec_ends_at l cs s : exec [] [] 0 600 10 0 0 l (mock_start cs) = Some (inl s) →
  rtc (goes_on [] [] 0 600 10 0 0) (mock_start cs) s.
Proof. intros He. apply exec_sound in He as (s' & Hr & Hs). by subst s'. Qed.

Lemma whole_run_ends : ∃ s, rtc (goes_on [] [] 0 600 10 0 0) (mock_start insert_cmds) s ∧
  all_joined s = true ∧ total_request (ctl s) = 1.
Proof.
  assert ((λ s, (all_joined s, total_request (ctl s))) <$> going_on whole_run = Some (true, 1)) as Hj
    by (vm_compute; reflexivity).
  apply fmap_Some in Hj as (s & He & Hj). exists s. apply pair_equal_spec in Hj as [Hj Ht].
  split; [|by split]. apply (exec_ends_at whole_schedule). by apply going_on_Some.
Qed.

Example system_refines_threads_witness : ∃ s,
  rtc (goes_on [] [] 0 600 10 0 0) (mock_start insert_cmds) s ∧ all_joined s = true ∧
  ∃ t, rtc (sys_step 0 600 10) (start_engine 1 0) t ∧ sees s t ∧
    (all_joined s = true → joined t = true).
Proof.
  destruct whole_run_ends as (s & Hr & Hj & _). exists s. split_and!; [done..|].
  exact (system_refines_threads [] [] 0 600 10 0 0 1 0 _ s Hr).
Defined.
