(* ===== verification/Progress.v ===== *)
(** * Progress: when the run is over, the program comes to its end (src/src/engine/cq_engine.c)

    [Ending] shows that the threads of [Threads] can still be joined; here the
    same is shown of the whole program of [System], whose turns do all their
    work, and more: once the run is over and there is a table, every step of a
    thread brings the end nearer, so that no interleaving puts it off for ever,
    and until the end there is always a thread that can go on. *)

From stdpp Require Import base gmap list relations strings.
From Stdlib Require Import ZArith Lia.
From S2P Require Import Prelude Outcomes Mylib Hash Heap CText Command Table Schemas Server EngineCtx.
From S2P Require Import SqlGen MysqlCmd Ddl Safety Engine Turns Threads Ending System.
Local Open Scope Z_scope.

Section progress.
Context `{Allocator} `{RandSource} `{Clock} `{MysqlClient} `{Hshape : !SelectShape}.
Context (g_username g_password : cstring).
Context (g_end_time g_alter_interval g_stat_interval table_tid alter_tid : Z).
Context (Hmem : ∀ n, 0 < n ≤ 1024 → malloc_ok n = true).
Context (cs : cmd_state) (lists : gmap loc (list cmd_type_t)) (pairs : pairs_t).
Context (wb rb : gmap (list Z) cq_server_t).
Notation goes_on := (goes_on g_username g_password g_end_time g_alter_interval g_stat_interval
                       table_tid alter_tid).
Notation step := (System.step g_username g_password g_end_time g_alter_interval g_stat_interval
                    table_tid alter_tid).
Notation exec_step := (exec_step g_username g_password g_end_time g_alter_interval
                         g_stat_interval table_tid alter_tid).
Notation sys_step := (sys_step g_end_time g_alter_interval g_stat_interval).
Notation table_step := (table_step g_username g_password table_tid).
Notation alter_step := (alter_step g_username g_password g_alter_interval alter_tid).
Notation stat_step := (stat_step g_stat_interval).
Notation engine_step := (engine_step g_username g_password).
Notation data_ok := (data_ok cs lists pairs wb rb).
Notation system_ok := (system_ok cs lists pairs wb rb).
Implicit Types (e : engine) (c : eng_ctx_t) (s : system).

(** ** How far it is to the end *)

(** The longest command list. *)
Definition longest : nat := max_list (map (λ p, length p.2) (map_to_list lists)).

Lemma longest_ge l ts : lists !! l = Some ts → (length ts ≤ longest)%nat.
Proof.
  intros Hl. apply elem_of_map_to_list in Hl. unfold longest.
  induction (map_to_list lists) as [|[l' ts'] ls IH]; [by apply elem_of_nil in Hl|].
  apply elem_of_cons in Hl as [[= <- <-]|Hl]; cbn; [lia|]. specialize (IH Hl). lia.
Qed.

(** The steps that a thread has left at most, once the run is over. *)
Definition worker_left (w : worker) : nat :=
  match w with
  | WWait => 4 | WInit => 3 | WTest _ => 2 | WBody _ => 5 | WNap _ => 4 | WAsleep _ _ => 3
  | WDestroy _ => 1 | WDone => 0
  end.

Definition stat_left (st : stat_at_t) : nat :=
  match st with
  | SStart => 2
  | SRun _ pc => match pc with
                 | PWait => 0 | PTest => 1 | PBody => 4 | PNap => 3 | PAsleep _ => 2 | PDone => 0
                 end
  end.

Inductive engine_left : engine_at → nat → Prop :=
  | left_wait : engine_left TWait 15
  | left_init : engine_left TInit 14
  | left_test c : engine_left (TTest c) 13
  | left_config c : engine_left (TConfig c) (17 + longest)
  | left_first c : engine_left (TFirst c) (16 + longest)
  | left_travel c l cmd k : nodes_left cs l cmd k → (k ≤ longest)%nat →
      engine_left (TTravel c (Some l) cmd) (15 + k)
  | left_free c : engine_left (TFree c) 14
  | left_lock c : engine_left (TLock c) 12
  | left_add c k : engine_left (TAdd c k) (3 + 2 * (4 - k))
  | left_loaded c k v :
      engine_left (TLoaded c k v) (if decide (k < 4)%nat then 2 + 2 * (4 - k) else 4)
  | left_unlock c : engine_left (TUnlock c) 2
  | left_destroy c : engine_left (TDestroy c) 1
  | left_done st : engine_left (TDone st) 0.

(** Of all the threads. *)
Definition system_left s (n : nat) : Prop :=
  ∃ ns, Forall2 engine_left (engine_thrs s) ns ∧
    n = (worker_left (table_thr s) + worker_left (alter_thr s) + stat_left (stat_thr s) +
         sum_list ns)%nat.

Lemma engine_left_exists m a : engine_ok cs lists pairs m a → ∃ n, engine_left a n.
Proof.
  destruct a; cbn; try (by eexists; constructor).
  intros (_ & l & ts & k & -> & Hts & Hk & Hle). pose proof (longest_ge _ _ Hts).
  eexists. constructor; [done|lia].
Qed.

(** What a thread can have left. *)
Lemma worker_left_most w : (worker_left w ≤ 5)%nat.
Proof. destruct w; cbn; lia. Qed.
Lemma stat_left_most st : (stat_left st ≤ 4)%nat.
Proof. destruct st as [|? []]; cbn; lia. Qed.
Lemma engine_left_most a n : engine_left a n → (n ≤ 17 + longest)%nat.
Proof. destruct 1; try destruct (decide (k < 4)%nat); lia. Qed.

Definition most_steps (threads : nat) : nat := 14 + threads * (17 + longest).

Lemma system_left_most s n : system_left s n → (n ≤ most_steps (length (engine_thrs s)))%nat.
Proof.
  intros (ns & Hns & ->). unfold most_steps.
  pose proof (worker_left_most (table_thr s)). pose proof (worker_left_most (alter_thr s)).
  pose proof (stat_left_most (stat_thr s)).
  assert (sum_list ns ≤ length (engine_thrs s) * (17 + longest))%nat; [|lia].
  induction Hns as [|a n l ns Ha _ IH]; [done|]. apply engine_left_most in Ha.
  apply (Nat.add_le_mono _ _ _ _ Ha IH).
Qed.

Lemma system_left_exists s : system_ok s → ∃ n, system_left s n.
Proof.
  intros [(m & _ & _ & He) _ _ _].
  assert (∃ ns, Forall2 engine_left (engine_thrs s) ns) as [ns Hns].
  { induction He as [|a l Ha He IH]; [by exists []|]. destruct IH as [ns Hns].
    destruct (engine_left_exists _ _ Ha) as [n Hn]. exists (n :: ns). by constructor. }
  by eexists _, ns.
Qed.

(** ** Each step brings it nearer *)

(** The run is over, and there is a table. *)
Definition over (sh : shared) : Prop := is_thread_run sh = false ∧ has_first_table sh = true.

Lemma table_nearer sh e w sh' w' e' : over sh →
  table_step sh e w = Some (Ok (sh', w', e')) → over sh' ∧ (worker_left w' < worker_left w)%nat.
Proof.
  intros [Hr Hf]. unfold System.table_step.
  destruct w as [| |c|c|c|c until|c|]; try done; rewrite ?Hr.
  - destruct (turn _ _) as [[[u c] e1]|x]; [|done]. intros [= <- <- <-]. split; [done|cbn; lia].
  - intros [= <- <- <-]. split; [done|cbn; lia].
  - destruct (turn _ _) as [[[made c'] e1]|x]; [|done]. intros [= <- <- <-].
    split; [by destruct made|cbn; lia].
  - intros [= <- <- <-]. split; [done|cbn; lia].
  - destruct (_ <=? _); [|done]. intros [= <- <- <-]. split; [done|cbn; lia].
  - destruct (turn _ _) as [[[u c'] e1]|x]; [|done]. intros [= <- <- <-]. split; [done|cbn; lia].
Qed.

Lemma alter_nearer sh e w sh' w' e' : over sh →
  alter_step sh e w = Some (Ok (sh', w', e')) → over sh' ∧ (worker_left w' < worker_left w)%nat.
Proof.
  intros [Hr Hf]. unfold System.alter_step.
  destruct w as [| |c|c|c|c until|c|]; try done; rewrite ?Hr, ?Hf.
  - intros [= <- <- <-]. split; [done|cbn; lia].
  - destruct (turn _ _) as [[[u c] e1]|x]; [|done]. intros [= <- <- <-]. split; [done|cbn; lia].
  - intros [= <- <- <-]. split; [done|cbn; lia].
  - destruct (turn _ _) as [[[made c'] e1]|x]; [|done]. intros [= <- <- <-]. split; [done|cbn; lia].
  - intros [= <- <- <-]. split; [done|cbn; lia].
  - destruct (_ <=? _); [|done]. intros [= <- <- <-]. split; [done|cbn; lia].
  - destruct (turn _ _) as [[[u c'] e1]|x]; [|done]. intros [= <- <- <-]. split; [done|cbn; lia].
Qed.

Lemma stat_nearer sh e st sh' st' e' : over sh →
  stat_step sh e st = Some (Ok (sh', st', e')) → over sh' ∧ (stat_left st' < stat_left st)%nat.
Proof.
  intros [Hr Hf]. unfold System.stat_step. destruct st as [|start pc].
  { intros [= <- <- <-]. split; [done|cbn; lia]. }
  destruct pc as [| | | |until|]; cbn; rewrite ?Hr; try done.
  - intros [= <- <- <-]. split; [done|cbn; lia].
  - destruct (turn _ _) as [[[u c] e1]|x]; [|done]. intros [= <- <- <-]. split; [done|cbn; lia].
  - intros [= <- <- <-]. split; [done|cbn; lia].
  - unfold asleep. destruct (_ <=? _); [|done]. intros [= <- <- <-]. split; [done|cbn; lia].
Qed.

Lemma turn_inv {A} E (m0 : M engine A) e Q a c e' :
  runs E m0 e Q → turn m0 e = Ok (a, c, e') → Q a e'.
Proof. unfold runs, turn. destruct (m0 e) as [[a1|w] e1]; [|done]. by intros HQ [= <- _ <-]. Qed.

Lemma engine_nearer m i sh e a sh' a' e' n : over sh → data_ok m e → engine_ok cs lists pairs m a →
  engine_left a n → engine_step i sh e a = Some (Ok (sh', a', e')) →
  over sh' ∧ ∃ n', engine_left a' n' ∧ (n' < n)%nat.
Proof using Hshape.
  intros [Hr Hf] D W Hleft. unfold System.engine_step.
  destruct Hleft as [| |c|c|c|c l cmd k Hk Hle|c|c|c k|c k v|c|c|st]; try done; rewrite ?Hr, ?Hf.
  - intros [= <- <- <-]. split; [done|]. eexists. split; [constructor|lia].
  - destruct (turn _ _) as [[[u c] e1]|x]; [|done]. intros [= <- <- <-].
    split; [done|]. eexists. split; [constructor|lia].
  - intros [= <- <- <-]. split; [done|]. eexists. split; [constructor|lia].
  - destruct (turn _ _) as [[[u c'] e1]|x]; [|done]. intros [= <- <- <-].
    split; [done|]. eexists. split; [constructor|lia].
  - destruct W as (C & Ht & Hne). destruct (cc_list _ _ _ _ C) as (l & Hl & ts & Hts).
    destruct (turn _ _) as [[[cmd c'] e1]|x] eqn:Hturn; [|done]. intros [= <- <- <-].
    split; [done|]. exists (15 + length ts)%nat. pose proof (longest_ge _ _ Hts).
    split; [|lia]. rewrite Hl. constructor; [|done].
    assert (runs expected (cmd ← on_cmd_state (get_first_cmd (cmd_list c)); set_seed;; mret cmd)
      (as_thread c e) (λ cmd _, nodes_left cs l cmd (length ts))) as Hruns.
    { rewrite Hl. eapply runs_then; [eapply first_cmd_runs; [by apply data_ok_thread|exact Hts]|].
      intros cmd1 e2 [-> Hat]. cbn in Hat. by rewrite (do_cmds _ _ _ _ _ _ _ D) in Hat. }
    exact (turn_inv _ _ _ _ _ _ _ Hruns Hturn).
  - destruct W as ((C & Ht & Hne) & _).
    destruct (turn _ _) as [[[r c'] e1]|x] eqn:Hturn; [|done]. intros [= <- <- <-]. split; [done|].
    assert (runs expected (travel_step (Some l) cmd) (as_thread c e) (λ r _,
      match r with inl cmd' => ∃ k', k = S k' ∧ nodes_left cs l cmd' k' | inr () => True end)) as Hruns.
    { eapply runs_weaken.
      - eapply travel_step_runs; [done|by apply data_ok_thread|exact C|done..|]. cbn.
        by rewrite (do_cmds _ _ _ _ _ _ _ D).
      - intros [cmd'|[]] e2 (_ & _ & Hx); [|done]. cbn in Hx.
        by rewrite (do_cmds _ _ _ _ _ _ _ D) in Hx. }
    pose proof (turn_inv _ _ _ _ _ _ _ Hruns Hturn) as Hx. destruct r as [cmd'|[]].
    + destruct Hx as (k' & -> & Hk'). exists (15 + k')%nat. split; [constructor; [done|lia]|lia].
    + exists 14%nat. split; [constructor|lia].
  - destruct (turn _ _) as [[[u c'] e1]|x]; [|done]. intros [= <- <- <-].
    split; [done|]. eexists. split; [constructor|lia].
  - destruct (total_request_lock sh); [done|]. intros [= <- <- <-].
    split; [done|]. eexists. split; [constructor|lia].
  - intros [= <- <- <-]. split; [done|].
    destruct (requests (stats c) !! k) as [x|] eqn:Hx; eexists; (split; [constructor|]); [|lia].
    apply lookup_lt_Some in Hx. cbn in Hx. rewrite decide_True by lia. lia.
  - intros [= <- <- <-]. split; [done|]. eexists. split; [constructor|].
    destruct (decide (k < 4)%nat); lia.
  - intros [= <- <- <-]. split; [done|]. eexists. split; [constructor|lia].
  - destruct (turn _ _) as [[[u c'] e1]|x]; [|done]. intros [= <- <- <-].
    split; [done|]. eexists. split; [constructor|lia].
Qed.

(** ** Runs, with the steps of the threads counted *)

Definition later (d : Z) s : system :=
  System _ (set_time (sh_time (ctl s) + d) (ctl s)) (time_thr s) (table_thr s) (alter_thr s)
    (stat_thr s) (engine_thrs s) (data s).

(** A step of some thread. *)
Definition works s (o : system + stop) : Prop :=
  ∃ x, (∀ d, x ≠ Tick d) ∧ exec_step x s = Some o.

(** Time passes as it likes, and the threads make [k] steps. *)
Inductive run_of : nat → system → system → Prop :=
  | run_none s : run_of 0 s s
  | run_time s d k s' : 0 ≤ d → run_of k (later d s) s' → run_of k s s'
  | run_thread s s1 k s' : works s (inl s1) → run_of k s1 s' → run_of (S k) s s'.

Lemma works_step s o : works s o → step s o.
Proof. intros (x & _ & Hx). by apply exec_step_sound in Hx. Qed.

Lemma step_works s o : step s o → works s o ∨ ∃ d, 0 ≤ d ∧ o = inl (later d s).
Proof.
  intros [s0 d Hd|s0 sh pc Hs|s0 r Hr|s0 r Hr|s0 r Hr|s0 i a r Hi Hr]; [right; by exists d|left..].
  - exists TimeThread. split; [done|]. cbn. by rewrite Hs.
  - exists TableThread. split; [done|]. cbn. by rewrite Hr.
  - exists AlterThread. split; [done|]. cbn. by rewrite Hr.
  - exists StatThread. split; [done|]. cbn. by rewrite Hr.
  - exists (EngineThread i). split; [done|]. cbn. rewrite Hi. cbn. by rewrite Hr.
Qed.

Lemma later_goes_on s d : 0 ≤ d → goes_on s (later d s).
Proof. intros Hd. by apply st_tick. Qed.

(** Every run is one of these. *)
Lemma run_of_iff s s' : rtc goes_on s s' ↔ ∃ k, run_of k s s'.
Proof.
  split.
  - induction 1 as [s|s s1 s' Hs _ [k Hk]]; [by exists 0%nat; constructor|].
    destruct (step_works _ _ Hs) as [Hw|(d & Hd & [= ->])].
    + exists (S k). by eapply run_thread.
    + exists k. by eapply run_time.
  - intros [k Hk]. induction Hk as [s|s d k s' Hd _ IH|s s1 k s' Hw _ IH]; [done|..].
    + eapply rtc_l; [by apply later_goes_on|exact IH].
    + eapply rtc_l; [by apply works_step|exact IH].
Qed.

(** ** After the end of the run *)

Record settled s : Prop := {
  sd_ok : system_ok s;
  sd_over : over (ctl s);
  sd_seen : ∃ t, alive g_end_time t ∧ sees s t;
}.

Lemma settled_time s : settled s → time_thr s = TimeDone.
Proof.
  intros [_ [Hr _] (t & A & S)]. pose proof (al_time _ _ A) as Ht. unfold time_inv in Ht.
  rewrite (se_shared _ _ S), (se_time _ _ S), Hr in Ht. by destruct (time_thr s), Ht.
Qed.

(** A step keeps what it needs to be known of the threads. *)
Lemma settled_next s s' : settled s → goes_on s s' → over (ctl s') → settled s'.
Proof using Hmem Hshape.
  intros [Hok _ (t & A & S)] Hs Ho. split; [|done|].
  - by apply (step_ok g_username g_password g_end_time g_alter_interval g_stat_interval table_tid
      alter_tid Hmem cs lists pairs wb rb s (inl s')).
  - destruct (goes_on_follows _ _ _ _ _ _ _ _ _ _ Hs S) as (t' & Ht & S'). exists t'.
    split; [by eapply alive_run|done].
Qed.

Lemma later_left s d n : system_left s n → system_left (later d s) n.
Proof. done. Qed.

Lemma works_nearer s s' n : settled s → system_left s n → works s (inl s') →
  over (ctl s') ∧ ∃ n', system_left s' n' ∧ (n' < n)%nat.
Proof using Hshape.
  intros Sd (ns & Hns & ->) (x & Hx & Hs). pose proof (settled_time _ Sd) as Htime.
  destruct Sd as [[(m & D & _ & He) _ _ _] Ho _].
  destruct x as [d| | | | |i]; [by destruct (Hx d)| | | | |]; cbn in Hs.
  - rewrite Htime in Hs. done.
  - destruct (table_step _ _ _) as [[[[sh w] e]|x]|] eqn:Hr; [|done..]. injection Hs as <-.
    destruct (table_nearer _ _ _ _ _ _ Ho Hr) as [Ho' Hlt]. split; [done|].
    eexists. split; [by exists ns|]. cbn. lia.
  - destruct (alter_step _ _ _) as [[[[sh w] e]|x]|] eqn:Hr; [|done..]. injection Hs as <-.
    destruct (alter_nearer _ _ _ _ _ _ Ho Hr) as [Ho' Hlt]. split; [done|].
    eexists. split; [by exists ns|]. cbn. lia.
  - destruct (stat_step _ _ _) as [[[[sh w] e]|x]|] eqn:Hr; [|done..]. injection Hs as <-.
    destruct (stat_nearer _ _ _ _ _ _ Ho Hr) as [Ho' Hlt]. split; [done|].
    eexists. split; [by exists ns|]. cbn. lia.
  - destruct (engine_thrs s !! i) as [a|] eqn:Hi; [|done]. cbn in Hs.
    destruct (engine_step _ _ _ _) as [[[[sh a'] e]|x]|] eqn:Hr; [|done..]. injection Hs as <-.
    destruct (Forall2_lookup_l _ _ _ _ _ Hns Hi) as (n & Hn & Hleft).
    pose proof (Forall_lookup_1 _ _ _ _ He Hi) as Ha.
    destruct (engine_nearer _ _ _ _ _ _ _ _ _ Ho D Ha Hleft Hr) as (Ho' & n' & Hleft' & Hlt).
    split; [done|]. eexists. split; [exists (<[i := n']> ns); split; [by apply Forall2_insert|done]|].
    assert (sum_list (<[i := n']> ns) < sum_list ns)%nat; [|cbn [table_thr alter_thr stat_thr engine_thrs]; lia].
    clear -Hn Hlt. revert i Hn. induction ns as [|k ns IH]; intros [|i] Hn; cbn; simplify_eq/=; [lia|].
    by apply Nat.add_lt_mono_l, IH.
Qed.

(** No more steps than are left. *)
Lemma run_of_bounded k s s' n : settled s → system_left s n → run_of k s s' → (k ≤ n)%nat.
Proof using Hmem Hshape.
  intros Sd Hn Hrun. revert n Sd Hn.
  induction Hrun as [s|s d k s' Hd _ IH|s s1 k s' Hw _ IH]; intros n Sd Hn; [lia|..].
  - apply IH; [|by apply later_left]. eapply settled_next; [done|by apply later_goes_on|].
    apply (sd_over _ Sd).
  - destruct (works_nearer _ _ _ Sd Hn Hw) as (Ho & n' & Hn' & Hlt).
    specialize (IH n'). apply Nat.le_trans with (S n'); [|lia]. apply le_n_S, IH; [|done].
    eapply settled_next; [done|by apply works_step|done].
Qed.

(** ** Until the end somebody can go on *)

Definition is_joined (a : engine_at) : bool := match a with TDone _ => true | _ => false end.

Lemma not_all_joined (l : list engine_at) : forallb is_joined l = false →
  ∃ i a, l !! i = Some a ∧ is_joined a = false.
Proof.
  induction l as [|a l IH]; [done|]. cbn. destruct (is_joined a) eqn:Ha.
  - intros (i & a' & Hi & Ha')%IH. by exists (S i), a'.
  - intros _. by exists 0%nat, a.
Qed.

Definition can_work s : Prop := ∃ d o, 0 ≤ d ∧ works (later d s) o.

Lemma thread_can_work s x d : (∀ d, x ≠ Tick d) → 0 ≤ d → is_Some (exec_step x (later d s)) →
  can_work s.
Proof. intros Hx Hd [o Ho]. exists d, o. split; [done|]. by exists x. Qed.

Lemma table_can_work s : table_thr s ≠ WWait → table_thr s ≠ WDone → can_work s.
Proof.
  intros Hw Hd. set (d := match table_thr s with WAsleep _ u => Z.max 0 (u - sh_time (ctl s)) | _ => 0 end).
  apply (thread_can_work s TableThread d); [done|unfold d; destruct (table_thr s); lia|].
  cbn. subst d. destruct (table_thr s) as [| |c|c|c|c u|c|]; try done; cbn; try by eexists.
  rewrite (proj2 (Z.leb_le _ _)) by lia. by eexists.
Qed.

Lemma alter_can_work s : alter_thr s ≠ WDone → can_work s.
Proof.
  intros Hd. set (d := match alter_thr s with WAsleep _ u => Z.max 0 (u - sh_time (ctl s)) | _ => 0 end).
  apply (thread_can_work s AlterThread d); [done|unfold d; destruct (alter_thr s); lia|].
  cbn. subst d. destruct (alter_thr s) as [| |c|c|c|c u|c|]; try done; cbn; try by eexists.
  rewrite (proj2 (Z.leb_le _ _)) by lia. by eexists.
Qed.

Lemma stat_can_work s : stat_pc (stat_thr s) ≠ PWait → stat_pc (stat_thr s) ≠ PDone → can_work s.
Proof.
  intros Hw Hd. set (d := match stat_thr s with SRun _ (PAsleep u) => Z.max 0 (u - sh_time (ctl s)) | _ => 0 end).
  apply (thread_can_work s StatThread d); [done|unfold d; destruct (stat_thr s) as [|? []]; lia|].
  cbn. subst d. destruct (stat_thr s) as [|st [| | | |u|]]; try done; cbn; try by eexists.
  unfold asleep. cbn. rewrite (proj2 (Z.leb_le _ _)) by lia. by eexists.
Qed.

Lemma engine_can_work s i a : engine_thrs s !! i = Some a → is_joined a = false →
  (∀ c, a = TLock c → total_request_lock (ctl s) = None) → can_work s.
Proof.
  intros Hi Ha Hl. apply (thread_can_work s (EngineThread i) 0); [done|done|]. cbn. rewrite Hi. cbn.
  destruct a; try done; try by eexists. cbn. rewrite (Hl _ eq_refl). by eexists.
Qed.

(** The owner of the lock first. *)
Lemma engines_can_work s : settled s → forallb is_joined (engine_thrs s) = false → can_work s.
Proof.
  intros [_ _ (t & A & S)] Hj. destruct (total_request_lock (ctl s)) as [j|] eqn:Hl.
  - rewrite <- (se_shared _ _ S) in Hl. destruct (al_lock _ _ A j Hl) as (pc & Hpc & Hin).
    destruct (Forall2_lookup_r _ _ _ _ _ (se_engines _ _ S) Hpc) as (a & Ha & Hsee).
    apply (engine_can_work s j a Ha); destruct a; cbn in Hsee; try done;
      try (by subst pc); by destruct Hsee as [st ->].
  - destruct (not_all_joined _ Hj) as (i & a & Hi & Ha). by eapply engine_can_work.
Qed.

Lemma settled_can_work s : settled s → all_joined s = true ∨ can_work s.
Proof.
  intros Sd. pose proof (sd_seen _ Sd) as (t & A & S).
  assert (table_thr s ≠ WWait) as Htw.
  { intros Hw. apply (proj1 (al_table _ _ A)). by rewrite (se_table _ _ S), Hw. }
  assert (stat_pc (stat_thr s) ≠ PWait) as Hsw.
  { rewrite <- (se_stat _ _ S). apply (al_stat _ _ A). }
  assert (table_thr s = WDone ∨ table_thr s ≠ WDone) as [Ht|Ht] by (destruct (table_thr s); auto);
    [|right; by apply table_can_work].
  assert (alter_thr s = WDone ∨ alter_thr s ≠ WDone) as [Ha|Ha] by (destruct (alter_thr s); auto);
    [|right; by apply alter_can_work].
  assert (stat_pc (stat_thr s) = PDone ∨ stat_pc (stat_thr s) ≠ PDone) as [Hs|Hs]
    by (destruct (stat_pc (stat_thr s)); auto); [|right; by apply stat_can_work].
  destruct (forallb is_joined (engine_thrs s)) eqn:Hj; [left|right; by apply engines_can_work].
  unfold all_joined. rewrite Ht, Ha. by destruct (stat_thr s) as [|st []].
Qed.

(** ** The end *)

(** The threads can all be joined, or the program ends before. *)
Definition comes_to_end s : Prop :=
  ∃ s', rtc goes_on s s' ∧ (all_joined s' = true ∨ ∃ w, step s' (inr w)).

Lemma ends_before s s1 : rtc goes_on s s1 → comes_to_end s1 → comes_to_end s.
Proof. intros Hr (s' & Hr' & He). exists s'. split; [by etrans|done]. Qed.

Lemma settled_comes_to_end s : settled s → comes_to_end s.
Proof using Hmem Hshape.
  intros Sd. destruct (system_left_exists s (sd_ok _ Sd)) as [n Hn]. revert s Sd Hn.
  induction n as [n IH] using lt_wf_ind. intros s Sd Hn.
  destruct (settled_can_work s Sd) as [Hj|(d & [s1|w] & Hd & Hw)].
  - exists s. split; [done|by left].
  - assert (settled (later d s)) as Sd'
      by (eapply settled_next; [done|by apply later_goes_on|apply (sd_over _ Sd)]).
    destruct (works_nearer _ _ _ Sd' (later_left _ d _ Hn) Hw) as (Ho & n' & Hn' & Hlt).
    apply (ends_before s s1).
    + eapply rtc_l; [by apply (later_goes_on s d)|]. by apply rtc_once, works_step.
    + eapply IH; [exact Hlt| |done]. eapply settled_next; [done|by apply works_step|done].
  - exists (later d s). split; [by apply rtc_once, later_goes_on|]. right. exists w.
    by apply works_step.
Qed.

Lemma reachable_seen n (t0 : Z) e s : rtc goes_on (start_system n t0 e) s →
  ∃ t, alive g_end_time t ∧ sees s t.
Proof.
  intros Hr. destruct (run_follows _ _ _ _ _ _ _ _ _ _ Hr (start_sees n t0 e)) as (t & Ht & S).
  exists t. split; [|done]. eapply alive_run; [exact Ht|apply alive_start].
Qed.

Lemma reachable_settled n (t0 : Z) e s : data_ok ∅ e → rtc goes_on (start_system n t0 e) s →
  over (ctl s) → settled s.
Proof using Hmem Hshape.
  intros D Hr Ho. split; [|done|by eapply reachable_seen].
  by apply (run_ok g_username g_password g_end_time g_alter_interval g_stat_interval table_tid
    alter_tid Hmem cs lists pairs wb rb n t0 e s).
Qed.

(** The time thread alone ends the run. *)
Definition timed s sh pc : system :=
  System _ sh pc (table_thr s) (alter_thr s) (stat_thr s) (engine_thrs s) (data s).

Lemma time_step_on s sh pc sh' pc' : time_thread g_end_time sh pc = Some (sh', pc') →
  goes_on (timed s sh pc) (timed s sh' pc').
Proof. intros Ht. by apply (st_time _ _ _ _ _ _ _ (timed s sh pc)). Qed.

Lemma time_tests s sh start : is_thread_run sh = true →
  ∃ sh', rtc goes_on (timed s sh (TimeTest start)) (timed s sh' TimeDone) ∧
    is_thread_run sh' = false ∧ has_first_table sh' = has_first_table sh.
Proof.
  intros Hr.
  assert (∀ sh0, end_time sh0 ≤ duration sh0 →
    goes_on (timed s sh0 (TimeTest start)) (timed s (set_run false sh0) TimeDone)) as Hlate.
  { intros sh0 Hd. apply time_step_on. cbn. by rewrite (proj2 (Z.ltb_ge _ _)) by lia. }
  destruct (Z.ltb_spec (duration sh) (end_time sh)) as [Hd|Hd].
  2: { eexists. split; [apply rtc_once, Hlate; lia|done]. }
  set (sh1 := set_time (sh_time sh + Z.max 0 (end_time sh + start - sh_time sh)) sh).
  exists (set_run false (set_duration (sh_time sh1 - start) sh1)). split; [|done].
  eapply rtc_l.
  { apply time_step_on. cbn. rewrite (proj2 (Z.ltb_lt _ _)) by lia. reflexivity. }
  eapply rtc_l; [apply (later_goes_on (timed s sh (TimeSleep start))
    (Z.max 0 (end_time sh + start - sh_time sh))); lia|].
  eapply rtc_l; [by apply (time_step_on s sh1 (TimeSleep start))|].
  apply rtc_once, Hlate. unfold sh1. cbn. lia.
Qed.

Lemma run_can_be_over n (t0 : Z) e s : rtc goes_on (start_system n t0 e) s →
  ∃ s', rtc goes_on s s' ∧ is_thread_run (ctl s') = false ∧
    has_first_table (ctl s') = has_first_table (ctl s).
Proof.
  intros Hr. destruct (reachable_seen _ _ _ _ Hr) as (t & A & S).
  pose proof (al_time _ _ A) as Ht. unfold time_inv in Ht.
  rewrite (se_shared _ _ S), (se_time _ _ S) in Ht.
  assert (s = timed s (ctl s) (time_thr s)) as Hs by by destruct s.
  destruct (time_thr s) as [|start|start|].
  - destruct (time_tests s (set_end_time g_end_time (ctl s)) (sh_time (ctl s)))
      as (sh' & Hr' & Hrun & Hf); [by apply Ht|].
    exists (timed s sh' TimeDone). split_and!; [|done|done]. rewrite Hs at 1.
    eapply rtc_l; [|exact Hr']. by apply time_step_on.
  - destruct (time_tests s (ctl s) start) as (sh' & Hr' & Hrun & Hf); [by apply Ht|].
    exists (timed s sh' TimeDone). split_and!; [|done|done]. by rewrite Hs at 1.
  - destruct (time_tests s (set_duration (sh_time (ctl s) - start) (ctl s)) start)
      as (sh' & Hr' & Hrun & Hf); [by apply Ht|].
    exists (timed s sh' TimeDone). split_and!; [|done|done]. rewrite Hs at 1.
    eapply rtc_l; [|exact Hr']. by apply time_step_on.
  - exists s. by split_and!; [| apply Ht|].
Qed.

(** C15 (liveness). Once there is a table no order of steps takes the whole program to a place from which
    it cannot end: whatever the threads have done, a run goes on from there until they have all
    been joined, unless the program ends before. *)
Theorem system_can_end n (t0 : Z) e s :
  data_ok ∅ e → rtc goes_on (start_system n t0 e) s → has_first_table (ctl s) = true →
  comes_to_end s.
Proof using Hmem Hshape.
  intros D Hr Hf. destruct (run_can_be_over _ _ _ _ Hr) as (s1 & Hr1 & Hrun & Hf1).
  apply (ends_before s s1 Hr1), settled_comes_to_end.
  apply (reachable_settled n t0 e); [done|by etrans|]. by split; [|rewrite Hf1].
Qed.

(** The number of engine threads never changes. *)
Lemma reachable_threads n (t0 : Z) e s : rtc goes_on (start_system n t0 e) s →
  length (engine_thrs s) = Z.to_nat (engine_thread_num n).
Proof.
  intros Hr. assert (length (engine_thrs s) = length (engine_thrs (start_system n t0 e))) as ->;
    [|apply length_replicate].
  induction Hr as [s|s s1 s' Hs _ IH]; [done|]. rewrite IH.
  destruct (step_works _ _ Hs) as [(x & _ & Hx)|(d & _ & [= ->])]; [|done].
  destruct x as [d| | | | |i]; cbn in Hx.
  - by injection Hx as <-.
  - destruct (time_thread _ _ _) as [[sh pc]|]; [|done]. by injection Hx as <-.
  - destruct (table_step _ _ _) as [[[[sh w] e1]|x]|]; [|done..]. by injection Hx as <-.
  - destruct (alter_step _ _ _) as [[[[sh w] e1]|x]|]; [|done..]. by injection Hx as <-.
  - destruct (stat_step _ _ _) as [[[[sh w] e1]|x]|]; [|done..]. by injection Hx as <-.
  - destruct (engine_thrs s !! i); [|done]. cbn in Hx.
    destruct (engine_step _ _ _ _) as [[[[sh w] e1]|x]|]; [|done..]. injection Hx as <-.
    apply length_insert.
Qed.

(** C14 (termination). When the run is over and there is a table, nothing can put the end off: in whatever
    order, and however time passes, the threads still make at most 14 steps, and as many more for
    each engine thread as the longest command list has commands, and 17; and until all of them
    have been joined there is one that can go on. *)
Theorem system_winds_down n (t0 : Z) e s :
  data_ok ∅ e → rtc goes_on (start_system n t0 e) s → over (ctl s) →
  (∀ k s', run_of k s s' → (k ≤ most_steps (Z.to_nat (engine_thread_num n)))%nat) ∧
  (all_joined s = true ∨ can_work s).
Proof using Hmem Hshape.
  intros D Hr Ho. pose proof (reachable_settled n t0 e s D Hr Ho) as Sd. split.
  - destruct (system_left_exists s (sd_ok _ Sd)) as [b Hb]. intros k s' Hk.
    rewrite <- (reachable_threads n t0 e s Hr).
    etrans; [by eapply run_of_bounded|by apply system_left_most].
  - by apply settled_can_work.
Qed.
End progress.

(** ** Witnesses *)

Local Existing Instance roomy_allocator.
Local Existing Instance counting_rand.
Local Existing Instance ticking.
Local Existing Instance mock_client.
Local Existing Instance mock_shape.

(** A table is made; with no seconds to run, the run is over by then. *)
Definition table_schedule : list who := TimeThread :: replicate 3 TableThread ++ [TimeThread].

Lemma table_made : ∃ s, rtc (goes_on [] [] 0 600 10 0 0) (mock_start mock_cmds) s ∧ over (ctl s).
Proof.
  assert ((λ s, (is_thread_run (ctl s), has_first_table (ctl s))) <$>
    going_on (exec [] [] 0 600 10 0 0 table_schedule (mock_start mock_cmds)) = Some (false, true)) as Hj
    by (vm_compute; reflexivity).
  apply fmap_Some in Hj as (s & He & Hj). exists s. injection Hj as H1 H2.
  split; [|by split]. apply (exec_ends_at table_schedule). by apply going_on_Some.
Qed.

Example system_can_end_witness : ∃ s,
  rtc (goes_on [] [] 0 600 10 0 0) (mock_start mock_cmds) s ∧ has_first_table (ctl s) = true ∧
  comes_to_end [] [] 0 600 10 0 0 s.
Proof.
  destruct mock_data_ok as (wb & rb & D). destruct table_made as (s & Hr & Ho).
  exists s. split_and!; [exact Hr|apply Ho|].
  exact (system_can_end [] [] 0 600 10 0 0 roomy_small mock_cmds _ _ wb rb 1 0 _ s D Hr (proj2 Ho)).
Defined.

Example system_winds_down_witness : ∃ s,
  rtc (goes_on [] [] 0 600 10 0 0) (mock_start mock_cmds) s ∧ over (ctl s) ∧
  (∀ k s', run_of [] [] 0 600 10 0 0 k s s' → (k ≤ 32)%nat) ∧
  (all_joined s = true ∨ can_work [] [] 0 600 10 0 0 s).
Proof.
  destruct mock_data_ok as (wb & rb & D). destruct table_made as (s & Hr & Ho).
  exists s. split_and!; [exact Hr|exact Ho|..];
    apply (system_winds_down [] [] 0 600 10 0 0 roomy_small mock_cmds
      {[1%positive := [SELECT]]} mock_pairs wb rb 1 0 _ s D Hr Ho).
Defined.
