(* ===== verification/Verify.v ===== *)
(** * Verify: checking what the configuration says (src/src/parser/verify.c)

    Addresses and numbers are read with [sscanf]; rates are [double]s, IEEE
    binary64 numbers with the operations of the standard library's [SpecFloat]. *)

From stdpp Require Import base list strings.
From Stdlib Require Import ZArith Lia SpecFloat.
From S2P Require Import Prelude CText.
Local Open Scope Z_scope.

(** ** [sscanf] *)

Fixpoint span (p : Z → bool) (s : cstring) : cstring * cstring :=
  match s with
  | [] => ([], [])
  | c :: s' => if p c then let '(a, b) := span p s' in (c :: a, b) else ([], s)
  end.

(** An optional sign. *)
Definition sign_of (s : cstring) : Z * cstring :=
  match s with
  | 45 :: s' => (-1, s')
  | 43 :: s' => (1, s')
  | _ => (1, s)
  end.

(** [%d]: the number and what is left, [None] when there is no number; a number
    that an [int] cannot hold has no defined result. *)
Definition scan_int (s : cstring) : res (option (Z * cstring)) :=
  let '(sg, s1) := sign_of (skip_spaces s) in
  let '(ds, rest) := span is_digit s1 in
  match ds with
  | [] => Ok None
  | _ => let n := sg * read_digits ds 0 in
         if (n <? - 2 ^ 31) || (INT_MAX <? n) then Stop (Undefined SignedOverflow)
         else Ok (Some (n, rest))
  end.

(** A literal character of the format. *)
Definition scan_char (c : Z) (s : cstring) : option cstring :=
  match s with
  | c' :: s' => if c' =? c then Some s' else None
  | [] => None
  end.

(** The numbers of ["%d.%d.%d.%d"], as many as there are. *)
Fixpoint scan_dotted (n : nat) (s : cstring) : res (list Z) :=
  match n with
  | O => Ok []
  | S n =>
      r ← scan_int s;
      match r with
      | None => Ok []
      | Some (z, s1) =>
          match n with
          | O => Ok [z]
          | _ => match scan_char 46 s1 with
                 | None => Ok [z]
                 | Some s2 => l ← scan_dotted n s2; Ok (z :: l)
                 end
          end
      end
  end.

(** ** The checks *)

Definition verify_ip (ip : cstring) : res ret_t :=
  fgm ← scan_dotted 4 ip;
  if negb (length fgm =? 4)%nat then Ok RET_FAILED
  else if existsb (λ f, (f <? 0) || (255 <? f)) fgm then Ok RET_FAILED
  else Ok RET_SUCCEED.

Definition verify_port (port : Z) : ret_t :=
  if (0 <=? port) && (port <? 65536) then RET_SUCCEED else RET_FAILED.

(** [ori] is [NULL] when the property it comes from is missing. *)
Definition verify_string (ori : option cstring) (ref : cstring) : res ret_t :=
  match ori with
  | None => Stop (Undefined NullDeref)
  | Some ori => Ok (if strcmp_eq ori ref then RET_SUCCEED else RET_FAILED)
  end.

Definition verify_window (rows cols : Z) : ret_t :=
  if (rows <? 0) || (cols <? 0) then RET_FAILED else RET_SUCCEED.

(** ** Doubles *)

Notation double := spec_float (only parsing).

Definition dadd : double → double → double := SFadd 53 1024.
Definition dmul : double → double → double := SFmul 53 1024.
Definition ddiv : double → double → double := SFdiv 53 1024.
Definition dltb : double → double → bool := SFltb.
Definition dleb : double → double → bool := SFleb.

(** The double nearest to [n * 2 ^ e], and to the quotient of two naturals. *)
Definition scaled (n e : Z) : double := binary_normalize 53 1024 n e false.
Definition of_int (n : Z) : double := scaled n 0.
Definition ratio (n d : positive) : double :=
  ddiv (S754_finite false n 0) (S754_finite false d 0).

(** [n * 10 ^ k] *)
Definition decimal_double (n k : Z) : double :=
  match n with
  | Z0 => S754_zero false
  | Zpos p => if 0 <=? k then of_int (n * 10 ^ k) else ratio p (Z.to_pos (10 ^ (- k)))
  | Zneg _ => S754_nan
  end.

Definition dzero : double := S754_zero false.
Definition one : double := of_int 1.
(** [0.01] *)
Definition eps : double := decimal_double 1 (-2).

(** [(int) x]: towards zero, without a defined result when that is no [int]. *)
Definition int_of (x : double) : res Z :=
  let fit n := if (n <? - 2 ^ 31) || (INT_MAX <? n) then Stop (Undefined BadConversion) else Ok n in
  match x with
  | S754_zero _ => Ok 0
  | S754_infinity _ | S754_nan => Stop (Undefined BadConversion)
  | S754_finite s m e =>
      let n := if 0 <=? e then Zpos m * 2 ^ e else Zpos m / 2 ^ (- e) in
      fit (if s then - n else n)
  end.

(** [%lf] at a digit or a point: [None] when the conversion fails.  (The
    expression that finds the place does not match a sign or a letter.) *)
Definition is_hex (c : Z) : bool :=
  is_digit c || ((97 <=? c) && (c <=? 102)) || ((65 <=? c) && (c <=? 70)).
Definition hex_value (c : Z) : Z :=
  if is_digit c then c - 48 else if 97 <=? c then c - 87 else c - 55.
Definition read_hex (ds : cstring) : Z := foldl (λ n c, 16 * n + hex_value c) 0 ds.

(** The digits before and after a point. *)
Definition scan_mantissa (p : Z → bool) (s : cstring) : cstring * cstring * cstring :=
  let '(a, s1) := span p s in
  match s1 with
  | 46 :: s2 => let '(b, s3) := span p s2 in (a, b, s3)
  | _ => (a, [], s1)
  end.

(** The exponent after one of the letters [e]: [None] when it has no digits. *)
Definition scan_exponent (e : Z → bool) (s : cstring) : option Z :=
  match s with
  | c :: s1 => if e c then
                 let '(sg, s2) := sign_of s1 in
                 let '(ds, _) := span is_digit s2 in
                 match ds with [] => None | _ => Some (sg * read_digits ds 0) end
               else Some 0
  | [] => Some 0
  end.

Definition scan_decimal (s : cstring) : option double :=
  let '(a, b, s1) := scan_mantissa is_digit s in
  match a ++ b with
  | [] => None
  | ds => x ← scan_exponent (λ c, (c =? 101) || (c =? 69)) s1;
          Some (decimal_double (read_digits ds 0) (x - Z.of_nat (length b)))
  end.

Definition scan_hexadecimal (s : cstring) : option double :=
  let '(a, b, s1) := scan_mantissa is_hex s in
  match a ++ b with
  | [] => None
  | ds => x ← scan_exponent (λ c, (c =? 112) || (c =? 80)) s1;
          Some (scaled (read_hex ds) (x - 4 * Z.of_nat (length b)))
  end.

Definition scan_double (s : cstring) : option double :=
  match s with
  | 48 :: c :: s' => if (c =? 120) || (c =? 88) then scan_hexadecimal s' else scan_decimal s
  | _ => scan_decimal s
  end.

(** ** Rates *)

(** [rate[i]] of an array whose cells may not have been set. *)
Definition rate_at (rate : list (option double)) (i : Z) : res double := arr_read (Live rate) i.

Definition verify_rate (rate : list (option double)) : res ret_t :=
  r ← for_upto 4 (λ i acc,
        match acc with
        | None => Ok None
        | Some sum =>
            x ← rate_at rate i;
            if dltb x dzero || dleb one x then Ok None else Ok (Some (dadd sum x))
        end) (Some dzero);
  Ok (match r with
      | None => RET_FAILED
      | Some sum => if dltb (dadd one eps) sum then RET_FAILED else RET_SUCCEED
      end).

(** ** What the checks accept *)

Lemma span_digits ds rest : Forall (λ c, is_digit c = true) ds →
  (∀ c r, rest = c :: r → is_digit c = false) →
  span is_digit (ds ++ rest) = (ds, rest).
Proof.
  intros Hds Hr. induction Hds as [|c ds Hc Hds IH]; cbn.
  - destruct rest as [|c r]; [done|]. cbn. by rewrite (Hr c r).
  - by rewrite Hc, IH.
Qed.

(** What follows a number does not go on with a digit. *)
Definition no_digit (rest : cstring) : Prop := ∀ c r, rest = c :: r → is_digit c = false.

Lemma scan_int_udecimal n rest : 0 ≤ n ≤ INT_MAX → no_digit rest →
  scan_int (udecimal n ++ rest) = Ok (Some (n, rest)).
Proof.
  intros Hn Hr. destruct (udecimal_spec n) as (Hds & Hne & Hval); [lia|].
  unfold scan_int. destruct (udecimal n) as [|c ds] eqn:Hu; [done|].
  assert (48 ≤ c ≤ 57) as Hc.
  { apply Forall_cons in Hds as [Hc _]. unfold is_digit in Hc.
    apply andb_true_iff in Hc as [H1%Z.leb_le H2%Z.leb_le]. lia. }
  cbn [app skip_spaces]. unfold is_space. zbool. cbn [orb andb].
  assert (sign_of (c :: ds ++ rest) = (1, (c :: ds) ++ rest)) as ->.
  { unfold sign_of. destruct c as [|p|p]; try lia.
    do 6 (destruct p as [p|p|]; try lia; try done). }
  rewrite span_digits by done. rewrite Z.mul_1_l, Hval. unfold INT_MAX in *. by zbool.
Qed.

Lemma no_digit_dot rest : no_digit (46 :: rest).
Proof. by intros c r [= <- <-]. Qed.

(** [sscanf] reads four numbers with points between, whatever follows. *)
Lemma scan_dotted_quad a b c d rest :
  0 ≤ a ≤ INT_MAX → 0 ≤ b ≤ INT_MAX → 0 ≤ c ≤ INT_MAX → 0 ≤ d ≤ INT_MAX → no_digit rest →
  scan_dotted 4 (udecimal a ++ [46] ++ udecimal b ++ [46] ++ udecimal c ++ [46] ++
                 udecimal d ++ rest) = Ok [a; b; c; d].
Proof.
  intros Ha Hb Hc Hd Hr. cbn [scan_dotted app].
  do 3 (rewrite scan_int_udecimal by (done || apply no_digit_dot);
        cbn [mbind res_mbind scan_char]; change (46 =? 46) with true; cbn iota).
  by rewrite scan_int_udecimal by done.
Qed.

(** C32 (addresses). [verify_ip] accepts a dotted quad exactly when its four numbers are at most 255;
    it reads no further, so that anything but a digit may follow. *)
Theorem verify_ip_dotted a b c d rest :
  0 ≤ a ≤ INT_MAX → 0 ≤ b ≤ INT_MAX → 0 ≤ c ≤ INT_MAX → 0 ≤ d ≤ INT_MAX → no_digit rest →
  verify_ip (udecimal a ++ [46] ++ udecimal b ++ [46] ++ udecimal c ++ [46] ++
             udecimal d ++ rest) =
    Ok (if decide (a ≤ 255 ∧ b ≤ 255 ∧ c ≤ 255 ∧ d ≤ 255) then RET_SUCCEED else RET_FAILED).
Proof.
  intros Ha Hb Hc Hd Hr. unfold verify_ip. rewrite scan_dotted_quad by done.
  cbn [mbind res_mbind length Nat.eqb negb existsb].
  rewrite !(proj2 (Z.ltb_ge _ 0)) by lia. cbn [orb].
  case_decide as Hle; [by zbool|].
  repeat zcase; cbn [orb]; done || lia.
Qed.

Example verify_ip_dotted_witness :
  verify_ip (text "192.168.0.300") = Ok RET_FAILED ∧
  verify_ip (text "10.0.0.1 and more") = Ok RET_SUCCEED.
Proof.
  split.
  - apply (verify_ip_dotted 192 168 0 300 []); done || (unfold INT_MAX; lia).
  - apply (verify_ip_dotted 10 0 0 1 (text " and more")); try (unfold INT_MAX; lia).
    intros c r [= <- <-]. reflexivity.
Defined.
