(* ===== verification/ParserXml.v ===== *)
(** * ParserXml: the XML configuration (src/src/parser/parser.c)

    libxml2 is not part of the program: a document is the tree it delivers, each
    node with its name, its properties and its children, text and comments being
    nodes with names of their own.  Reading a configuration fills the cluster,
    the command bucket and the set of schemas. *)

From stdpp Require Import base gmap list strings.
From Stdlib Require Import ZArith Lia.
From S2P Require Import Prelude Outcomes Mylib Vector Hash Heap CText Names Command Table Server Verify.
Local Open Scope Z_scope.

(** What a configuration fills, and the lines of the file not read yet. *)
Record boot `{MysqlClient} := Boot {
  b_cluster : cq_server_cluster_t;
  b_tables : table_state;
  b_cmds : cmd_state;
  b_rand : nat;
  b_db : db;
  b_now : nat;
  b_file : list cstring;
}.

(** [xmlNodePtr] *)
Inductive xml_node := XmlNode {
  xml_name : cstring;
  xml_props : list (cstring * cstring);
  xml_children : list xml_node;
}.

(** [xmlGetProp]: [None] is [NULL]. *)
Fixpoint find_prop (p : cstring) (l : list (cstring * cstring)) : option cstring :=
  match l with
  | [] => None
  | (k, v) :: l => if strcmp_eq k p then Some v else find_prop p l
  end.
Definition xmlGetProp (n : xml_node) (p : cstring) : option cstring := find_prop p (xml_props n).

Section xml.
Context `{Allocator} `{RandSource} `{MysqlClient}.
(** [g_username] and [g_password]. *)
Context (g_username g_password : cstring).

Definition on_cluster {A} : M cq_server_cluster_t A → M boot A :=
  zoom b_cluster (λ c b, Boot _ c (b_tables b) (b_cmds b) (b_rand b) (b_db b) (b_now b) (b_file b)).
Definition on_boot_tables {A} : M table_state A → M boot A :=
  zoom b_tables (λ t b, Boot _ (b_cluster b) t (b_cmds b) (b_rand b) (b_db b) (b_now b) (b_file b)).
Definition on_boot_cmds {A} : M cmd_state A → M boot A :=
  zoom b_cmds (λ c b, Boot _ (b_cluster b) (b_tables b) c (b_rand b) (b_db b) (b_now b) (b_file b)).
Definition on_boot_rand {A} : M nat A → M boot A :=
  zoom b_rand (λ k b, Boot _ (b_cluster b) (b_tables b) (b_cmds b) k (b_db b) (b_now b) (b_file b)).
Definition on_boot_db {A} : M db A → M boot A :=
  zoom b_db (λ d b, Boot _ (b_cluster b) (b_tables b) (b_cmds b) (b_rand b) d (b_now b) (b_file b)).
Definition set_file (f : list cstring) : M boot () :=
  mmodify (λ b, Boot _ (b_cluster b) (b_tables b) (b_cmds b) (b_rand b) (b_db b) (b_now b) f).

(** Go on while the result is [RET_SUCCEED]. *)
Definition each {S A} (f : A → M S ret_t) (l : list A) : M S ret_t :=
  foldr (λ x k, r ← f x; if bool_decide (r = RET_FAILED) then mret RET_FAILED else k)
    (mret RET_SUCCEED) l.

(** The first sibling of that name: [None] when the last one has another name,
    and a fault when there is no first one. *)
Fixpoint find_node (name : cstring) (l : list xml_node) : res (option xml_node) :=
  match l with
  | [] => Stop (Undefined NullDeref)
  | n :: l => if strcmp_eq (xml_name n) name then Ok (Some n)
              else match l with [] => Ok None | _ => find_node name l end
  end.

Definition read_server (type : server_type_t) (ip : cstring) (port : Z) : M boot ret_t :=
  my_server ← on_boot_db (server_init g_username g_password ip port type);
  on_cluster (cq_cluster_add my_server).

(** The server that a child of the [servers] node names. *)
Definition server_type_of (name : cstring) : option server_type_t :=
  if strcmp_eq name (text "write") then Some WRITE_SERVER
  else if strcmp_eq name (text "read") then Some READ_SERVER
  else None.

(** A child of that kind.  The two properties are freed here or at [error]. *)
Definition read_xml_server (type : server_type_t) (cur_node : xml_node) : M boot ret_t :=
  match xmlGetProp cur_node (text "ip"), xmlGetProp cur_node (text "port") with
  | Some ip, Some port_str =>
      port ← mlift (atoi port_str);
      v ← mlift (verify_ip ip);
      if bool_decide (v = RET_FAILED) then mret RET_FAILED
      else if bool_decide (verify_port port = RET_FAILED) then mret RET_FAILED
      else read_server type ip port
  | _, _ => mret RET_FAILED
  end.

(** The loop over the children.  [ip] and [port_str] are [NULL] before the first
    one; after it they have been freed, and a child of another kind makes
    [error] free them once more. *)
Fixpoint read_xml_servers (freed : bool) (l : list xml_node) : M boot ret_t :=
  match l with
  | [] => mret RET_SUCCEED
  | cur_node :: l =>
      match server_type_of (xml_name cur_node) with
      | None => if freed then mstop (Undefined UseAfterFree) else mret RET_FAILED
      | Some type =>
          r ← read_xml_server type cur_node;
          if bool_decide (r = RET_FAILED) then mret RET_FAILED else read_xml_servers true l
      end
  end.

Definition parser_read_xml_server (xml_root : xml_node) : M boot ret_t :=
  n ← mlift (find_node (text "servers") (xml_children xml_root));
  match n with
  | None => mret RET_FAILED
  | Some n => read_xml_servers false (xml_children n)
  end.

(** [table_data_init] copies the name with [strdup]. *)
Definition new_column (name : option cstring) (type : table_data_type_t) (length : Z)
    : M boot (option loc) :=
  match name with
  | None => mstop (Undefined NullDeref)
  | Some name => on_boot_tables (on_datas (table_data_init name type length))
  end.

Definition parser_read_table_data (my_schema : option loc) (cur_node : xml_node) : M boot ret_t :=
  let name := xmlGetProp cur_node (text "name") in
  let type := xmlGetProp cur_node (text "type") in
  varchar ← mlift (verify_string type (text "varchar"));
  if bool_decide (varchar = RET_SUCCEED) then
    match xmlGetProp cur_node (text "length") with
    | None => mstop (Undefined NullDeref)
    | Some length_str =>
        length ← mlift (atoi length_str);
        d ← new_column name VARCHAR length;
        on_boot_tables (on_schemas (schema_add my_schema d))
    end
  else
    bigint ← mlift (verify_string type (text "bigint"));
    if bool_decide (bigint = RET_SUCCEED) then
      d ← new_column name BIGINT 0;
      on_boot_tables (on_schemas (schema_add my_schema d))
    else mret RET_FAILED.

(** [None] when it fails. *)
Definition parser_read_table_schema (xml_node : xml_node) : M boot (option (option loc)) :=
  my_key_schema ← on_boot_tables (on_schemas schema_init);
  my_value_schema ← on_boot_tables (on_schemas schema_init);
  r ← each (λ cur_node,
        if strcmp_eq (xml_name cur_node) (text "key")
        then parser_read_table_data my_key_schema cur_node
        else parser_read_table_data my_value_schema cur_node) (xml_children xml_node);
  if bool_decide (r = RET_FAILED) then mret None else
    my_table_schema ← on_boot_tables (on_table_schemas
      (table_schema_init my_key_schema my_value_schema));
    mret (Some my_table_schema).

Definition parser_read_xml_table (xml_root : xml_node) : M boot ret_t :=
  n ← mlift (find_node (text "tables") (xml_children xml_root));
  match n with
  | None => mret RET_FAILED
  | Some n =>
      each (λ cur_node,
        if strcmp_eq (xml_name cur_node) (text "table") then
          s ← parser_read_table_schema cur_node;
          match s with
          | None => mret RET_FAILED
          | Some my_table_schema => on_boot_tables (schema_set_add my_table_schema)
          end
        else mret RET_SUCCEED) (xml_children n)
  end.

(** The command that a node's name stands for. *)
Definition cmd_type_of (name : cstring) : option cmd_type_t :=
  if strcmp_eq name (text "insert") then Some INSERT
  else if strcmp_eq name (text "delete") then Some DELETE
  else if strcmp_eq name (text "update") then Some UPDATE
  else if strcmp_eq name (text "select") then Some SELECT
  else None.

Definition parser_read_cmd_list (my_cmd_list : option loc) (xml_node : xml_node) : M boot ret_t :=
  each (λ cur_node,
    match cmd_type_of (xml_name cur_node) with
    | None => mret RET_FAILED
    | Some cmd_type =>
        cmd ← on_boot_cmds (on_cmds (cmd_init cmd_type));
        on_boot_cmds (cmd_list_add my_cmd_list cmd)
    end) (xml_children xml_node).

(** One child of the [cmds] node. *)
Definition read_xml_cmd (cur_node : xml_node) : M boot ret_t :=
  if strcmp_eq (xml_name cur_node) (text "cmd") then
    my_cmd_list ← on_boot_cmds cmd_list_init;
    r ← parser_read_cmd_list my_cmd_list cur_node;
    if bool_decide (r = RET_FAILED) then mret RET_FAILED
    else on_boot_cmds (cmd_bucket_add my_cmd_list)
  else mret RET_SUCCEED.

Definition parser_read_xml_cmd (xml_root : xml_node) : M boot ret_t :=
  n ← mlift (find_node (text "cmds") (xml_children xml_root));
  match n with
  | None => mret RET_FAILED
  | Some n => each read_xml_cmd (xml_children n)
  end.

(** [xmlReadFile] and [xmlDocGetRootElement] give a root, or there is none. *)
Definition parser_read_xml (xml_root : option xml_node) : M boot ret_t :=
  match xml_root with
  | None => mret RET_FAILED
  | Some xml_root =>
      each (λ f, f xml_root)
        [parser_read_xml_server; parser_read_xml_cmd; parser_read_xml_table]
  end.
End xml.

(** ** The command lists of a document *)

(** Building a command list leaves the bucket where it is. *)
Section keeps.
Context `{Allocator}.

Lemma keeps_on_cmds {A} (m : M (heap cmd_t) A) : keeps cq_cmd_bucket (on_cmds m).
Proof. by apply keeps_zoom_away. Qed.
Lemma keeps_on_cmd_lists {A} (m : M (heap cmd_list_t) A) : keeps cq_cmd_bucket (on_cmd_lists m).
Proof. by apply keeps_zoom_away. Qed.
Lemma keeps_initialised {S A B} (f : S → B) (v : option A) : keeps f (initialised v).
Proof. intros s. by destruct v. Qed.

#[local] Hint Resolve keeps_on_cmds keeps_on_cmd_lists keeps_initialised : keeps.

Lemma keeps_cmd_list_add l n : keeps cq_cmd_bucket (cmd_list_add l n).
Proof. unfold cmd_list_add. keeps. Qed.
Lemma keeps_cmd_list_init : keeps cq_cmd_bucket cmd_list_init.
Proof. unfold cmd_list_init. keeps. Qed.
End keeps.

Section documents.
Context `{Allocator} `{RandSource} `{MysqlClient}.
Implicit Types (b : boot) (s : cmd_state).

Definition with_cmds s b : boot :=
  Boot _ (b_cluster b) (b_tables b) s (b_rand b) (b_db b) (b_now b) (b_file b).

Lemma on_boot_cmds_ok {A} (m : M cmd_state A) b a s :
  m (b_cmds b) = (Ok a, s) → on_boot_cmds m b = (Ok a, with_cmds s b).
Proof. intros Hm. unfold on_boot_cmds. by erewrite zoom_ok by exact Hm. Qed.

(** The commands of a [cmd] node, if it has no other children. *)
Definition node_types (children : list xml_node) : option (list cmd_type_t) :=
  mapM (λ c, cmd_type_of (xml_name c)) children.

(** The commands before the first child of another name. *)
Fixpoint types_before (children : list xml_node) : list cmd_type_t :=
  match children with
  | [] => []
  | c :: children => match cmd_type_of (xml_name c) with
                     | Some t => t :: types_before children
                     | None => []
                     end
  end.

(** One command more. *)
Lemma add_command b lists detached (l : loc) ts t :
  crep (b_cmds b) lists detached → lists !! l = Some ts → Z.of_nat (length ts) < INT_MAX →
  malloc_ok 24 = true →
  ∃ s, (cmd ← on_boot_cmds (on_cmds (cmd_init t)); on_boot_cmds (cmd_list_add (Some l) cmd)) b =
      (Ok RET_SUCCEED, with_cmds s b) ∧
    crep s (<[l := ts ++ [t]]> lists) detached ∧ cq_cmd_bucket s = cq_cmd_bucket (b_cmds b).
Proof.
  intros R Hl Hlen Hm.
  destruct (cmd_init_spec _ _ _ t R Hm) as (n & s1 & Hi & Hn & R1).
  pose proof (keeps_on_cmds (cmd_init t) (b_cmds b)) as Hk1. rewrite Hi in Hk1.
  destruct (cmd_list_add_spec s1 lists (<[n := t]> detached) l ts n t R1 Hl) as (s2 & Ha & R2);
    [by rewrite lookup_insert_eq|done|].
  pose proof (keeps_cmd_list_add (Some l) (Some n) s1) as Hk2. rewrite Ha in Hk2.
  cbn [snd] in *. exists s2. split_and!.
  - erewrite bind_ok by (by apply on_boot_cmds_ok). by erewrite on_boot_cmds_ok by exact Ha.
  - by rewrite delete_insert_id in R2.
  - congruence.
Qed.

Lemma read_cmd_list_spec children b lists detached (l : loc) ts0 :
  crep (b_cmds b) lists detached → lists !! l = Some ts0 →
  Z.of_nat (length ts0 + length children) ≤ INT_MAX → malloc_ok 24 = true →
  let r := parser_read_cmd_list (Some l) (XmlNode [] [] children) b in
  match node_types children with
  | Some ts => ∃ s, r = (Ok RET_SUCCEED, with_cmds s b) ∧
      crep s (<[l := ts0 ++ ts]> lists) detached ∧ cq_cmd_bucket s = cq_cmd_bucket (b_cmds b)
  | None => ∃ s, r = (Ok RET_FAILED, with_cmds s b) ∧
      crep s (<[l := ts0 ++ types_before children]> lists) detached ∧
      cq_cmd_bucket s = cq_cmd_bucket (b_cmds b)
  end.
Proof.
  revert b lists ts0. induction children as [|c children IH]; intros b lists ts0 R Hl Hlen Hm.
  - exists (b_cmds b). cbn. split_and!; [by destruct b|by rewrite app_nil_r, insert_id|done].
  - unfold parser_read_cmd_list in *. cbn [xml_children each foldr node_types mapM types_before].
    destruct (cmd_type_of (xml_name c)) as [t|]; cbn [mbind option_bind].
    2: { exists (b_cmds b). split_and!; [by destruct b|by rewrite app_nil_r, insert_id|done]. }
    cbn [length] in Hlen.
    destruct (add_command b lists detached l ts0 t R Hl) as (s & Ha & R1 & Hb); [lia|done|].
    erewrite bind_ok by exact Ha. rewrite bool_decide_false by done.
    pose proof (IH (with_cmds s b) (<[l := ts0 ++ [t]]> lists) (ts0 ++ [t]) R1
      ltac:(by rewrite lookup_insert_eq) ltac:(rewrite length_app; cbn; lia) Hm) as IH'.
    cbv zeta in IH'. unfold node_types in IH'.
    destruct (mapM _ children) as [ts|]; destruct IH' as (s2 & Hr & R2 & Hb2); exists s2;
      rewrite insert_insert_eq, <- app_assoc in R2;
      (split_and!; [exact Hr|exact R2|cbn in Hb2; congruence]).
Qed.

(** The [cmd] nodes among the children of a [cmds] node, as lists of commands. *)
Definition section_types (children : list xml_node) : option (list (list cmd_type_t)) :=
  mapM (λ c, node_types (xml_children c))
    (filter (λ c, strcmp_eq (xml_name c) (text "cmd") = true) children).

(** What is read of a [cmds] node that has a [cmd] node with a child of another name: the
    lists of the [cmd] nodes before that one, and its own commands before that child. *)
Fixpoint lists_before (children : list xml_node) : list (list cmd_type_t) * list cmd_type_t :=
  match children with
  | [] => ([], [])
  | c :: children =>
      if strcmp_eq (xml_name c) (text "cmd") then
        match node_types (xml_children c) with
        | Some ts => let '(tss, rest) := lists_before children in (ts :: tss, rest)
        | None => ([], types_before (xml_children c))
        end
      else lists_before children
  end.

(** Room in the bucket for [n] lists more. *)
Definition memory_for (ls : nat) : Prop :=
  ∀ size, 0 ≤ size ≤ 16 * Z.of_nat ls + 24 → malloc_ok size = true.

Lemma room_for (v : vector (option loc)) ls n :
  vrep v ls → (length ls ≤ n)%nat → memory_for n → room v.
Proof.
  intros [cells R] Hn Hm Hf. rewrite (isfull_spec _ _ _ _ R) in Hf. apply Z.eqb_eq in Hf.
  apply Hm. lia.
Qed.

Lemma each_ok {S A} (f : A → M S ret_t) x l (t t' : S) :
  f x t = (Ok RET_SUCCEED, t') → each f (x :: l) t = each f l t'.
Proof. intros Hf. cbn [each foldr]. by erewrite bind_ok by exact Hf. Qed.
Lemma each_failed {S A} (f : A → M S ret_t) x l (t t' : S) :
  f x t = (Ok RET_FAILED, t') → each f (x :: l) t = (Ok RET_FAILED, t').
Proof. intros Hf. cbn [each foldr]. by erewrite bind_ok by exact Hf. Qed.

(** A [cmd] node. *)
Lemma read_xml_cmd_spec c b v ls lists detached n :
  crep (b_cmds b) lists detached → cq_cmd_bucket (b_cmds b) = SPtr v → vrep v ls →
  (length ls ≤ n)%nat → memory_for n →
  Z.of_nat (length (xml_children c)) ≤ INT_MAX →
  strcmp_eq (xml_name c) (text "cmd") = true →
  match node_types (xml_children c) with
  | Some ts => ∃ s v' l,
      read_xml_cmd c b = (Ok RET_SUCCEED, with_cmds s b) ∧ lists !! l = None ∧
      crep s (<[l := ts]> lists) detached ∧
      cq_cmd_bucket s = SPtr v' ∧ vrep v' (ls ++ [Some l])
  | None => ∃ s l,
      read_xml_cmd c b = (Ok RET_FAILED, with_cmds s b) ∧ lists !! l = None ∧
      crep s (<[l := types_before (xml_children c)]> lists) detached ∧ cq_cmd_bucket s = SPtr v
  end.
Proof.
  intros R Hv Rv Hn Hm Hc Hname. unfold read_xml_cmd. rewrite Hname.
  assert (malloc_ok 24 = true) as Hm24 by (apply Hm; lia).
  destruct (cmd_list_init_spec _ _ _ R Hm24) as (l & s1 & Hi & Hl & R1).
  pose proof (keeps_cmd_list_init (b_cmds b)) as Hk. rewrite Hi in Hk. cbn [snd] in Hk.
  erewrite bind_ok by (apply on_boot_cmds_ok; exact Hi).
  pose proof (read_cmd_list_spec (xml_children c) (with_cmds s1 b) (<[l := []]> lists) detached l []
    R1 ltac:(by rewrite lookup_insert_eq) ltac:(cbn; lia) Hm24) as Hr. cbv zeta in Hr.
  change (parser_read_cmd_list (Some l) (XmlNode [] [] (xml_children c)))
    with (parser_read_cmd_list (Some l) c) in Hr.
  destruct (node_types (xml_children c)) as [ts|]; destruct Hr as (s2 & Hr & R2 & Hb);
    cbn in Hb; rewrite Hk, Hv in Hb; rewrite insert_insert_eq in R2; cbn [app] in R2.
  - erewrite bind_ok by exact Hr. rewrite bool_decide_false by done.
    destruct (vector_push_back_spec v ls (Some l) Rv (room_for v ls n Rv Hn Hm))
      as (v' & Hp & Rv' & _).
    exists (CmdState (cmds s2) (cmd_lists s2) (SPtr v')), v', l.
    split_and!; [|done|by apply crep_bucket|done|done].
    unfold cmd_bucket_add. by erewrite on_boot_cmds_ok by (by eapply on_bucket_ok).
  - exists s2, l. split_and!; [by erewrite bind_ok by exact Hr|done..].
Qed.

(** The bucket and the lists after the children of a [cmds] node: the lists [new], which
    hold [tss], have been added to the bucket, whose other lists keep theirs. *)
Definition bucket_filled s detached (lists lists' : gmap loc (list cmd_type_t)) (ls : list (option loc))
    (new : list loc) (tss : list (list cmd_type_t)) : Prop :=
  crep s lists' detached ∧ lists ⊆ lists' ∧
  (∃ v', cq_cmd_bucket s = SPtr v' ∧ vrep v' (ls ++ (Some <$> new))) ∧
  Forall2 (λ l ts, lists' !! l = Some ts) new tss.

Lemma bucket_filled_more s detached lists lists' ls l ts new tss :
  lists !! l = None → bucket_filled s detached (<[l := ts]> lists) lists' (ls ++ [Some l]) new tss →
  bucket_filled s detached lists lists' ls (l :: new) (ts :: tss).
Proof.
  intros Hl (R & Hsub & (v' & Hv & Rv) & Hnew). split_and!; [done| | |].
  - etrans; [|exact Hsub]. by apply insert_subseteq.
  - exists v'. rewrite <- app_assoc in Rv. by split.
  - constructor; [|done]. eapply lookup_weaken; [|exact Hsub]. by rewrite lookup_insert_eq.
Qed.

Lemma read_cmds_fills_bucket children b v ls lists detached n :
  crep (b_cmds b) lists detached → cq_cmd_bucket (b_cmds b) = SPtr v → vrep v ls →
  (length ls + length children ≤ n)%nat → memory_for n →
  Forall (λ c, Z.of_nat (length (xml_children c)) ≤ INT_MAX) children →
  let r := each read_xml_cmd children b in
  ∃ s new lists', match section_types children with
  | Some tss => r = (Ok RET_SUCCEED, with_cmds s b) ∧
      bucket_filled s detached lists lists' ls new tss ∧ dom lists' = list_to_set new ∪ dom lists
  | None => r = (Ok RET_FAILED, with_cmds s b) ∧
      bucket_filled s detached lists lists' ls new (lists_before children).1 ∧
      ∃ l, lists !! l = None ∧ l ∉ new ∧ lists' !! l = Some (lists_before children).2 ∧
        dom lists' = list_to_set (l :: new) ∪ dom lists
  end.
Proof.
  revert b v ls lists.
  induction children as [|c children IH]; intros b v ls lists R Hv Rv Hn Hm Hlen; cbv zeta.
  { exists (b_cmds b), [], lists. cbn. split_and!; [by destruct b| |set_solver].
    split_and!; [done|done| |constructor]. exists v. by rewrite app_nil_r. }
  apply Forall_cons in Hlen as [Hc Hlen]. cbn [length] in Hn.
  unfold section_types. rewrite filter_cons. cbn [lists_before].
  destruct (strcmp_eq (xml_name c) (text "cmd")) eqn:Hname.
  2: { rewrite decide_False by done. erewrite each_ok
         by (unfold read_xml_cmd; rewrite Hname; reflexivity).
       apply (IH b v ls lists R Hv Rv); [lia|done|done]. }
  rewrite decide_True by done. cbn [mapM].
  pose proof (read_xml_cmd_spec c b v ls lists detached n R Hv Rv ltac:(lia) Hm Hc Hname) as Hx.
  destruct (node_types (xml_children c)) as [ts|]; cbn [mbind option_bind].
  2: { destruct Hx as (s & l & Hx & Hl & R1 & Hb). exists s, [], (<[l := types_before (xml_children c)]> lists).
       split_and!; [by erewrite each_failed by exact Hx| |].
       - split_and!; [done|by apply insert_subseteq| |constructor]. exists v. by rewrite app_nil_r.
       - exists l. split_and!; [done|apply not_elem_of_nil|by rewrite lookup_insert_eq|].
         rewrite dom_insert_L. set_solver. }
  destruct Hx as (s1 & v1 & l & Hx & Hl & R1 & Hv1 & Rv1). erewrite each_ok by exact Hx.
  pose proof (IH (with_cmds s1 b) v1 (ls ++ [Some l]) (<[l := ts]> lists) R1 Hv1 Rv1
    ltac:(rewrite length_app; cbn; lia) Hm Hlen) as IH'. cbv zeta in IH'.
  unfold section_types in IH'. destruct IH' as (s2 & new & lists2 & IH').
  exists s2, (l :: new), lists2. destruct (mapM _ _) as [tss|]; cbn [mbind option_bind].
  - destruct IH' as (Hr & Hfill & Hdom). split_and!; [exact Hr|by apply bucket_filled_more|].
    rewrite Hdom, dom_insert_L. set_solver.
  - destruct IH' as (Hr & Hfill & l' & Hl' & Hnew & Hpart & Hdom).
    apply lookup_insert_None in Hl' as [Hl' Hne].
    destruct (lists_before children) as [tss rest]. split_and!; [exact Hr|by apply bucket_filled_more|].
    exists l'. split_and!; [done|set_solver|done|]. rewrite Hdom, dom_insert_L. set_solver.
Qed.

(** C28 (commands). [parser_read_xml_cmd] on a document with a [cmds] node adds to the bucket
    one list for each of its [cmd] nodes, in order, holding the commands that the children
    name, in order; children of the [cmds] node with other names are passed over, the other lists
    keep theirs, and no other list is made.  It fails exactly when a child of a [cmd] node is no
    command.  Then the bucket has the lists of the [cmd] nodes before that one, as when it
    succeeds; the commands that were read of the bad node are in a list of their own, which is
    not in the bucket. *)
Theorem parser_read_xml_cmd_fills_bucket xml_root node b v ls lists detached n :
  find_node (text "cmds") (xml_children xml_root) = Ok (Some node) →
  crep (b_cmds b) lists detached → cq_cmd_bucket (b_cmds b) = SPtr v → vrep v ls →
  (length ls + length (xml_children node) ≤ n)%nat → memory_for n →
  Forall (λ c, Z.of_nat (length (xml_children c)) ≤ INT_MAX) (xml_children node) →
  let r := parser_read_xml_cmd xml_root b in
  ∃ s new lists', match section_types (xml_children node) with
  | Some tss => r = (Ok RET_SUCCEED, with_cmds s b) ∧
      bucket_filled s detached lists lists' ls new tss ∧ dom lists' = list_to_set new ∪ dom lists
  | None => r = (Ok RET_FAILED, with_cmds s b) ∧
      bucket_filled s detached lists lists' ls new (lists_before (xml_children node)).1 ∧
      ∃ l, lists !! l = None ∧ l ∉ new ∧ lists' !! l = Some (lists_before (xml_children node)).2 ∧
        dom lists' = list_to_set (l :: new) ∪ dom lists
  end.
Proof.
  intros Hf R Hv Rv Hn Hm Hlen. unfold parser_read_xml_cmd. cbv zeta.
  erewrite bind_ok by (unfold mlift; rewrite Hf; reflexivity).
  by apply (read_cmds_fills_bucket _ b v ls lists detached n).
Qed.
End documents.

(** ** Witness *)

Local Existing Instance roomy_allocator.
Local Existing Instance counting_rand.
Local Existing Instance toy_client.

Definition leaf (name : string) : xml_node := XmlNode (text name) [] [].

(** [<cmds><cmd><insert/><select/></cmd><!-- --><cmd><update/></cmd></cmds>] *)
Definition cmds_node : xml_node :=
  XmlNode (text "cmds") []
    [XmlNode (text "cmd") [] [leaf "insert"; leaf "select"]; leaf "comment";
     XmlNode (text "cmd") [] [leaf "update"]].
Definition sample_document : xml_node := XmlNode (text "config") [] [leaf "servers"; cmds_node].

(** [<cmds><cmd><insert/></cmd><cmd><update/><truncate/></cmd><cmd><delete/></cmd></cmds>] *)
Definition bad_cmds_node : xml_node :=
  XmlNode (text "cmds") []
    [XmlNode (text "cmd") [] [leaf "insert"]; XmlNode (text "cmd") [] [leaf "update"; leaf "truncate"];
     XmlNode (text "cmd") [] [leaf "delete"]].
Definition bad_document : xml_node := XmlNode (text "config") [] [leaf "servers"; bad_cmds_node].

Definition booting : boot :=
  Boot _ toy_cluster sample_tables with_bucket 0 (ToyDb 1 (λ _, [])) 0 [].

Lemma booting_rep : crep (b_cmds booting) {[1%positive := []]} ∅.
Proof. apply crep_bucket, one_list_rep. Qed.
Lemma roomy_memory_for : memory_for 4.
Proof. intros size Hs. apply Z.leb_le. unfold PTRDIFF_MAX. lia. Qed.
Lemma short_nodes : Forall (λ c, Z.of_nat (length (xml_children c)) ≤ INT_MAX)
  (xml_children cmds_node ++ xml_children bad_cmds_node).
Proof. repeat constructor; cbn; unfold INT_MAX; lia. Qed.

Example parser_read_xml_cmd_fills_bucket_witness :
  (∃ s new lists',
    parser_read_xml_cmd sample_document booting = (Ok RET_SUCCEED, with_cmds s booting) ∧
    bucket_filled s ∅ {[1%positive := []]} lists' [Some 1%positive] new [[INSERT; SELECT]; [UPDATE]] ∧
    dom lists' = list_to_set new ∪ dom ({[1%positive := []]} : gmap loc (list cmd_type_t))) ∧
  (∃ s new lists',
    parser_read_xml_cmd bad_document booting = (Ok RET_FAILED, with_cmds s booting) ∧
    bucket_filled s ∅ {[1%positive := []]} lists' [Some 1%positive] new [[INSERT]] ∧
    ∃ l, ({[1%positive := []]} : gmap loc (list cmd_type_t)) !! l = None ∧ l ∉ new ∧
      lists' !! l = Some [UPDATE] ∧
      dom lists' = list_to_set (l :: new) ∪ dom ({[1%positive := []]} : gmap loc (list cmd_type_t))).
Proof.
  pose proof (proj1 (Forall_app _ _ _) short_nodes) as [Hgood Hbad].
  split; [apply (parser_read_xml_cmd_fills_bucket sample_document cmds_node booting one_bucket
    [Some 1%positive] {[1%positive := []]} ∅ 4 eq_refl booting_rep eq_refl one_bucket_rep)
    |apply (parser_read_xml_cmd_fills_bucket bad_document bad_cmds_node booting one_bucket
    [Some 1%positive] {[1%positive := []]} ∅ 4 eq_refl booting_rep eq_refl one_bucket_rep)];
    (exact roomy_memory_for || exact Hgood || exact Hbad || (cbn; lia)).
Defined.
