(* ===== verification/ParserTxt.v ===== *)
(** * ParserTxt: the text configuration, and its entry points
    (src/src/parser/parser.c, src/src/parser/file_operation.c)

    A file is the list of its lines.  POSIX regular expressions are not part of
    the program: [Regex] is what [regcomp] and [regexec] answer.  The generated
    commands go through an array of [cols] cells, which is shuffled with [rand]
    before each of the [rows] lists is made. *)

From stdpp Require Import base gmap list strings.
From Stdlib Require Import ZArith Lia SpecFloat.
From S2P Require Import Prelude Mylib Vector Hash Heap CText Names.
From S2P Require Import Command Table Server EngineCtx SqlGen MysqlCmd Verify ParserXml.
Local Open Scope Z_scope.

(** [regcomp] accepts the pattern; [regexec] finds it in a string, and where the
    whole match (0) and its groups (1, 2, ...) begin and end. *)
Class Regex := {
  regcomp : cstring → bool;
  regexec : cstring → cstring → option (nat → Z * Z);
}.

(** [srand(seed)]: where in the sequence of [rand] the seed leads. *)
Class RandSeed := { srand_at : Z → nat }.

Inductive config_type_t := XML | TXT | UNRECOGNIZED | ERROR.

#[export] Instance config_type_eq_dec : EqDecision config_type_t.
Proof. solve_decision. Defined.

Definition CONFIG_MAX_LENGTH : Z := 10240.
Definition XML_PATTERN : cstring := text "<?xml".
Definition TXT_PATTERN : cstring := text "[server]".

(** [match[k]] of an array of [size] cells. *)
Definition group (size k : nat) (m : nat → Z * Z) : res (Z * Z) :=
  if (k <? size)%nat then Ok (m k) else Stop (Undefined OutOfBounds).

(** The bytes from [so] to [eo] of a string. *)
Definition substring (s : cstring) (so eo : Z) : res cstring :=
  if (so <? 0) || (eo <? so) || (Z.of_nat (length s) <? eo) then Stop (Undefined OutOfBounds)
  else Ok (take (Z.to_nat (eo - so)) (drop (Z.to_nat so) s)).

(** [s + i] *)
Definition advance (s : cstring) (i : Z) : res cstring :=
  if (i <? 0) || (Z.of_nat (length s) <? i) then Stop (Undefined OutOfBounds)
  else Ok (drop (Z.to_nat i) s).

(** What [sscanf] with one conversion leaves in its variable. *)
Definition scanned {A} (r : option A) (v : option A) : option A :=
  match r with Some a => Some a | None => v end.

(** ** Servers *)

Definition drop_while (p : Z → bool) (s : cstring) : cstring := (span p s).2.

(** [while ('\0' != *cur && ':' != *(cur ++));] *)
Fixpoint after_colon (s : cstring) : cstring :=
  match s with
  | [] => []
  | c :: s => if c =? 58 then s else after_colon s
  end.

(** Characters copied into a block of [size] bytes, with their NUL. *)
Definition copy_while (p : Z → bool) (size : Z) (s : cstring) : res (cstring * cstring) :=
  let '(a, rest) := span p s in
  if size <=? Z.of_nat (length a) then Stop (Undefined OutOfBounds) else Ok (a, rest).

(** The address and the port on a line, behind the equals sign. *)
Definition scan_server (cur : cstring) : res (cstring * cstring) :=
  '(ip, cur) ← copy_while (λ c, (c =? 46) || is_digit c) 20
                 (drop_while (λ c, negb (is_digit c)) cur);
  '(port_str, _) ← copy_while (λ c, (48 <=? c) && (c <? 57)) 7 (after_colon cur);
  Ok (ip, port_str).

(** The key of a line, and the line from it. *)
Definition server_key (buf : cstring) : option (server_type_t * cstring) :=
  match strstr buf (text "write_servers") with
  | Some cur => Some (WRITE_SERVER, cur)
  | None => match strstr buf (text "read_servers") with
            | Some cur => Some (READ_SERVER, cur)
            | None => None
            end
  end.

(** ** Rates, windows and generated commands *)

(** The codes of [cmd_type_t] that the generator uses. *)
Definition cmd_code (t : cmd_type_t) : Z :=
  match t with INSERT => 1 | DELETE => 2 | UPDATE => 3 | SELECT => 4
  | CREATE => 5 | ALTER_ADD => 6 | ALTER_DROP => 7 | DROP => 8 end.
Definition cmd_of_code (z : Z) : option cmd_type_t :=
  if z =? 1 then Some INSERT else if z =? 2 then Some DELETE else if z =? 3 then Some UPDATE
  else if z =? 4 then Some SELECT else if z =? 5 then Some CREATE else if z =? 6 then Some ALTER_ADD
  else if z =? 7 then Some ALTER_DROP else if z =? 8 then Some DROP else None.

Definition cmd_pattern : list cmd_type_t := [INSERT; DELETE; UPDATE; SELECT].

(** [cmd_array[cur_cmd_num ++] = cmd_pattern[i]] *)
Definition put_cmd (t : cmd_type_t) (a : buffer Z * Z) : res (buffer Z * Z) :=
  b ← arr_write a.1 a.2 (cmd_code t); Ok (b, a.2 + 1).

(** [while ((double) cur_cmd_num / (double) cols < cur_rate) ...] *)
Definition fill_step (t : cmd_type_t) (cols : Z) (cur_rate : spec_float) (a : buffer Z * Z)
    : buffer Z * Z + res (buffer Z * Z) :=
  if dltb (ddiv (of_int a.2) (of_int cols)) cur_rate then
    match put_cmd t a with Ok a' => inl a' | Stop w => inr (Stop w) end
  else inr (Ok a).

(** One kind of command. *)
Definition gen_kind (rate : list (option spec_float)) (cols i : Z) (t : cmd_type_t)
    (s : buffer Z * Z * spec_float) : res (buffer Z * Z * spec_float) :=
  let '(a, cur_rate) := s in
  r ← rate_at rate i;
  tmp ← int_of (dmul r (of_int cols));
  a ← for_upto tmp (λ _, put_cmd t) a;
  let cur_rate := dadd cur_rate r in
  match loop (fill_step t cols cur_rate) P64 a with
  | inr (Ok a) => Ok (a, cur_rate)
  | inr (Stop w) => Stop w
  | inl _ => Stop Diverges
  end.

(** The array of command types. *)
Definition gen_cmd_array (cols : Z) (rate : list (option spec_float)) : res (buffer Z) :=
  s ← gen_kind rate cols 0 INSERT (fresh_buffer cols, 0, dzero);
  s ← gen_kind rate cols 1 DELETE s;
  s ← gen_kind rate cols 2 UPDATE s;
  '(b, _, _) ← gen_kind rate cols 3 SELECT s;
  Ok b.

(** [a ^= b; b ^= a; a ^= b] on two cells. *)
Definition xor_cell (b : buffer Z) (i j : Z) : res (buffer Z) :=
  x ← arr_read b i; y ← arr_read b j; arr_write b i (Z.lxor x y).
Definition xor_swap (b : buffer Z) (i j : Z) : res (buffer Z) :=
  b ← xor_cell b i j; b ← xor_cell b j i; xor_cell b i j.

(** [rand() % m] for an [int] [m] *)
Definition rand_rem `{RandSource} (m : Z) : M nat Z :=
  r ← rand; if m =? 0 then mstop (Undefined DivByZero) else mret (Z.rem r m).

Definition shuffle_step `{RandSource} (size : Z) (b : buffer Z) : M nat (buffer Z) :=
  i ← rand_rem (size - 1);
  j ← rand_rem (size - 1);
  if i =? j then mret b else mlift (xor_swap b i j).

Fixpoint shuffle `{RandSource} (n : nat) (size : Z) (b : buffer Z) : M nat (buffer Z) :=
  match n with
  | O => mret b
  | S n => b ← shuffle_step size b; shuffle n size b
  end.

Definition shuffle_time : nat := 200.

(** ** The parser *)

Section txt.
Context `{Allocator} `{RandSource} `{RandSeed} `{Clock} `{MysqlClient} `{Regex}.
(** [g_username] and [g_password]. *)
Context (g_username g_password : cstring).

(** [getline]: [None] at the end of the file. *)
Definition getline : M boot (option cstring) :=
  f ← mgets b_file;
  match f with
  | [] => mret None
  | buf :: f => set_file f;; mret (Some buf)
  end.

(** One turn of the loop over the two lines of servers. *)
Definition read_txt_server : M boot ret_t :=
  buf ← getline;
  match buf with
  | None => mret RET_FAILED
  | Some buf =>
      match server_key buf with
      | None => mstop (Undefined NullDeref)
      | Some (type, cur) =>
          match drop_while (λ c, negb (c =? 61)) cur with
          | [] => mret RET_SUCCEED
          | cur =>
              '(ip, port_str) ← mlift (scan_server cur);
              port ← mlift (atoi port_str);
              v ← mlift (verify_ip ip);
              if bool_decide (v = RET_FAILED) then mret RET_FAILED
              else if bool_decide (verify_port port = RET_FAILED) then mret RET_FAILED
              else read_server g_username g_password type ip port
          end
      end
  end.

(** The address and the port have a block each. *)
Definition parser_read_txt_server : M boot ret_t :=
  pure_state (cq_malloc 20 ());;
  pure_state (cq_malloc 7 ());;
  each (λ _ : Z, read_txt_server) [0; 1].

(** A copy, in a block of its own, of the bytes from [so] to [eo]. *)
Definition copy_match (s : cstring) (so eo : Z) : M boot cstring :=
  pure_state (cq_malloc (u64 (eo - so + 1)) ());;
  mlift (substring s so eo).

(** The text of a table, up to a line with its end, in a growing buffer; [None]
    when it fails. *)
Definition end_of_table : cstring := text ");".

Fixpoint read_lines (lines : list cstring) (text : cstring) (str_size : Z)
    : res (option cstring * list cstring) :=
  match lines with
  | [] => Ok (Some text, [])
  | buf :: lines =>
      if str_size <? Z.of_nat (length text) + Z.of_nat (length buf) + 1
      then Stop (Undefined OutOfBounds) else
      let text := text ++ buf in
      let cnt := Z.of_nat (length text) in
      let grow := str_size <=? cnt + CONFIG_MAX_LENGTH in
      let str_size := if grow then 2 * str_size else str_size in
      if grow && (1024 * CONFIG_MAX_LENGTH <? str_size) then Ok (None, lines)
      else if grow && negb (malloc_ok (u64 str_size)) then Stop Aborted
      else match regexec end_of_table buf with
           | Some _ => Ok (Some text, lines)
           | None => read_lines lines text str_size
           end
  end.

Definition parser_read_a_table : M boot (option cstring) :=
  pure_state (cq_malloc (8 * CONFIG_MAX_LENGTH) ());;
  if negb (regcomp end_of_table) then mret None else
    f ← mgets b_file;
    '(r, f) ← mlift (read_lines f [] (8 * CONFIG_MAX_LENGTH));
    set_file f;;
    mret r.

Definition pattern_bigint : cstring := text "(\w+)\s+bigint".
Definition pattern_varchar : cstring := text "(\w+)\s+varchar\(([0-9]+)\)".

(** The array [match] has two cells, of which the varchar case reads the third. *)
Definition match_size : nat := 2.

Definition parser_read_txt_table_data (my_schema : option loc) (text : cstring) (so : Z)
    : M boot ret_t :=
  if negb (regcomp pattern_bigint) then mret RET_FAILED else
  cur ← mlift (advance text so);
  match regexec pattern_bigint cur with
  | Some m =>
      '(rm_so, rm_eo) ← mlift (group match_size 1 m);
      name ← copy_match cur rm_so rm_eo;
      d ← new_column (Some name) BIGINT 0;
      on_boot_tables (on_schemas (schema_add my_schema d))
  | None =>
      if negb (regcomp pattern_varchar) then mret RET_FAILED else
      match regexec pattern_varchar cur with
      | Some m =>
          '(rm_so, rm_eo) ← mlift (group match_size 1 m);
          name ← copy_match cur rm_so rm_eo;
          '(rm_so, rm_eo) ← mlift (group match_size 2 m);
          length_str ← copy_match cur rm_so rm_eo;
          length ← mlift (atoi length_str);
          d ← new_column (Some name) VARCHAR length;
          on_boot_tables (on_schemas (schema_add my_schema d))
      | None => mret RET_FAILED
      end
  end.

Definition pattern_key : cstring := text "\s*(\w+)\s+(\S+)\s+primary\s+key\s*[,\)]".
Definition pattern_val : cstring := text "\s*(\w+)\s+([a-zA-Z0-9_()]+)\s*[,\)]".

(** [while (0 == regexec(...)) ...]: the column is looked for at [so] plus the
    offset in the rest of the text. *)
Definition columns_step (pattern : cstring) (schema : option loc) (text : cstring) (so : Z)
    (cur : cstring) : M boot (cstring + ()) :=
  match regexec pattern cur with
  | None => mret (inr ())
  | Some m =>
      parser_read_txt_table_data schema text (so + (m 0%nat).1);;
      cur ← mlift (advance cur (m 0%nat).2);
      mret (inl cur)
  end.

Definition read_columns (pattern : cstring) (text : cstring) (so : Z) : M boot (option loc) :=
  schema ← on_boot_tables (on_schemas schema_init);
  cur ← mlift (advance text so);
  mloop P64 (columns_step pattern schema text so) cur;;
  mret schema.

(** [None] when it fails. *)
Definition parser_read_txt_table_schema (text : cstring) (so : Z) : M boot (option (option loc)) :=
  if negb (regcomp pattern_key) then mret None else
  key_schema ← read_columns pattern_key text so;
  if negb (regcomp pattern_val) then mret None else
  val_schema ← read_columns pattern_val text so;
  s ← on_boot_tables (on_table_schemas (table_schema_init key_schema val_schema));
  mret (Some s).

Definition pattern_table_name : cstring := text "create\s+table\s+(\w+)\s*\((.+)\);".

(** A table whose text does not match is passed over. *)
Definition parser_read_txt_table : M boot ret_t :=
  t ← parser_read_a_table;
  match t with
  | None => mret RET_FAILED
  | Some text =>
      if negb (regcomp pattern_table_name) then mret RET_FAILED else
      match regexec pattern_table_name text with
      | None => mret RET_SUCCEED
      | Some m =>
          '(rm_so, rm_eo) ← mlift (group match_size 1 m);
          s ← parser_read_txt_table_schema text rm_so;
          match s with
          | None => mret RET_FAILED
          | Some my_table_schema =>
              name ← copy_match text rm_so rm_eo;
              my_table ← on_boot_tables (table_init name my_table_schema);
              match my_table with
              | None => mstop (Undefined NullDeref)
              | Some t => on_boot_tables (table_set_add t)
              end
          end
      end
  end.

Definition pattern_rate : cstring := text "(\w+)\s*=\s*([0-9\.]+)\s*".
Definition pattern_window : cstring := text "(\w+)\s*=\s*([0-9]+)\s*".

(** The three cells of [match] in the two functions below. *)
Definition setting (pattern buf : cstring) : res (option (cstring * cstring)) :=
  match regexec pattern buf with
  | None => Ok None
  | Some m => '(so1, _) ← group 3 1 m; '(so2, _) ← group 3 2 m;
              k ← advance buf so1; v ← advance buf so2; Ok (Some (k, v))
  end.

(** The index of the rate that a key names. *)
Definition rate_index (key : cstring) : option nat :=
  match key with
  | 105 :: _ => Some 0%nat
  | 100 :: _ => Some 1%nat
  | 117 :: _ => Some 2%nat
  | 115 :: _ => Some 3%nat
  | _ => None
  end.

Fixpoint read_rates (n : nat) (rate : list (option spec_float))
    : M boot (ret_t * list (option spec_float)) :=
  match n with
  | O => mret (RET_SUCCEED, rate)
  | S n =>
      buf ← getline;
      match buf with
      | None => mret (RET_FAILED, rate)
      | Some buf =>
          s ← mlift (setting pattern_rate buf);
          match s with
          | None => read_rates n rate
          | Some (k, v) =>
              match rate_index k with
              | None => mret (RET_FAILED, rate)
              | Some i => read_rates n (<[i := scanned (scan_double v) (mjoin (rate !! i))]> rate)
              end
          end
      end
  end.

Definition parser_read_txt_cmd_rate (rate : list (option spec_float))
    : M boot (ret_t * list (option spec_float)) :=
  if negb (regcomp pattern_rate) then mret (RET_FAILED, rate) else
  '(r, rate) ← read_rates 4 rate;
  if bool_decide (r = RET_FAILED) then mret (RET_FAILED, rate) else
    v ← mlift (verify_rate rate);
    mret (v, rate).

(** [rows] and [cols], which may not have been set. *)
Fixpoint read_window (n : nat) (w : option Z * option Z) : M boot (ret_t * (option Z * option Z)) :=
  match n with
  | O => mret (RET_SUCCEED, w)
  | S n =>
      buf ← getline;
      match buf with
      | None => mret (RET_FAILED, w)
      | Some buf =>
          s ← mlift (setting pattern_window buf);
          match s with
          | None => read_window n w
          | Some (k, v) =>
              match strstr k (text "cmd_rows"), strstr k (text "cmd_cols") with
              | Some _, _ => z ← mlift (scan_int v); read_window n (scanned (fst <$> z) w.1, w.2)
              | None, Some _ => z ← mlift (scan_int v); read_window n (w.1, scanned (fst <$> z) w.2)
              | None, None => mret (RET_FAILED, w)
              end
          end
      end
  end.

Definition parser_read_txt_cmd_window (w : option Z * option Z)
    : M boot (ret_t * (option Z * option Z)) :=
  if negb (regcomp pattern_window) then mret (RET_FAILED, w) else
  '(r, w) ← read_window 2 w;
  if bool_decide (r = RET_FAILED) then mret (RET_FAILED, w) else
    rows ← initialised w.1;
    cols ← initialised w.2;
    mret (verify_window rows cols, w).

(** [srand(time(NULL))], and the exchanges. *)
Definition parser_shuffle_cmds (size : Z) (cmd_array : buffer Z) : M boot (buffer Z) :=
  k ← mgets b_now;
  mmodify (λ b, Boot _ (b_cluster b) (b_tables b) (b_cmds b)
                  (srand_at (i32 (tv_sec (clock_at k)))) (b_db b) (S k) (b_file b));;
  on_boot_rand (shuffle shuffle_time size cmd_array).

(** One command of a list, and one list of the bucket. *)
Definition gen_cmd (cmd_array : buffer Z) (my_cmd_list : option loc) (j : Z) : M boot () :=
  z ← mlift (arr_read cmd_array j);
  match cmd_of_code z with
  | None => mstop (Undefined BadConversion)
  | Some t => my_cmd ← on_boot_cmds (on_cmds (cmd_init t));
              on_boot_cmds (cmd_list_add my_cmd_list my_cmd);; mret ()
  end.
Definition gen_cmd_list (cols : Z) (cmd_array : buffer Z) : M boot () :=
  my_cmd_list ← on_boot_cmds cmd_list_init;
  mfor cols (gen_cmd cmd_array my_cmd_list);;
  on_boot_cmds (cmd_bucket_add my_cmd_list);;
  mret ().

Fixpoint gen_cmd_lists (rows : nat) (cols : Z) (cmd_array : buffer Z) : M boot () :=
  match rows with
  | O => mret ()
  | S rows =>
      cmd_array ← parser_shuffle_cmds cols cmd_array;
      gen_cmd_list cols cmd_array;;
      gen_cmd_lists rows cols cmd_array
  end.

Definition parser_gen_cmd_bucket (rows cols : Z) (rate : list (option spec_float)) : M boot ret_t :=
  pure_state (cq_malloc (u64 (4 * cols)) ());;
  cmd_array ← mlift (gen_cmd_array cols rate);
  gen_cmd_lists (Z.to_nat rows) cols cmd_array;;
  mret RET_SUCCEED.

(** The loop of [parser_read_txt]; the sections are read from the same file, so
    that the lines left are the fuel. *)
Fixpoint read_sections (fuel : nat) (rate : list (option spec_float)) (w : option Z * option Z)
    : M boot (ret_t * list (option spec_float) * (option Z * option Z)) :=
  match fuel with
  | O => mstop Diverges
  | S fuel =>
      buf ← getline;
      match buf with
      | None => mret (RET_SUCCEED, rate, w)
      | Some buf =>
          '(r, rate, w) ←
            (if strstr buf (text "[server]") then
               r ← parser_read_txt_server; mret (r, rate, w)
             else if strstr buf (text "[table]") then
               r ← parser_read_txt_table; mret (r, rate, w)
             else if strstr buf (text "[cmd_rate]") then
               '(r, rate) ← parser_read_txt_cmd_rate rate; mret (r, rate, w)
             else if strstr buf (text "[cmd_window]") then
               '(r, w) ← parser_read_txt_cmd_window w; mret (r, rate, w)
             else mret (RET_SUCCEED, rate, w));
          if bool_decide (r = RET_FAILED) then mret (RET_FAILED, rate, w)
          else read_sections fuel rate w
      end
  end.

(** [fopen] of a file that cannot be opened leads to [fclose(NULL)]. *)
Definition parser_read_txt (lines : option (list cstring)) : M boot ret_t :=
  match lines with
  | None => mstop (Undefined NullDeref)
  | Some lines =>
      set_file lines;;
      '(r, rate, w) ← read_sections (S (length lines)) (replicate 4 None) (None, None);
      if bool_decide (r = RET_FAILED) then mret RET_FAILED else
        rows ← initialised w.1;
        cols ← initialised w.2;
        parser_gen_cmd_bucket rows cols rate
  end.
End txt.

(** ** Choosing the parser *)

(** What the system knows of a path, and what libxml2 reads from it. *)
Record file_system := FileSystem {
  fs_exists : cstring → bool;
  fs_open : cstring → option (list cstring);
  fs_xml : cstring → option xml_node;
}.

Definition file_is_exists (fs : file_system) (file_path : cstring) : ret_t :=
  if fs_exists fs file_path then RET_SUCCEED else RET_FAILED.

Definition file_get_size (fs : file_system) (file_path : cstring) : Z :=
  match fs_open fs file_path with
  | None => 0
  | Some lines => Z.of_nat (length (concat lines))
  end.

(** The last line that has one of the two marks decides.  A size that is out of
    bounds leads to [fclose] of a pointer that was never set. *)
Definition parser_check_type `{Allocator} {S} (fs : file_system) (file_path : cstring) : M S config_type_t :=
  let buff_size := file_get_size fs file_path in
  if (buff_size <=? 0) || (CONFIG_MAX_LENGTH <? buff_size) then mstop (Undefined Uninitialized)
  else
    cq_malloc (buff_size + 1) ();;
    match fs_open fs file_path with
    | None => mstop (Undefined NullDeref)
    | Some lines =>
        mret (foldl (λ ret buff,
          if strstr buff XML_PATTERN then XML
          else if strstr buff TXT_PATTERN then TXT
          else ret) ERROR lines)
    end.

Section file.
Context `{Allocator} `{RandSource} `{RandSeed} `{Clock} `{MysqlClient} `{Regex}.
Context (g_username g_password : cstring) (fs : file_system).

Definition parser_read_file (file_path : cstring) : M boot () :=
  if bool_decide (file_is_exists fs file_path = RET_FAILED) then mstop (Exited 2) else
    my_config_type ← parser_check_type fs file_path;
    parse_ret ← match my_config_type with
                | XML => parser_read_xml g_username g_password (fs_xml fs file_path)
                | TXT => parser_read_txt g_username g_password (fs_open fs file_path)
                | UNRECOGNIZED => mret RET_FAILED
                | ERROR => mstop (Exited 1)
                end;
    if bool_decide (parse_ret = RET_FAILED) then mstop (Exited 1) else mret ().
End file.

(** ** The shuffle *)

Section shuffle.
Context `{RandSource}.
Implicit Types (codes : list Z) (k : nat).

Definition array_of (codes : list Z) : buffer Z := Live (Some <$> codes).

Lemma read_array codes (i : nat) x : codes !! i = Some x →
  arr_read (array_of codes) (Z.of_nat i) = Ok x.
Proof.
  intros Hi. unfold array_of. rewrite (arr_read_ok _ _ x); [done|lia|].
  by rewrite Nat2Z.id, list_lookup_fmap, Hi.
Qed.

Lemma write_array codes (i : nat) x : (i < length codes)%nat →
  arr_write (array_of codes) (Z.of_nat i) x = Ok (array_of (<[i := x]> codes)).
Proof.
  intros Hi. unfold array_of. rewrite arr_write_ok by (rewrite length_fmap; lia).
  by rewrite Nat2Z.id, list_fmap_insert.
Qed.

(** The same for an array of which some cells may be unset. *)
Lemma read_cell (cells : list (option Z)) (i : nat) x : cells !! i = Some (Some x) →
  arr_read (Live cells) (Z.of_nat i) = Ok x.
Proof. intros Hi. apply arr_read_ok; [lia|by rewrite Nat2Z.id]. Qed.

Lemma xor_cell_ok (cells : list (option Z)) (i j : nat) x y :
  cells !! i = Some (Some x) → cells !! j = Some (Some y) →
  xor_cell (Live cells) (Z.of_nat i) (Z.of_nat j) = Ok (Live (<[i := Some (Z.lxor x y)]> cells)).
Proof.
  intros Hi Hj. pose proof (lookup_lt_Some _ _ _ Hi). unfold xor_cell.
  rewrite (read_cell cells i x), (read_cell cells j y) by done. cbn [mbind res_mbind].
  rewrite arr_write_ok by lia. by rewrite Nat2Z.id.
Qed.

(** Three exclusive ors exchange two different cells. *)
Lemma xor_swap_cells (cells : list (option Z)) (i j : nat) x y : i ≠ j →
  cells !! i = Some (Some x) → cells !! j = Some (Some y) →
  xor_swap (Live cells) (Z.of_nat i) (Z.of_nat j) =
    Ok (Live (<[i := Some y]> (<[j := Some x]> cells))).
Proof.
  intros Hne Hi Hj. pose proof (lookup_lt_Some _ _ _ Hi). pose proof (lookup_lt_Some _ _ _ Hj).
  unfold xor_swap. rewrite (xor_cell_ok _ _ _ x y) by done. cbn [mbind res_mbind].
  set (c1 := <[i := Some (Z.lxor x y)]> cells).
  assert (c1 !! j = Some (Some y)) as Hj1 by (unfold c1; by rewrite list_lookup_insert_ne).
  assert (c1 !! i = Some (Some (Z.lxor x y))) as Hi1
    by (unfold c1; by rewrite list_lookup_insert_eq by lia).
  rewrite (xor_cell_ok _ _ _ y (Z.lxor x y)) by done. cbn [mbind res_mbind].
  assert (Z.lxor y (Z.lxor x y) = x) as ->
    by (by rewrite (Z.lxor_comm x y), <- Z.lxor_assoc, Z.lxor_nilpotent, Z.lxor_0_l).
  rewrite (xor_cell_ok _ _ _ (Z.lxor x y) x).
  - assert (Z.lxor (Z.lxor x y) x = y) as ->
      by (by rewrite (Z.lxor_comm x y), Z.lxor_assoc, Z.lxor_nilpotent, Z.lxor_0_r).
    unfold c1. rewrite (list_insert_insert_ne cells j i) by done.
    by rewrite list_insert_insert_eq.
  - by rewrite list_lookup_insert_ne.
  - rewrite list_lookup_insert_eq; [done|]. unfold c1. rewrite length_insert. lia.
Qed.

Lemma xor_swap_ok codes (i j : nat) x y : i ≠ j →
  codes !! i = Some x → codes !! j = Some y →
  xor_swap (array_of codes) (Z.of_nat i) (Z.of_nat j) =
    Ok (array_of (<[i := y]> (<[j := x]> codes))).
Proof.
  intros Hne Hi Hj. unfold array_of. rewrite (xor_swap_cells _ i j x y);
    [by rewrite !list_fmap_insert|done|by rewrite list_lookup_fmap, Hi|by rewrite list_lookup_fmap, Hj].
Qed.

Lemma rand_rem_ok m k : 0 < m → rand_rem m k = (Ok (rand_at k mod m), S k).
Proof.
  intros Hm. unfold rand_rem. erewrite bind_ok by done.
  rewrite (proj2 (Z.eqb_neq m 0)) by lia.
  pose proof (rand_range k). by rewrite Z.rem_mod_nonneg by lia.
Qed.

(** A step exchanges two cells, or none; the last one is never touched. *)
Lemma shuffle_step_ok codes k : (2 ≤ length codes)%nat →
  ∃ codes', shuffle_step (Z.of_nat (length codes)) (array_of codes) k =
      (Ok (array_of codes'), S (S k)) ∧
    codes' ≡ₚ codes ∧ last codes' = last codes.
Proof.
  intros Hl. unfold shuffle_step.
  erewrite bind_ok by (apply rand_rem_ok; lia). erewrite bind_ok by (apply rand_rem_ok; lia).
  set (m := Z.of_nat (length codes) - 1).
  pose proof (Z.mod_pos_bound (rand_at k) m ltac:(lia)) as Hi.
  pose proof (Z.mod_pos_bound (rand_at (S k)) m ltac:(lia)) as Hj.
  destruct (Z.eqb_spec (rand_at k mod m) (rand_at (S k) mod m)) as [He|Hne]; [by exists codes|].
  rewrite <- (Z2Nat.id (rand_at k mod m)), <- (Z2Nat.id (rand_at (S k) mod m)) in * by lia.
  set (i := Z.to_nat (rand_at k mod m)) in *. set (j := Z.to_nat (rand_at (S k) mod m)) in *.
  destruct (lookup_lt_is_Some_2 codes i) as [x Hx]; [lia|].
  destruct (lookup_lt_is_Some_2 codes j) as [y Hy]; [lia|].
  exists (<[i := y]> (<[j := x]> codes)). split_and!.
  - unfold mlift. by rewrite (xor_swap_ok _ _ _ x y) by (done || lia).
  - by apply Permutation_insert_swap.
  - rewrite !last_lookup, !length_insert.
    by rewrite !list_lookup_insert_ne by lia.
Qed.

Lemma shuffle_ok n codes k : (2 ≤ length codes)%nat →
  ∃ codes', shuffle n (Z.of_nat (length codes)) (array_of codes) k =
      (Ok (array_of codes'), k + 2 * n)%nat ∧
    codes' ≡ₚ codes ∧ last codes' = last codes.
Proof.
  revert codes k. induction n as [|n IH]; intros codes k Hl; cbn [shuffle].
  { exists codes. by rewrite Nat.mul_0_r, Nat.add_0_r. }
  destruct (shuffle_step_ok codes k Hl) as (c1 & Hs & Hp & Hlast).
  erewrite bind_ok by exact Hs.
  destruct (IH c1 (S (S k))) as (c2 & Hr & Hp2 & Hlast2); [by rewrite Hp|].
  assert (length c1 = length codes) as Hlen by (by rewrite Hp). rewrite Hlen in Hr.
  exists c2. split_and!; [|by etrans|congruence].
  rewrite Hr. f_equal. lia.
Qed.

(** C25 (shuffle). Shuffling an array of at least two commands permutes it, by exclusive ors, and
    leaves the last one alone; with one command the remainder is taken by zero. *)
Theorem shuffle_permutes n codes k :
  ((2 ≤ length codes)%nat →
   ∃ codes', shuffle n (Z.of_nat (length codes)) (array_of codes) k =
       (Ok (array_of codes'), k + 2 * n)%nat ∧
     codes' ≡ₚ codes ∧ last codes' = last codes) ∧
  (length codes = 1%nat →
   shuffle (S n) (Z.of_nat (length codes)) (array_of codes) k = (Stop (Undefined DivByZero), S k)).
Proof. split; [apply shuffle_ok|by intros ->]. Qed.
End shuffle.

(** ** The array of commands *)

Section array.
Implicit Types (a : buffer Z * Z) (p : list Z) (t : cmd_type_t).

(** The array of [cols] cells holds the commands [p], the other cells being
    unset, and [cur_cmd_num] counts them. *)
Definition filled (cols : Z) p a : Prop :=
  Z.of_nat (length p) ≤ cols ∧
  a = (Live ((Some <$> p) ++ replicate (Z.to_nat cols - length p) None), Z.of_nat (length p)).

(** [(double) n / (double) cols < cur_rate] *)
Definition below (cols : Z) (cur_rate : spec_float) (n : Z) : bool :=
  dltb (ddiv (of_int n) (of_int cols)) cur_rate.

(** Of [cols] commands there are [before]; a kind of the rate [r], with which the rates come to
    [cur_rate], brings them to [upto]: it has [(int) (r * cols)] commands, and then as many as
    it takes for the share of all of them to come up to [cur_rate]. *)
Definition quota (cols : Z) (before : nat) (r cur_rate : spec_float) (upto : nat) : Prop :=
  ∃ tmp, int_of (dmul r (of_int cols)) = Ok tmp ∧
    let low := Z.of_nat before + Z.max 0 tmp in
    low ≤ Z.of_nat upto ≤ cols ∧
    (∀ m, low ≤ m < Z.of_nat upto → below cols cur_rate m = true) ∧
    below cols cur_rate (Z.of_nat upto) = false.

Lemma quota_unique cols before r cur_rate u1 u2 :
  quota cols before r cur_rate u1 → quota cols before r cur_rate u2 → u1 = u2.
Proof.
  intros (t1 & H1 & Hl1 & Hb1 & He1) (t2 & H2 & Hl2 & Hb2 & He2). cbv zeta in *.
  rewrite H1 in H2. injection H2 as <-.
  destruct (Nat.lt_trichotomy u1 u2) as [Hlt|[Heq|Hlt]]; [|done|].
  - rewrite Hb2 in He1 by lia. done.
  - rewrite Hb1 in He2 by lia. done.
Qed.

(** The commands that the kinds in [kinds] add, after [before] commands. *)
Fixpoint proportioned (cols : Z) (kinds : list (option spec_float * cmd_type_t)) (before : nat)
    (cur_rate : spec_float) (types : list cmd_type_t) : Prop :=
  match kinds with
  | [] => types = []
  | (rate, t) :: kinds => ∃ r c types', rate = Some r ∧ types = replicate c t ++ types' ∧
      quota cols before r (dadd cur_rate r) (before + c) ∧
      proportioned cols kinds (before + c) (dadd cur_rate r) types'
  end.

(** The commands that the four rates stand for. *)
Definition in_proportion (cols : Z) (rate : list (option spec_float)) (types : list cmd_type_t) : Prop :=
  proportioned cols (zip rate cmd_pattern) 0 dzero types.

Lemma proportioned_unique cols kinds before cur_rate types1 types2 :
  proportioned cols kinds before cur_rate types1 → proportioned cols kinds before cur_rate types2 →
  types1 = types2.
Proof.
  revert before cur_rate types1 types2.
  induction kinds as [|[rate t] kinds IH]; intros before cur_rate types1 types2; cbn [proportioned];
    [by intros -> ->|].
  intros (r1 & c1 & l1 & -> & -> & Q1 & P1) (r2 & c2 & l2 & [= <-] & -> & Q2 & P2).
  assert (c1 = c2) as <- by (pose proof (quota_unique _ _ _ _ _ _ Q1 Q2); lia).
  f_equal. by eapply IH.
Qed.

Lemma put_cmd_ok cols t p a : filled cols p a →
  match put_cmd t a with
  | Ok a' => filled cols (p ++ [cmd_code t]) a'
  | Stop w => w = Undefined OutOfBounds ∧ cols = Z.of_nat (length p)
  end.
Proof.
  intros [Hl ->]. unfold put_cmd. cbn [fst snd].
  destruct (decide (Z.of_nat (length p) < cols)) as [Hlt|Hge].
  - rewrite arr_write_ok by (rewrite length_app, length_fmap, length_replicate; lia).
    cbn [mbind res_mbind]. split; rewrite length_app; cbn [length]; [lia|]. f_equal; [|lia]. f_equal.
    rewrite Nat2Z.id, insert_app_r_alt by (rewrite length_fmap; lia).
    rewrite length_fmap, Nat.sub_diag, fmap_app, <- app_assoc. f_equal.
    replace (Z.to_nat cols - length p)%nat with (S (Z.to_nat cols - (length p + 1)))%nat by lia.
    done.
  - unfold arr_write. rewrite length_app, length_fmap, length_replicate.
    rewrite (proj2 (Z.ltb_ge _ 0)), (proj2 (Z.leb_le _ _)) by lia. split; [done|lia].
Qed.

Lemma put_cmds_ok cols t n i p a : filled cols p a →
  match for_from n i (λ _, put_cmd t) a with
  | Ok a' => filled cols (p ++ replicate n (cmd_code t)) a'
  | Stop w => w = Undefined OutOfBounds ∧ cols < Z.of_nat (length p + n)
  end.
Proof.
  revert i p a. induction n as [|n IH]; intros i p a Ha; cbn [for_from].
  - cbn. by rewrite app_nil_r.
  - pose proof (put_cmd_ok cols t p a Ha) as Hp.
    destruct (put_cmd t a) as [a'|w]; [|destruct Hp as [-> ->]; split; [done|lia]].
    specialize (IH (i + 1) (p ++ [cmd_code t]) a' Hp). rewrite <- app_assoc in IH.
    destruct (for_from n (i + 1) (λ _, put_cmd t) a') as [a2|w]; [done|].
    destruct IH as [-> Hlt]. rewrite length_app in Hlt. cbn [length] in Hlt. split; [done|lia].
Qed.

(** The loop ends at the first number of commands whose share is not below. *)
Lemma fill_ok cols t r p a : cols ≤ INT_MAX → filled cols p a →
  ∃ x, loop (fill_step t cols r) P64 a = inr x ∧
    match x with
    | Ok a' => ∃ c, filled cols (p ++ replicate c (cmd_code t)) a' ∧
        (∀ m, Z.of_nat (length p) ≤ m < Z.of_nat (length p + c) → below cols r m = true) ∧
        below cols r (Z.of_nat (length p + c)) = false
    | Stop w => w = Undefined OutOfBounds ∧
        ∀ m, Z.of_nat (length p) ≤ m ≤ cols → below cols r m = true
    end.
Proof.
  intros Hcols Ha. unfold INT_MAX in Hcols.
  apply (loop_total _ (λ a, ∃ c, filled cols (p ++ replicate c (cmd_code t)) a ∧
      ∀ m, Z.of_nat (length p) ≤ m < Z.of_nat (length p + c) → below cols r m = true)
    (λ a, Z.to_nat (cols - a.2))).
  - intros a1 (c & Hc & Hless). unfold fill_step.
    assert (a1.2 = Z.of_nat (length p + c)) as Hn
      by (destruct Hc as [_ ->]; cbn [snd]; by rewrite length_app, length_replicate).
    change (dltb _ _) with (below cols r a1.2). rewrite Hn.
    destruct (below cols r _) eqn:Hb; [|by exists c].
    assert (∀ m, Z.of_nat (length p) ≤ m < Z.of_nat (length p + S c) → below cols r m = true) as Hless'.
    { intros m Hm. destruct (decide (m = Z.of_nat (length p + c))) as [-> |]; [done|].
      apply Hless. lia. }
    pose proof (put_cmd_ok cols t _ a1 Hc) as Hp. destruct (put_cmd t a1) as [a2|w].
    + rewrite <- app_assoc, <- replicate_S_end in Hp. split; [by exists (S c)|].
      destruct Hc as [Hl ->], Hp as [Hl2 ->]. cbn [snd]. rewrite !length_app, !length_replicate in *.
      lia.
    + destruct Hp as [-> Hp]. rewrite length_app, length_replicate in Hp. split; [done|].
      intros m Hm. apply Hless'. lia.
  - exists 0%nat. split; [by rewrite app_nil_r|lia].
  - destruct Ha as [Hl ->]. cbn [snd]. unfold P64. lia.
Qed.

(** How the generation can go wrong. *)
Definition gen_fault (w : stop) : Prop :=
  w = Undefined OutOfBounds ∨ w = Undefined BadConversion ∨ w = Undefined Uninitialized.

Lemma int_of_fault x w : int_of x = Stop w → w = Undefined BadConversion.
Proof.
  unfold int_of. destruct x as [| | |s m e]; [done|by intros [= <-]..|].
  cbv zeta. destruct (_ || _); [by intros [= <-]|done].
Qed.

Lemma rate_at_lookup rate i o : 0 ≤ i → rate !! Z.to_nat i = Some o →
  rate_at rate i = match o with Some r => Ok r | None => Stop (Undefined Uninitialized) end.
Proof.
  intros Hi Ho. unfold rate_at, arr_read. rewrite (proj2 (Z.ltb_ge i 0)) by lia.
  by rewrite Ho; destruct o.
Qed.

(** A kind brings the commands to its quota, or there is none. *)
Lemma gen_kind_ok rate cols i t o p a cur_rate :
  0 ≤ i → rate !! Z.to_nat i = Some o → cols ≤ INT_MAX → filled cols p a →
  match gen_kind rate cols i t (a, cur_rate) with
  | Ok (a', cur_rate') => ∃ r c, o = Some r ∧ cur_rate' = dadd cur_rate r ∧
      filled cols (p ++ replicate c (cmd_code t)) a' ∧
      quota cols (length p) r cur_rate' (length p + c)
  | Stop w => gen_fault w ∧
      ∀ r c, o = Some r → ¬ quota cols (length p) r (dadd cur_rate r) (length p + c)
  end.
Proof.
  intros Hi Ho Hcols Ha. unfold gen_kind, gen_fault. rewrite (rate_at_lookup _ _ _ Hi Ho).
  destruct o as [r|]; cbn [mbind res_mbind]; [|split; [by eauto|done]].
  destruct (int_of _) as [tmp|w] eqn:Ht; cbn [mbind res_mbind].
  2: { apply int_of_fault in Ht as Hw. split; [by eauto|].
       intros r' c [= <-] (tmp & Ht' & _). congruence. }
  pose proof (put_cmds_ok cols t (Z.to_nat tmp) 0 p a Ha) as Hp. unfold for_upto.
  destruct (for_from _ _ _ a) as [a1|w]; cbn [mbind res_mbind].
  2: { destruct Hp as [-> Hlt]. split; [by eauto|].
       intros r' c [= <-] (tmp' & Ht' & Hq & _). rewrite Ht in Ht'. injection Ht' as <-. lia. }
  destruct (fill_ok cols t (dadd cur_rate r) _ a1 Hcols Hp) as (y & -> & Hy).
  rewrite length_app, length_replicate in Hy. destruct y as [a2|w].
  - destruct Hy as (c2 & Hc2 & Hless & Hend). exists r, (Z.to_nat tmp + c2)%nat.
    rewrite <- app_assoc, <- replicate_add in Hc2. rewrite <- Nat.add_assoc in Hless, Hend.
    split_and!; [done..|]. exists tmp. split; [done|]. cbv zeta.
    destruct Hc2 as [Hl _]. rewrite length_app, length_replicate in Hl.
    split_and!; [lia|lia| |done]. intros m Hm. apply Hless. lia.
  - destruct Hy as [-> Hless]. split; [by eauto|].
    intros r' c [= <-] (tmp' & Ht' & Hq & _ & Hend). rewrite Ht in Ht'. injection Ht' as <-.
    rewrite Hless in Hend by lia. done.
Qed.

(** The commands of each kind together, [c] of the four kinds. *)
Definition grouped (c : nat * nat * nat * nat) : list Z :=
  let '(c0, c1, c2, c3) := c in
  replicate c0 (cmd_code INSERT) ++ replicate c1 (cmd_code DELETE) ++
  replicate c2 (cmd_code UPDATE) ++ replicate c3 (cmd_code SELECT).

(** An array of [cols] cells that begins with [types], the others being unset. *)
Definition array_with (cols : Z) (types : list cmd_type_t) : buffer Z :=
  Live ((Some <$> (cmd_code <$> types)) ++ replicate (Z.to_nat cols - length types) None).

Lemma cmd_of_code_of t : cmd_of_code (cmd_code t) = Some t.
Proof. by destruct t. Qed.
Lemma cmd_code_inj : Inj (=) (=) cmd_code.
Proof. intros t1 t2 Ht. apply (f_equal cmd_of_code) in Ht. rewrite !cmd_of_code_of in Ht. congruence. Qed.

Lemma array_with_inj cols types1 types2 :
  (Some <$> (cmd_code <$> types1)) ++ replicate (Z.to_nat cols - length types1) None =
  (Some <$> (cmd_code <$> types2)) ++ replicate (Z.to_nat cols - length types2) None →
  types1 = types2.
Proof.
  assert (∀ types n, omap id ((Some <$> (cmd_code <$> types)) ++ replicate n (None : option Z)) =
    cmd_code <$> types) as Hset.
  { intros types n. rewrite omap_app. replace (omap id (replicate n None)) with (@nil Z)
      by (induction n; [done|cbn; auto]).
    rewrite app_nil_r. induction types as [|t types IH]; [done|]. cbn. by f_equal. }
  intros Heq. apply (f_equal (omap id)) in Heq. rewrite !Hset in Heq.
  revert Heq. apply list_fmap_eq_inj, cmd_code_inj.
Qed.

(** The kinds in turn. *)
Fixpoint gen_kinds (rate : list (option spec_float)) (cols i : Z) (kinds : list cmd_type_t)
    (s : buffer Z * Z * spec_float) : res (buffer Z * Z * spec_float) :=
  match kinds with
  | [] => Ok s
  | t :: kinds => s ← gen_kind rate cols i t s; gen_kinds rate cols (i + 1) kinds s
  end.

Lemma gen_cmd_array_kinds cols rate :
  gen_cmd_array cols rate =
    ('(b, _, _) ← gen_kinds rate cols 0 cmd_pattern (fresh_buffer cols, 0, dzero); Ok b).
Proof.
  unfold gen_cmd_array. cbn [gen_kinds cmd_pattern]. do 4 (change (0 + 1) with 1 || change (1 + 1) with 2 || change (2 + 1) with 3).
  destruct (gen_kind rate cols 0 _ _); cbn [mbind res_mbind]; [|done].
  destruct (gen_kind rate cols 1 _ _); cbn [mbind res_mbind]; [|done].
  destruct (gen_kind rate cols 2 _ _); cbn [mbind res_mbind]; [|done].
  by destruct (gen_kind rate cols 3 _ _).
Qed.

Lemma gen_kinds_ok rate cols kinds rates (i : nat) p a cur_rate :
  cols ≤ INT_MAX → drop i rate = rates → length rates = length kinds → filled cols p a →
  match gen_kinds rate cols (Z.of_nat i) kinds (a, cur_rate) with
  | Ok (a', _) => ∃ types, filled cols (p ++ (cmd_code <$> types)) a' ∧
      proportioned cols (zip rates kinds) (length p) cur_rate types
  | Stop w => gen_fault w ∧ ∀ types, ¬ proportioned cols (zip rates kinds) (length p) cur_rate types
  end.
Proof.
  intros Hcols. revert rates i p a cur_rate.
  induction kinds as [|t kinds IH]; intros [|o rates] i p a cur_rate Hd Hlen Ha; try done.
  { exists []. cbn. by rewrite app_nil_r. }
  assert (rate !! i = Some o) as Ho by (rewrite <- (Nat.add_0_r i), <- lookup_drop; by rewrite Hd).
  assert (drop (S i) rate = rates) as Hd' by (pose proof (drop_S _ _ _ Ho); congruence).
  cbn [gen_kinds zip zip_with proportioned].
  pose proof (gen_kind_ok rate cols (Z.of_nat i) t o p a cur_rate ltac:(lia)
    ltac:(by rewrite Nat2Z.id) Hcols Ha) as Hk.
  destruct (gen_kind _ _ _ _ _) as [[a1 cur_rate']|w]; cbn [mbind res_mbind].
  2: { destruct Hk as [Hw Hk]. split; [done|]. intros types (r & c & types' & Hr & _ & Hq & _).
       by apply (Hk r c). }
  destruct Hk as (r & c & -> & -> & Ha1 & Hq).
  replace (Z.of_nat i + 1) with (Z.of_nat (S i)) by lia.
  pose proof (IH rates (S i) _ a1 (dadd cur_rate r) Hd' ltac:(cbn in Hlen; lia) Ha1) as Hi.
  rewrite length_app, length_replicate in Hi.
  destruct (gen_kinds _ _ _ _ _) as [[a2 cur_rate2]|w].
  - destruct Hi as (types & Ha2 & Hp). exists (replicate c t ++ types). split.
    + by rewrite fmap_app, fmap_replicate, app_assoc.
    + by exists r, c, types.
  - destruct Hi as [Hw Hi]. split; [done|]. intros types (r' & c' & types' & [= <-] & -> & Hq' & Hp').
    assert (c' = c) as -> by (pose proof (quota_unique _ _ _ _ _ _ Hq Hq'); lia).
    by apply (Hi types').
Qed.

Lemma gen_cmd_array_spec cols rate : 0 ≤ cols ≤ INT_MAX → length rate = 4%nat →
  match gen_cmd_array cols rate with
  | Ok b => ∃ types, in_proportion cols rate types ∧ Z.of_nat (length types) ≤ cols ∧
      b = array_with cols types
  | Stop w => gen_fault w ∧ ∀ types, ¬ in_proportion cols rate types
  end.
Proof.
  intros Hcols Hr. rewrite gen_cmd_array_kinds. unfold in_proportion.
  assert (filled cols [] (fresh_buffer cols, 0)) as H0.
  { split; [cbn; lia|]. cbn. by rewrite Nat.sub_0_r. }
  pose proof (gen_kinds_ok rate cols cmd_pattern rate 0 [] _ dzero ltac:(lia) eq_refl Hr H0) as H1.
  change (Z.of_nat 0) with 0 in H1.
  destruct (gen_kinds _ _ _ _ _) as [[[b n] cur_rate]|w]; cbn [mbind res_mbind]; [|done].
  destruct H1 as (types & [Hl Hb] & Hp). cbn [app] in Hl, Hb. rewrite length_fmap in Hl, Hb.
  injection Hb as -> _. by exists types.
Qed.

(** What the array is made of is what the rates stand for. *)
Lemma gen_cmd_array_iff cols rate types : 0 ≤ cols ≤ INT_MAX → length rate = 4%nat →
  gen_cmd_array cols rate = Ok (array_with cols types) ∧ Z.of_nat (length types) ≤ cols ↔
  in_proportion cols rate types.
Proof.
  intros Hcols Hr. pose proof (gen_cmd_array_spec cols rate Hcols Hr) as Hs.
  destruct (gen_cmd_array cols rate) as [b|w].
  - destruct Hs as (types' & Hp & Hl & ->). split.
    + intros [[= ->%array_with_inj] _]. exact Hp.
    + intros Hp'. by rewrite (proportioned_unique _ _ _ _ _ _ Hp' Hp).
  - destruct Hs as [_ Hs]. split; [by intros [? _]|by intros ?%Hs].
Qed.

Lemma in_proportion_grouped cols rate types : length rate = 4%nat → in_proportion cols rate types →
  ∃ c, cmd_code <$> types = grouped c.
Proof.
  intros Hr. destruct rate as [|o0 [|o1 [|o2 [|o3 [|]]]]]; try done.
  intros (_ & c0 & l0 & _ & -> & _ & _ & c1 & l1 & _ & -> & _ & _ & c2 & l2 & _ & -> & _ &
    _ & c3 & l3 & _ & -> & _ & ->).
  exists (c0, c1, c2, c3). cbn [grouped]. by rewrite !fmap_app, !fmap_replicate, app_nil_r.
Qed.
(** C26 (generation). The generation of the commands always ends: with the inserts, deletes, updates
    and selects together in that order and the rest of the array unset, or at a rate that was not
    given or is no [int] when multiplied, or past the end of the array.  How many there are of
    each kind is what its rate stands for: [(int) (rate[i] * cols)], and then as many as it takes for the
    share of all the commands so far to come up to the sum of the rates so far.  Rates that
    [verify_rate] accepts can lead past the end. *)
Theorem gen_cmd_array_outcomes cols rate :
  0 ≤ cols ≤ INT_MAX → length rate = 4%nat →
  match gen_cmd_array cols rate with
  | Ok b => ∃ c, Z.of_nat (length (grouped c)) ≤ cols ∧
      b = Live ((Some <$> grouped c) ++ replicate (Z.to_nat cols - length (grouped c)) None)
  | Stop w => gen_fault w
  end ∧
  (∀ types, gen_cmd_array cols rate = Ok (array_with cols types) ∧ Z.of_nat (length types) ≤ cols ↔
     in_proportion cols rate types) ∧
  ∃ rate', verify_rate rate' = Ok RET_SUCCEED ∧
    gen_cmd_array 100 rate' = Stop (Undefined OutOfBounds).
Proof.
  intros Hcols Hr. split_and!.
  - pose proof (gen_cmd_array_spec cols rate Hcols Hr) as Hs.
    destruct (gen_cmd_array cols rate) as [b|w]; [|by destruct Hs].
    destruct Hs as (types & (c & Hc)%in_proportion_grouped & Hl & ->); [|done].
    exists c. unfold array_with. by rewrite <- Hc, length_fmap.
  - intros types. by apply gen_cmd_array_iff.
  - exists (Some <$> [decimal_double 5 (-1); decimal_double 5 (-1); decimal_double 5 (-3); dzero]).
    split; vm_compute; reflexivity.
Qed.
End array.

(** ** The servers of a text configuration *)

Lemma span_app p (a rest : cstring) : Forall (λ c, p c = true) a →
  (∀ c r, rest = c :: r → p c = false) → span p (a ++ rest) = (a, rest).
Proof.
  intros Ha Hr. induction Ha as [|c a Hc Ha IH]; cbn.
  - destruct rest as [|c r]; [done|]. cbn. by rewrite (Hr c r).
  - by rewrite Hc, IH.
Qed.

Lemma copy_while_ok p size (a rest : cstring) : Forall (λ c, p c = true) a →
  (∀ c r, rest = c :: r → p c = false) → Z.of_nat (length a) < size →
  copy_while p size (a ++ rest) = Ok (a, rest).
Proof.
  intros Ha Hr Hl. unfold copy_while. rewrite span_app by done.
  by rewrite (proj2 (Z.leb_gt _ _)) by lia.
Qed.

(** The digits of a port up to the first 9. *)
Definition before_nine (ds : cstring) : cstring := (span (λ c, negb (c =? 57)) ds).1.

(** Behind the equals sign, a text server line is read as its address and the
    digits of its port up to the first 9: a port without that digit is read whole, any other is
    cut. *)
Theorem scan_server_port (c0 : Z) (ip ds rest : cstring) :
  is_digit c0 = true → Forall (λ c, (c =? 46) || is_digit c = true) ip →
  (length ip < 19)%nat →
  Forall (λ c, is_digit c = true) ds → (length ds ≤ 6)%nat →
  scan_server (61 :: (c0 :: ip) ++ 58 :: ds ++ 10 :: rest) = Ok (c0 :: ip, before_nine ds) ∧
  (57 ∉ ds → before_nine ds = ds).
Proof.
  intros Hc0 Hip Hlen Hds Hdl.
  assert (∀ ds', Forall (λ c, is_digit c = true) ds' →
    (span (λ c, (48 <=? c) && (c <? 57)) (ds' ++ 10 :: rest)).1 = before_nine ds') as Hcut.
  { intros ds' Hd. unfold before_nine. induction Hd as [|c ds' Hc Hd IH]; [done|].
    unfold is_digit in Hc. apply andb_true_iff in Hc as [H1%Z.leb_le H2%Z.leb_le].
    cbn [app span]. destruct (Z.eqb_spec c 57) as [->|Hne]; [done|].
    rewrite (proj2 (Z.leb_le 48 c)), (proj2 (Z.ltb_lt c 57)) by lia. cbn [andb negb].
    destruct (span _ (ds' ++ _)) as [x1 x2], (span _ ds') as [y1 y2]. cbn in *. by rewrite IH. }
  assert (length (before_nine ds) ≤ length ds)%nat as Hbl.
  { clear. unfold before_nine. induction ds as [|c ds IH]; [done|]. cbn.
    destruct (negb (c =? 57)); [|cbn; lia]. destruct (span _ ds). cbn in *. lia. }
  split.
  - unfold scan_server, drop_while. cbn [span]. change (is_digit 61) with false. cbn [negb].
    assert (span (λ c, negb (is_digit c)) ((c0 :: ip) ++ 58 :: ds ++ 10 :: rest) =
      ([], (c0 :: ip) ++ 58 :: ds ++ 10 :: rest)) as ->
      by (cbn [app span]; by rewrite Hc0).
    cbn [snd]. rewrite copy_while_ok.
    2: { constructor; [by rewrite Hc0, orb_true_r|done]. }
    2: { by intros c r [= <- <-]. }
    2: { cbn [length]. lia. }
    cbn [mbind res_mbind after_colon].
    change (58 =? 58) with true. cbn iota. unfold copy_while.
    specialize (Hcut ds Hds). destruct (span _ (ds ++ 10 :: rest)) as [a b]. cbn [fst] in Hcut.
    subst a. rewrite (proj2 (Z.leb_gt _ _)) by lia. done.
  - intros H9. unfold before_nine.
    pose proof (span_app (λ c, negb (c =? 57)) ds []) as Hs. rewrite app_nil_r in Hs.
    rewrite Hs; [done| |done].
    apply Forall_forall. intros c Hc. apply negb_true_iff, Z.eqb_neq. congruence.
Qed.

(** ** Columns of a text configuration *)

Section columns.
Context `{Allocator} `{MysqlClient} `{Regex}.

(** A [varchar] column of a text configuration is never read: its length
    would be in the third cell of an array of two. *)
Theorem txt_varchar_out_of_bounds my_schema (t : cstring) so cur (m : nat → Z * Z) b :
  regcomp pattern_bigint = true → regcomp pattern_varchar = true →
  advance t so = Ok cur → regexec pattern_bigint cur = None →
  regexec pattern_varchar cur = Some m →
  0 ≤ (m 1%nat).1 ≤ (m 1%nat).2 → (m 1%nat).2 ≤ Z.of_nat (length cur) →
  malloc_ok (u64 (u64 ((m 1%nat).2 - (m 1%nat).1 + 1))) = true →
  parser_read_txt_table_data my_schema t so b = (Stop (Undefined OutOfBounds), b).
Proof.
  intros Hc1 Hc2 Ha Hn Hm Hso Heo Hmem. unfold parser_read_txt_table_data. rewrite Hc1. cbn [negb].
  erewrite bind_ok by (unfold mlift; rewrite Ha; reflexivity). rewrite Hn, Hc2, Hm. cbn [negb].
  erewrite bind_ok by done. destruct (m 1%nat) as [so1 eo1] eqn:E. cbn [fst snd] in *.
  erewrite bind_ok.
  2: { unfold copy_match. erewrite bind_ok by (by apply pure_state_ok, cq_malloc_ok).
       unfold mlift, substring. zbool. reflexivity. }
  done.
Qed.
End columns.

(** ** Witnesses *)

Local Existing Instance roomy_allocator.
Local Existing Instance counting_rand.
Local Existing Instance toy_client.

Example shuffle_permutes_witness :
  (∃ codes', shuffle 200 4 (array_of [1; 2; 3; 4]) 7%nat =
      (Ok (array_of codes'), 407%nat) ∧ codes' ≡ₚ [1; 2; 3; 4] ∧ last codes' = Some 4) ∧
  shuffle 200 1 (array_of [4]) 7%nat = (Stop (Undefined DivByZero), 8%nat).
Proof.
  split.
  - apply (shuffle_permutes 200 [1; 2; 3; 4] 7). cbn. lia.
  - apply (shuffle_permutes 199 [4] 7). reflexivity.
Defined.

(** A quarter of each kind, of eight commands. *)
Definition quarter : list (option spec_float) := replicate 4 (scan_double (text "0.25")).

Example gen_cmd_array_outcomes_witness :
  gen_cmd_array 8 quarter = Ok (array_of [1; 1; 2; 2; 3; 3; 4; 4]) ∧
  (∃ c, Z.of_nat (length (grouped c)) ≤ 8 ∧
     array_of [1; 1; 2; 2; 3; 3; 4; 4] =
       Live ((Some <$> grouped c) ++ replicate (8 - length (grouped c)) None)) ∧
  in_proportion 8 quarter [INSERT; INSERT; DELETE; DELETE; UPDATE; UPDATE; SELECT; SELECT] ∧
  ∃ rate', verify_rate rate' = Ok RET_SUCCEED ∧
    gen_cmd_array 100 rate' = Stop (Undefined OutOfBounds).
Proof.
  assert (gen_cmd_array 8 quarter = Ok (array_of [1; 1; 2; 2; 3; 3; 4; 4])) as Hq
    by (vm_compute; reflexivity).
  pose proof (gen_cmd_array_outcomes 8 quarter ltac:(unfold INT_MAX; lia) eq_refl) as (Hx & Hp & Ho).
  rewrite Hq in Hx. split_and!; [exact Hq|exact Hx| |exact Ho].
  apply Hp. split; [exact Hq|cbn; lia].
Defined.

Example scan_server_port_witness :
  scan_server (text "=10.0.0.1:3306" ++ [10]) = Ok (text "10.0.0.1", text "3306") ∧
  scan_server (text "=10.0.0.1:3906" ++ [10]) = Ok (text "10.0.0.1", text "3").
Proof.
  split.
  - apply (scan_server_port 49 (text "0.0.0.1") (text "3306") []);
      try (repeat constructor); cbn; lia.
  - apply (scan_server_port 49 (text "0.0.0.1") (text "3906") []);
      try (repeat constructor); cbn; lia.
Defined.

(** Expressions that find a column of twenty characters at the start. *)
#[local] Instance toy_regex : Regex := {|
  regcomp _ := true;
  regexec p s := if bool_decide (p = pattern_varchar)
                 then Some (λ k, match k with 0%nat => (0, 15) | 1%nat => (0, 4) | _ => (13, 15) end)
                 else None;
|}.

Example txt_varchar_out_of_bounds_witness :
  parser_read_txt_table_data (Some 1%positive) (text "name varchar(20)") 0 booting =
    (Stop (Undefined OutOfBounds), booting).
Proof.
  apply (txt_varchar_out_of_bounds (Some 1%positive) (text "name varchar(20)") 0
    (text "name varchar(20)") (λ k, match k with 0%nat => (0, 15) | 1%nat => (0, 4) | _ => (13, 15) end)
    booting); try reflexivity; cbn; lia.
Defined.
