(* ===== verification/Config.v ===== *)
(** * Config: what a proper XML configuration sets up

    [proper] says of a document, as a program, that its servers, tables and
    commands are what the parser and the threads can work with.  Read from such a
    document, the cluster has the servers it describes, the set of schemas its
    tables and the bucket its lists of commands; that is what [System] relies on. *)

From stdpp Require Import base gmap sets list strings.
From Stdlib Require Import ZArith Lia.
From S2P Require Import Prelude Outcomes Mylib Vector Hash Heap CText Names Command Table Schemas.
From S2P Require Import Server EngineCtx SqlGen Safety Engine Turns System Verify ParserXml.
Local Open Scope Z_scope.

(** ** What a document describes *)

(** A server: its type and its name. *)
Definition server_of (n : xml_node) : option (server_type_t * cstring) :=
  type ← server_type_of (xml_name n);
  ip ← xmlGetProp n (text "ip");
  port_str ← xmlGetProp n (text "port");
  match verify_ip ip, atoi port_str with
  | Ok RET_SUCCEED, Ok port =>
      if bool_decide (verify_port port = RET_SUCCEED) && (length ip <=? 15)%nat && bool_decide (is_text ip)
      then Some (type, format_name ip port) else None
  | _, _ => None
  end.

Definition servers_of_type (type : server_type_t) (ss : list (server_type_t * cstring))
    : gset (list Z) :=
  list_to_set (snd <$> filter (λ s, s.1 = type) ss).

(** A column. *)
Definition column_of (n : xml_node) : option table_data_t :=
  name ← xmlGetProp n (text "name");
  type ← xmlGetProp n (text "type");
  if strcmp_eq type (text "varchar") then
    length_str ← xmlGetProp n (text "length");
    match atoi length_str with Ok len => Some (TableData name VARCHAR len) | Stop _ => None end
  else if strcmp_eq type (text "bigint") then Some (TableData name BIGINT 0) else None.

Definition is_key (n : xml_node) : bool := strcmp_eq (xml_name n) (text "key").

(** A table: its key columns and its value columns. *)
Definition table_of (children : list xml_node) : option (list table_data_t * list table_data_t) :=
  keys ← mapM column_of (filter (λ n, is_key n = true) children);
  vals ← mapM column_of (filter (λ n, is_key n = false) children);
  Some (keys, vals).

Definition is_table (n : xml_node) : bool := strcmp_eq (xml_name n) (text "table").

Definition tables_of (children : list xml_node)
    : option (list (list table_data_t * list table_data_t)) :=
  mapM (λ n, table_of (xml_children n)) (filter (λ n, is_table n = true) children).

(** ** Proper descriptions *)

Definition proper_servers (ss : list (server_type_t * cstring)) : bool :=
  bool_decide (NoDup ss) && existsb (λ s, bool_decide (s.1 = WRITE_SERVER)) ss &&
  (Z.of_nat (length ss) <? 16000).

(** A name that needs no quotes, of at most 1000 bytes; room in a statement. *)
Definition proper_column (c : table_data_t) : bool :=
  match data_type c with VARCHAR => (0 <? data_len c) | BIGINT => true end &&
  (assign_width c <=? 5000) && negb (bool_decide (data_name c = [])) &&
  forallb ident_char (data_name c) && (Z.of_nat (length (data_name c)) <? 1000).

Definition proper_columns (cs : list table_data_t) : bool :=
  negb (bool_decide (cs = [])) && (length cs <=? 100)%nat && forallb proper_column cs.

(** The first value column does not look like one that the program added. *)
Definition proper_table (t : list table_data_t * list table_data_t) : bool :=
  proper_columns t.1 && proper_columns t.2 &&
  match t.2 with c :: _ => negb (looks_added c) | [] => false end.

(** A section of the document. *)
Definition section {A} (xml_root : xml_node) (name : cstring) (f : list xml_node → option A) : option A :=
  match find_node name (xml_children xml_root) with
  | Ok (Some n) => f (xml_children n)
  | _ => None
  end.

(** What a whole document describes. *)
Record described := Described {
  d_servers : list (server_type_t * cstring);
  d_lists : list (list cmd_type_t);
  d_tables : list (list table_data_t * list table_data_t);
}.

Definition describe (xml_root : xml_node) : option described :=
  ss ← section xml_root (text "servers") (mapM server_of);
  ls ← section xml_root (text "cmds") section_types;
  ts ← section xml_root (text "tables") tables_of;
  Some (Described ss ls ts).

Definition proper_described (d : described) : bool :=
  proper_servers (d_servers d) &&
  negb (bool_decide (d_lists d = [])) && forallb (λ l, Z.of_nat (length l) <=? INT_MAX) (d_lists d) &&
  negb (bool_decide (d_tables d = [])) && forallb proper_table (d_tables d).

Definition proper (xml_root : xml_node) : bool :=
  match describe xml_root with Some d => proper_described d | None => false end.

(** ** Servers *)

Section reading.
Context `{Allocator} `{RandSource} `{MysqlClient}.
Context (g_username g_password : cstring).
Context (Hmem : ∀ n, 0 < n ≤ 1024 → malloc_ok n = true).
Implicit Types (b : boot) (ss : list (server_type_t * cstring)) (w r : gmap (list Z) cq_server_t).

Lemma server_of_inv n type nm : server_of n = Some (type, nm) →
  server_type_of (xml_name n) = Some type ∧ ∃ ip port,
    nm = format_name ip port ∧ (length ip ≤ 15)%nat ∧ is_text ip ∧ 0 ≤ port < 65536 ∧
    ∀ b, read_xml_server g_username g_password type n b = read_server g_username g_password type ip port b.
Proof.
  unfold server_of, read_xml_server. intros Hs.
  destruct (server_type_of (xml_name n)) as [t|]; [|done].
  destruct (xmlGetProp n (text "ip")) as [ip|]; [|done].
  destruct (xmlGetProp n (text "port")) as [p|]; [|done]. cbn [mbind option_bind] in Hs.
  destruct (verify_ip ip) as [[]|]; try done. destruct (atoi p) as [port|]; [|done].
  case_bool_decide as Hp; [|done]. destruct (Nat.leb_spec (length ip) 15); [|done].
  case_bool_decide as Ht; [|done]. injection Hs as <- <-. split; [done|]. exists ip, port.
  assert (0 ≤ port < 65536) as Hport.
  { unfold verify_port in Hp. destruct (Z.leb_spec 0 port); [|done].
    destruct (Z.ltb_spec port 65536); [lia|done]. }
  split_and!; [done..|lia|lia|]. intros b. unfold mlift. mstep. by rewrite Hp.
Qed.

(** What reading the servers leaves alone. *)
Definition rest b := (b_tables b, b_cmds b).

Definition named_as c ws rs : Prop :=
  ∃ w r, cluster_fits c w r ∧ dom w = ws ∧ dom r = rs.

Lemma read_server_runs type ip port b ws rs :
  named_as (b_cluster b) ws rs → (length ip ≤ 15)%nat → is_text ip → 0 ≤ port < 65536 →
  Z.of_nat (size ws) < 16000 → Z.of_nat (size rs) < 16000 →
  format_name ip port ∉ (if bool_decide (type = WRITE_SERVER) then ws else rs) →
  runs expected (read_server g_username g_password type ip port) b (λ ret b',
    ret = RET_SUCCEED ∧ rest b' = rest b ∧
    named_as (b_cluster b')
      (if bool_decide (type = WRITE_SERVER) then {[format_name ip port]} ∪ ws else ws)
      (if bool_decide (type = WRITE_SERVER) then rs else {[format_name ip port]} ∪ rs)).
Proof using Hmem.
  intros (w & r & C & <- & <-) Hip Ht Hp Hw Hr Hn. rewrite size_dom in Hw, Hr.
  unfold read_server. apply runs_bind. unfold on_boot_db, on_cluster. apply runs_zoom.
  eapply runs_weaken; [by apply (server_init_runs Hmem)|].
  intros o d (s & -> & Hi & Hpo & Hnm & Hty). apply runs_zoom. cbn [b_cluster].
  assert (server_fits s) as Hs by (by split; rewrite ?Hi, ?Hpo).
  eapply runs_weaken; [eapply runs_expect; [|exact expect_aborts]; by apply cq_cluster_add_runs|].
  intros ret c (Hret & w' & r' & C' & Hw' & Hr'). rewrite Hty, Hnm in *.
  split_and!; [|done|exists w', r'; split_and!; done]. apply Hret. by case_bool_decide.
Qed.

Lemma servers_of_nil type : servers_of_type type [] = ∅.
Proof. done. Qed.
Lemma servers_of_cons type s ss : servers_of_type type (s :: ss) =
  (if bool_decide (s.1 = type) then {[s.2]} else ∅) ∪ servers_of_type type ss.
Proof.
  unfold servers_of_type. rewrite filter_cons. case_bool_decide as Ht.
  - by rewrite decide_True.
  - by rewrite decide_False, union_empty_l_L.
Qed.

Lemma read_servers_runs freed l ss b ws rs :
  mapM server_of l = Some ss → NoDup ss →
  (∀ s, s ∈ ss → s.2 ∉ (if bool_decide (s.1 = WRITE_SERVER) then ws else rs)) →
  named_as (b_cluster b) ws rs →
  Z.of_nat (size ws + length ss) < 16000 → Z.of_nat (size rs + length ss) < 16000 →
  runs expected (read_xml_servers g_username g_password freed l) b (λ ret b',
    ret = RET_SUCCEED ∧ rest b' = rest b ∧
    named_as (b_cluster b') (ws ∪ servers_of_type WRITE_SERVER ss)
      (rs ∪ servers_of_type READ_SERVER ss)).
Proof using Hmem.
  revert freed ss b ws rs. induction l as [|n l IH]; intros freed ss b ws rs Hss Hnd Hnew C Hw Hr.
  { injection Hss as <-. apply runs_ret. split_and!; [done..|].
    by rewrite !servers_of_nil, !union_empty_r_L. }
  cbn [mapM] in Hss. destruct (server_of n) as [[t nm]|] eqn:Hn; [|done].
  destruct (mapM server_of l) as [ss'|] eqn:Hl; [|done]. injection Hss as <-.
  destruct (server_of_inv _ _ _ Hn) as (Ht & ip & port & -> & Hip & Htx & Hp & Hread).
  apply NoDup_cons in Hnd as [Hnin Hnd]. cbn [length] in Hw, Hr. cbn [read_xml_servers]. rewrite Ht.
  eapply runs_then with (λ ret b', ret = RET_SUCCEED ∧ rest b' = rest b ∧
    named_as (b_cluster b')
      (if bool_decide (t = WRITE_SERVER) then {[format_name ip port]} ∪ ws else ws)
      (if bool_decide (t = WRITE_SERVER) then rs else {[format_name ip port]} ∪ rs)).
  { unfold runs. rewrite Hread. apply read_server_runs; [done..|lia|lia|].
    apply (Hnew (t, format_name ip port)). by left. }
  intros ret b1 (-> & Hrest & C1). rewrite bool_decide_false by done.
  assert (∀ (x : list Z) (X : gset (list Z)), (size ({[x]} ∪ X) ≤ S (size X))%nat) as Hsz.
  { intros x X. rewrite size_union_alt, size_singleton. apply le_n_S, subseteq_size. set_solver. }
  eapply runs_weaken; [eapply (IH true ss' b1); [done|exact Hnd| |exact C1|..]|].
  - intros [t' nm'] Hs. pose proof (Hnew (t', nm') ltac:(by right)) as Hx. cbn [fst snd] in *.
    assert ((t', nm') ≠ (t, format_name ip port)) as Hne by (by intros [= -> ->]).
    destruct t, t'; cbn in *; set_solver.
  - case_bool_decide; [pose proof (Hsz (format_name ip port) ws)|]; lia.
  - case_bool_decide; [|pose proof (Hsz (format_name ip port) rs)]; lia.
  - intros ret b2 (-> & Hrest2 & C2). split_and!; [done|congruence|].
    rewrite !servers_of_cons. cbn [fst snd].
    destruct C2 as (w & r & C2 & Hw2 & Hr2). exists w, r. rewrite Hw2, Hr2.
    split_and!; [done|destruct t; repeat case_bool_decide; try done; set_solver..].
Qed.

(** *** Commands *)

(** The bucket has the lists [tss], each its own. *)
Definition holds (s : cmd_state) (tss : list (list cmd_type_t)) : Prop :=
  ∃ v ls lists detached, crep s lists detached ∧ cq_cmd_bucket s = SPtr v ∧
    vrep v (Some <$> ls) ∧ NoDup ls ∧ Forall2 (λ l ts, lists !! l = Some ts) ls tss.

Lemma on_boot_cmds_inv {A} (m : M cmd_state A) b (E : stop → Prop) (Q : A → boot → Prop) :
  runs E m (b_cmds b) (λ a s, Q a (with_cmds s b)) → runs E (on_boot_cmds m) b Q.
Proof. intros Hm. unfold on_boot_cmds. by apply runs_zoom. Qed.

(** A new list joins the bucket. *)
Lemma bucket_takes_list b s v ls tss lists detached l ts :
  crep s (<[l := ts]> lists) detached → cq_cmd_bucket s = SPtr v → vrep v (Some <$> ls) →
  NoDup ls → Forall2 (λ l ts, lists !! l = Some ts) ls tss → lists !! l = None →
  runs expected (on_boot_cmds (cmd_bucket_add (Some l))) (with_cmds s b) (λ ret b',
    ret = RET_SUCCEED ∧ ∃ s', b' = with_cmds s' b ∧ holds s' (tss ++ [ts])).
Proof.
  intros R Hb Rv Hnd Hls Hl. apply on_boot_cmds_inv. unfold cmd_bucket_add, runs.
  pose proof (vector_push_back_runs _ _ (Some l) Rv) as Hp. unfold runs in Hp.
  unfold on_bucket. cbn [b_cmds with_cmds]. mstep. rewrite Hb. cbn [static_get].
  mstep. destruct (vector_push_back (Some l) v) as [[r|w] v'] eqn:Hx; cbn; [|by left].
  destruct Hp as [-> Rv']. split; [done|]. eexists. split; [done|].
  exists v', (ls ++ [l]), (<[l := ts]> lists), detached.
  split_and!; [by apply crep_bucket|done|by rewrite fmap_app| |].
  - apply NoDup_app. split_and!; [done| |apply NoDup_singleton].
    intros x Hx1 ->%list_elem_of_singleton. apply list_elem_of_lookup in Hx1 as [i Hx1].
    destruct (Forall2_lookup_l _ _ _ _ _ Hls Hx1) as (? & _ & ?). congruence.
  - apply Forall2_app; [|by constructor; [apply lookup_insert_eq|]].
    eapply Forall2_impl; [exact Hls|]. intros x y Hxy. rewrite lookup_insert_ne; [done|]. congruence.
Qed.

Lemma read_xml_cmd_runs c b ts tss :
  holds (b_cmds b) tss → strcmp_eq (xml_name c) (text "cmd") = true →
  node_types (xml_children c) = Some ts → Z.of_nat (length ts) ≤ INT_MAX →
  runs expected (read_xml_cmd c) b (λ ret b', ret = RET_SUCCEED ∧
    ∃ s, b' = with_cmds s b ∧ holds s (tss ++ [ts])).
Proof using Hmem.
  intros (v & ls & lists & detached & R & Hv & Rv & Hnd & Hls) Hname Hts Hlen.
  unfold read_xml_cmd. rewrite Hname.
  assert (malloc_ok 24 = true) as Hm24 by (apply Hmem; lia).
  destruct (cmd_list_init_spec _ _ _ R Hm24) as (l & s1 & Hi & Hl & R1).
  pose proof (keeps_cmd_list_init (b_cmds b)) as Hk. rewrite Hi in Hk. cbn [snd] in Hk.
  eapply runs_then_ok; [apply on_boot_cmds_ok; exact Hi|].
  pose proof (length_mapM _ _ _ Hts) as Hc.
  pose proof (read_cmd_list_spec (xml_children c) (with_cmds s1 b) (<[l := []]> lists) detached l []
    R1 ltac:(by rewrite lookup_insert_eq) ltac:(cbn; lia) Hm24) as Hr. cbv zeta in Hr.
  change (parser_read_cmd_list (Some l) (XmlNode [] [] (xml_children c)))
    with (parser_read_cmd_list (Some l) c) in Hr.
  rewrite Hts in Hr. destruct Hr as (s2 & Hr & R2 & Hb). cbn in Hb. rewrite Hk, Hv in Hb.
  rewrite insert_insert_eq in R2. cbn [app] in R2.
  eapply runs_then_ok; [exact Hr|]. rewrite bool_decide_false by done.
  by apply (bucket_takes_list b s2 v ls tss lists detached l ts).
Qed.

Lemma read_cmds_runs children b tss0 tss :
  holds (b_cmds b) tss0 → section_types children = Some tss →
  Forall (λ ts, Z.of_nat (length ts) ≤ INT_MAX) tss →
  runs expected (each read_xml_cmd children) b (λ ret b', ret = RET_SUCCEED ∧
    ∃ s, b' = with_cmds s b ∧ holds s (tss0 ++ tss)).
Proof using Hmem.
  revert b tss0 tss. induction children as [|c children IH]; intros b tss0 tss Hh Hs Hf.
  { injection Hs as <-. apply runs_ret. rewrite app_nil_r. split; [done|].
    exists (b_cmds b). by destruct b. }
  unfold section_types in Hs. rewrite filter_cons in Hs. cbn [each foldr].
  destruct (strcmp_eq (xml_name c) (text "cmd")) eqn:Hname.
  2: { rewrite decide_False in Hs by done. eapply runs_then_ok; [by unfold read_xml_cmd; rewrite Hname|].
       rewrite bool_decide_false by done. by apply IH. }
  rewrite decide_True in Hs by done. cbn [mapM] in Hs.
  destruct (node_types (xml_children c)) as [ts|] eqn:Hts; [|done].
  destruct (mapM _ _) as [tss'|] eqn:Htss; [|done]. injection Hs as <-.
  apply Forall_cons in Hf as [Hlen Hf].
  eapply runs_then; [by apply (read_xml_cmd_runs c b ts tss0)|].
  intros ret b1 (-> & s & -> & Hh1). rewrite bool_decide_false by done.
  eapply runs_weaken; [by apply (IH (with_cmds s b) _ tss' Hh1)|].
  intros ret b2 (-> & s2 & -> & Hh2). split; [done|]. exists s2. split; [done|].
  by rewrite <- app_assoc in Hh2.
Qed.

(** *** Tables *)

Definition with_tabs t b : boot :=
  Boot _ (b_cluster b) t (b_cmds b) (b_rand b) (b_db b) (b_now b) (b_file b).

Lemma on_boot_tables_ok {A} (m : M table_state A) b a t :
  m (b_tables b) = (Ok a, t) → on_boot_tables m b = (Ok a, with_tabs t b).
Proof. intros Hm. unfold on_boot_tables. by erewrite zoom_ok by exact Hm. Qed.

(** The two sets, which reading a table schema leaves alone. *)
Definition sets t := (cq_schema_set t, cq_table_set t).

Lemma sets_on_schemas {A} (m : M (heap schema_t) A) t x t' :
  on_schemas m t = (x, t') → sets t' = sets t.
Proof. intros Hm. unfold on_schemas, zoom in Hm. destruct (m _). by injection Hm as _ <-. Qed.
Lemma sets_on_table_schemas {A} (m : M (heap table_schema_t) A) t x t' :
  on_table_schemas m t = (x, t') → sets t' = sets t.
Proof. intros Hm. unfold on_table_schemas, zoom in Hm. destruct (m _). by injection Hm as _ <-. Qed.

Lemma add_new_column_ok t a p n type len cs :
  views t a → tv_cols a !! p = Some cs → (length cs < 100)%nat → Z.of_nat (length n) < 1000 →
  ∃ t1 t2 d, on_datas (table_data_init n type len) t = (Ok d, t1) ∧
    on_schemas (schema_add (Some p) d) t1 = (Ok RET_SUCCEED, t2) ∧
    views t2 (with_cols (<[p := cs ++ [TableData n type len]]> (tv_cols a)) a) ∧ sets t2 = sets t.
Proof using Hmem.
  intros V Hp Hlt Hn.
  destruct (append_column t _ p cs (TableData n type len) (vw_cols _ _ V) Hp Hlt) as (t' & Ha & R & Ht & Hx & Hw).
  eexists _, t', _. split_and!; [by apply (new_column_ok Hmem)|exact Ha|by apply (views_with_cols t)|].
  by rewrite (sets_on_schemas _ _ _ _ Ha).
Qed.

Lemma parser_read_table_data_ok n c b a p cs :
  column_of n = Some c → proper_column c = true → views (b_tables b) a →
  tv_cols a !! p = Some cs → (length cs < 100)%nat →
  ∃ t, parser_read_table_data (Some p) n b = (Ok RET_SUCCEED, with_tabs t b) ∧
    views t (with_cols (<[p := cs ++ [c]]> (tv_cols a)) a) ∧ sets t = sets (b_tables b).
Proof using Hmem.
  intros Hc Hprop V Hp Hlt.
  assert (Z.of_nat (length (data_name c)) < 1000) as Hn.
  { unfold proper_column in Hprop. apply andb_prop in Hprop as [_ Hn]. by apply Z.ltb_lt in Hn. }
  unfold column_of, parser_read_table_data, new_column, verify_string in *.
  destruct (xmlGetProp n (text "name")) as [name|]; [|done].
  destruct (xmlGetProp n (text "type")) as [type|]; [|done]. cbn [mbind option_bind] in Hc.
  assert (∀ ty len, c = TableData name ty len → ∃ t,
    (d ← on_boot_tables (on_datas (table_data_init name ty len));
     on_boot_tables (on_schemas (schema_add (Some p) d))) b = (Ok RET_SUCCEED, with_tabs t b) ∧
    views t (with_cols (<[p := cs ++ [c]]> (tv_cols a)) a) ∧ sets t = sets (b_tables b)) as Hadd.
  { intros ty len ->. cbn [data_name] in Hn.
    destruct (add_new_column_ok (b_tables b) a p name ty len cs V Hp Hlt Hn) as (t1 & t2 & d & Hi & Ha & V2 & Hs2).
    exists t2. split_and!; [|done|done]. erewrite bind_ok by (by apply on_boot_tables_ok).
    by erewrite on_boot_tables_ok by exact Ha. }
  erewrite bind_ok by done. destruct (strcmp_eq type (text "varchar")).
  - destruct (xmlGetProp n (text "length")) as [ls|]; [|done]. cbn [mbind option_bind] in Hc.
    destruct (atoi ls) as [len|]; [|done]. injection Hc as <-. by apply (Hadd VARCHAR len).
  - rewrite bool_decide_false by done. erewrite bind_ok by done. destruct (strcmp_eq type (text "bigint")); [|done].
    injection Hc as <-. by apply (Hadd BIGINT 0).
Qed.

(** The children of a [table] node. *)
Lemma read_columns_each children b a k v ks vs keys vals :
  mapM column_of (filter (λ n, is_key n = true) children) = Some keys →
  mapM column_of (filter (λ n, is_key n = false) children) = Some vals →
  Forall (λ c, proper_column c = true) (keys ++ vals) → k ≠ v →
  views (b_tables b) a → tv_cols a !! k = Some ks → tv_cols a !! v = Some vs →
  (length ks + length keys ≤ 100)%nat → (length vs + length vals ≤ 100)%nat →
  ∃ t, each (λ cur_node,
        if strcmp_eq (xml_name cur_node) (text "key")
        then parser_read_table_data (Some k) cur_node
        else parser_read_table_data (Some v) cur_node) children b = (Ok RET_SUCCEED, with_tabs t b) ∧
    views t (with_cols (<[v := vs ++ vals]> (<[k := ks ++ keys]> (tv_cols a))) a) ∧
    sets t = sets (b_tables b).
Proof using Hmem.
  revert b a ks vs keys vals. induction children as [|n children IH];
    intros b a ks vs keys vals Hks Hvs Hf Hne V Hk Hv Hlk Hlv.
  { injection Hks as <-. injection Hvs as <-. exists (b_tables b). rewrite !app_nil_r, !insert_id by
      (by rewrite ?lookup_insert_ne). split_and!; [by destruct b|by destruct a|done]. }
  rewrite filter_cons in Hks, Hvs. fold (is_key n) in *. destruct (is_key n) eqn:Hn.
  - rewrite decide_True in Hks by done. rewrite decide_False in Hvs by done. cbn [mapM] in Hks.
    destruct (column_of n) as [c|] eqn:Hc; [|done].
    destruct (mapM column_of (filter (λ n, is_key n = true) children)) as [keys'|]; [|done].
    injection Hks as <-. apply Forall_cons in Hf as [Hpc Hf]. cbn [length] in Hlk.
    destruct (parser_read_table_data_ok n c b a k ks Hc Hpc V Hk ltac:(lia)) as (t & Hr & V1 & Hs).
    destruct (IH (with_tabs t b) _ (ks ++ [c]) vs keys' vals eq_refl Hvs Hf Hne V1)
      as (t' & Hr' & V' & Hs'); cbn [tv_cols with_cols].
    { by rewrite lookup_insert_eq. } { by rewrite lookup_insert_ne. }
    { rewrite length_app. cbn. lia. } { done. }
    exists t'. split_and!; [|cbn in V'; by rewrite insert_insert_eq, <- app_assoc in V'|by rewrite Hs'].
    erewrite each_ok; [exact Hr'|]. unfold is_key in Hn. by rewrite Hn.
  - rewrite decide_False in Hks by done. rewrite decide_True in Hvs by done. cbn [mapM] in Hvs.
    destruct (column_of n) as [c|] eqn:Hc; [|done].
    destruct (mapM column_of (filter (λ n, is_key n = false) children)) as [vals'|]; [|done].
    injection Hvs as <-. apply Forall_app in Hf as [Hf1 [Hpc Hf]%Forall_cons]. cbn [length] in Hlv.
    destruct (parser_read_table_data_ok n c b a v vs Hc Hpc V Hv ltac:(lia)) as (t & Hr & V1 & Hs).
    destruct (IH (with_tabs t b) (with_cols (<[v:=vs ++ [c]]> (tv_cols a)) a) ks (vs ++ [c]) keys vals' Hks eq_refl) as (t' & Hr' & V' & Hs');
      [by apply Forall_app|done|exact V1|..]; cbn [tv_cols with_cols].
    { by rewrite lookup_insert_ne. } { by rewrite lookup_insert_eq. }
    { done. } { rewrite length_app. cbn. lia. }
    exists t'. split_and!; [|cbn in V'|by rewrite Hs'].
    + erewrite each_ok; [exact Hr'|]. unfold is_key in Hn. by rewrite Hn.
    + by rewrite (insert_insert_ne _ k v), insert_insert_eq, <- app_assoc in V'.
Qed.

(** One table more. *)
Definition add_table (a : table_view) (kv : list table_data_t * list table_data_t) : table_view :=
  let k := tv_schema a in
  TableView (<[Pos.succ k := kv.2]> (<[k := kv.1]> (tv_cols a)))
    (<[tv_pair a := (k, Pos.succ k)]> (tv_pairs a)) (Pos.succ (Pos.succ k)) (Pos.succ (tv_pair a)).

Lemma proper_table_inv kv : proper_table kv = true →
  Forall (λ c, proper_column c = true) (kv.1 ++ kv.2) ∧
  (length kv.1 ≤ 100)%nat ∧ (length kv.2 ≤ 100)%nat ∧ kv.1 ≠ [] ∧
  ∃ c cs, kv.2 = c :: cs ∧ looks_added c = false.
Proof.
  unfold proper_table, proper_columns. rewrite !andb_true_iff, !negb_true_iff, !Nat.leb_le,
    !bool_decide_eq_false. intros [[[[Hk1 Hk2] Hk3] [[Hv1 Hv2] Hv3]] Hl].
  rewrite forallb_forall in Hk3, Hv3.
  split_and!; [|done..|].
  - apply Forall_app. split; apply Forall_forall; intros c Hc; [apply Hk3|apply Hv3]; by apply list_elem_of_In.
  - destruct kv.2 as [|c cs]; [done|]. exists c, cs. split; [done|]. by apply negb_true_iff.
Qed.

Lemma parser_read_table_schema_ok n kv b a :
  table_of (xml_children n) = Some kv → proper_table kv = true → views (b_tables b) a →
  ∃ t, parser_read_table_schema n b = (Ok (Some (Some (tv_pair a))), with_tabs t b) ∧
    views t (add_table a kv) ∧ sets t = sets (b_tables b).
Proof using Hmem.
  intros Hkv (Hf & Hl1 & Hl2 & _)%proper_table_inv V. unfold table_of in Hkv.
  apply bind_Some in Hkv as (keys & Hks & (vals & Hvs & [= <-])%bind_Some).
  cbn [fst snd] in *. unfold parser_read_table_schema.
  destruct (new_schema_ok Hmem (b_tables b) a V) as (t1 & Hi1 & V1).
  destruct (new_schema_ok Hmem t1 _ V1) as (t2 & Hi2 & V2). cbn [tv_schema tv_cols tv_pairs tv_pair] in *.
  erewrite bind_ok by (by apply on_boot_tables_ok).
  erewrite bind_ok by (by apply on_boot_tables_ok).
  set (k := tv_schema a) in *. assert (k ≠ Pos.succ k) as Hne by lia.
  destruct (read_columns_each (xml_children n) (with_tabs t2 (with_tabs t1 b)) _ k (Pos.succ k) [] []
    keys vals Hks Hvs Hf Hne V2) as (t3 & Hr & V3 & Hs3); cbn [tv_cols]; [| |done..|].
  { by rewrite lookup_insert_ne, lookup_insert_eq. }
  { by rewrite lookup_insert_eq. }
  erewrite bind_ok by exact Hr. rewrite bool_decide_false by done.
  destruct (new_table_schema_ok Hmem t3 _ k (Pos.succ k) V3) as (t4 & Hi4 & V4).
  erewrite bind_ok by (by apply on_boot_tables_ok). exists t4. split_and!; [done| |].
  - cbn in V4. unfold add_table. fold k. cbn [fst snd].
    rewrite (insert_insert_ne _ k (Pos.succ k)), insert_insert_eq in V4 by done.
    by rewrite insert_insert_eq in V4.
  - rewrite (sets_on_table_schemas _ _ _ _ Hi4), Hs3. cbn.
    by rewrite (sets_on_schemas _ _ _ _ Hi2), (sets_on_schemas _ _ _ _ Hi1).
Qed.

(** The table schemas [l], each with its own two schemas. *)
Record built (a : table_view) (l : list loc) : Prop := {
  bu_cols p cs : tv_cols a !! p = Some cs → (p < tv_schema a)%positive ∧ Forall col_fits cs;
  bu_pairs ts k v : tv_pairs a !! ts = Some (k, v) →
    (ts < tv_pair a)%positive ∧ (k < tv_schema a)%positive ∧ (v < tv_schema a)%positive;
  bu_keys ts k v : tv_pairs a !! ts = Some (k, v) → ∃ c cs, tv_cols a !! k = Some (c :: cs);
  bu_vals ts k v : tv_pairs a !! ts = Some (k, v) →
    ∃ c cs, tv_cols a !! v = Some (c :: cs) ∧ looks_added c = false;
  bu_apart ts1 k1 v1 ts2 k2 v2 : tv_pairs a !! ts1 = Some (k1, v1) →
    tv_pairs a !! ts2 = Some (k2, v2) → k1 ≠ v2;
  bu_once ts1 k1 v1 ts2 k2 v2 : tv_pairs a !! ts1 = Some (k1, v1) →
    tv_pairs a !! ts2 = Some (k2, v2) → k1 = k2 ∨ v1 = v2 → ts1 = ts2;
  bu_list : NoDup l ∧ ∀ ts, ts ∈ l → is_Some (tv_pairs a !! ts);
}.

Lemma proper_column_fits c : proper_column c = true → col_fits c.
Proof.
  unfold proper_column. rewrite !andb_true_iff, negb_true_iff, bool_decide_eq_false, Z.leb_le.
  intros [[[[Ht Hw] Hn] Hi] _]. split; [|done|split; [done|]].
  - intros Hv. rewrite Hv in Ht. unfold assign_width, width in Hw. rewrite Hv in Hw.
    apply Z.ltb_lt in Ht. unfold INT_MAX. lia.
  - apply Forall_forall. intros x Hx. rewrite forallb_forall in Hi. apply Hi. by apply list_elem_of_In.
Qed.

Lemma built_none : built no_view [].
Proof.
  split; cbn; try (by intros); try (by intros ? ? ? ?%lookup_empty_Some).
  split; [constructor|by intros ? ?%not_elem_of_nil].
Qed.

Lemma built_add a l kv : built a l → proper_table kv = true →
  built (add_table a kv) (l ++ [tv_pair a]).
Proof.
  intros [Bc Bp Bk Bv Ba Bo [Bn Bl]] (Hf & _ & _ & Hk & c & cs & Hv & Hl)%proper_table_inv.
  assert (Forall col_fits kv.1 ∧ Forall col_fits kv.2) as [Hf1 Hf2].
  { apply Forall_app. eapply Forall_impl; [exact Hf|]. apply proper_column_fits. }
  unfold add_table. set (k := tv_schema a) in *. set (ts0 := tv_pair a) in *.
  split; cbn [tv_cols tv_pairs tv_schema tv_pair].
  - intros p cs'. rewrite !lookup_insert_Some. intros [[<- <-]|[_ [[<- <-]|[_ Hp]]]].
    + split; [lia|done].
    + split; [lia|done].
    + destruct (Bc _ _ Hp). split; [lia|done].
  - intros ts k' v'. rewrite lookup_insert_Some. intros [[<- [= <- <-]]|[_ Hp]]; [lia|].
    destruct (Bp _ _ _ Hp) as (? & ? & ?). lia.
  - intros ts k' v'. rewrite lookup_insert_Some. intros [[<- [= <- <-]]|[_ Hp]].
    + destruct kv.1 as [|c1 cs1]; [done|]. exists c1, cs1.
      by rewrite lookup_insert_ne, lookup_insert_eq by lia.
    + destruct (Bp _ _ _ Hp) as (_ & Hk' & _). rewrite !lookup_insert_ne by lia. by eapply Bk.
  - intros ts k' v'. rewrite lookup_insert_Some. intros [[<- [= <- <-]]|[_ Hp]].
    + exists c, cs. by rewrite Hv, lookup_insert_eq.
    + destruct (Bp _ _ _ Hp) as (_ & _ & Hv'). rewrite !lookup_insert_ne by lia. by eapply Bv.
  - intros ts1 k1 v1 ts2 k2 v2. rewrite !lookup_insert_Some.
    intros [[<- [= <- <-]]|[_ H1']] [[<- [= <- <-]]|[_ H2']].
    + lia.
    + destruct (Bp _ _ _ H2') as (_ & _ & ?). lia.
    + destruct (Bp _ _ _ H1') as (_ & ? & _). lia.
    + by eapply Ba.
  - intros ts1 k1 v1 ts2 k2 v2. rewrite !lookup_insert_Some.
    intros [[<- [= <- <-]]|[_ H1']] [[<- [= <- <-]]|[_ H2']].
    + done.
    + destruct (Bp _ _ _ H2') as (_ & ? & ?). lia.
    + destruct (Bp _ _ _ H1') as (_ & ? & ?). lia.
    + by eapply Bo.
  - split.
    + apply NoDup_app. split_and!; [done| |apply NoDup_singleton].
      intros x Hx ->%list_elem_of_singleton. destruct (Bl _ Hx) as [[k' v'] Hp].
      destruct (Bp _ _ _ Hp) as [? _]. lia.
    + intros ts [Hts| ->%list_elem_of_singleton]%elem_of_app.
      * destruct (Bl _ Hts) as [p Hp]. exists p. rewrite lookup_insert_ne; [done|].
        destruct p as [k' v']. destruct (Bp _ _ _ Hp) as [? _]. lia.
      * exists (k, Pos.succ k). by rewrite lookup_insert_eq.
Qed.

(** A table schema with the columns described. *)
Definition has_columns (a : table_view) (ts : loc) (kv : list table_data_t * list table_data_t) : Prop :=
  ∃ k v, tv_pairs a !! ts = Some (k, v) ∧ tv_cols a !! k = Some kv.1 ∧ tv_cols a !! v = Some kv.2.

(** The set of schemas has one for every table, in order. *)
Record tabled t (a : table_view) (l : list loc)
    (tabs : list (list table_data_t * list table_data_t)) : Prop := {
  tb_views : views t a;
  tb_built : built a l;
  tb_set : ∃ v, cq_schema_set t = SPtr v ∧ vrep v (Some <$> l);
  tb_columns : Forall2 (has_columns a) l tabs;
}.

Lemma has_columns_more a ts kv kv' l : built a l → has_columns a ts kv →
  has_columns (add_table a kv') ts kv.
Proof.
  intros B (k & v & Hp & Hk & Hv). destruct (bu_pairs _ _ B _ _ _ Hp) as (? & ? & ?).
  exists k, v. unfold add_table. cbn. rewrite !lookup_insert_ne by lia. done.
Qed.

Lemma read_xml_table_runs n b a l tabs kv :
  tabled (b_tables b) a l tabs → table_of (xml_children n) = Some kv → proper_table kv = true →
  runs expected (s ← parser_read_table_schema n;
    match s with
    | None => mret RET_FAILED
    | Some my_table_schema => on_boot_tables (schema_set_add my_table_schema)
    end) b (λ ret b', ret = RET_SUCCEED ∧ ∃ t, b' = with_tabs t b ∧
      cq_table_set t = cq_table_set (b_tables b) ∧
      tabled t (add_table a kv) (l ++ [tv_pair a]) (tabs ++ [kv])).
Proof using Hmem.
  intros [V B (v & Hv & Rv) Hcols] Hkv Hp.
  destruct (parser_read_table_schema_ok n kv b a Hkv Hp V) as (t & Hr & V' & [= Hs1 Hs2]).
  eapply runs_then_ok; [exact Hr|]. unfold on_boot_tables. apply runs_zoom. cbn [b_tables with_tabs].
  unfold schema_set_add, on_schema_set, runs. mstep. rewrite Hs1, Hv. cbn [static_get mlift].
  pose proof (vector_push_back_runs _ _ (Some (tv_pair a)) Rv) as Hpush. unfold runs in Hpush.
  mstep. destruct (vector_push_back _ v) as [[r|w] v']; cbn; [|by left].
  destruct Hpush as [-> Rv']. split; [done|]. eexists. split_and!; [done|done|]. split.
  - destruct V' as [Vc Vp Vs Vt Vn Vm]. split; try done.
    by apply (trep_frame t); [..|exact (trep_wf _ _ Vc)].
  - by apply built_add.
  - exists v'. by rewrite fmap_app.
  - apply Forall2_app.
    + eapply Forall2_impl; [exact Hcols|]. intros ts kv'. by eapply has_columns_more.
    + constructor; [|done]. exists (tv_schema a), (Pos.succ (tv_schema a)).
      unfold add_table. cbn. rewrite !lookup_insert_eq, lookup_insert_ne, lookup_insert_eq by lia. done.
Qed.

Lemma read_tables_runs children b a l tabs0 tabs :
  tabled (b_tables b) a l tabs0 → tables_of children = Some tabs →
  Forall (λ kv, proper_table kv = true) tabs →
  runs expected (each (λ cur_node,
    if strcmp_eq (xml_name cur_node) (text "table") then
      s ← parser_read_table_schema cur_node;
      match s with
      | None => mret RET_FAILED
      | Some my_table_schema => on_boot_tables (schema_set_add my_table_schema)
      end
    else mret RET_SUCCEED) children) b (λ ret b', ret = RET_SUCCEED ∧ ∃ t a' l',
      b' = with_tabs t b ∧ cq_table_set t = cq_table_set (b_tables b) ∧
      tabled t a' l' (tabs0 ++ tabs)).
Proof using Hmem.
  revert b a l tabs0 tabs. induction children as [|n children IH]; intros b a l tabs0 tabs T Ht Hf.
  { injection Ht as <-. apply runs_ret. split; [done|]. exists (b_tables b), a, l.
    rewrite app_nil_r. by destruct b. }
  unfold tables_of in Ht. rewrite filter_cons in Ht. cbn [each foldr]. fold (is_table n).
  destruct (is_table n) eqn:Hn.
  2: { rewrite decide_False in Ht by done. eapply runs_then_ok; [done|].
       rewrite bool_decide_false by done. by eapply IH. }
  rewrite decide_True in Ht by done. cbn [mapM] in Ht.
  apply bind_Some in Ht as (kv & Hkv & (tabs' & Htabs & [= <-])%bind_Some).
  apply Forall_cons in Hf as [Hp Hf].
  eapply runs_then; [by eapply read_xml_table_runs|].
  intros ret b1 (-> & t & -> & Hset & T1). rewrite bool_decide_false by done.
  eapply runs_weaken; [by eapply (IH (with_tabs t b) _ _ _ tabs' T1)|].
  intros ret b2 (-> & t2 & a2 & l2 & -> & Hset2 & T2). split; [done|]. exists t2, a2, l2.
  split_and!; [done|by rewrite Hset2|by rewrite <- app_assoc in T2].
Qed.

(** *** The whole document *)

Record set_up (d : described) b : Prop := {
  su_servers : named_as (b_cluster b) (servers_of_type WRITE_SERVER (d_servers d))
                 (servers_of_type READ_SERVER (d_servers d));
  su_lists : holds (b_cmds b) (d_lists d);
  su_tables : ∃ a l, tabled (b_tables b) a l (d_tables d);
  su_none : ∃ h, cq_table_set (b_tables b) = SPtr h ∧ small_set h (∅ : gmap (list Z) table_t);
}.

(** What [init_env] has made before it reads the configuration. *)
Definition nothing : described := Described [] [] [].

Lemma section_inv {A} root name (f : list xml_node → option A) x :
  section root name f = Some x →
  ∃ n, find_node name (xml_children root) = Ok (Some n) ∧ f (xml_children n) = Some x.
Proof. unfold section. destruct (find_node _ _) as [[n|]|]; [|done..]. by exists n. Qed.

Lemma proper_described_inv d : proper_described d = true →
  (NoDup (d_servers d) ∧ servers_of_type WRITE_SERVER (d_servers d) ≠ ∅ ∧
   Z.of_nat (length (d_servers d)) < 16000) ∧
  (d_lists d ≠ [] ∧ Forall (λ l, Z.of_nat (length l) ≤ INT_MAX) (d_lists d)) ∧
  d_tables d ≠ [] ∧ Forall (λ kv, proper_table kv = true) (d_tables d).
Proof.
  clear Hmem. unfold proper_described, proper_servers. rewrite !andb_true_iff, !negb_true_iff,
    !bool_decide_eq_false, !forallb_forall, existsb_exists, bool_decide_eq_true, Z.ltb_lt.
  intros [[[[[[Hnd (s & Hs & Hw)] Hl] Hne] Hf] Hne2] Hf2]. split_and!; try done.
  - intros He. assert (s.2 ∈ servers_of_type WRITE_SERVER (d_servers d)) as Hin; [|set_solver].
    apply elem_of_list_to_set, list_elem_of_fmap. exists s. split; [done|].
    apply list_elem_of_filter. apply bool_decide_eq_true in Hw. by apply list_elem_of_In in Hs.
  - apply Forall_forall. intros l Hin. apply Z.leb_le, Hf. by apply list_elem_of_In.
  - apply Forall_forall. intros l Hin. apply Hf2. by apply list_elem_of_In.
Qed.

Lemma read_document_runs xml_root d b :
  describe xml_root = Some d → proper_described d = true → set_up nothing b →
  runs expected (parser_read_xml g_username g_password (Some xml_root)) b (λ ret b',
    ret = RET_SUCCEED ∧ set_up d b').
Proof using Hmem.
  intros Hd ((Hnd & _ & Hlen) & (_ & Hll) & _ & Hft)%proper_described_inv [Us Ul (a & l & Ut) (h & Hh & Sh)].
  unfold describe in Hd. apply bind_Some in Hd as (ss & (sn & Hsn & Hss)%section_inv &
    (ls & (ln & Hln & Hls)%section_inv & (ts & (tn & Htn & Hts)%section_inv & [= <-])%bind_Some)%bind_Some).
  cbn [d_servers d_lists d_tables nothing] in *. unfold parser_read_xml. cbn [each foldr].
  eapply runs_then with (λ ret b1, ret = RET_SUCCEED ∧ rest b1 = rest b ∧
    named_as (b_cluster b1) (servers_of_type WRITE_SERVER ss) (servers_of_type READ_SERVER ss)).
  { unfold parser_read_xml_server. eapply runs_then_ok; [by unfold mlift; rewrite Hsn|].
    cbn. eapply runs_weaken.
    - apply (read_servers_runs false _ ss b ∅ ∅ Hss Hnd); [|exact Us|done..].
      intros s _. case_bool_decide; set_solver.
    - intros ret b' (-> & Hr & C). by rewrite !union_empty_l_L in C. }
  intros ret b1 (-> & [= Hrt Hrc] & C). rewrite bool_decide_false by done.
  eapply runs_then with (λ ret b2, ret = RET_SUCCEED ∧ ∃ s, b2 = with_cmds s b1 ∧ holds s ls).
  { unfold parser_read_xml_cmd. eapply runs_then_ok; [by unfold mlift; rewrite Hln|].
    cbn. apply (read_cmds_runs _ b1 [] ls); [by rewrite Hrc|done|done]. }
  intros ret b2 (-> & s & -> & Hs). rewrite bool_decide_false by done.
  eapply runs_then with (λ ret b3, ret = RET_SUCCEED ∧ set_up (Described ss ls ts) b3);
    [|intros ret b3 [-> Hb3]; by rewrite bool_decide_false by done].
  unfold parser_read_xml_table. eapply runs_then_ok; [by unfold mlift; rewrite Htn|]. cbn.
  eapply runs_weaken.
  - apply (read_tables_runs _ (with_cmds s b1) a l [] ts); [cbn; by rewrite Hrt|done|done].
  - intros ret b3 (-> & t & a' & l' & -> & Hset & T). split; [done|]. split; try done.
    + by exists a', l'.
    + exists h. cbn. split; [|done]. by rewrite Hset, <- Hh, <- Hrt.
Qed.
End reading.

(** ** What the threads rely on *)

Section relied_on.
Context `{Allocator} `{RandSource} `{MysqlClient}.
Implicit Types (b : boot) (e : engine).

Lemma tabled_ok t a l tabs h : tabled t a l tabs → l ≠ [] → cq_table_set t = SPtr h →
  small_set h ∅ → tables_ok (tv_pairs a) ∅ t.
Proof.
  intros [V [Bc Bp Bk Bv Ba Bo [Bn Bl]] (v & Hv & Rv) _] Hl Hh Sh. exists (tv_cols a). split; try done.
  - apply V.
  - intros ts k v' Hp. by rewrite (vw_pairs _ _ V), Hp.
  - intros p cs Hp. by apply (Bc p).
  - by exists h.
  - by exists v, l.
Qed.

Lemma servers_of_type_size type ss : (size (servers_of_type type ss) ≤ length ss)%nat.
Proof.
  unfold servers_of_type. etransitivity; [apply size_list_to_set_le|].
  rewrite length_fmap. apply length_filter.
Qed.

Lemma set_up_data_ok d b e : proper_described d = true → set_up d b →
  shared_data e = (b_tables b, b_cmds b, b_cluster b) →
  ∃ lists pairs wb rb, data_ok (b_cmds b) lists pairs wb rb ∅ e.
Proof.
  intros ((_ & Hw & Hlen) & (Hll & _) & Htl & _)%proper_described_inv
    [(wb & rb & C & Hwb & Hrb) (v & ls & lists & detached & R & Hv & Rv & Hnd & Hls) (a & l & T) (h & Hh & Sh)]
    [= Ht Hc Hb].
  exists lists, (tv_pairs a), wb, rb.
  pose proof (servers_of_type_size WRITE_SERVER (d_servers d)) as Hsw. rewrite <- Hwb, size_dom in Hsw.
  pose proof (servers_of_type_size READ_SERVER (d_servers d)) as Hsr. rewrite <- Hrb, size_dom in Hsr.
  split; rewrite ?Ht, ?Hc, ?Hb; try done.
  - apply (tabled_ok _ a l (d_tables d) h); try done. intros ->.
    destruct (d_tables d); [done|]. pose proof (tb_columns _ _ _ _ T) as Hf. by apply Forall2_nil_cons_inv in Hf.
  - by exists detached.
  - exists v, ls. split_and!; try done.
    + intros ->. destruct (d_lists d); [done|]. by apply Forall2_nil_cons_inv in Hls.
    + intros x Hx. apply list_elem_of_lookup in Hx as [i Hx].
      destruct (Forall2_lookup_l _ _ _ _ _ Hls Hx) as (ts & _ & Hts). by eexists.
  - intros ->. rewrite dom_empty_L in Hwb. done.
  - lia.
Qed.
End relied_on.

(** ** The beginning *)

Section beginning.
Context `{Allocator} `{RandSource} `{MysqlClient}.
Context (Hmem : ∀ n, 0 < n ≤ 1024 → malloc_ok n = true).

Lemma cmd_bucket_init_ok :
  ∃ s, cmd_bucket_init no_commands = (Ok (), s) ∧ holds s [].
Proof using Hmem.
  destruct (vector_alloc_spec (E := option loc)) as (v & Hv & Rv & _); [by apply Hmem..|].
  exists (CmdState empty_heap empty_heap (SPtr v)). split.
  - unfold cmd_bucket_init.
    erewrite bind_ok by (apply pure_state_ok, cq_malloc_ok, Hmem; by vm_compute).
    by erewrite bind_ok by (by apply pure_state_ok).
  - exists v, [], ∅, ∅. split_and!; [exact (crep_bucket no_commands (SPtr v) ∅ ∅ no_commands_rep)|done|done|constructor|done].
Qed.

(** The two sets of the tables. *)
Lemma table_sets_init_ok :
  ∃ t, (schema_set_init;; table_set_init) no_tables = (Ok (), t) ∧
    tabled t no_view [] [] ∧ ∃ h, cq_table_set t = SPtr h ∧ small_set h ∅.
Proof using Hmem.
  destruct (vector_alloc_spec (E := option loc)) as (v & Hv & Rv & _); [by apply Hmem..|].
  destruct (hash_alloc_spec (E := table_t)) as (h & Ha & Hr & Hsz & Hrm); [by apply Hmem..|].
  exists (TableState empty_heap empty_heap empty_heap (SPtr v) (SPtr h)). split_and!.
  - erewrite bind_ok with (a := ()).
    2: { unfold schema_set_init. erewrite bind_ok by (by apply cq_malloc_ok, Hmem).
         by erewrite bind_ok by (by apply pure_state_ok). }
    unfold table_set_init. erewrite bind_ok by (by apply cq_malloc_ok, Hmem).
    by erewrite bind_ok by (by apply pure_state_ok).
  - split; [|apply built_none|by exists v|done].
    pose proof no_tables_view as [Vc Vp Vs Vt Vn Vm]. split; try done.
    by apply (trep_frame no_tables); [..|exact (trep_wf _ _ Vc)].
  - exists h. split; [done|]. split; [done|done|lia].
Qed.
End beginning.

(** ** Reading a configuration *)

Section reading_proper.
Context `{Allocator} `{RandSource} `{MysqlClient}.

(** C27 (a proper configuration). From a document that is [proper] the parser makes the servers, the
    lists of commands and the tables that it describes, and no others: every [write] and [read]
    node a server of its type, every [cmd] node a list of its commands in order, every [table] node
    a schema of its own with the columns of its [key] children and of the other ones, in order.
    With memory for small blocks the parser succeeds, unless the program is ended on the way: it
    aborts, a search in a hash table does not end, or [mysql_init] answers [NULL]. *)
Theorem parser_read_xml_sets_up g_username g_password xml_root d b :
  (∀ n, 0 < n ≤ 1024 → malloc_ok n = true) →
  describe xml_root = Some d → proper_described d = true → set_up nothing b →
  runs expected (parser_read_xml g_username g_password (Some xml_root)) b (λ ret b',
    ret = RET_SUCCEED ∧ set_up d b').
Proof. intros Hmem. by apply read_document_runs. Qed.
End reading_proper.

(** ** Witness *)

Local Existing Instance roomy_allocator.
Local Existing Instance counting_rand.
Local Existing Instance mock_client.

(** One server of each kind, a table with a key and a value, a list with an
    [INSERT]. *)
Definition node (name : string) (props : list (string * string)) (l : list xml_node) : xml_node :=
  XmlNode (text name) (map (λ p, (text p.1, text p.2)) props) l.
Definition configuration : xml_node :=
  node "config" []
    [node "servers" []
       [node "write" [("ip", "10.0.0.1"); ("port", "3306")] [];
        node "read" [("ip", "10.0.0.2"); ("port", "3306")] []];
     node "tables" []
       [node "table" []
          [node "key" [("name", "id"); ("type", "bigint")] [];
           node "value" [("name", "val"); ("type", "varchar"); ("length", "20")] []]];
     node "cmds" [] [node "cmd" [] [node "insert" [] []]]]%string.

Definition configured_as : described :=
  Described [(WRITE_SERVER, text "10.0.0.1:3306"); (READ_SERVER, text "10.0.0.2:3306")]
    [[INSERT]] [([id_column], [val_column])].

Definition booted : boot :=
  Boot _ (Cluster _ no_mock_servers no_mock_servers) ((schema_set_init;; table_set_init) no_tables).2
    (cmd_bucket_init no_commands).2 0 (MockDb 1 []) 0 [].

Lemma booted_set_up : set_up nothing booted.
Proof.
  split.
  - destruct (cq_cluster_init_ok roomy_small) as (c & Hc & C).
    assert (cq_cluster_init () = (Ok (Cluster _ no_mock_servers no_mock_servers), ())) as Hc'
      by (vm_cast_no_check (eq_refl (cq_cluster_init ()))).
    rewrite Hc' in Hc. injection Hc as <-. by exists ∅, ∅.
  - destruct (cmd_bucket_init_ok roomy_small) as (s & Hs & Hh). unfold booted. by rewrite Hs.
  - destruct (table_sets_init_ok roomy_small) as (t & Ht & T & _). exists no_view, [].
    unfold booted. by rewrite Ht.
  - destruct (table_sets_init_ok roomy_small) as (t & Ht & _ & h & Hh). exists h.
    unfold booted. by rewrite Ht.
Qed.

Example parser_read_xml_sets_up_witness :
  ∃ b', parser_read_xml [] [] (Some configuration) booted = (Ok RET_SUCCEED, b') ∧
    set_up configured_as b'.
Proof.
  pose proof (parser_read_xml_sets_up [] [] configuration configured_as booted roomy_small
    eq_refl eq_refl booted_set_up) as Hr.
  assert ((parser_read_xml [] [] (Some configuration) booted).1 = Ok RET_SUCCEED) as Hx
    by (vm_compute; reflexivity).
  destruct (parser_read_xml [] [] (Some configuration) booted) as [r b'] eqn:He.
  cbn [fst] in Hx. subst r. exists b'. split; [done|].
  by destruct (runs_inv _ _ _ _ _ _ Hr He).
Defined.
