(* ===== verification/Generated.v ===== *)
(** * Generated: the lists that a text configuration generates (src/src/parser/parser.c)

    From the window and the rates of a text configuration [parser_gen_cmd_bucket]
    makes [rows] lists of [cols] commands, each a new order of the same ones, which
    [ParserTxt.in_proportion] relates to the rates; they join the bucket that
    [System] works with.  One column, or rates that do not fill the window, end in
    a fault. *)

From stdpp Require Import base gmap sets list strings.
From Stdlib Require Import ZArith Lia.
From Stdlib Require Import Floats.SpecFloat.
From S2P Require Import Prelude Outcomes Mylib Vector Hash Heap CText Names Command Table Schemas.
From S2P Require Import Server EngineCtx SqlGen MysqlCmd Safety Engine Turns Verify ParserXml ParserTxt System Config.
Local Open Scope Z_scope.

Section generated.
Context `{Allocator} `{RandSource} `{RandSeed} `{Clock} `{MysqlClient}.
Context (Hmem : ∀ n, 0 < n ≤ 1024 → malloc_ok n = true).
Implicit Types (b : boot) (types : list cmd_type_t).

(** The array of the types. *)
Definition array_of_types types : buffer Z := array_of (cmd_code <$> types).

Lemma permuted_codes codes types : codes ≡ₚ cmd_code <$> types →
  ∃ types', codes = cmd_code <$> types' ∧ types' ≡ₚ types.
Proof.
  intros Hp. destruct (Permutation_map_inv _ _ Hp) as (types' & -> & Hp').
  by exists types'.
Qed.

Lemma last_codes types types' : last (cmd_code <$> types') = last (cmd_code <$> types) →
  last types' = last types.
Proof.
  rewrite !fmap_last. destruct (last types'), (last types); cbn; try done.
  intros [= ?%cmd_code_inj]. congruence.
Qed.

(** What [parser_shuffle_cmds] leaves alone. *)
Lemma shuffle_cmds_ok types b : (2 ≤ length types)%nat →
  ∃ types' b', parser_shuffle_cmds (Z.of_nat (length types)) (array_of_types types) b =
      (Ok (array_of_types types'), b') ∧
    types' ≡ₚ types ∧ last types' = last types ∧ b_cmds b' = b_cmds b.
Proof.
  intros Hl. unfold parser_shuffle_cmds, array_of_types. mstep.
  set (b1 := Boot _ _ _ _ _ _ _ _).
  destruct (shuffle_ok shuffle_time (cmd_code <$> types) (b_rand b1)) as (codes & Hs & Hp & Hlast);
    [by rewrite length_fmap|]. rewrite length_fmap in Hs.
  destruct (permuted_codes _ _ Hp) as (types' & -> & Hp').
  eexists types', _. split; [unfold on_boot_rand; by erewrite zoom_ok by exact Hs|].
  split_and!; [done|by apply last_codes|done].
Qed.

(** One command more. *)
Lemma gen_cmd_ok types (arr : buffer Z) b s lists detached (l : loc) (i : nat) t :
  crep s lists detached → lists !! l = Some (take i types) → types !! i = Some t →
  arr_read arr (Z.of_nat i) = Ok (cmd_code t) →
  Z.of_nat (length types) ≤ INT_MAX → malloc_ok 24 = true →
  ∃ s', gen_cmd arr (Some l) (Z.of_nat i) (with_cmds s b) = (Ok (), with_cmds s' b) ∧
    crep s' (<[l := take (S i) types]> lists) detached ∧ cq_cmd_bucket s' = cq_cmd_bucket s.
Proof.
  intros R Hl Hit Hread Hlen Hm. unfold gen_cmd.
  erewrite bind_ok by (unfold mlift; rewrite Hread; reflexivity). rewrite cmd_of_code_of.
  destruct (add_command (with_cmds s b) lists detached l (take i types) t R Hl)
    as (s' & Ha & R' & Hb'); [|done|].
  { rewrite length_take. apply lookup_lt_Some in Hit. lia. }
  exists s'. split_and!; [|by rewrite (take_S_r _ _ _ Hit)|done].
  rewrite <- bind_assoc. by erewrite bind_ok by exact Ha.
Qed.

(** The commands [types] that an array begins with are added to an empty list. *)
Lemma gen_cmds_ok types (arr : buffer Z) b s lists detached (l : loc) :
  (∀ i t, types !! i = Some t → arr_read arr (Z.of_nat i) = Ok (cmd_code t)) →
  crep s (<[l := []]> lists) detached → Z.of_nat (length types) ≤ INT_MAX → malloc_ok 24 = true →
  ∃ s', mfor (Z.of_nat (length types)) (gen_cmd arr (Some l)) (with_cmds s b) =
      (Ok (), with_cmds s' b) ∧
    crep s' (<[l := types]> lists) detached ∧ cq_cmd_bucket s' = cq_cmd_bucket s.
Proof.
  intros Hread R Hlen Hm24.
  destruct (mfor_inv types (gen_cmd arr (Some l)) (λ i b', ∃ s',
    b' = with_cmds s' b ∧ crep s' (<[l := take i types]> lists) detached ∧
    cq_cmd_bucket s' = cq_cmd_bucket s) (with_cmds s b)) as (b2 & Hloop & s2 & -> & R2 & Hb2).
  - intros i t b1 Hit (s1 & -> & Rs & Hbs).
    destruct (gen_cmd_ok types arr b s1 _ detached l i t Rs) as (s' & Hg & R' & Hb');
      [by rewrite lookup_insert_eq|done|by apply Hread|done..|].
    exists (with_cmds s' b). split; [exact Hg|]. exists s'. rewrite insert_insert_eq in R'.
    split_and!; [done|done|congruence].
  - by exists s.
  - rewrite firstn_all in R2. by exists s2.
Qed.

(** One list, of the types of the array. *)
Lemma gen_cmd_list_runs types b tss :
  holds (b_cmds b) tss → Z.of_nat (length types) ≤ INT_MAX →
  runs expected (gen_cmd_list (Z.of_nat (length types)) (array_of_types types)) b
    (λ _ b', ∃ s, b' = with_cmds s b ∧ holds s (tss ++ [types])).
Proof using Hmem.
  intros (v & ls & lists & detached & R & Hv & Rv & Hnd & Hls) Hlen. unfold gen_cmd_list.
  assert (malloc_ok 24 = true) as Hm24 by (apply Hmem; lia).
  destruct (cmd_list_init_spec _ _ _ R Hm24) as (l & s1 & Hi & Hl & R1).
  pose proof (keeps_cmd_list_init (b_cmds b)) as Hk. rewrite Hi in Hk. cbn [snd] in Hk.
  eapply runs_then_ok; [apply on_boot_cmds_ok; exact Hi|].
  destruct (gen_cmds_ok types (array_of_types types) b s1 lists detached l) as (s2 & Hloop & R2 & Hb2);
    [|done..|].
  { intros i t Hit. apply read_array. by rewrite list_lookup_fmap, Hit. }
  eapply runs_then_ok; [exact Hloop|].
  eapply runs_then; [apply (bucket_takes_list b s2 v ls tss lists detached l types); congruence|].
  intros ret b3 [_ Hb3]. exact Hb3.
Qed.

(** A list made of [types]: their order is new, but for the last. *)
Definition shuffled types (ts : list cmd_type_t) : Prop := ts ≡ₚ types ∧ last ts = last types.

Lemma shuffled_trans types ts ts' : shuffled types ts → shuffled ts ts' → shuffled types ts'.
Proof. intros [H1' L1] [H2' L2]. split; [by etrans|congruence]. Qed.

Lemma gen_cmd_lists_runs (rows : nat) types b tss0 :
  holds (b_cmds b) tss0 → (2 ≤ length types)%nat → Z.of_nat (length types) ≤ INT_MAX →
  runs expected (gen_cmd_lists rows (Z.of_nat (length types)) (array_of_types types)) b
    (λ _ b', ∃ tss, holds (b_cmds b') (tss0 ++ tss) ∧ length tss = rows ∧
       Forall (shuffled types) tss).
Proof using Hmem.
  revert types b tss0. induction rows as [|rows IH]; intros types b tss0 Hh Hl Hmax.
  { cbn. exists []. by rewrite app_nil_r. }
  cbn [gen_cmd_lists].
  destruct (shuffle_cmds_ok types b Hl) as (types' & b1 & Hs & Hp & Hlast & Hb1).
  eapply runs_then_ok; [exact Hs|].
  assert (length types' = length types) as Hlen by (by rewrite Hp). rewrite <- Hlen in *.
  rewrite <- Hb1 in Hh.
  eapply runs_then; [by apply gen_cmd_list_runs|]. intros [] b2 (s & -> & Hh2).
  eapply runs_weaken; [by apply (IH types')|]. intros [] b3 (tss & Hh3 & <- & Hf).
  exists (types' :: tss). rewrite <- app_assoc in Hh3. split_and!; [done|done|].
  constructor; [done|]. eapply Forall_impl; [exact Hf|].
  intros ts. apply shuffled_trans. done.
Qed.

(** An array of [n] cells whose last one is unset, the others being unset or codes. *)
Definition unfinished (n : nat) (cells : list (option Z)) : Prop :=
  length cells = n ∧ last cells = Some None ∧
  ∀ z, Some z ∈ cells → is_Some (cmd_of_code z).

(** Of two different cells one can be unset. *)
Lemma xor_swap_unset (cells : list (option Z)) (i j : nat) :
  (i < length cells)%nat → (j < length cells)%nat → cells !! i = Some None ∨ cells !! j = Some None →
  xor_swap (Live cells) (Z.of_nat i) (Z.of_nat j) = Stop (Undefined Uninitialized).
Proof.
  intros Hi Hj Hu. unfold xor_swap, xor_cell, arr_read. rewrite !Nat2Z.id.
  rewrite !(proj2 (Z.ltb_ge _ 0)) by lia.
  destruct (lookup_lt_is_Some_2 _ _ Hi) as [[x|] Hx], (lookup_lt_is_Some_2 _ _ Hj) as [[y|] Hy];
    rewrite Hx, Hy in *; try done. by destruct Hu.
Qed.

Lemma shuffle_step_unfinished n cells k : (2 ≤ n)%nat → unfinished n cells →
  runs (λ w, w = Undefined Uninitialized) (shuffle_step (Z.of_nat n) (Live cells)) k
    (λ arr _, ∃ cells', arr = Live cells' ∧ unfinished n cells').
Proof.
  intros Hn (<- & Hlast & Hcodes). unfold shuffle_step.
  eapply runs_then_ok; [apply rand_rem_ok; lia|]. eapply runs_then_ok; [apply rand_rem_ok; lia|].
  set (m := Z.of_nat (length cells) - 1).
  pose proof (Z.mod_pos_bound (rand_at k) m ltac:(lia)) as Hi.
  pose proof (Z.mod_pos_bound (rand_at (S k)) m ltac:(lia)) as Hj.
  destruct (Z.eqb_spec (rand_at k mod m) (rand_at (S k) mod m)) as [He|Hne].
  { apply runs_ret. by exists cells. }
  rewrite <- (Z2Nat.id (rand_at k mod m)), <- (Z2Nat.id (rand_at (S k) mod m)) in * by lia.
  set (i := Z.to_nat (rand_at k mod m)) in *. set (j := Z.to_nat (rand_at (S k) mod m)) in *.
  assert (i ≠ j ∧ i < length cells - 1 ∧ j < length cells - 1)%nat as (Hij & Hil & Hjl) by lia.
  clearbody i j. clear Hne Hi Hj m. unfold runs, mlift.
  destruct (lookup_lt_is_Some_2 cells i) as [[x|] Hx]; [lia| |].
  2: { rewrite xor_swap_unset by (lia || by left). done. }
  destruct (lookup_lt_is_Some_2 cells j) as [[y|] Hy]; [lia| |].
  2: { rewrite xor_swap_unset by (lia || by right). done. }
  rewrite (xor_swap_cells _ _ _ x y) by done. eexists. split; [done|]. split_and!.
  - by rewrite !length_insert.
  - rewrite last_lookup, !length_insert, !list_lookup_insert_ne by lia. by rewrite <- last_lookup.
  - intros z Hz. apply Hcodes.
    rewrite (Permutation_insert_swap cells j i (Some y) (Some x)) in Hz by done. done.
Qed.

Lemma shuffle_unfinished times n cells k : (2 ≤ n)%nat → unfinished n cells →
  runs (λ w, w = Undefined Uninitialized) (shuffle times (Z.of_nat n) (Live cells)) k
    (λ arr _, ∃ cells', arr = Live cells' ∧ unfinished n cells').
Proof.
  intros Hn. revert cells k. induction times as [|times IH]; intros cells k Hc; cbn [shuffle].
  { apply runs_ret. by exists cells. }
  eapply runs_then; [by apply shuffle_step_unfinished|]. intros arr k' (cells' & -> & Hc').
  by apply IH.
Qed.

Lemma code_of z t : cmd_of_code z = Some t → z = cmd_code t.
Proof.
  unfold cmd_of_code. intros Ht. repeat (case_match; [simplify_eq; cbn; lia|]). done.
Qed.

(** Before the first unset cell there are commands. *)
Lemma unfinished_prefix n cells : unfinished n cells →
  ∃ types rest, cells = (Some <$> (cmd_code <$> types)) ++ None :: rest.
Proof.
  intros (_ & Hlast & Hcodes). apply last_Some_elem_of in Hlast. revert Hlast Hcodes.
  induction cells as [|[z|] cells IH]; intros Hin Hcodes.
  - by apply not_elem_of_nil in Hin.
  - apply elem_of_cons in Hin as [?|Hin]; [done|].
    destruct (Hcodes z) as [t ->%code_of]; [by left|].
    destruct IH as (types & rest & ->); [done|intros z' Hz'; apply Hcodes; by right|].
    by exists (t :: types), rest.
  - by exists [], cells.
Qed.

Lemma mfor_from_app {S} (n m : nat) i (body : Z → M S ()) s :
  mfor_from (n + m) i body s = (mfor_from n i body;; mfor_from m (i + Z.of_nat n) body) s.
Proof.
  revert i s. induction n as [|n IH]; intros i s; cbn [Nat.add mfor_from].
  - by rewrite Z.add_0_r.
  - rewrite bind_assoc. apply bind_ext. intros [] s'.
    rewrite IH. by replace (i + 1 + Z.of_nat n) with (i + Z.of_nat (Datatypes.S n)) by lia.
Qed.

(** A list cannot be made of an array that is not full. *)
Lemma gen_cmd_list_unset n cells b tss :
  holds (b_cmds b) tss → unfinished n cells → Z.of_nat n ≤ INT_MAX →
  runs (λ w, w = Undefined Uninitialized) (gen_cmd_list (Z.of_nat n) (Live cells)) b (λ _ _, False).
Proof using Hmem.
  intros (v & ls & lists & detached & R & Hv & Rv & Hnd & Hls) Hc Hlen. unfold gen_cmd_list.
  destruct (unfinished_prefix n cells Hc) as (types & rest & ->). destruct Hc as (<- & _ & _).
  rewrite length_app, !length_fmap in *. cbn [length] in *.
  assert (malloc_ok 24 = true) as Hm24 by (apply Hmem; lia).
  destruct (cmd_list_init_spec _ _ _ R Hm24) as (l & s1 & Hi & Hl & R1).
  eapply runs_then_ok; [apply on_boot_cmds_ok; exact Hi|].
  destruct (gen_cmds_ok types (Live ((Some <$> (cmd_code <$> types)) ++ None :: rest)) b s1 lists
    detached l) as (s2 & Hloop & _); [|done|lia|done|].
  { intros i t Hit. apply read_cell. rewrite lookup_app_l
      by (rewrite !length_fmap; by eapply lookup_lt_Some). by rewrite !list_lookup_fmap, Hit. }
  set (arr := Live _) in *.
  assert (arr_read arr (Z.of_nat (length types)) = Stop (Undefined Uninitialized)) as Hread.
  { unfold arr_read, arr. rewrite (proj2 (Z.ltb_ge _ 0)), Nat2Z.id by lia.
    by rewrite lookup_app_r, !length_fmap, Nat.sub_diag by (rewrite !length_fmap; lia). }
  assert (mfor (Z.of_nat (length types + S (length rest))) (gen_cmd arr (Some l)) (with_cmds s1 b) =
    (Stop (Undefined Uninitialized), with_cmds s2 b)) as Hstop.
  { unfold mfor in *. rewrite Nat2Z.id in *. rewrite mfor_from_app. erewrite bind_ok by exact Hloop.
    cbn [mfor_from]. rewrite Z.add_0_l. apply bind_stop. unfold gen_cmd. apply bind_stop.
    unfold mlift. by rewrite Hread. }
  unfold runs. by erewrite bind_stop by exact Hstop.
Qed.
(** Memory for the array of the types, and the array. *)
Lemma gen_bucket_runs E rows cols rate b (Q : ret_t → boot → Prop) : E Aborted →
  match gen_cmd_array cols rate with
  | Ok arr => runs E (gen_cmd_lists (Z.to_nat rows) cols arr) b (λ _, Q RET_SUCCEED)
  | Stop w => E w
  end → runs E (parser_gen_cmd_bucket rows cols rate) b Q.
Proof.
  intros Ha Hg. unfold parser_gen_cmd_bucket. eapply runs_then with (λ _ b', b' = b).
  { apply runs_pure_state. unfold cq_malloc, runs. by destruct (malloc_ok _). }
  intros [] b1 ->. destruct (gen_cmd_array cols rate) as [arr|w]; [|done].
  eapply runs_then_ok; [done|]. eapply runs_then; [exact Hg|]. by intros [] b2.
Qed.

(** With one column the first shuffle divides by zero. *)
Lemma one_column_stops (rows : nat) (arr : buffer Z) b : (0 < rows)%nat →
  runs (λ w, w = Undefined DivByZero) (gen_cmd_lists rows 1 arr) b (λ _ _, False).
Proof.
  intros Hr. destruct rows as [|rows]; [lia|]. cbn [gen_cmd_lists].
  eapply runs_then with (λ _ _, False); [|done]. done.
Qed.

Lemma unset_stops (rows : nat) n cells b tss : (0 < rows)%nat → (2 ≤ n)%nat → Z.of_nat n ≤ INT_MAX →
  holds (b_cmds b) tss → unfinished n cells →
  runs (λ w, w = Undefined Uninitialized) (gen_cmd_lists rows (Z.of_nat n) (Live cells)) b
    (λ _ _, False).
Proof using Hmem.
  intros Hr Hn Hmax Hh Hc. destruct rows as [|rows]; [lia|]. cbn [gen_cmd_lists].
  eapply runs_then with (λ arr b', b_cmds b' = b_cmds b ∧ ∃ cells', arr = Live cells' ∧ unfinished n cells').
  { unfold parser_shuffle_cmds. apply runs_gets. apply runs_bind, runs_modify.
    unfold on_boot_rand. apply runs_zoom.
    eapply runs_weaken; [by apply shuffle_unfinished|]. by intros arr k. }
  intros arr b' (Hb & cells' & -> & Hc'). rewrite <- Hb in Hh.
  eapply runs_then; [by eapply gen_cmd_list_unset|]. by intros [] b2.
Qed.

Lemma array_with_full types : array_with (Z.of_nat (length types)) types = array_of_types types.
Proof. unfold array_with. by rewrite Nat2Z.id, Nat.sub_diag, app_nil_r. Qed.

Lemma array_with_unset cols types : Z.of_nat (length types) < cols →
  ∃ cells, array_with cols types = Live cells ∧ unfinished (Z.to_nat cols) cells.
Proof.
  intros Hl. eexists. split; [done|]. split_and!.
  - rewrite length_app, !length_fmap, length_replicate. lia.
  - replace (Z.to_nat cols - length types)%nat with (Z.to_nat cols - length types - 1 + 1)%nat by lia.
    rewrite replicate_add. cbn [replicate]. by rewrite app_assoc, last_snoc.
  - intros z [Hz|Hz]%elem_of_app.
    + apply list_elem_of_fmap in Hz as (z' & [= ->] & Hz). apply list_elem_of_fmap in Hz as (t & -> & _).
      by rewrite cmd_of_code_of.
    + by apply elem_of_replicate in Hz as [? _].
Qed.

(** C36 (generation). For a window of [rows] and [cols] of at least two, and rates whose
    commands fill the columns exactly, [parser_gen_cmd_bucket] adds [rows] lists to the bucket,
    each with exactly the commands that the rates stand for, in an order of its own but for the
    last, which is always the same; or it aborts for want of memory.  [in_proportion] says which
    commands these are: of each kind [(int) (rate[i] * cols)], and then as many as it takes for
    the share of all the commands so far to come up to the sum of the rates so far.
    Nothing in the program ensures the conditions, and if there is a row to fill it faults without
    them: with one column it divides by zero; when the commands leave a column it uses a cell that was
    never set; when the rates stand for no commands that fit, a rate is missing, no
    [int], or leads past the end of the array. *)
Theorem parser_gen_cmd_bucket_fills rows cols rate b tss0 :
  0 < cols ≤ INT_MAX → length rate = 4%nat → holds (b_cmds b) tss0 →
  let gen := parser_gen_cmd_bucket rows cols rate in
  (∀ types, in_proportion cols rate types →
     (2 ≤ cols → Z.of_nat (length types) = cols →
        runs expected gen b (λ ret b', ret = RET_SUCCEED ∧
          ∃ tss, holds (b_cmds b') (tss0 ++ tss) ∧ length tss = Z.to_nat rows ∧
            Forall (shuffled types) tss)) ∧
     (0 < rows → cols = 1 →
        runs (λ w, w = Aborted ∨ w = Undefined DivByZero) gen b (λ _ _, False)) ∧
     (0 < rows → 2 ≤ cols → Z.of_nat (length types) < cols →
        runs (λ w, w = Aborted ∨ w = Undefined Uninitialized) gen b (λ _ _, False))) ∧
  ((∀ types, ¬ in_proportion cols rate types) →
     runs (λ w, w = Aborted ∨ gen_fault w) gen b (λ _ _, False)).
Proof using Hmem.
  intros Hcols Hr Hh gen. pose proof (gen_cmd_array_iff cols rate) as Hiff. split.
  - intros types [Hg Hl]%Hiff; [|lia|done]. split_and!.
    + intros Hc2 Hfull. apply gen_bucket_runs; [by left|]. rewrite Hg. subst cols.
      rewrite array_with_full. eapply runs_weaken; [by apply gen_cmd_lists_runs; [|lia|lia]|].
      intros [] b2 (tss & Hh2 & Hn & Hf). split; [done|]. by exists tss.
    + intros Hrows ->. apply gen_bucket_runs; [by left|]. rewrite Hg.
      eapply runs_expect; [apply one_column_stops; lia|]. intros w ->. by right.
    + intros Hrows Hc2 Hlt. apply gen_bucket_runs; [by left|]. rewrite Hg.
      destruct (array_with_unset cols types Hlt) as (cells & -> & Hc).
      eapply runs_expect; [rewrite <- (Z2Nat.id cols) by lia; by eapply unset_stops; [lia|lia|lia|..]|].
      intros w ->. by right.
  - intros Hno. apply gen_bucket_runs; [by left|].
    pose proof (gen_cmd_array_spec cols rate ltac:(lia) Hr) as Hs.
    destruct (gen_cmd_array cols rate) as [arr|w].
    + destruct Hs as (types & Hp & _). by destruct (Hno types).
    + right. by destruct Hs.
Qed.
End generated.

(** ** Witness *)

Local Existing Instance roomy_allocator.
Local Existing Instance counting_rand.
Local Existing Instance ticking.
Local Existing Instance mock_client.
#[local] Instance given_seed : RandSeed := {| srand_at z := Z.to_nat (z mod 1000) |}.

Definition two_of_each : list cmd_type_t :=
  [INSERT; INSERT; DELETE; DELETE; UPDATE; UPDATE; SELECT; SELECT].

(** Rates that [verify_rate] accepts: a tenth of each kind, which leaves four of eight columns;
    and halves with a little more, which does not fit. *)
Definition tenth : list (option spec_float) := replicate 4 (scan_double (text "0.1")).
Definition halves : list (option spec_float) :=
  [scan_double (text "0.5"); scan_double (text "0.5"); scan_double (text "0.005"); Some dzero].
Definition one_of_each : list cmd_type_t := [INSERT; DELETE; UPDATE; SELECT].

Lemma accepted_rates : verify_rate quarter = Ok RET_SUCCEED ∧ verify_rate tenth = Ok RET_SUCCEED ∧
  verify_rate halves = Ok RET_SUCCEED.
Proof. vm_compute. done. Qed.

Lemma rates_proportion : in_proportion 8 quarter two_of_each ∧ in_proportion 8 tenth one_of_each ∧
  in_proportion 1 tenth [INSERT].
Proof.
  split_and!; (apply gen_cmd_array_iff; [unfold INT_MAX; lia|done|]);
    (split; [by vm_compute|cbn; lia]).
Qed.

Lemma halves_do_not_fit types : ¬ in_proportion 8 halves types.
Proof.
  intros [Hg _]%gen_cmd_array_iff; [|unfold INT_MAX; lia|done].
  assert (gen_cmd_array 8 halves = Stop (Undefined OutOfBounds)) as Hs by (vm_compute; reflexivity).
  congruence.
Qed.

Example parser_gen_cmd_bucket_fills_witness :
  (∃ b' tss, parser_gen_cmd_bucket 3 8 quarter booted = (Ok RET_SUCCEED, b') ∧
    holds (b_cmds b') tss ∧ length tss = 3%nat ∧ Forall (shuffled two_of_each) tss) ∧
  runs (λ w, w = Aborted ∨ w = Undefined DivByZero)
    (parser_gen_cmd_bucket 3 1 tenth) booted (λ _ _, False) ∧
  runs (λ w, w = Aborted ∨ w = Undefined Uninitialized)
    (parser_gen_cmd_bucket 3 8 tenth) booted (λ _ _, False) ∧
  runs (λ w, w = Aborted ∨ gen_fault w)
    (parser_gen_cmd_bucket 3 8 halves) booted (λ _ _, False).
Proof.
  destruct rates_proportion as (Pq & Pt & P1).
  assert (0 < 8 ≤ INT_MAX) as H8 by (unfold INT_MAX; lia).
  assert (0 < 1 ≤ INT_MAX) as H1 by (unfold INT_MAX; lia).
  pose proof (su_lists _ _ booted_set_up) as Hb. split; [|split; [|split]].
  - pose proof (proj1 (proj1 (parser_gen_cmd_bucket_fills roomy_small 3 8 quarter booted [] H8 eq_refl Hb)
      two_of_each Pq) ltac:(lia) eq_refl) as Hr.
    assert ((parser_gen_cmd_bucket 3 8 quarter booted).1 = Ok RET_SUCCEED) as Hx
      by (vm_compute; reflexivity).
    destruct (parser_gen_cmd_bucket 3 8 quarter booted) as [r b'] eqn:He.
    cbn [fst] in Hx. subst r.
    destruct (runs_inv _ _ _ _ _ _ Hr He) as (_ & tss & Hh & Hn & Hf). exists b', tss.
    split; [reflexivity|]. split; [exact Hh|]. split; [exact Hn|exact Hf].
  - exact (proj1 (proj2 (proj1 (parser_gen_cmd_bucket_fills roomy_small 3 1 tenth booted [] H1 eq_refl Hb)
      [INSERT] P1)) ltac:(lia) eq_refl).
  - refine (proj2 (proj2 (proj1 (parser_gen_cmd_bucket_fills roomy_small 3 8 tenth booted [] H8 eq_refl Hb)
      one_of_each Pt)) _ _ _); cbn; lia.
  - exact (proj2 (parser_gen_cmd_bucket_fills roomy_small 3 8 halves booted [] H8 eq_refl Hb)
      halves_do_not_fit).
Defined.
