(* ===== verification/Program.v ===== *)
(** * Program: options, start and end of the program
    (src/src/engine/checkQ.c, src/src/mylib/options_impl.h)

    [getopt] is not part of the program: the options are parsed from the list of
  its answers.  [main] reads the options and the configuration, lets the
    threads of [System] run until they are joined, and prints the totals. *)

From stdpp Require Import base gmap list strings relations.
From Stdlib Require Import ZArith Lia.
From S2P Require Import Prelude Outcomes Mylib Vector Hash Heap CText Names Command.
From S2P Require Import Table Server EngineCtx MysqlCmd Engine Threads System Verify ParserXml ParserTxt Config.
Local Open Scope Z_scope.

(** ** Options *)

Record options_t := Options {
  o_help : bool;
  o_config : option cstring;
  o_end_time : Z;
  o_thread_num : Z;
  o_stats_intval : Z;
  o_alter_intval : Z;
  o_username : option cstring;
  o_password : option cstring;
}.

Definition default_options : options_t :=
  Options false None 600 0 10 600 (Some (text "admin")) (Some (text "admin")).

(** The letters [h], [c], [e], [t], [i], [a], [u] and [p], and which of them are
    required. *)
Definition option_table : list (Z * bool) :=
  [(104, false); (99, true); (101, true); (116, true); (105, true); (97, false); (117, true);
   (112, true)].

Section options.
Context `{Allocator}.
Implicit Types (o : options_t) (optarg : cstring).

(** The case of a letter: [None] for the default case. *)
Definition option_handle o (opt : Z) optarg : option (res options_t) :=
  let '(Options h c e t i a u p) := o in
  if opt =? 104 then Some (Ok (Options (negb h) c e t i a u p))
  else if opt =? 99 then Some (Ok (Options h (strdup optarg) e t i a u p))
  else if opt =? 101 then Some (z ← atoi optarg; Ok (Options h c z t i a u p))
  else if opt =? 116 then Some (z ← atoi optarg; Ok (Options h c e z i a u p))
  else if opt =? 105 then Some (z ← atoi optarg; Ok (Options h c e t z a u p))
  else if opt =? 97 then Some (z ← atoi optarg; Ok (Options h c e t i z u p))
  else if opt =? 117 then Some (Ok (Options h c e t i a (strdup optarg) p))
  else if opt =? 112 then Some (Ok (Options h c e t i a u (strdup optarg)))
  else None.

(** The loop over the answers of [getopt], with the letters seen. *)
Fixpoint options_loop (answers : list (Z * cstring)) o (seen : list Z) : res (options_t * list Z) :=
  match answers with
  | [] => Ok (o, seen)
  | (opt, optarg) :: answers =>
      match option_handle o opt optarg with
      | None => Stop (Exited 1)
      | Some r => o ← r; options_loop answers o (opt :: seen)
      end
  end.

Definition missing (seen : list Z) : bool :=
  existsb (λ '(opt, required), required && negb (bool_decide (opt ∈ seen))) option_table.

Definition options_parse (answers : list (Z * cstring)) : res options_t :=
  '(o, seen) ← options_loop answers default_options [];
  if o_help o then Stop (Exited 0)
  else if missing seen then Stop (Exited 1)
  else Ok o.
End options.

(** ** The start *)

(** [strncpy(global, s, strlen(s))] into an array of 20 zero bytes.  A name of 20
    bytes or more leaves no NUL in it, or runs past its end. *)
Definition copy_name (s : option cstring) : res cstring :=
  match s with
  | None => Stop (Undefined NullDeref)
  | Some s => if 20 <=? Z.of_nat (length s) then Stop (Undefined OutOfBounds) else Ok s
  end.

Section program.
Context `{Allocator} `{RandSource} `{RandSeed} `{Clock} `{MysqlClient} `{Regex}.
Context (fs : file_system).
(** [mysql_library_init] answers 0, and [pthread_create] for each thread. *)
Context (library_ok : bool) (created : nat → bool).

Definition set_base (c : cq_server_cluster_t) : M boot () :=
  mmodify (λ b, Boot _ c (b_tables b) (b_cmds b) (b_rand b) (b_db b) (b_now b) (b_file b)).

(** [g_end_time], [g_engine_thread_num] and the intervals are the options'. *)
Definition init_env (o : options_t) : M boot (cstring * cstring) :=
  k ← mgets b_now;
  mmodify (λ b, Boot _ (b_cluster b) (b_tables b) (b_cmds b)
                  (srand_at (i32 (tv_sec (clock_at k)))) (b_db b) (S k) (b_file b));;
  g_username ← mlift (copy_name (o_username o));
  g_password ← mlift (copy_name (o_password o));
  if negb library_ok then mstop (Exited 1) else
  cl ← pure_state cq_cluster_init;
  set_base cl;;
  on_boot_cmds cmd_bucket_init;;
  on_boot_tables schema_set_init;;
  on_boot_tables table_set_init;;
  match o_config o with
  | None => mstop (Exited 2)
  | Some config => parser_read_file g_username g_password fs config
  end;;
  mret (g_username, g_password).

(** The total and the requests per second. *)
Definition summary (total_request g_end_time : Z) : res (Z * Z) :=
  if g_end_time =? 0 then Stop (Undefined DivByZero)
  else Ok (total_request, Z.quot total_request g_end_time).

Definition clean_env : M boot () :=
  zoom (λ b, (b_cluster b, b_db b))
    (λ s b, Boot _ s.1 (b_tables b) (b_cmds b) (b_rand b) s.2 (b_now b) (b_file b))
    cq_cluster_destroy;;
  on_boot_cmds cmd_bucket_destroy;;
  on_boot_tables schema_set_destroy;;
  on_boot_tables table_set_destroy;;
  mret ().

(** What [init_env] has set up, as the threads find it; the static seeds are 0 and
    the context is nobody's. *)
Definition engine_of (b : boot) : engine :=
  Engine _ (World _ (empty_ctx (b_cluster b) 0) (b_tables b) 0 (b_rand b) (b_db b) zero_stats
              (b_now b) []) (b_cmds b) 0 (b_cluster b).

(** What the threads leave. *)
Definition boot_of (e : engine) (b : boot) : boot :=
  Boot _ (cluster_base e) (w_tables (e_world e)) (e_cmds e) (w_rand (e_world e))
    (w_db (e_world e)) (w_now (e_world e)) (b_file b).

(** A run of [main]: what it prints, or how it stops.  The threads are those of
    [System], with the options' numbers. *)
Context (table_tid alter_tid : Z).

Definition started (o : options_t) (b1 : boot) : system :=
  start_system (o_thread_num o) (tv_sec (clock_at (b_now b1))) (engine_of b1).
Definition thread_step (o : options_t) (names : cstring * cstring) :=
  step names.1 names.2 (o_end_time o) (o_alter_intval o) (o_stats_intval o) table_tid alter_tid.
Definition threads_go_on (o : options_t) (names : cstring * cstring) :=
  goes_on names.1 names.2 (o_end_time o) (o_alter_intval o) (o_stats_intval o) table_tid alter_tid.

(** The threads have been created, and have brought the program to [s]. *)
Definition at_work (answers : list (Z * cstring)) (b : boot) (o : options_t)
    (names : cstring * cstring) (b1 : boot) (s : system) : Prop :=
  options_parse answers = Ok o ∧ init_env o b = (Ok names, b1) ∧
  (∃ s0, create_threads created (o_thread_num o) (tv_sec (clock_at (b_now b1))) = Ok s0) ∧
  rtc (threads_go_on o names) (started o b1) s.

Inductive main (answers : list (Z * cstring)) (b : boot) : res (Z * Z) → Prop :=
  | main_options w : options_parse answers = Stop w → main answers b (Stop w)
  | main_init o w b1 :
      options_parse answers = Ok o → init_env o b = (Stop w, b1) → main answers b (Stop w)
  | main_create o names b1 w :
      options_parse answers = Ok o → init_env o b = (Ok names, b1) →
      create_threads created (o_thread_num o) (tv_sec (clock_at (b_now b1))) = Stop w →
      main answers b (Stop w)
  | main_threads o names b1 s w :
      at_work answers b o names b1 s → thread_step o names s (inr w) → main answers b (Stop w)
  | main_summary o names b1 s w :
      at_work answers b o names b1 s → all_joined s = true →
      summary (total_request (ctl s)) (o_end_time o) = Stop w → main answers b (Stop w)
  | main_end o names b1 s r x b2 :
      at_work answers b o names b1 s → all_joined s = true →
      summary (total_request (ctl s)) (o_end_time o) = Ok r →
      clean_env (boot_of (data s) b1) = (x, b2) →
      main answers b (match x with Ok _ => Ok r | Stop w => Stop w end).
End program.

(** ** Runs of the program that can be computed *)

Section runs.
Context `{Allocator} `{RandSource} `{RandSeed} `{Clock} `{MysqlClient} `{Regex}.
Context (fs : file_system) (library_ok : bool) (created : nat → bool) (table_tid alter_tid : Z).
Notation main := (main fs library_ok created table_tid alter_tid).

(** [main] with the threads scheduled as the list says; [None] when they have not
    been joined at its end. *)
Definition main_exec (l : list who) (answers : list (Z * cstring)) (b : boot)
    : option (res (Z * Z)) :=
  match options_parse answers with
  | Stop w => Some (Stop w)
  | Ok o =>
      match init_env fs library_ok o b with
      | (Stop w, _) => Some (Stop w)
      | (Ok names, b1) =>
          match create_threads created (o_thread_num o) (tv_sec (clock_at (b_now b1))) with
          | Stop w => Some (Stop w)
          | Ok _ =>
              match exec names.1 names.2 (o_end_time o) (o_alter_intval o) (o_stats_intval o)
                      table_tid alter_tid l (started o b1) with
              | None => None
              | Some (inr w) => Some (Stop w)
              | Some (inl s) =>
                  if all_joined s then
                    match summary (total_request (ctl s)) (o_end_time o) with
                    | Stop w => Some (Stop w)
                    | Ok r => match clean_env (boot_of (data s) b1) with
                              | (Ok _, _) => Some (Ok r)
                              | (Stop w, _) => Some (Stop w)
                              end
                    end
                  else None
              end
          end
      end
  end.

Lemma main_exec_sound l answers b r : main_exec l answers b = Some r → main answers b r.
Proof.
  unfold main_exec. destruct (options_parse answers) as [o|w] eqn:Ho;
    [|intros [= <-]; by apply main_options].
  destruct (init_env fs library_ok o b) as [[names|w] b1] eqn:Hi;
    [|intros [= <-]; by eapply main_init].
  destruct (create_threads _ _ _) as [s0|w] eqn:Hc; [|intros [= <-]; by eapply main_create].
  destruct (exec _ _ _ _ _ _ _ _ _) as [[s|w]|] eqn:He; [| |done];
    destruct (exec_sound _ _ _ _ _ _ _ _ _ _ He) as (s' & Hr & Hs').
  - subst s'.
    assert (at_work fs library_ok created table_tid alter_tid answers b o names b1 s) as W
      by (split_and!; [done|done|by exists s0|exact Hr]).
    destruct (all_joined s) eqn:Hj; [|done].
    destruct (summary _ _) as [x|w] eqn:Hsum; [|intros [= <-]; by eapply main_summary].
    destruct (clean_env _) as [[u|w] b2] eqn:Hcl; intros [= <-].
    + exact (main_end _ _ _ _ _ _ _ _ _ _ _ _ (Ok u) _ W Hj Hsum Hcl).
    + exact (main_end _ _ _ _ _ _ _ _ _ _ _ _ (Stop w) _ W Hj Hsum Hcl).
  - intros [= <-]. eapply main_threads; [|exact Hs']. split_and!; [done|done|by exists s0|exact Hr].
Qed.

(** C16 (the report). What a run of the program that comes to its end reports is the sum of the
    requests that its engine threads have counted, and that sum per second of the run, rounded
    towards zero; its run cannot have been of no seconds. *)
Theorem main_reports answers b n tps : main answers b (Ok (n, tps)) →
  ∃ o names b1 s, at_work fs library_ok created table_tid alter_tid answers b o names b1 s ∧
    all_joined s = true ∧ n = zsum asked_for (engine_thrs s) ∧
    o_end_time o ≠ 0 ∧ tps = Z.quot n (o_end_time o).
Proof.
  inversion 1 as [| | | | |o names b1 s r x b2 W Hj Hsum Hcl Hx]. exists o, names, b1, s.
  destruct x as [u|w]; [|done]. injection Hx as ->. unfold summary in Hsum.
  destruct (Z.eqb_spec (o_end_time o) 0) as [|He]; [done|]. injection Hsum as <- <-.
  split_and!; [done|done| |done|done]. destruct W as (_ & _ & _ & Hr). by eapply total_at_join.
Qed.
End runs.

(** ** What the options must be *)

Section facts.
Context `{Allocator}.

Lemma options_loop_seen answers o seen o' seen' :
  options_loop answers o seen = Ok (o', seen') →
  ∀ c, c ∈ seen' ↔ c ∈ seen ∨ c ∈ answers.*1.
Proof.
  revert o seen. induction answers as [|[opt arg] answers IH]; intros o seen Hl c; cbn in Hl.
  - injection Hl as <- <-. set_solver.
  - destruct (option_handle o opt arg) as [[o1|w]|]; try done. cbn in Hl.
    rewrite (IH _ _ Hl). set_solver.
Qed.

Lemma options_loop_app l1 l2 o seen :
  options_loop (l1 ++ l2) o seen = '(o, seen) ← options_loop l1 o seen; options_loop l2 o seen.
Proof.
  revert o seen. induction l1 as [|[opt arg] l1 IH]; intros o seen; [done|].
  cbn [app options_loop]. destruct (option_handle o opt arg) as [[o1|w]|]; [|done..]. apply IH.
Qed.

(** *** What was given *)

(** The arguments of a letter, in order, and the value they leave: the last one
    counts. *)
Definition args_of (c : Z) (answers : list (Z * cstring)) : list cstring :=
  (filter (λ a, a.1 = c) answers).*2.
Definition str_option (c : Z) (d : option cstring) (answers : list (Z * cstring)) : option cstring :=
  match last (args_of c answers) with None => d | Some a => strdup a end.
Definition int_option (c d : Z) (answers : list (Z * cstring)) : Z :=
  match last (args_of c answers) with
  | None => d
  | Some a => match atoi a with Ok z => z | Stop _ => d end
  end.

Definition chosen (answers : list (Z * cstring)) : options_t :=
  Options (Nat.odd (length (args_of 104 answers))) (str_option 99 None answers)
    (int_option 101 600 answers) (int_option 116 0 answers) (int_option 105 10 answers)
    (int_option 97 600 answers) (str_option 117 (Some (text "admin")) answers)
    (str_option 112 (Some (text "admin")) answers).

(** An answer of [getopt] for one of the letters, with a number where one is
    expected. *)
Definition legal_answer (a : Z * cstring) : Prop :=
  a.1 ∈ option_table.*1 ∧ (a.1 ∈ [101; 116; 105; 97] → ∃ z, atoi a.2 = Ok z).

Lemma args_of_snoc c answers opt arg :
  args_of c (answers ++ [(opt, arg)]) = args_of c answers ++ (if opt =? c then [arg] else []).
Proof.
  unfold args_of. rewrite filter_app, fmap_app. f_equal.
  destruct (Z.eqb_spec opt c) as [->|Hne]; [by rewrite filter_cons_True|].
  by rewrite filter_cons_False.
Qed.

Lemma option_handle_chosen answers opt arg : legal_answer (opt, arg) →
  option_handle (chosen answers) opt arg = Some (Ok (chosen (answers ++ [(opt, arg)]))).
Proof.
  intros [Hin Hint]. cbn [fst snd] in *. unfold chosen, str_option, int_option.
  rewrite !args_of_snoc. cbn in Hin.
  assert (∀ c, opt = c → c ∈ [101; 116; 105; 97] → ∃ z, atoi arg = Ok z) as Hz
    by (intros c -> Hc; by apply Hint).
  rewrite !elem_of_cons, elem_of_nil in Hin. unfold option_handle.
  destruct Hin as [->|[->|[->|[->|[->|[->|[->|[->|[]]]]]]]]]; cbn [Z.eqb Pos.eqb];
    try (destruct (Hz _ eq_refl ltac:(repeat first [by left|right])) as [z Hat]; rewrite Hat; cbn [mbind res_mbind]);
    rewrite ?app_nil_r, ?last_snoc, ?Hat; try done.
  rewrite length_app, Nat.add_1_r, Nat.odd_succ, <- Nat.negb_odd. done.
Qed.

Lemma options_loop_chosen answers : Forall legal_answer answers →
  ∃ seen, options_loop answers default_options [] = Ok (chosen answers, seen).
Proof.
  induction answers as [|[opt arg] answers IH] using rev_ind; intros Hl; [by eexists|].
  apply Forall_app in Hl as [Hl [Ha _]%Forall_cons]. destruct (IH Hl) as [seen Hs].
  rewrite options_loop_app, Hs. cbn [mbind res_mbind options_loop].
  rewrite (option_handle_chosen _ _ _ Ha). by eexists.
Qed.

(** Some required letter was not given. *)
Definition lacks (answers : list (Z * cstring)) : bool :=
  existsb (λ '(opt, required), required && bool_decide (args_of opt answers = [])) option_table.

Lemma args_of_nil c answers : args_of c answers = [] ↔ c ∉ answers.*1.
Proof.
  unfold args_of. induction answers as [|[opt arg] answers IH]; [by split; intros ?; [apply not_elem_of_nil|]|].
  destruct (decide (opt = c)) as [->|Hne].
  - rewrite filter_cons_True by done. cbn. split; [done|]. intros []. by left.
  - rewrite filter_cons_False by done. rewrite IH. cbn. set_solver.
Qed.

(** C29 (options). The options are the last arguments given, and their defaults otherwise.  An odd
    number of [-h] ends the program with 0, a required letter that was not given with 1, whatever
    its default; so does the first letter that is not an option. *)
Theorem options_parse_outcomes answers rest opt arg :
  Forall legal_answer answers →
  options_parse answers =
    (if Nat.odd (length (args_of 104 answers)) then Stop (Exited 0)
     else if lacks answers then Stop (Exited 1) else Ok (chosen answers)) ∧
  (opt ∉ option_table.*1 →
     options_parse (answers ++ (opt, arg) :: rest) = Stop (Exited 1)).
Proof.
  intros Hl. destruct (options_loop_chosen _ Hl) as [seen Hs]. split.
  - unfold options_parse. rewrite Hs. cbn [mbind res_mbind].
    change (o_help (chosen answers)) with (Nat.odd (length (args_of 104 answers))).
    assert (missing seen = lacks answers) as ->; [|done].
    unfold missing, lacks. apply eq_true_iff_eq. rewrite !existsb_exists.
    apply exist_proper. intros [c req]. apply and_iff_compat_l.
    rewrite !andb_true_iff, negb_true_iff, bool_decide_eq_true, bool_decide_eq_false.
    apply and_iff_compat_l. rewrite args_of_nil.
    rewrite (options_loop_seen _ _ _ _ _ Hs c). set_solver.
  - intros Hopt. unfold options_parse. rewrite options_loop_app, Hs. cbn [mbind res_mbind options_loop].
    assert (option_handle (chosen answers) opt arg = None) as ->; [|done].
    cbn in Hopt. rewrite !not_elem_of_cons in Hopt. unfold option_handle.
    destruct (chosen answers). by rewrite !(proj2 (Z.eqb_neq opt _)) by tauto.
Qed.
End facts.

(** ** Witnesses *)

Local Existing Instance roomy_allocator.
Local Existing Instance counting_rand.
Local Existing Instance ticking.
Local Existing Instance mock_client.
Local Existing Instance toy_regex.
#[local] Instance same_seed : RandSeed := {| srand_at _ := 0%nat |}.

(** The file that holds [configuration]. *)
Definition one_file : file_system := {|
  fs_exists p := true;
  fs_open p := Some [text "<?xml version='1.0'?>"];
  fs_xml p := Some configuration;
|}.

(** Nothing has been set up. *)
Definition unborn : boot :=
  Boot _ (Cluster _ no_mock_servers no_mock_servers)
    (TableState empty_heap empty_heap empty_heap SNull SNull)
    (CmdState empty_heap empty_heap SNull) 0 (MockDb 1 []) 0 [].

Definition one_second : list (Z * cstring) :=
  [(99, text "checkq.xml"); (101, text "1"); (116, text "1"); (105, text "5");
   (117, text "root"); (112, text "secret")].

(** The table thread makes a table, the engine thread does one turn, the second
    passes, and the threads end. *)
Definition one_turn : list who :=
  replicate 2 TimeThread ++ replicate 3 TableThread ++ replicate 8 (EngineThread 0) ++
  [TableThread; Tick 1] ++ replicate 2 TimeThread ++
  replicate 3 TableThread ++ replicate 4 AlterThread ++ replicate 2 StatThread ++
  replicate 13 (EngineThread 0).

Definition usual_answers : list (Z * cstring) :=
  [(99, text "checkq.xml"); (101, text "60"); (116, text "4"); (105, text "5");
   (117, text "root"); (112, text "secret"); (116, text "8")].

Example options_parse_outcomes_witness :
  options_parse usual_answers =
    Ok (Options false (Some (text "checkq.xml")) 60 8 5 600 (Some (text "root"))
          (Some (text "secret"))) ∧
  options_parse (usual_answers ++ [(63, [])]) = Stop (Exited 1).
Proof.
  assert (Forall legal_answer usual_answers) as Hl.
  { repeat constructor; cbn; try set_solver; intros _; by eexists. }
  destruct (options_parse_outcomes usual_answers [] 63 [] Hl) as [H1 H2]. split.
  - exact H1.
  - apply H2. cbn. set_solver.
Defined.

Lemma one_turn_reports :
  main_exec one_file true (λ _, true) 0 0 one_turn one_second unborn = Some (Ok (1, 1)).
Proof. vm_compute. reflexivity. Qed.

Example main_reports_witness :
  main one_file true (λ _, true) 0 0 one_second unborn (Ok (1, 1)) ∧
  ∃ o names b1 s, at_work one_file true (λ _, true) 0 0 one_second unborn o names b1 s ∧
    all_joined s = true ∧ 1 = zsum asked_for (engine_thrs s) ∧
    o_end_time o ≠ 0 ∧ 1 = Z.quot 1 (o_end_time o).
Proof.
  pose proof (main_exec_sound _ _ _ _ _ _ _ _ _ one_turn_reports) as Hm. split; [exact Hm|].
  exact (main_reports one_file true (λ _, true) 0 0 one_second unborn 1 1 Hm).
Defined.
