(* ===== verification/Whole.v ===== *)
(** * Whole: the program from its options to its end (src/src/engine/checkQ.c)

    With a proper configuration no run of [main] in which commands and turns of
    the threads are done in one piece comes to a fault of its own: reading it sets
    up what the threads rely on ([Config]), the threads keep that ([System]), and
    what they leave is released without a fault. *)

From stdpp Require Import base gmap sets list strings relations.
From Stdlib Require Import ZArith Lia.
From S2P Require Import Prelude Outcomes Mylib Vector Hash Heap CText Names Command Table Schemas.
From S2P Require Import Server EngineCtx MysqlCmd Safety Engine Turns Threads System Verify.
From S2P Require Import ParserXml ParserTxt Config Program.
Local Open Scope Z_scope.

(** ** The end: everything is released *)

Section releasing.
Context `{Allocator} `{RandSource} `{RandSeed} `{Clock} `{MysqlClient} `{Regex}.
Implicit Types (s : table_state) (cols : gmap loc (list table_data_t)) (pairs : pairs_t).

(** [schema_set_destroy] on the table schemas [ls]. *)
Lemma destroy_table_schemas pairs ls s cols : trep s cols → NoDup ls →
  (∀ ts, ts ∈ ls → ∃ k v, pairs !! ts = Some (k, v) ∧
    cells (table_schemas s) !! ts = Some (TableSchema (Some k) (Some v)) ∧
    is_Some (cols !! k) ∧ is_Some (cols !! v)) →
  (∀ ts1 k1 v1 ts2 k2 v2, pairs !! ts1 = Some (k1, v1) → pairs !! ts2 = Some (k2, v2) → k1 ≠ v2) →
  (∀ ts1 k1 v1 ts2 k2 v2, pairs !! ts1 = Some (k1, v1) → pairs !! ts2 = Some (k2, v2) →
    k1 = k2 ∨ v1 = v2 → ts1 = ts2) →
  ∃ s', foldr (λ p k, table_schema_destroy p;; k) (mret ()) (Some <$> ls) s = (Ok (), s').
Proof.
  revert s cols. induction ls as [|ts ls IH]; intros s cols R Hnd Hin Hap Hon; [by eexists|].
  apply NoDup_cons in Hnd as [Hts Hnd].
  destruct (Hin ts) as (k & v & Hp & Hc & [ck Hk] & [cv Hv]); [by left|].
  destruct (table_schema_destroy_ok s cols ts k v ck cv R Hc Hk) as (s1 & Hd & R1 & Ht & _).
  { rewrite lookup_delete_ne; [done|]. by eapply Hap. }
  cbn [fmap list_fmap foldr]. erewrite bind_ok by exact Hd.
  apply (IH s1 _ R1 Hnd); [|done|done]. intros ts' Hts'.
  assert (ts' ≠ ts) as Hne by (by intros ->).
  destruct (Hin ts') as (k' & v' & Hp' & Hc' & Hk' & Hv'); [by right|]. exists k', v'.
  assert (k' ≠ k ∧ v' ≠ v ∧ k' ≠ v ∧ v' ≠ k) as (? & ? & ? & ?).
  { split_and!; intros Heq; [apply Hne, (Hon _ _ _ _ _ _ Hp' Hp); by left
      |apply Hne, (Hon _ _ _ _ _ _ Hp' Hp); by right|by apply (Hap _ _ _ _ _ _ Hp' Hp)
      |by apply (Hap _ _ _ _ _ _ Hp Hp')]. }
  rewrite Ht. cbn. by rewrite !lookup_delete_ne by done.
Qed.

Lemma schema_set_destroy_ok pairs m s : tables_ok pairs m s →
  ∃ s', schema_set_destroy s = (Ok (), s').
Proof.
  intros [cols T]. destruct (ti_schemas _ _ _ _ T) as (v & ls & Hv & Rv & _ & Hnd & Hls).
  destruct (vector_destroy_ok _ _ Rv) as [v' Hd].
  assert (∃ fr, freed_of v (Some <$> ls) = Some <$> fr ∧ NoDup fr ∧ ∀ ts, ts ∈ fr → ts ∈ ls)
    as (fr & Hfr & Hnf & Hsub).
  { unfold freed_of. destruct (_ =? _); [exists []|by exists ls].
    split_and!; [done|constructor|by intros ? ?%not_elem_of_nil]. }
  rewrite Hfr in Hd. unfold schema_set_destroy.
  erewrite bind_ok with (a := Some <$> fr) (s' := TableState (datas s) (schema_objs s)
    (table_schemas s) (SPtr v') (cq_table_set s)).
  2: { unfold on_schema_set. mstep. rewrite Hv. cbn. by rewrite Hd. }
  destruct (destroy_table_schemas pairs fr (TableState (datas s) (schema_objs s)
    (table_schemas s) (SPtr v') (cq_table_set s)) cols) as [s' Hs'].
  - by apply (trep_frame s); [apply T|..|apply (trep_wf s cols), T].
  - done.
  - intros ts Hts. destruct (Hls ts (Hsub ts Hts)) as [[k v0] Hp]. exists k, v0.
    destruct (ti_keys _ _ _ _ T _ _ _ Hp) as (c & cs & ->).
    destruct (ti_vals _ _ _ _ T _ _ _ Hp) as (c2 & cs2 & -> & _).
    split_and!; [done|exact (ti_pairs _ _ _ _ T _ _ _ Hp)|by eexists..].
  - apply T.
  - apply T.
  - erewrite bind_ok by exact Hs'. by eexists.
Qed.
Lemma table_set_destroy_ok (h : hash_t table_t) m s : cq_table_set s = SPtr h → hrep h m →
  ∃ ts s', table_set_destroy s = (Ok ts, s').
Proof.
  intros Hh [cs R]. destruct (hash_destroy_spec _ _ _ R) as (h' & Hd & _).
  eexists _, _. unfold table_set_destroy. by erewrite bind_ok by (by eapply on_table_set_ok).
Qed.

(** [schema_set_destroy] leaves the tables alone. *)
Lemma keeps_schema_set_destroy : keeps cq_table_set schema_set_destroy.
Proof.
  assert (∀ p, keeps cq_table_set (on_table_schemas (heap_get p))) as Ht
    by (intros; by apply keeps_zoom_away).
  assert (∀ p, keeps cq_table_set (schema_destroy p)) as Hd.
  { intros p. unfold schema_destroy. keeps; by apply keeps_zoom_away. }
  assert (∀ m : M (vector (option loc)) (list (option loc)), keeps cq_table_set (on_schema_set m)) as Hs.
  { intros m s. unfold on_schema_set, set_schema_set. mstep.
    destruct (cq_schema_set s) as [|v|]; cbn; try done. by destruct (m v) as [[] ?]. }
  unfold schema_set_destroy, set_schema_set, table_schema_destroy. keeps; try done.
  by apply keeps_zoom_away.
Qed.

(** What the threads leave is released. *)
Lemma clean_env_ok cs lists pairs wb rb m e b :
  data_ok cs lists pairs wb rb m e → ∃ b', clean_env (boot_of e b) = (Ok (), b').
Proof.
  intros [D1 D0 [detached R] (v & ls & Hv & Rv & _ & Hnd & Hls) C _ _].
  destruct (cq_cluster_destroy_closes (cluster_base e) wb rb (w_db (e_world e)))
    as (ws & rs & c' & _ & _ & Hc); [by split; apply C|].
  destruct (cmd_bucket_destroy_ok _ _ _ _ _ R Hv Rv Hnd Hls) as (s1 & Hb & _).
  destruct (schema_set_destroy_ok _ _ _ D1) as [t1 Ht1].
  pose proof (keeps_schema_set_destroy (w_tables (e_world e))) as Hk. rewrite Ht1 in Hk.
  destruct D1 as [cols T]. destruct (ti_set _ _ _ _ T) as (h & Hh & S). rewrite Hh in Hk.
  destruct (table_set_destroy_ok h m t1 Hk (ss_rep _ _ S)) as (ts & t2 & Ht2).
  eexists. unfold clean_env, boot_of.
  erewrite bind_ok by (apply zoom_ok; exact Hc).
  erewrite bind_ok by (apply on_boot_cmds_ok; exact Hb).
  erewrite bind_ok by (apply on_boot_tables_ok; exact Ht1).
  by erewrite bind_ok by (apply on_boot_tables_ok; exact Ht2).
Qed.
End releasing.

(** ** The beginning *)

Section beginning.
Context `{Allocator} `{RandSource} `{RandSeed} `{Clock} `{MysqlClient} `{Regex}.
Context (Hmem : ∀ n, 0 < n ≤ 1024 → malloc_ok n = true).
Context (fs : file_system) (library_ok : bool).
Implicit Types (b : boot) (o : options_t).

(** Nothing has been allocated. *)
Definition blank b : Prop := b_tables b = no_tables ∧ b_cmds b = no_commands.

(** A name that fits into [g_username] or [g_password]. *)
Definition short_name (s : option cstring) : Prop := ∃ n, s = Some n ∧ (length n < 20)%nat.

(** A file of a size the program can read, without a section of a text
    configuration; its document, if it is one, is [proper]. *)
Record proper_file (path : cstring) : Prop := {
  pf_size : 0 < file_get_size fs path ≤ CONFIG_MAX_LENGTH;
  pf_lines : ∃ lines, fs_open fs path = Some lines ∧
    Forall (λ l, strstr l TXT_PATTERN = None) lines;
  pf_root xml_root : fs_xml fs path = Some xml_root → proper xml_root = true;
}.

(** Options that name a proper file and leave time. *)
Record proper_options o : Prop := {
  po_user : short_name (o_username o);
  po_password : short_name (o_password o);
  po_config : ∃ path, o_config o = Some path ∧ proper_file path;
  po_time : o_end_time o ≠ 0;
}.

(** The program's own ends are among those expected. *)
Definition or_exit (w : stop) : Prop := expected w ∨ ∃ code, w = Exited code.

Lemma copy_short s : short_name s → ∃ n, copy_name s = Ok n.
Proof.
  intros (n & -> & Hn). exists n. unfold copy_name. by rewrite (proj2 (Z.leb_gt _ _)) by lia.
Qed.

Lemma parser_check_type_runs {S} path (s : S) : proper_file path →
  runs or_exit (parser_check_type fs path) s (λ type s', s' = s ∧ (type = XML ∨ type = ERROR)).
Proof.
  intros [Hsz (lines & Ho & Hf) _]. unfold parser_check_type.
  destruct (Z.leb_spec (file_get_size fs path) 0); [lia|].
  destruct (Z.ltb_spec CONFIG_MAX_LENGTH (file_get_size fs path)); [lia|]. cbn [orb].
  unfold runs, cq_malloc. mstep. destruct (malloc_ok _); cbn; [|by left; left].
  rewrite Ho. cbn. split; [done|]. clear Ho.
  assert (∀ t, t = XML ∨ t = ERROR → foldl (λ ret buff, if strstr buff XML_PATTERN then XML
    else if strstr buff TXT_PATTERN then TXT else ret) t lines = XML ∨ foldl (λ ret buff,
    if strstr buff XML_PATTERN then XML
    else if strstr buff TXT_PATTERN then TXT else ret) t lines = ERROR) as Hgo; [|by apply Hgo; right].
  induction Hf as [|l lines Hl Hf IH]; intros t Ht; [done|]. cbn [foldl]. apply IH.
  destruct (strstr l XML_PATTERN); [by left|]. by rewrite Hl.
Qed.

Lemma read_file_runs user password path b : proper_file path → set_up nothing b →
  runs or_exit (parser_read_file user password fs path) b (λ _ b',
    ∃ d, proper_described d = true ∧ set_up d b').
Proof using Hmem.
  intros Hp U. unfold parser_read_file. case_bool_decide; [by apply runs_mstop; right; eexists|].
  eapply runs_then; [by apply parser_check_type_runs|]. intros type b1 [-> [-> | ->]].
  2: { eapply runs_then with (λ _ _, False); [by apply runs_mstop; right; eexists|done]. }
  destruct (fs_xml fs path) as [root|] eqn:Hr.
  2: { eapply runs_then_ok; [done|]. by apply runs_mstop; right; eexists. }
  pose proof (pf_root _ Hp _ Hr) as Hproper. unfold proper in Hproper.
  destruct (describe root) as [d|] eqn:Hd; [|done].
  eapply runs_then; [eapply runs_expect; [by eapply (read_document_runs user password Hmem root d)|by left]|].
  intros ret b2 [-> U2]. rewrite bool_decide_false by done. apply runs_ret. by exists d.
Qed.

Lemma init_env_runs o b : proper_options o → blank b →
  runs or_exit (init_env fs library_ok o) b (λ _ b', ∃ d, proper_described d = true ∧ set_up d b').
Proof using Hmem.
  intros [(user & Hu)%copy_short (pass & Hpw)%copy_short (path & Hpath & Hfile) _] [Ht Hc].
  unfold init_env. apply runs_gets. apply runs_bind, runs_modify. rewrite Hu, Hpw.
  eapply runs_then_ok; [done|]. eapply runs_then_ok; [done|].
  destruct library_ok; [|by apply runs_mstop; right; eexists]. cbn [negb].
  destruct (cq_cluster_init_ok Hmem) as (cl & Hcl & C).
  eapply runs_then_ok; [by apply pure_state_ok|]. apply runs_bind, runs_modify.
  destruct (cmd_bucket_init_ok Hmem) as (s & Hs & Hh).
  eapply runs_then_ok; [apply on_boot_cmds_ok; cbn; rewrite Hc; exact Hs|].
  destruct (table_sets_init_ok Hmem) as (t & Hts & T & Hset).
  unfold mbind, M_mbind in Hts. destruct (schema_set_init no_tables) as [[[]|w] t1] eqn:Ht1; [|done].
  eapply runs_then_ok; [apply on_boot_tables_ok; cbn; rewrite Ht; exact Ht1|].
  eapply runs_then_ok; [apply on_boot_tables_ok; cbn; exact Hts|]. rewrite Hpath.
  eapply runs_then; [apply read_file_runs; [done|]|].
  - split; [by exists ∅, ∅|exact Hh|by exists no_view, []|exact Hset].
  - intros u b' Hb'. by apply runs_ret.
Qed.
End beginning.

(** ** The whole *)

Section whole.
Context `{Allocator} `{RandSource} `{RandSeed} `{Clock} `{MysqlClient} `{Regex} `{Hshape : !SelectShape}.
Context (Hmem : ∀ n, 0 < n ≤ 1024 → malloc_ok n = true).
Context (fs : file_system) (library_ok : bool) (created : nat → bool) (table_tid alter_tid : Z).
Implicit Types (b : boot) (o : options_t).

(** The threads at work on a proper configuration. *)
Lemma at_work_ok answers b o names b1 s : options_parse answers = Ok o → proper_options fs o →
  blank b → at_work fs library_ok created table_tid alter_tid answers b o names b1 s →
  ∃ cs lists pairs wb rb, system_ok cs lists pairs wb rb s.
Proof using Hmem Hshape.
  intros Ho Hp Hb (_ & Hi1 & _ & Hr).
  pose proof (init_env_runs Hmem fs library_ok o b Hp Hb) as Hi. unfold runs in Hi.
  rewrite Hi1 in Hi. destruct Hi as (d & Hd & U).
  destruct (set_up_data_ok d b1 (engine_of b1) Hd U eq_refl) as (lists & pairs & wb & rb & D).
  exists (b_cmds b1), lists, pairs, wb, rb. by eapply run_ok.
Qed.

(** Such a configuration has a table schema. *)
Lemma system_ok_some_overtaken cs lists pairs wb rb s :
  system_ok cs lists pairs wb rb s → ∃ ts, drop_overtakes_reader s ts.
Proof.
  intros S. pose proof S as [(m & [(cols & T) _ _ _ _ _ _] & _) _ _ _].
  destruct (ti_schemas _ _ _ _ T) as (_ & [|ts l] & _ & _ & Hne & _ & Hin); [done|].
  destruct (Hin ts) as [[k v] Hp]; [by left|]. exists ts. by eapply system_ok_overtaken.
Qed.

(** C10 (the whole program, when commands and turns are not interrupted). The runs of [main]
    are those in which every command of an engine thread and every turn of the table thread
    and of the alter thread is done in one piece.  Started with proper options on a proper
    configuration file, with memory for small blocks and a client library that answers a query
    with the columns it asked for, the program comes to no fault of its own in such a run,
    in whatever order the threads take these pieces: a run that ends returns what it reports,
    or exits with a code, or aborts, or it goes on for ever in a search in a hash table, or
    it stops where a counter overflows or at a [NULL] of the client library.  The restriction
    is needed: in every state that the threads reach there is a table schema whose last
    column, if [drop_table_data] could interrupt a generator that reads it, would be used
    after its release. *)
Theorem main_safe answers o b :
  options_parse answers = Ok o → proper_options fs o → blank b →
  (∀ r, main fs library_ok created table_tid alter_tid answers b r →
    match r with Ok _ => True | Stop w => or_exit w end) ∧
  (∀ names b1 s, at_work fs library_ok created table_tid alter_tid answers b o names b1 s →
    ∃ ts, drop_overtakes_reader s ts).
Proof using Hmem Hshape.
  intros Ho Hp Hb. pose proof (λ names b1 s, at_work_ok answers b o names b1 s Ho Hp Hb) as Hwork.
  split.
  2: { intros names b1 s (cs & lists & pairs & wb & rb & S)%Hwork. by eapply system_ok_some_overtaken. }
  intros r Hm. pose proof (init_env_runs Hmem fs library_ok o b Hp Hb) as Hi. unfold runs in Hi.
  destruct Hm as [w Ho'|o' w b1 Ho' Hi'|o' names b1 w Ho' Hi' Hc|o' names b1 s w W Hs|o' names b1 s w W Hj Hsum|o' names b1 s r x b2 W Hj Hsum Hcl];
    try (destruct W as (Ho' & W'); pose proof (conj Ho' W') as W); rewrite Ho in Ho'; try done; injection Ho' as <-.
  - by rewrite Hi' in Hi.
  - unfold create_threads in Hc. destruct (forallb _ _); [done|]. injection Hc as <-. right. by eexists.
  - destruct (Hwork _ _ _ W) as (cs & lists & pairs & wb & rb & S). left.
    by eapply (step_ok _ _ _ _ _ _ _ Hmem cs lists pairs wb rb s (inr w) S).
  - unfold summary in Hsum. rewrite (proj2 (Z.eqb_neq _ _)) in Hsum by apply Hp. done.
  - destruct (Hwork _ _ _ W) as (cs & lists & pairs & wb & rb & [(m & D & _) _ _ _]).
    destruct (clean_env_ok _ _ _ _ _ _ _ b1 D) as [b3 Hc]. rewrite Hc in Hcl. by injection Hcl as <- _.
Qed.
End whole.

(** ** Witness *)

Local Existing Instance roomy_allocator.
Local Existing Instance counting_rand.
Local Existing Instance same_seed.
Local Existing Instance ticking.
Local Existing Instance mock_client.
Local Existing Instance mock_shape.
Local Existing Instance toy_regex.

(** The configuration of [Config] with a [SELECT], on which the servers do not agree. *)
Definition checking : xml_node :=
  node "config" []
    (node "cmds" [] [node "cmd" [] [node "select" [] []]] :: xml_children configuration)%string.
Definition checking_file : file_system := {|
  fs_exists p := true;
  fs_open p := Some [text "<?xml version='1.0'?>"];
  fs_xml p := Some checking;
|}.

Definition one_second_options : options_t :=
  Options false (Some (text "checkq.xml")) 1 1 5 600 (Some (text "root")) (Some (text "secret")).

Lemma one_second_proper : proper_options checking_file one_second_options.
Proof.
  split; [by eexists; split; [done|cbn; lia]|by eexists; split; [done|cbn; lia]| |done].
  exists (text "checkq.xml"). split; [done|]. split.
  - by vm_compute.
  - eexists. split; [done|]. by constructor.
  - intros root [= <-]. by vm_compute.
Qed.

Lemma checking_aborts :
  main_exec checking_file true (λ _, true) 0 0 mock_schedule one_second unborn = Some (Stop Aborted).
Proof. vm_compute. reflexivity. Qed.

Example main_safe_witness :
  main checking_file true (λ _, true) 0 0 one_second unborn (Stop Aborted) ∧ or_exit Aborted.
Proof.
  pose proof (main_exec_sound _ _ _ _ _ _ _ _ _ checking_aborts) as Hm. split; [exact Hm|].
  destruct (main_safe roomy_small checking_file true (λ _, true) 0 0 one_second one_second_options unborn
    eq_refl one_second_proper (conj eq_refl eq_refl)) as [Hr _].
  exact (Hr (Stop Aborted) Hm).
Defined.
