(* ===== verification/Textual.v ===== *)
(** * Textual: what comes of a text configuration (src/src/parser/parser.c, src/src/engine/cq_engine.c)

    [parser_read_txt_table] files the table it has read and never adds its schema to
    the set of schemas, from which the table thread draws the tables to make.  With
    a text configuration the set stays empty, and the threads never get to work. *)

From stdpp Require Import base gmap list relations strings.
From Stdlib Require Import ZArith Lia.
From S2P Require Import Prelude Outcomes Mylib Vector Hash Heap CText Names Command Table Schemas.
From S2P Require Import Server EngineCtx SqlGen MysqlCmd Safety Engine Turns Threads System Verify.
From S2P Require Import ParserXml ParserTxt Config Program Whole.
Local Open Scope Z_scope.

(** The set of schemas has been made and is empty. *)
Definition no_schema (t : table_state) : Prop :=
  ∃ v, cq_schema_set t = SPtr v ∧ isempty v = true.

Lemma no_schema_same t t' : cq_schema_set t' = cq_schema_set t → no_schema t → no_schema t'.
Proof. unfold no_schema. by intros ->. Qed.

(** ** The parser leaves the set alone *)

Section parsing.
Context `{Allocator} `{RandSource} `{RandSeed} `{Clock} `{MysqlClient} `{Regex}.
Context (g_username g_password : cstring).

Definition schemas_of (b : boot) : static_ptr (vector (option loc)) := cq_schema_set (b_tables b).

Lemma keeps_each {S A B} (f : S → B) (g : A → M S ret_t) l :
  (∀ x, keeps f (g x)) → keeps f (each g l).
Proof.
  intros Hg. induction l as [|x l IH]; [apply keeps_ret|]. cbn.
  apply keeps_bind; [apply Hg|]. intros r. case_bool_decide; [apply keeps_ret|apply IH].
Qed.

Lemma keeps_tables_of {A} (m : M table_state A) :
  keeps cq_schema_set m → keeps schemas_of (on_boot_tables m).
Proof. intros Hm. by eapply (keeps_zoom _ cq_schema_set). Qed.

Lemma keeps_boot_away {A} :
  (∀ m : M cmd_state A, keeps schemas_of (on_boot_cmds m)) ∧
  (∀ m : M nat A, keeps schemas_of (on_boot_rand m)) ∧
  (∀ m : M db A, keeps schemas_of (on_boot_db m)) ∧
  (∀ m : M () A, keeps schemas_of (pure_state m)) ∧
  (∀ m : M cq_server_cluster_t A, keeps schemas_of (on_cluster m)).
Proof. split_and!; intros m; by apply keeps_zoom_away. Qed.

Lemma keeps_table_heaps {A} :
  (∀ m : M (heap table_data_t) A, keeps cq_schema_set (on_datas m)) ∧
  (∀ m : M (heap schema_t) A, keeps cq_schema_set (on_schemas m)) ∧
  (∀ m : M (heap table_schema_t) A, keeps cq_schema_set (on_table_schemas m)).
Proof. split_and!; intros m; by apply keeps_zoom_away. Qed.

Lemma keeps_table_set {A} (m : M (hash_t table_t) A) : keeps cq_schema_set (on_table_set m).
Proof.
  intros s. unfold on_table_set, set_table_set. mstep.
  destruct (cq_table_set s) as [|h|]; cbn; try done. by destruct (m h) as [[] ?].
Qed.

Lemma keeps_table_init n p : keeps cq_schema_set (table_init n p).
Proof. unfold table_init, cq_malloc. keeps. Qed.

#[local] Hint Extern 1 (keeps schemas_of (on_boot_cmds _)) => apply keeps_boot_away : keeps.
#[local] Hint Extern 1 (keeps schemas_of (on_boot_rand _)) => apply keeps_boot_away : keeps.
#[local] Hint Extern 1 (keeps schemas_of (on_boot_db _)) => apply keeps_boot_away : keeps.
#[local] Hint Extern 1 (keeps schemas_of (pure_state _)) => apply keeps_boot_away : keeps.
#[local] Hint Extern 1 (keeps schemas_of (on_cluster _)) => apply keeps_boot_away : keeps.
#[local] Hint Extern 1 (keeps cq_schema_set (on_datas _)) => apply keeps_table_heaps : keeps.
#[local] Hint Extern 1 (keeps cq_schema_set (on_schemas _)) => apply keeps_table_heaps : keeps.
#[local] Hint Extern 1 (keeps cq_schema_set (on_table_schemas _)) => apply keeps_table_heaps : keeps.
#[local] Hint Extern 1 (keeps schemas_of (on_boot_tables _)) => apply keeps_tables_of : keeps.
#[local] Hint Resolve keeps_table_set keeps_table_init keeps_initialised : keeps.

Lemma keeps_set_file l : keeps schemas_of (set_file l).
Proof. by intros b. Qed.
Lemma keeps_getline : keeps schemas_of getline.
Proof. unfold getline. keeps; apply keeps_set_file. Qed.
#[local] Hint Resolve keeps_set_file keeps_getline : keeps.

Lemma keeps_txt_server : keeps schemas_of (parser_read_txt_server g_username g_password).
Proof.
  unfold parser_read_txt_server. keeps. apply keeps_each. intros _.
  unfold read_txt_server, read_server. keeps.
Qed.

Lemma keeps_new_column n type len : keeps schemas_of (new_column n type len).
Proof. unfold new_column. keeps. Qed.
Lemma keeps_copy_match s so eo : keeps schemas_of (copy_match s so eo).
Proof. unfold copy_match. keeps. Qed.
#[local] Hint Resolve keeps_new_column keeps_copy_match : keeps.

Lemma keeps_txt_columns pattern t so : keeps schemas_of (read_columns pattern t so).
Proof. unfold read_columns, columns_step, parser_read_txt_table_data. keeps. Qed.

Lemma keeps_txt_table : keeps schemas_of parser_read_txt_table.
Proof.
  unfold parser_read_txt_table, parser_read_a_table, parser_read_txt_table_schema, table_set_add.
  pose proof keeps_txt_columns. keeps.
Qed.

Lemma keeps_read_rates n rate : keeps schemas_of (read_rates n rate).
Proof. revert rate. induction n as [|n IH]; intros rate; cbn [read_rates]; keeps; apply IH. Qed.
Lemma keeps_read_window n w : keeps schemas_of (read_window n w).
Proof. revert w. induction n as [|n IH]; intros w; cbn [read_window]; keeps; apply IH. Qed.

Lemma keeps_read_sections n rate w :
  keeps schemas_of (read_sections g_username g_password n rate w).
Proof.
  pose proof keeps_txt_server. pose proof keeps_txt_table.
  revert rate w. induction n as [|n IH]; intros rate w; cbn [read_sections]; [apply keeps_mstop|].
  unfold parser_read_txt_cmd_rate, parser_read_txt_cmd_window.
  keeps; eauto using keeps_read_rates, keeps_read_window.
Qed.

Lemma keeps_gen_cmd_lists n cols a : keeps schemas_of (gen_cmd_lists n cols a).
Proof.
  revert a. induction n as [|n IH]; intros a; cbn [gen_cmd_lists]; [apply keeps_ret|].
  unfold parser_shuffle_cmds, gen_cmd_list, gen_cmd. keeps.
Qed.

(** Whatever the file. *)
Lemma keeps_read_txt lines : keeps schemas_of (parser_read_txt g_username g_password lines).
Proof.
  unfold parser_read_txt, parser_gen_cmd_bucket.
  pose proof keeps_read_sections. pose proof keeps_gen_cmd_lists. keeps.
Qed.
End parsing.

(** ** The table thread makes no table *)

Section table_thread.
Context `{Allocator} `{RandSource} `{Clock} `{MysqlClient}.
Context (g_username g_password : cstring).
Implicit Types (e : engine) (c : eng_ctx_t) (w : world).

Definition schemas_in (e : engine) : static_ptr (vector (option loc)) :=
  cq_schema_set (w_tables (e_world e)).

Lemma keeps_engine_away {A} :
  (∀ m : M cq_server_cluster_t A, keeps schemas_in (on_base m)) ∧
  (∀ m : M cq_server_cluster_t A, keeps schemas_in (on_thread_cluster m)) ∧
  (∀ m : M (cmd_state * nat) A, keeps schemas_in (on_cmds_rand m)) ∧
  (∀ m : M nat A, keeps schemas_in (on_rand m)) ∧
  (∀ m : M db A, keeps schemas_in (on_world (on_db m))) ∧
  (∀ m : M () A, keeps schemas_in (pure_state m)).
Proof.
  split_and!; intros m; try by apply keeps_zoom_away.
  eapply (keeps_zoom _ (λ w, cq_schema_set (w_tables w))); [|done]. by apply keeps_zoom_away.
Qed.

Lemma keeps_update_ctx f : keeps schemas_in (update_ctx f).
Proof. by intros e. Qed.

Lemma keeps_random_server : keeps schemas_in random_write_server.
Proof. by apply keeps_zoom_away. Qed.

Lemma keeps_random_table : keeps schemas_in (on_world (on_world_tables table_set_get_random)).
Proof.
  eapply (keeps_zoom _ (λ w, cq_schema_set (w_tables w))); [|done].
  eapply (keeps_zoom _ (λ s : table_state * nat, cq_schema_set s.1)); [|done].
  intros [s k]. unfold table_set_get_random, set_table_set. mstep.
  destruct (cq_table_set s) as [|h|]; cbn; try done. by destruct (random_entry (h, k)) as [r [h' k']].
Qed.

#[local] Hint Extern 1 (keeps schemas_in (on_base _)) => apply keeps_engine_away : keeps.
#[local] Hint Extern 1 (keeps schemas_in (on_thread_cluster _)) => apply keeps_engine_away : keeps.
#[local] Hint Extern 1 (keeps schemas_in (on_cmds_rand _)) => apply keeps_engine_away : keeps.
#[local] Hint Extern 1 (keeps schemas_in (on_rand _)) => apply keeps_engine_away : keeps.
#[local] Hint Extern 1 (keeps schemas_in (on_world (on_db _))) => apply keeps_engine_away : keeps.
#[local] Hint Extern 1 (keeps schemas_in (pure_state _)) => apply keeps_engine_away : keeps.
#[local] Hint Resolve keeps_update_ctx keeps_random_server keeps_random_table : keeps.

Lemma keeps_context_init tid : keeps schemas_in (eng_context_init g_username g_password tid).
Proof. unfold eng_context_init, for_servers, add_to_thread_cluster. keeps. Qed.
Lemma keeps_context_destroy : keeps schemas_in eng_context_destroy.
Proof. by apply keeps_zoom_away. Qed.

(** An empty set has no random schema. *)
Lemma no_random_schema t (k : nat) : no_schema t → schema_set_get_random (t, k) = (Ok None, (t, k)).
Proof.
  intros (v & Hv & He). unfold schema_set_get_random, on_schema_set, vector_isempty, set_schema_set, on_fst, zoom.
  mstep. cbn. rewrite Hv. cbn. rewrite He. cbn. rewrite <- Hv. by destruct t.
Qed.

Definition unschemed e : Prop := no_schema (w_tables (e_world e)).

(** What only keeps the set of schemas. *)
Lemma runs_unschemed {A B} (m : M engine A) (f : A → M engine B) e Q :
  keeps schemas_in m → unschemed e →
  (∀ a e', unschemed e' → runs (λ _, True) (f a) e' Q) → runs (λ _, True) (m ≫= f) e Q.
Proof.
  intros Hk He Hf. eapply runs_then; [exact (runs_only_kept _ schemas_in m e Hk (runs_any m e))|].
  intros a e' Hs. apply Hf. exact (no_schema_same _ _ Hs He).
Qed.

Lemma config_finds_no_schema e : unschemed e →
  runs (λ _, True) eng_context_config e (λ _ e',
    unschemed e' ∧ ctx_table_schema (w_ctx (e_world e')) = None).
Proof.
  intros He. unfold eng_context_config.
  eapply runs_unschemed; [auto with keeps|exact He|intros cl e1 U1].
  eapply runs_unschemed; [auto with keeps|exact U1|intros ws e2 U2].
  eapply runs_unschemed; [auto with keeps|exact U2|intros [b n] e3 U3].
  eapply runs_unschemed; [auto with keeps|exact U3|intros wss e4 U4].
  eapply runs_unschemed; [auto with keeps|exact U4|intros [b' n'] e5 U5].
  eapply runs_unschemed; [auto with keeps|exact U5|intros rss e6 U6].
  eapply runs_unschemed; [auto with keeps|exact U6|intros t e7 U7].
  eapply runs_then_ok.
  { unfold on_world, on_world_tables. apply zoom_ok, zoom_ok, no_random_schema, U7. }
  eapply runs_unschemed; [unfold random_table_name; keeps|exact U7|intros nm e8 U8].
  by split.
Qed.

(** [create_gen] looks at the schema that is not there. *)
Lemma sql_gen_without_schema c g : ctx_table_schema c = None →
  runs (λ _, True) (sql_gen c CREATE) g (λ _ _, False).
Proof.
  intros Hc. unfold sql_gen.
  do 2 (eapply runs_then; [apply runs_any|intros ? ? _]). unfold create_gen.
  eapply runs_then; [apply runs_any|intros ? g' _]. rewrite Hc.
  eapply runs_then with (λ _ _, False); [|done]. done.
Qed.

Lemma create_without_schema w : ctx_table_schema (w_ctx w) = None →
  runs (λ _, True) mysql_create_table w (λ ret _, ret ≠ 0).
Proof.
  intros Hc. unfold mysql_create_table.
  eapply runs_then with (λ _ w', w' = w).
  { unfold write_mysql, get_mysql, runs. mstep. by destruct (write_server (w_ctx w)). }
  intros m w1 ->.
  eapply runs_then with (λ _ w', w_ctx w' = w_ctx w).
  { unfold select_db. apply runs_zoom. unfold lib, runs. by destruct (mysql_select_db m database (w_db w)). }
  intros ret w2 Hw2. destruct (Z.eqb_spec ret 0) as [->|Hne]; cbn [negb]; [|done].
  eapply runs_then with (λ _ _, False); [|done]. unfold generate. apply runs_gets. rewrite Hw2.
  eapply runs_then with (λ _ _, False); [|done].
  apply runs_zoom. eapply runs_weaken; [by apply sql_gen_without_schema|done].
Qed.

(** A turn of the table thread. *)
Lemma table_turn_makes_none e : unschemed e →
  runs (λ _, True) table_turn e (λ made e', made = false ∧ unschemed e').
Proof.
  intros He. unfold table_turn.
  eapply runs_then; [by apply config_finds_no_schema|]. intros [] e1 [U1 Hc1].
  eapply runs_then with (λ _ e', unschemed e' ∧ ctx_table_schema (w_ctx (e_world e')) = None).
  { by apply runs_modify. }
  intros [] e2 [U2 Hc2].
  eapply runs_then with (λ ret e', ret ≠ 0 ∧ unschemed e').
  { unfold on_world. apply runs_zoom.
    eapply runs_weaken; [apply (runs_kept _ still); [apply keeps_create|by apply create_without_schema]|].
    intros ret w' [Hr [= _ _ _ _ _ _ _ Ht]]. split; [done|]. unfold unschemed. cbn. by rewrite Ht. }
  intros ret e3 [Hr U3]. rewrite (proj2 (Z.eqb_neq ret 0)) by done.
  eapply runs_then_ok; [done|]. eapply runs_then with (λ _, unschemed); [exact U3|].
  by intros [] e4 U4.
Qed.
End table_thread.

(** ** Nor do the others *)

Section waiting.
Context `{Allocator} `{RandSource} `{Clock} `{MysqlClient}.
Context (g_username g_password : cstring).
Context (g_end_time g_alter_interval g_stat_interval table_tid alter_tid : Z).
Notation step := (step g_username g_password g_end_time g_alter_interval g_stat_interval
                    table_tid alter_tid).
Implicit Types (s : system) (e : engine) (sh : shared).

Record idle s : Prop := {
  id_first : has_first_table (ctl s) = false;
  id_alter : alter_thr s = WWait;
  id_engines : Forall (λ t, t = TWait) (engine_thrs s);
  id_schemas : unschemed (data s);
}.

Lemma table_step_idle sh e t r : has_first_table sh = false → unschemed e →
  table_step g_username g_password table_tid sh e t = Some r →
  match r with
  | Ok (sh', _, e') => has_first_table sh' = false ∧ unschemed e'
  | Stop _ => True
  end.
Proof.
  intros Hf He. destruct t as [| |c|c|c|c until|c|]; cbn [table_step]; try done.
  - intros [= <-]. unfold turn.
    pose proof (runs_only_kept _ schemas_in _ e (keeps_context_init g_username g_password table_tid) (runs_any _ e)) as Hr.
    unfold runs in Hr. destruct (eng_context_init _ _ _ e) as [[u|w] e1]; [|done]. cbn.
    split; [done|]. exact (no_schema_same _ _ Hr He).
  - by intros [= <-].
  - intros [= <-]. unfold turn.
    pose proof (table_turn_makes_none (as_thread c e) He) as Hr. unfold runs in Hr.
    destruct (table_turn (as_thread c e)) as [[made|w] e1]; [|done]. by destruct Hr as [-> Hr].
  - by intros [= <-].
  - destruct (until <=? sh_time sh); [|done]. by intros [= <-].
  - intros [= <-]. unfold turn.
    pose proof (runs_only_kept _ schemas_in _ (as_thread c e) keeps_context_destroy (runs_any _ (as_thread c e))) as Hr.
    unfold runs in Hr. destruct (eng_context_destroy (as_thread c e)) as [[u|w] e1]; [|done]. cbn.
    split; [done|]. exact (no_schema_same _ _ Hr He).
Qed.

Lemma stat_step_idle sh e t r : has_first_table sh = false → unschemed e →
  stat_step g_stat_interval sh e t = Some r →
  match r with
  | Ok (sh', _, e') => has_first_table sh' = false ∧ unschemed e'
  | Stop _ => True
  end.
Proof.
  intros Hf He. destruct t as [|start pc]; cbn [stat_step]; [by intros [= <-]|].
  assert (('(sh', pc') ← stat_thread g_stat_interval sh pc; Some (Ok (sh', SRun start pc', e))) = Some r →
    match r with Ok (sh', _, e') => has_first_table sh' = false ∧ unschemed e' | Stop _ => True end) as Hpace.
  { destruct pc as [| | | |until|]; cbn; try done; try by intros [= <-].
    unfold asleep. destruct (until <=? sh_time sh); [|done]. by intros [= <-]. }
  destruct pc; try exact Hpace. intros [= <-]. unfold turn, print_stats. mstep.
  by destruct (stat_log _ _).
Qed.

Lemma step_idle s s' : idle s → step s (inl s') → idle s'.
Proof.
  intros [If Ia Ie Is] Hs. remember (inl s') as x eqn:Hx.
  destruct Hs as [s d Hd|s sh pc Ht|s r Hr|s r Hr|s r Hr|s i t r Hi Hr].
  - injection Hx as <-. by split.
  - injection Hx as <-. split; try done. cbn.
    destruct (time_thr s) as [|start|start|]; cbn in Ht; [by injection Ht as <- _| |by injection Ht as <- _|done].
    destruct (_ <? _); by injection Ht as <- _.
  - pose proof (table_step_idle _ _ _ _ If Is Hr) as Hi. destruct r as [[[sh t] e]|w]; [|done].
    injection Hx as <-. by destruct Hi.
  - rewrite Ia in Hr. cbn in Hr. rewrite If in Hr. injection Hr as <-. by injection Hx as <-.
  - pose proof (stat_step_idle _ _ _ _ If Is Hr) as Hi. destruct r as [[[sh t] e]|w]; [|done].
    injection Hx as <-. by destruct Hi.
  - pose proof (Forall_lookup_1 _ _ _ _ Ie Hi) as ->. cbn in Hr. rewrite If in Hr. injection Hr as <-.
    injection Hx as <-. split; try done. cbn. by apply Forall_insert.
Qed.

Lemma idle_not_joined s : idle s → all_joined s = false.
Proof. intros [_ Ha _ _]. unfold all_joined. rewrite Ha. by destruct (table_thr s). Qed.
End waiting.

(** ** From the options to the end *)

Section whole.
Context `{Allocator} `{RandSource} `{RandSeed} `{Clock} `{MysqlClient} `{Regex}.
Context (fs : file_system) (library_ok : bool) (created : nat → bool) (table_tid alter_tid : Z).
Implicit Types (b : boot) (o : options_t).

(** A file with a section of a text configuration and no mark of an XML one. *)
Definition text_file (path : cstring) : Prop := ∃ lines, fs_open fs path = Some lines ∧
  Forall (λ l, strstr l XML_PATTERN = None) lines ∧ Exists (λ l, is_Some (strstr l TXT_PATTERN)) lines.

Lemma check_type_text {S} path (s : S) : text_file path →
  runs (λ _, True) (parser_check_type fs path) s (λ type s', s' = s ∧ type = TXT).
Proof.
  intros (lines & Ho & Hx & Ht). unfold parser_check_type. destruct (_ || _); [done|].
  eapply runs_then with (λ _ s', s' = s); [unfold runs, cq_malloc; by destruct (malloc_ok _)|].
  intros [] s1 ->. rewrite Ho. apply runs_ret. split; [done|].
  assert (∀ t ls, Forall (λ l, strstr l XML_PATTERN = None) ls →
    t = TXT ∨ Exists (λ l, is_Some (strstr l TXT_PATTERN)) ls →
    foldl (λ ret buff, if strstr buff XML_PATTERN then XML
      else if strstr buff TXT_PATTERN then TXT else ret) t ls = TXT) as Hgo; [|by apply Hgo; [|right]].
  intros t ls Hls. revert t. induction Hls as [|l ls Hl Hls IH]; intros t Hor.
  - destruct Hor as [->|Hex]; [done|by apply Exists_nil in Hex].
  - cbn [foldl]. apply IH. rewrite Hl. destruct (strstr l TXT_PATTERN) as [m|] eqn:Hm; [by left|].
    destruct Hor as [->|[[? Hs]|Hex]%Exists_cons]; [by left|congruence|by right].
Qed.

Lemma read_text_runs user password path b : text_file path →
  runs (λ _, True) (parser_read_file user password fs path) b (λ _ b',
    schemas_of b' = schemas_of b).
Proof.
  intros Hp. unfold parser_read_file. case_bool_decide; [done|].
  eapply runs_then; [by apply check_type_text|]. intros type b1 [-> ->].
  eapply runs_then; [apply (runs_only_kept _ schemas_of); [apply keeps_read_txt|apply runs_any]|].
  intros ret b2 Hb2. case_bool_decide; [done|]. by apply runs_ret.
Qed.

Lemma init_env_no_schema o path b : o_config o = Some path → text_file path →
  runs (λ _, True) (init_env fs library_ok o) b (λ _ b', no_schema (b_tables b')).
Proof.
  intros Hpath Hfile. unfold init_env.
  do 4 (eapply runs_then; [apply runs_any|intros ? ? _]).
  destruct (negb library_ok); [done|].
  do 3 (eapply runs_then; [apply runs_any|intros ? ? _]).
  eapply runs_then with (λ _ b', no_schema (b_tables b')).
  { unfold on_boot_tables. apply runs_zoom. unfold schema_set_init.
    eapply runs_then; [apply runs_any|intros [] t _].
    eapply runs_then with (λ v _, isempty v = true).
    - apply runs_pure_state. unfold vector_alloc.
      do 2 (eapply runs_then; [apply runs_any|intros ? ? _]). by apply runs_ret.
    - intros v t1 Hv. apply runs_modify. by exists v. }
  intros [] b1 N1.
  eapply runs_then with (λ _ b', no_schema (b_tables b')).
  { eapply runs_weaken; [apply (runs_only_kept _ schemas_of); [|apply runs_any]|].
    - apply keeps_tables_of. unfold table_set_init, cq_malloc, set_table_set. keeps.
      by apply keeps_zoom_away.
    - intros [] b2 Hb2. exact (no_schema_same _ _ Hb2 N1). }
  intros [] b2 N2. rewrite Hpath.
  eapply runs_then; [by apply read_text_runs|]. intros [] b3 Hb3. apply runs_ret.
  exact (no_schema_same _ _ Hb3 N2).
Qed.

(** C13 (text configurations). With a text configuration the program never comes to work, whatever
    is in the file and however its threads interleave: the set of schemas is empty, so that the
    table thread never makes a table, the engine threads and the alter thread wait for the first one
    for ever, and no run of [main] ends with a report. *)
Theorem text_configuration_never_works answers o path b :
  options_parse answers = Ok o → o_config o = Some path → text_file path →
  (∀ names b1 s, at_work fs library_ok created table_tid alter_tid answers b o names b1 s →
    no_schema (w_tables (e_world (data s))) ∧ has_first_table (ctl s) = false ∧ alter_thr s = WWait ∧
    Forall (λ t, t = TWait) (engine_thrs s) ∧
    ∀ c, match (table_turn (as_thread c (data s))).1 with Ok made => made = false | Stop _ => True end) ∧
  (∀ r, main fs library_ok created table_tid alter_tid answers b r → ∃ w, r = Stop w).
Proof.
  intros Ho Hpath Hfile.
  assert (∀ names b1 s, at_work fs library_ok created table_tid alter_tid answers b o names b1 s → idle s) as Hidle.
  { intros names b1 s (_ & Hi & _ & Hr).
    pose proof (init_env_no_schema o path b Hpath Hfile) as Hn. unfold runs in Hn. rewrite Hi in Hn.
    eapply (rtc_invariant (threads_go_on table_tid alter_tid o names) idle); [|exact Hr|].
    - intros s1 s2 H12 I1. by eapply step_idle.
    - split; [done..| |done]. by apply Forall_replicate. }
  split.
  - intros names b1 s W. pose proof (Hidle _ _ _ W) as [If Ia Ie Is]. split_and!; [done..|].
    intros c. pose proof (table_turn_makes_none (as_thread c (data s)) Is) as Hr. unfold runs in Hr.
    destruct (table_turn (as_thread c (data s))) as [[made|w] e]; [|done]. by destruct Hr.
  - intros r Hm. destruct Hm as [w|o' w b1|o' names b1 w|o' names b1 s w|o' names b1 s w W Hj Hsum|o' names b1 s r x b2 W Hj Hsum Hcl];
      try by eexists.
    pose proof W as (Ho' & _). rewrite Ho in Ho'. injection Ho' as <-.
    rewrite (idle_not_joined _ (Hidle _ _ _ W)) in Hj. done.
Qed.
End whole.

(** ** Witness *)

Local Existing Instance roomy_allocator.
Local Existing Instance counting_rand.
Local Existing Instance same_seed.
Local Existing Instance ticking.
Local Existing Instance mock_client.

(** Where a word is in a line. *)
Definition found_at (s word : cstring) : option Z :=
  (λ rest, Z.of_nat (length s - length rest)) <$> strstr s word.

(** What the expressions find in the lines below: the word of a table or of a column is
    its first group, and a setting has a name and, behind [ = ], a value. *)
#[local] Instance sample_regex : Regex := {|
  regcomp _ := true;
  regexec p s :=
    let whole i word k m := if (k =? 0)%nat then (i, i + Z.of_nat (length word)) else m in
    let find word groups := i ← found_at s word; Some (λ k, whole i word k (groups i)) in
    if bool_decide (p = end_of_table) then find p (λ i, (0, 0))
    else if bool_decide (p = pattern_table_name) then
      find (text "create table test") (λ i, (i + 13, i + 17))
    else if bool_decide (p = pattern_key) then find (text "a bigint primary key,") (λ i, (i, i + 1))
    else if bool_decide (p = pattern_val) then
      match find (text " primary key,") (λ i, (i + 1, i + 8)) with
      | Some m => Some m
      | None => find ([10] ++ text "    b bigint" ++ [10] ++ text ")") (λ i, (i + 5, i + 6))
      end
    else if bool_decide (p = pattern_bigint) then find (text " bigint") (λ i, (i - 1, i))
    else if bool_decide (p = pattern_varchar) then None
    else i ← found_at s (text " = ");
         Some (λ k, match k with 0%nat => (0, Z.of_nat (length s)) | 1%nat => (0, i)
                    | _ => (i + 3, Z.of_nat (length s)) end);
|}.

(** A configuration like the example that comes with the program, its value column a [bigint]. *)
Definition text_lines : list cstring := map (λ l, text l ++ [10])
  ["[server]"; "write_servers = 10.1.150.1:3306"; "read_servers = 10.1.127.1:3306"; "";
   "[table]"; "create table test"; "("; "    a bigint primary key,"; "    b bigint"; ");"; "";
   "[cmd_rate]"; "insert = 0.3"; "delete = 0.1"; "update = 0.5"; "select = 0.1"; "";
   "[cmd_window]"; "cmd_rows = 1"; "cmd_cols = 20"]%string.
Definition text_config : file_system := {|
  fs_exists p := true;
  fs_open p := Some text_lines;
  fs_xml p := None;
|}.

Lemma text_lines_are_text : text_file text_config (text "checkq.xml").
Proof.
  exists text_lines. split; [done|]. split.
  - apply (bool_decide_unpack _). vm_compute. exact I.
  - apply Exists_cons_hd. by eexists.
Qed.

(** The table thread looks at the schema that it has not been given. *)
Lemma text_config_faults :
  main_exec text_config true (λ _, true) 0 0 (replicate 3 TableThread) one_second unborn =
    Some (Stop (Undefined NullDeref)).
Proof. vm_compute. reflexivity. Qed.

Example text_configuration_never_works_witness :
  main text_config true (λ _, true) 0 0 one_second unborn (Stop (Undefined NullDeref)) ∧
  ∀ r, main text_config true (λ _, true) 0 0 one_second unborn r → ∃ w, r = Stop w.
Proof.
  split; [exact (main_exec_sound _ _ _ _ _ _ _ _ _ text_config_faults)|].
  assert (options_parse one_second = Ok one_second_options) as Ho by (vm_compute; reflexivity).
  destruct (text_configuration_never_works text_config true (λ _, true) 0 0 one_second
    one_second_options (text "checkq.xml") unborn Ho eq_refl text_lines_are_text) as [_ Hm].
  exact Hm.
Defined.
