(* ===== verification/Tests.v ===== *)
(** * Tests: the unit tests of the containers (src/src/mylib/t/hash_test.c, src/src/mylib/t/vector_test.c)

    The programs with which the containers are tested, on the models: they pass
    there as they do in C, when [realloc] leaves a block that shrinks in its place.  When it
    moves it the test of the vector goes wrong, as the vector does. *)

From stdpp Require Import base gmap list.
From Stdlib Require Import ZArith Lia.
From S2P Require Import Prelude Mylib Mix HashFunc Hash Vector ParserXml.
Local Open Scope Z_scope.

Definition count_to (n : Z) : list Z := Z.of_nat <$> seq 0 (Z.to_nat n).

(** ** hash_test.c *)

(** An entry is in a block of its own, its key at the beginning; an [int] is four bytes,
    the least significant first. *)
Record entry_t := HashTestEntry { e_addr : Z; e_key : Z; e_value : Z }.
Definition int_bytes (z : Z) : list Z := (λ k, Z.shiftr z (8 * k) mod 256) <$> [0; 1; 2; 3].

#[local] Instance test_entry : HashEntry entry_t := {|
  hash_entry_key_func e := KeyPtr (e_addr e) (int_bytes (e_key e));
  hash_key_size_func _ := 4;
|}.

Section tests.
Context `{Allocator}.
(** Where [malloc] puts the entry [i], and where [i] itself is. *)
Context (block_at : Z → Z) (i_at : Z).

Definition hash_test_add (i : Z) : M (hash_t entry_t) ret_t :=
  entry ← cq_malloc 8 (HashTestEntry (block_at i) i i);
  hash_add entry.

Definition hash_test_get (i : Z) : M (hash_t entry_t) ret_t :=
  entry ← hash_get (KeyPtr i_at (int_bytes i));
  mret (match entry with
        | None => RET_FAILED
        | Some e => if (e_key e =? i) && (e_value e =? i) then RET_SUCCEED else RET_FAILED
        end).

(** With [n] entries; the test has 1000. *)
Definition hash_test (n : Z) : M () ret_t :=
  hash ← hash_alloc;
  mlift ((r ← each hash_test_add (count_to n);
          if bool_decide (r = RET_FAILED) then mret RET_FAILED else
          r ← each hash_test_get (count_to n);
          if bool_decide (r = RET_FAILED) then mret RET_FAILED else
          hash_destroy;; mret RET_SUCCEED) hash).1.

(** ** vector_test.c *)

(** [test(func, expect, got)]: the entry is there and is the one expected. *)
Definition test (expect : Z) (got : option Z) : M (vector Z) ret_t :=
  match got with
  | None => mstop (Undefined NullDeref)
  | Some num => mret (if expect =? num then RET_SUCCEED else RET_FAILED)
  end.

Definition test_unshift (i : Z) : M (vector Z) ret_t :=
  data ← cq_malloc 4 i;
  vector_unshift data;;
  each (λ j, unshift ← vector_get j; test (i - j) unshift) (count_to (i + 1)).

Definition test_both_ends (i : Z) : M (vector Z) ret_t :=
  data ← cq_malloc 4 i;
  (if Z.odd i then vector_unshift data else vector_push_back data);;
  mret RET_SUCCEED.

(** The tests one after the other, as long as they succeed. *)
Definition vector_tests (n : Z) : list (M (vector Z) ret_t) :=
  [each test_unshift (count_to n);
   each (λ i, data ← vector_pop; test i data) (count_to n);
   (vector_empty;; mret RET_SUCCEED);
   each test_both_ends (count_to n);
   each (λ i, data ← vector_shift; test (n - 2 * i - 1) data) (count_to (n / 2));
   each (λ i, data ← vector_shift; test (2 * i) data) (count_to (n / 2));
   (vector_empty;; mret RET_SUCCEED);
   each (λ i, data ← cq_malloc 4 i; vector_push_back data;; mret RET_SUCCEED) (count_to n);
   (size ← vector_size; each (λ i, data ← vector_get i; test i data) (count_to size));
   (vector_destroy;; mret RET_SUCCEED)].

Definition vector_test (n : Z) : M () ret_t :=
  vector ← vector_alloc;
  mlift (each (λ t, t) (vector_tests n) vector).1.
End tests.

(** ** What they answer *)

Example hash_test_passes :
  hash_test (H := roomy_allocator) (λ i, 4096 + 16 * i) 64 100 () = (Ok RET_SUCCEED, ()).
Proof. vm_compute. reflexivity. Qed.

Example vector_test_passes : vector_test (H := roomy_allocator) 24 () = (Ok RET_SUCCEED, ()).
Proof. vm_compute. reflexivity. Qed.

Example vector_test_moved :
  vector_test (H := moving_allocator) 24 () = (Stop (Undefined UseAfterFree), ()).
Proof. vm_compute. reflexivity. Qed.
